(* ===== verification/_CoqProject ===== *)
-Q . S2P
Prelude.v
Constants.v
Framing.v
Coalescing.v
EventStore.v
Journal.v
Rollback.v
Validation.v
Codec.v
Emitter.v
PrimIndex.v
Applying.v
LayerStack.v
Scene.v
SceneLayers.v
Collaboration.v
Commit.v
Barrier.v
Coordinator.v
Compaction.v
Maintenance.v
Snapshots.v
Producer.v
Protocol.v
Inbox.v
Receiver.v
Playback.v
TornFrame.v
Delivery.v
History.v
Replica.v
LayerGraph.v
LogicalLayers.v
Tokens.v
RateLimit.v
Admission.v
