(* ===== verification/Prelude.v ===== *)
(** * OpenUSDConnect: a verification library

    OpenUSDConnect keeps USD stages of several programs in step.  A producer
    turns edits of its stage into events and sends them in transactions to a
    server; the server validates a transaction, applies it to its own stage,
    appends it to a durable log and broadcasts it; receivers replay the log and
    follow it.  This library models the Python package [src/openusdconnect] and
    the C++ client core it runs on ([src/native/client_core]), and proves what
    they promise.  Definitions keep the names of the source where Rocq allows;
    a leading underscore is dropped.

    ** The parts

    What travels:
    - [Constants] ([protocol_constants.py]): the 23 event kinds and the table
      that classifies them.
    - [Validation] ([protocol_validation.py], [connectable_attrs.py], and the
      validators of [sdf_spec_delta.py], [shared_layer_graph.py],
      [sdf_arc_state.py]): which events and transactions are accepted.
    - [Codec] ([codec.py], [schema/events.fbs]): events as tables of the wire
      schema, both ways, and the template encoder of transform broadcasts.
    - [Framing] ([framing.py]): length-prefixed frames over byte streams.

    The producer:
    - [Emitter] ([emitter.py]): what has changed since the last emission, and
      the batch prepared for sending.
    - [Coalescing] ([coalescing.py]): merging transforms of a pending batch.
    - [Producer] ([sender.py], [recovery.py], [producer_session.h],
      [ordered_outbox_storage.h]): the outbox and its session.
    - [Protocol]: [Producer], lossy connections, the producer's side of
      [server/connection.py] and the durable progress of [Commit], together.

    The server:
    - [EventStore] ([event_store.py]): the interface of the durable log and its
      SQLite implementation.
    - [Journal] ([server/journal.py]): sequence numbers and durable appends.
    - [Rollback], [Applying] ([event_apply.py]): undoing a failed application;
      the order in which events reach the stage.
    - [PrimIndex], [Scene], [SceneLayers], [LayerStack] ([server/scene.py],
      [server/layer_stack.py]): the authoritative stage, its edit scopes, its
      layers and the trackers of its prims.
    - [Collaboration] ([server/collaboration.py]): who edits which layer, and
      which receivers may be flat.
    - [Commit] ([server/commit.py]): transactions, one by one and in groups.
    - [Barrier], [Coordinator] ([server/_txn_barrier.py],
      [server/transactions.py]): admission, batches and exclusive maintenance.
    - [Compaction], [Maintenance], [Snapshots] ([server/compaction.py],
      [server/maintenance.py], [server/snapshots.py]): rewriting and replacing
      the history.
    - [Tokens], [RateLimit], [Admission] ([token_store.py],
      [server/rate_limit.py], [server/connection.py]): who is let in, how fast,
      and what a connection leaves behind.
    - [Playback] ([server/playback.py]): leadership and the playhead.
    - [LayerGraph] ([shared_layer_graph.py]): the layers of a shared stage, on
      the server and on replicas.

    The receiver:
    - [Inbox] ([receiver_session.h]), [Receiver] ([receiver.py],
      [dispatcher.py]): the ordered inbox, reading, replay identity, consuming.
    - [LogicalLayers] ([logical_layers.py], [layer_key_router.py]): rebuilding
      the server's layer stack from its state messages.
    - [Delivery], [TornFrame] ([server/state.py]): admission of receivers and
      live delivery; what a send that fails half-way does.
    - [History]: the history that [Delivery] serves is an [EventStore].
    - [Replica]: [Delivery], lossy connections and [Receiver], together.

    Components meet in type classes: [EventStore] between the journal and a
    store, [ReplayPolicy] between admission and the collaboration policy,
    [TransformState] between coalescing and a stage; and in [Wire], [Hashing],
    [Sdf], [SdfLayer], [SdfTraversal], [UsdApply] for code outside [src]:
    NumPy and JSON, Python's hash, and the USD library.  Each is instantiated
    by concrete functions where a witness evaluates a theorem.

    ** How code becomes definitions

    An event is a finite map from strings to [pyval], a Python value; a float is
    an exact rational, an infinity or not-a-number.  A call that may raise
    returns [result]; one that also changes state is [M], which keeps what was
    done before the exception.  Whatever holds a lock for its whole body is one
    step; what threads interleave is a step relation over such steps
    ([Barrier], [Coordinator], [Protocol], [Replica], [Tokens]).  Machine
    integers keep their width: [u64] and [int32] in [Inbox], [Producer] and
    [Codec].

    Loops without structural recursion take fuel: bytes still missing
    ([Framing]), characters of a path ([Applying], [Rollback]), specs of a
    forest ([SceneLayers.merge_layer_total]), records left ([LogicalLayers]),
    numbers of a vector ([Codec]), entries not yet visited ([LayerGraph]; that
    this is enough for reachability is [bfs_total]; its walks over layers on
    disk report exhausted fuel as an exception, so that a theorem about their
    success does not depend on it).

    ** What is proved

    - From end to end: every transaction a producer submits is committed
      exactly once and in order, whatever connections are cut
      ([Protocol.producer_exactly_once], [producer_never_refused],
      [producer_delivers]); a replica always holds a prefix of the history of
      the server and converges to it ([Replica.replica_prefix],
      [replica_converges]); the pieces are connected by refinements
      ([commit_implements_serve], [History.store_serves_history]).
    - Commits: a group decides as its transactions one by one
      ([Commit.commit_group_serial]); a failure leaves no trace of a batch whose
      appliers write where they declare ([failed_batch_leaves_no_trace],
      [Journal.journal_commit_all_or_nothing]);
      requests are served in order, all of them, and maintenance waits for them
      ([Coordinator], [Barrier]).
    - History: compaction keeps every opinion of the kinds it merges and can run
      beside durable commits ([Compaction], [Maintenance]); within one run of a
      durable server a save is accepted only if it is current ([Snapshots]).
    - The wire: tables and events are inverse to each other, an accepted event
      with rectangular lists is stable, frames survive any fragmentation, the template encoder writes
      what the general one writes; coalescing keeps a transaction valid and its
      effect.
    - Layers: well-formedness of the collaboration policy and stacks under any
      operations, their restoration at a restart, and receivers and replicas
      that follow them.
    - The emitter: what it sends brings a receiver up to date where it noticed the
      changes and fingerprints tell the values apart, and no prepared event is lost
      or sent twice.
    - Access: only the holder of a token gets in, nothing of a connection stays,
      and the rate is bounded.
    - Flaws, each a theorem: rows lost by a compaction, revisions lost by layers
      that leave the graph within an edit, floats that overflow on the wire, edits hidden by a colliding hash
      or a stale cache; further ones are lemmas of [Tokens], [TornFrame],
      [SceneLayers], [Compaction], [Validation] and [Codec].

    ** What is not modelled, and why

    - USD itself, and code whose every decision reads USD: what appliers write,
      classification of notices, exact Sdf transport, composed projection,
      adapters, the layer trackers.  Parameters stand for it where modelled code
      depends on it.
    - The byte layout of FlatBuffers and the byte-level decoder; control
      messages are their fields; NumPy arrays and tuples as event values.
    - Float rounding other than to [float32]; thread scheduling other than by
      interleaving; timers, which only choose when a step happens; callbacks,
      which are recorded as notices or left out.
    - [abandon_rejected_session] is in [Producer] but not an action of
      [Protocol]; a [KeyboardInterrupt] in the consumer and half-written frames
      are outside [Replica] ([TornFrame] shows what the latter do).
    - In [LayerGraph], validation of a local graph and binding to a stage; in
      [Maintenance], the shared graph and reclaiming disk space; shared-stage
      commits; comparing tokens in constant time.
    - The virtual file system, client facades, host integrations, tools,
      generated code: input and output, or programs of other hosts. *)

From stdpp Require Export prelude gmap strings sorting.
From Stdlib Require Import QArith.Qcanon.

#[global] Set Default Goal Selector "!".

(** ** Python exceptions

    [exn] lists the exception classes the modelled code raises or catches.
    A constructor stands for the class; the data it carries is what a handler
    reads back.  [OtherException] is any further subclass of [Exception], and
    [KeyboardInterrupt] stands for the [BaseException]s that
    [except Exception] does not catch. *)
Inductive exn : Type :=
  | ValueError
  | TypeError
  | KeyError (k : string)
  | RuntimeError
  | OSError
  | TimeoutError
  | IntegrityError
  | IncompleteRead
  | MessageTooLarge
  | StaleLayerGraphError
  | ReplayModeConflictError
  | TransactionRejectedError (code : string) (expected_txn_id : Z)
  | OtherException (name : string)
  | KeyboardInterrupt.

#[global] Instance exn_eq_dec : EqDecision exn.
Proof. solve_decision. Defined.

(** [except Exception] *)
Definition is_exception (e : exn) : bool :=
  match e with KeyboardInterrupt => false | _ => true end.

(** ** Results: a value or the exception that was raised *)
Inductive result (A : Type) : Type :=
  | Ok (a : A)
  | Err (e : exn).
Arguments Ok {A} a.
Arguments Err {A} e.

#[global] Instance result_eq_dec `{EqDecision A} : EqDecision (result A).
Proof. solve_decision. Defined.

#[global] Instance result_ret : MRet result := fun A a => Ok a.
#[global] Instance result_bind : MBind result := fun A B f r =>
  match r with Ok a => f a | Err e => Err e end.
#[global] Instance result_fmap : FMap result := fun A B f r =>
  match r with Ok a => Ok (f a) | Err e => Err e end.

(** [raise_if b e] is [if b: raise e]. *)
Definition raise_if (b : bool) (e : exn) : result unit := if b then Err e else Ok ().

Definition is_ok {A} (r : result A) : bool := match r with Ok _ => true | Err _ => false end.

(** Left-to-right map that stops at the first exception (a list built by a
    loop whose body can raise). *)
Fixpoint mapR {A B} (f : A -> result B) (l : list A) : result (list B) :=
  match l with
  | [] => Ok []
  | x :: l => y ← f x; ys ← mapR f l; Ok (y :: ys)
  end.

(** A loop that threads a state and stops at the first exception. *)
Fixpoint foldR {S A} (f : S -> A -> result S) (s : S) (l : list A) : result S :=
  match l with
  | [] => Ok s
  | x :: l => s' ← f s x; foldR f s' l
  end.

(** ** Python values

    A dictionary nested in a value is kept as its items in insertion order;
    an event, whose item order nothing reads, is a [gmap]. A finite float is
    the rational it denotes. *)
Inductive pyfloat : Type :=
  | Fin (q : Qc)
  | Inf (negative : bool)
  | NaN.

#[global] Instance Qc_eq_dec' : EqDecision Qc := Qc_eq_dec.
#[global] Instance pyfloat_eq_dec : EqDecision pyfloat.
Proof. solve_decision. Defined.

Inductive pyval : Type :=
  | PNone
  | PBool (b : bool)
  | PInt (z : Z)
  | PFloat (f : pyfloat)
  | PStr (s : string)
  | PList (l : list pyval)
  | PDict (d : list (string * pyval)).

(** An event dictionary. *)
Abbreviation event := (gmap string pyval).

(** [bool(v)] *)
Definition truthy (v : pyval) : bool :=
  match v with
  | PNone => false
  | PBool b => b
  | PInt z => negb (z =? 0)%Z
  | PFloat (Fin q) => bool_decide (q ≠ Q2Qc 0)
  | PFloat _ => true
  | PStr s => negb (bool_decide (s = ""))
  | PList l => match l with [] => false | _ => true end
  | PDict d => match d with [] => false | _ => true end
  end.

(** [event.get(k)] *)
Definition py_get (ev : event) (k : string) : pyval := default PNone (ev !! k).

(** [event[k]] *)
Definition py_item (ev : event) (k : string) : result pyval :=
  match ev !! k with Some v => Ok v | None => Err (KeyError k) end.

(** [event["k"]] of a validated event: the empty string stands for a missing
    or ill-typed kind, which no event kind equals. *)
Definition kind_of (ev : event) : string :=
  match ev !! "k" with Some (PStr s) => s | _ => "" end.

(** The string value of a key, or [""]: [event.get(k, "")] of a validated event. *)
Definition str_of (ev : event) (k : string) : string :=
  match ev !! k with Some (PStr s) => s | _ => "" end.

Fixpoint pyval_eq_dec' (x y : pyval) : {x = y} + {x ≠ y}.
Proof.
  refine
    (match x, y with
     | PNone, PNone => left eq_refl
     | PBool a, PBool b => cast_if (decide (a = b))
     | PInt a, PInt b => cast_if (decide (a = b))
     | PFloat a, PFloat b => cast_if (decide (a = b))
     | PStr a, PStr b => cast_if (decide (a = b))
     | PList a, PList b => cast_if (@list_eq_dec _ pyval_eq_dec' a b)
     | PDict a, PDict b => cast_if (@list_eq_dec _ (@prod_eq_dec _ _ _ pyval_eq_dec') a b)
     | _, _ => right _
     end); clear pyval_eq_dec'; congruence.
Defined.
#[global] Instance pyval_eq_dec : EqDecision pyval := pyval_eq_dec'.

(** ** Lemmas and automation shared by the components *)

Create HintDb ouc discriminated.

(** Case analysis on every match left in the context, with the resulting
    equations solved or substituted. *)
Ltac cases := repeat (case_match; simplify_eq/=).

Lemma bind_Ok {A B} (r : result A) (f : A -> result B) b :
  (x ← r; f x) = Ok b <-> exists a, r = Ok a /\ f a = Ok b.
Proof. destruct r; naive_solver. Qed.

Lemma bind_Err {A B} (r : result A) (f : A -> result B) e :
  (x ← r; f x) = Err e <-> r = Err e \/ exists a, r = Ok a /\ f a = Err e.
Proof. destruct r; naive_solver. Qed.

Lemma raise_if_Ok b e u : raise_if b e = Ok u <-> b = false.
Proof. destruct b, u; naive_solver. Qed.

(** Turns [H : (x ← r; k) = Ok _] into equations for each step. *)
Ltac inv_bind H :=
  let x := fresh "x" in let H1 := fresh H in
  apply bind_Ok in H as (x & H1 & H).

Lemma mapR_Ok {A B} (f : A -> result B) l k :
  mapR f l = Ok k <-> Forall2 (fun x y => f x = Ok y) l k.
Proof.
  revert k; induction l as [|x l IH]; intros k; simpl.
  - split; [intros [= <-]; constructor|by intros ->%Forall2_nil_inv_l].
  - split.
    + intros H. inv_bind H. inv_bind H. injection H as <-.
      constructor; [done|]. by apply IH.
    + intros (y & k' & Hy & Hk & ->)%Forall2_cons_inv_l. rewrite Hy; simpl.
      apply IH in Hk. by rewrite Hk.
Qed.

Lemma mapR_length {A B} (f : A -> result B) l k :
  mapR f l = Ok k -> length k = length l.
Proof. intros H%mapR_Ok. symmetry. by eapply Forall2_length. Qed.

Lemma foldR_app {S A} (f : S -> A -> result S) s l k :
  foldR f s (l ++ k) = (s' ← foldR f s l; foldR f s' k).
Proof.
  revert s; induction l as [|x l IH]; intros s; simpl; [done|].
  destruct (f s x); simpl; auto.
Qed.

(** An invariant kept by every step that succeeds holds at the end. *)
Lemma foldR_invariant {S A} (f : S -> A -> result S) (P : S -> Prop) s l s' :
  P s -> (forall s x s', P s -> x ∈ l -> f s x = Ok s' -> P s') ->
  foldR f s l = Ok s' -> P s'.
Proof.
  revert s; induction l as [|x l IH]; intros s Hs Hstep H; simpl in H.
  - by injection H as <-.
  - inv_bind H. eapply IH; [| |done].
    + eapply Hstep; [done| |done]. set_solver.
    + intros ???? Hin. eapply Hstep; [done|set_solver].
Qed.

(** Filters that agree on the elements of the list. *)
Lemma list_filter_iff' {A} (P Q : A -> Prop) `{!∀ x, Decision (P x), !∀ x, Decision (Q x)} (l : list A) :
  (forall x, x ∈ l -> P x <-> Q x) -> filter P l = filter Q l.
Proof.
  induction l as [|x l IH]; intros Hl; [done|]. rewrite !filter_cons, IH by set_solver.
  assert (P x <-> Q x) by (apply Hl; set_solver).
  destruct (decide (P x)), (decide (Q x)); tauto.
Qed.

Lemma list_filter_none {A} (P : A -> Prop) `{!∀ x, Decision (P x)} (l : list A) :
  (forall x, x ∈ l -> ¬ P x) -> filter P l = [].
Proof.
  induction l as [|x l IH]; intros Hl; [done|].
  rewrite filter_cons_False by (apply Hl; set_solver). apply IH. set_solver.
Qed.

(** A list is split by a boolean test. *)
Lemma filter_split {A} (p : A -> bool) (l : list A) :
  filter (fun x => p x = true) l ++ filter (fun x => p x = false) l ≡ₚ l.
Proof.
  induction l as [|x l IH]; [done|]. rewrite !filter_cons.
  destruct (p x); simpl.
  - by rewrite IH.
  - by rewrite <-Permutation_middle, IH.
Qed.

Lemma size_list_to_set_le (l : list string) : (size (list_to_set l : gset string) ≤ length l)%nat.
Proof.
  induction l as [|x l IH]; [done|]. simpl. rewrite size_union_alt, size_singleton.
  assert (size (list_to_set l ∖ {[x]} : gset string) ≤ size (list_to_set l : gset string))%nat; [|lia].
  apply subseteq_size. set_solver.
Qed.

(** [len(l) == len(set(l))] *)
Lemma NoDup_size_list_to_set (l : list string) :
  length l = size (list_to_set l : gset string) -> NoDup l.
Proof.
  induction l as [|x l IH]; [constructor|]. simpl. intros Hl. pose proof (size_list_to_set_le l).
  destruct (decide (x ∈ l)) as [Hx|Hx].
  - assert ({[x]} ∪ list_to_set l = (list_to_set l : gset string)) as E by set_solver.
    rewrite E in Hl. lia.
  - constructor; [done|]. apply IH. rewrite size_union in Hl by set_solver.
    rewrite size_singleton in Hl. lia.
Qed.

(** ** A state and exception monad

    A statement that raises keeps the mutations made before it; only an
    explicit handler restores anything. *)
Definition M (S A : Type) : Type := S -> S * result A.

#[global] Instance M_ret S : MRet (M S) := fun A a s => (s, Ok a).
#[global] Instance M_bind S : MBind (M S) := fun A B f m s =>
  match m s with
  | (s', Ok a) => f a s'
  | (s', Err e) => (s', Err e)
  end.
#[global] Instance M_fmap S : FMap (M S) := fun A B f m s =>
  match m s with
  | (s', Ok a) => (s', Ok (f a))
  | (s', Err e) => (s', Err e)
  end.

Definition raise {S A} (e : exn) : M S A := fun s => (s, Err e).
Definition gets {S A} (f : S -> A) : M S A := fun s => (s, Ok (f s)).
Definition modify {S} (f : S -> S) : M S unit := fun s => (f s, Ok ()).
Definition lift {S A} (r : result A) : M S A := fun s => (s, r).

(** [try: m; except e: handler(e)] *)
Definition try_catch {S A} (m : M S A) (handler : exn -> M S A) : M S A := fun s =>
  match m s with
  | (s', Err e) => handler e s'
  | r => r
  end.

(** [for x in l: f(x)], collecting the results. *)
Fixpoint mapM' {S A B} (f : A -> M S B) (l : list A) : M S (list B) :=
  match l with
  | [] => mret []
  | x :: l => y ← f x; ys ← mapM' f l; mret (y :: ys)
  end.

(** [for x in l: f(x)] *)
Fixpoint iterM {S A} (f : A -> M S unit) (l : list A) : M S unit :=
  match l with
  | [] => mret ()
  | x :: l => _ ← f x; iterM f l
  end.

(** Run [m] on a component of a larger state. *)
Definition zoom {S T A} (view : S -> T) (set : T -> S -> S) (m : M T A) : M S A := fun s =>
  let '(t, r) := m (view s) in (set t s, r).

Lemma M_bind_Ok {S A B} (m : M S A) (f : A -> M S B) s s' b :
  (x ← m; f x) s = (s', Ok b) <-> exists s1 a, m s = (s1, Ok a) /\ f a s1 = (s', Ok b).
Proof.
  unfold mbind, M_bind. destruct (m s) as [s1 [a|e]]; naive_solver.
Qed.

Lemma M_bind_Err {S A B} (m : M S A) (f : A -> M S B) s s' e :
  (x ← m; f x) s = (s', Err e) <->
  m s = (s', Err e) \/ exists s1 a, m s = (s1, Ok a) /\ f a s1 = (s', Err e).
Proof.
  unfold mbind, M_bind. destruct (m s) as [s1 [a|e1]]; naive_solver.
Qed.

(** [H : (x ← m; k) s = (s', Ok b)] becomes one equation per step. *)
Ltac inv_M H :=
  let s := fresh "s" in let x := fresh "x" in let H1 := fresh H in
  apply M_bind_Ok in H as (s & x & H1 & H).

Lemma iterM_cons {S A} (f : A -> M S unit) x l s s' :
  iterM f (x :: l) s = (s', Ok ()) <-> exists s1, f x s = (s1, Ok ()) /\ iterM f l s1 = (s', Ok ()).
Proof.
  simpl. rewrite M_bind_Ok. split; [intros (s1 & [] & ?); eauto|].
  intros (s1 & ? & ?). by exists s1, ().
Qed.

Lemma iterM_app {S A} (f : A -> M S unit) l k s :
  iterM f (l ++ k) s = (_ ← iterM f l; iterM f k) s.
Proof.
  revert s; induction l as [|x l IH]; intros s; [done|].
  simpl. unfold mbind, M_bind in *. destruct (f x s) as [s' [[]|e]]; [|done]. apply IH.
Qed.

Lemma iterM_ext {S A} (f g : A -> M S unit) l s :
  (forall x s, x ∈ l -> f x s = g x s) -> iterM f l s = iterM g l s.
Proof.
  revert s; induction l as [|x l IH]; intros s Hfg; [done|]. simpl. unfold mbind, M_bind.
  rewrite Hfg by set_solver. destruct (g x s) as [s' [[]|e]]; [|done]. apply IH. set_solver.
Qed.

(** Last binding wins: [dict.update] from a list of pairs. *)
Definition dict_update `{Countable K} {V} (m : gmap K V) (l : list (K * V)) : gmap K V :=
  foldl (fun m p => <[p.1 := p.2]> m) m l.

(** The values of a map in ascending key order ([ORDER BY seq]). *)
Definition key_le {V} (a b : Z * V) : Prop := (a.1 ≤ b.1)%Z.
Definition key_lt {V} (a b : Z * V) : Prop := (a.1 < b.1)%Z.

#[global] Instance key_le_dec {V} : RelDecision (@key_le V).
Proof. intros a b. apply Z.le_dec. Defined.
#[global] Instance key_le_trans {V} : Transitive (@key_le V).
Proof. intros ???; unfold key_le; lia. Qed.
#[global] Instance key_le_total {V} : Total (@key_le V).
Proof. intros ??; unfold key_le; lia. Qed.
#[global] Instance key_lt_trans {V} : Transitive (@key_lt V).
Proof. intros ???; unfold key_lt; lia. Qed.

Definition by_key {V} (m : gmap Z V) : list (Z * V) := merge_sort key_le (map_to_list m).

Lemma by_key_perm {V} (m : gmap Z V) : by_key m ≡ₚ map_to_list m.
Proof. apply merge_sort_Permutation. Qed.

Lemma elem_of_by_key {V} (m : gmap Z V) k v : (k, v) ∈ by_key m <-> m !! k = Some v.
Proof. rewrite by_key_perm. apply elem_of_map_to_list. Qed.

Lemma by_key_sorted {V} (m : gmap Z V) : StronglySorted key_le (by_key m).
Proof. apply StronglySorted_merge_sort; apply _. Qed.

Lemma by_key_NoDup_keys {V} (m : gmap Z V) : NoDup (by_key m).*1.
Proof. rewrite by_key_perm. apply NoDup_fst_map_to_list. Qed.

Lemma by_key_strictly_sorted {V} (m : gmap Z V) :
  StronglySorted key_lt (by_key m).
Proof.
  pose proof (by_key_sorted m) as Hs. pose proof (by_key_NoDup_keys m) as Hnd.
  induction Hs as [|[k v] l Hs IH Hall]; [constructor|].
  simpl in Hnd. apply NoDup_cons in Hnd as [Hk Hnd]. constructor; [by apply IH|].
  rewrite Forall_forall in *. intros [k' v'] Hin. specialize (Hall _ Hin). unfold key_le, key_lt in *. simpl in *.
  assert (k ≠ k'); [|lia]. intros <-. apply Hk. apply list_elem_of_fmap. by exists (k, v').
Qed.

(** A strictly sorted list with the same entries is the listing. *)
Lemma by_key_unique {V} (m : gmap Z V) l :
  StronglySorted key_lt l ->
  (forall k v, (k, v) ∈ l <-> m !! k = Some v) -> by_key m = l.
Proof.
  intros Hl Hin.
  assert (AntiSymm (=) (@key_lt V)) by (unfold key_lt; intros ?? ??; lia).
  apply (StronglySorted_unique key_lt).
  - apply by_key_strictly_sorted.
  - done.
  - apply NoDup_Permutation.
    + apply (NoDup_fmap_1 fst). apply by_key_NoDup_keys.
    + clear Hin. induction Hl as [|a l Hl IH Hall]; [constructor|].
      constructor; [|done]. intros Ha. rewrite Forall_forall in Hall. specialize (Hall _ Ha). unfold key_lt in Hall. lia.
    + intros [k v]. by rewrite elem_of_by_key, Hin.
Qed.

(** Appending a row with the highest key appends it to the listing. *)
Lemma by_key_insert_last {V} (m : gmap Z V) k v :
  (forall k', is_Some (m !! k') -> (k' < k)%Z) -> by_key (<[k := v]> m) = by_key m ++ [(k, v)].
Proof.
  intros Hk. apply by_key_unique.
  - apply StronglySorted_app_2; [|apply by_key_strictly_sorted|repeat constructor].
    intros [k1 v1] ? Hin ->%list_elem_of_singleton. apply elem_of_by_key in Hin. unfold key_lt. simpl. eauto.
  - intros k' v'. rewrite elem_of_app, list_elem_of_singleton, elem_of_by_key.
    destruct (decide (k' = k)) as [->|Hne].
    + rewrite lookup_insert_eq. split; [|intros [= ->]; by right].
      intros [H|[= ->]]; [|done]. assert (k < k)%Z by eauto. lia.
    + rewrite lookup_insert_ne by done. naive_solver.
Qed.

Lemma by_key_empty {V} : by_key (∅ : gmap Z V) = [].
Proof. apply by_key_unique; [constructor|]. intros k v. rewrite lookup_empty. set_solver. Qed.

(** ** Text order: [sorted(...)] and [ORDER BY] on strings *)
Definition str_le (a b : string) : Prop := String.leb a b = true.

#[global] Instance str_le_dec : RelDecision str_le.
Proof. intros a b. apply bool_eq_dec. Defined.

Definition item_le {V} (a b : string * V) : Prop := str_le a.1 b.1.

#[global] Instance item_le_dec {V} : RelDecision (@item_le V).
Proof. intros a b. apply str_le_dec. Defined.

Definition sorted_strings (l : list string) : list string := merge_sort str_le l.
Definition sorted_items {V} (m : gmap string V) : list (string * V) :=
  merge_sort item_le (map_to_list m).

Lemma elem_of_sorted_strings l x : x ∈ sorted_strings l <-> x ∈ l.
Proof. unfold sorted_strings. by rewrite merge_sort_Permutation. Qed.

Lemma elem_of_sorted_items {V} (m : gmap string V) k v :
  (k, v) ∈ sorted_items m <-> m !! k = Some v.
Proof. unfold sorted_items. rewrite merge_sort_Permutation. apply elem_of_map_to_list. Qed.

Lemma ascii_compare_refl a : Ascii.compare a a = Eq.
Proof. unfold Ascii.compare. apply N.compare_refl. Qed.

Lemma string_compare_cons a s b t :
  String.compare (String a s) (String b t) =
  match Ascii.compare a b with Eq => String.compare s t | c => c end.
Proof. done. Qed.

#[global] Instance str_le_trans : Transitive str_le.
Proof.
  intros a b c. unfold str_le, String.leb.
  revert b c; induction a as [|x a IH]; intros [|y b] [|z c] H1 H2; try done.
  rewrite string_compare_cons in *.
  destruct (Ascii.compare x y) eqn:E1; [apply Ascii.compare_eq_iff in E1 as ->| |done].
  - destruct (Ascii.compare y z) eqn:E2; [by eapply IH|done|done].
  - destruct (Ascii.compare y z) eqn:E2; [apply Ascii.compare_eq_iff in E2 as <-; by rewrite E1| |done].
    unfold Ascii.compare in *. rewrite N.compare_lt_iff in E1, E2.
    by rewrite (proj2 (N.compare_lt_iff _ _)) by lia.
Qed.

#[global] Instance str_le_total : Total str_le.
Proof.
  intros a b. unfold str_le, String.leb. rewrite (String.compare_antisym b a).
  destruct (String.compare a b); simpl; [by left|by left|by right].
Qed.

(** ** Insertion-ordered dictionaries *)

(** [d[k] = v] on an insertion-ordered dictionary. *)
Fixpoint dict_set {K A} `{EqDecision K} (k : K) (f : option A -> A) (d : list (K * A)) : list (K * A) :=
  match d with
  | [] => [(k, f None)]
  | (k', a) :: d => if bool_decide (k' = k) then (k', f (Some a)) :: d else (k', a) :: dict_set k f d
  end.

(** [d.get(k)] *)
Fixpoint dict_get {K A} `{EqDecision K} (k : K) (d : list (K * A)) : option A :=
  match d with
  | [] => None
  | (k', a) :: d => if bool_decide (k' = k) then Some a else dict_get k d
  end.

Lemma dict_get_set {K A} `{EqDecision K} (k k' : K) (f : option A -> A) d :
  dict_get k' (dict_set k f d) = if decide (k' = k) then Some (f (dict_get k d)) else dict_get k' d.
Proof.
  induction d as [|[k1 a] d IH]; simpl.
  - repeat case_bool_decide; case_decide; naive_solver.
  - repeat case_bool_decide; simpl; repeat case_bool_decide; case_decide; naive_solver.
Qed.

Lemma dict_set_keys {K A} `{EqDecision K} (k : K) (f : option A -> A) d x :
  x ∈ map fst (dict_set k f d) <-> x = k \/ x ∈ map fst d.
Proof.
  induction d as [|[k1 a] d IH]; simpl; [set_solver|].
  case_bool_decide; simpl; [set_solver|]. rewrite !elem_of_cons, IH. tauto.
Qed.

Lemma dict_set_NoDup {K A} `{EqDecision K} (k : K) (f : option A -> A) d :
  NoDup (map fst d) -> NoDup (map fst (dict_set k f d)).
Proof.
  induction d as [|[k1 a] d IH]; simpl; [intros; apply NoDup_singleton|].
  intros [Hni Hnd]%NoDup_cons. case_bool_decide; simpl; [by constructor|].
  constructor; [|by apply IH]. rewrite dict_set_keys. naive_solver.
Qed.

Lemma dict_set_elem {K A} `{EqDecision K} (k : K) (f : option A -> A) d x a :
  (x, a) ∈ dict_set k f d -> (x = k /\ exists o, a = f o) \/ (x, a) ∈ d.
Proof.
  induction d as [|[k1 a1] d IH]; simpl.
  - intros [= -> ->]%list_elem_of_singleton. left. eauto.
  - case_bool_decide as Hk.
    + subst. intros [[= -> ->]|Hin]%elem_of_cons; [left; eauto|right; set_solver].
    + intros [[= -> ->]|Hin]%elem_of_cons; [right; set_solver|]. apply IH in Hin as [?|?]; [by left|right; set_solver].
Qed.

Lemma dict_get_elem {K A} `{EqDecision K} (k : K) (d : list (K * A)) a : dict_get k d = Some a -> (k, a) ∈ d.
Proof.
  induction d as [|[k1 a1] d IH]; [done|]. simpl. case_bool_decide as Hk; [|set_solver].
  subst. intros [= ->]. set_solver.
Qed.

(** [d.pop(k, None)] *)
Definition dict_pop {K A} `{EqDecision K} (k : K) (d : list (K * A)) : list (K * A) :=
  filter (fun ka => ka.1 ≠ k) d.

Lemma elem_dict_get {K A} `{EqDecision K} (k : K) (d : list (K * A)) a :
  NoDup (map fst d) -> (k, a) ∈ d -> dict_get k d = Some a.
Proof.
  induction d as [|[k1 a1] d IH]; simpl; [by intros _ ?%not_elem_of_nil|].
  intros [Hni Hnd]%NoDup_cons [[= <- <-]|Hin]%elem_of_cons; [by rewrite bool_decide_true|].
  rewrite bool_decide_false; [by apply IH|]. intros ->. apply Hni, list_elem_of_fmap. by exists (k, a).
Qed.

Lemma dict_get_None {K A} `{EqDecision K} (k : K) (d : list (K * A)) : dict_get k d = None <-> k ∉ map fst d.
Proof.
  induction d as [|[k1 a1] d IH]; simpl; [by split; [intros _; apply not_elem_of_nil|]|].
  rewrite not_elem_of_cons. case_bool_decide; [naive_solver|]. rewrite IH. naive_solver.
Qed.

Lemma dict_filter_NoDup {K A} (P : K * A -> Prop) `{!forall x, Decision (P x)} (d : list (K * A)) :
  NoDup (map fst d) -> NoDup (map fst (filter P d)).
Proof.
  induction d as [|[k a] d IH]; [done|]. simpl. intros [Hni Hnd]%NoDup_cons. rewrite filter_cons.
  case_decide; [|by apply IH]. simpl. constructor; [|by apply IH].
  intros ([k1 a1] & -> & Hin)%list_elem_of_fmap. apply list_elem_of_filter in Hin as [_ Hin].
  apply Hni, list_elem_of_fmap. by eexists.
Qed.

Lemma dict_get_filter {K A} `{EqDecision K} (P : K -> Prop) `{!forall x, Decision (P x)} k (d : list (K * A)) :
  dict_get k (filter (fun ka => P ka.1) d) = if decide (P k) then dict_get k d else None.
Proof.
  induction d as [|[k1 a] d IH]; [simpl; by case_decide|]. rewrite filter_cons. cbn [fst].
  destruct (decide (P k1)) as [H1|H1]; cbn [dict_get]; rewrite IH.
  - case_bool_decide as Hk; [|done]. destruct Hk. destruct (decide (P k1)); done.
  - case_bool_decide as Hk; [|done]. destruct Hk. destruct (decide (P k1)); done.
Qed.
