(* ===== verification/Constants.v ===== *)
(** * Constants: event kinds and their classification
    ([openusdconnect/protocol_constants.py])

    [EVENT_KIND_INFO] is the table of the source, in its order; the derived
    kind sets are computed from it the way the module computes them.

    Lemma [apply_tiers_partition]: the apply tier separates the kinds as the
    table says, and the derived sets satisfy the module's two assertions. *)

From S2P Require Import Prelude.

Definition K_ENSURE_PRIM : string := "ensure_prim".
Definition K_ENSURE_XFORM_OPS : string := "ensure_xform_ops".
Definition K_SET_XFORM_TRS : string := "set_xform_trs".
Definition K_DELETE_PRIM : string := "delete_prim".
Definition K_DEACTIVATE_PRIM : string := "deactivate_prim".
Definition K_RENAME_PRIM : string := "rename_prim".
Definition K_SET_VISIBILITY : string := "set_visibility".
Definition K_SET_GPRIM_ATTRS : string := "set_gprim_attrs".
Definition K_SET_REFERENCE : string := "set_reference".
Definition K_SET_PAYLOAD : string := "set_payload".
Definition K_LOAD_PAYLOAD : string := "load_payload".
Definition K_UNLOAD_PAYLOAD : string := "unload_payload".
Definition K_SET_VARIANT_SELECTIONS : string := "set_variant_selections".
Definition K_SET_MATERIAL_BINDING : string := "set_material_binding".
Definition K_SET_CONNECTABLE_INPUT : string := "set_connectable_input".
Definition K_SET_CONNECTABLE_CONNECTION : string := "set_connectable_connection".
Definition K_SET_STAGE_METADATA : string := "set_stage_metadata".
Definition K_SET_INSTANCEABLE : string := "set_instanceable".
Definition K_SET_POINT_INSTANCER : string := "set_point_instancer".
Definition K_SET_SDF_SPEC_FIELDS : string := "set_sdf_spec_fields".
Definition K_REPLACE_SDF_LAYER_CONTENT : string := "replace_sdf_layer_content".
Definition K_SET_SUBLAYERS : string := "set_sublayers".
Definition K_ERASE_TIME_SAMPLES : string := "erase_time_samples".

Inductive LayerMode : Type := MANAGED | SHARED_STAGE.
Inductive EventTarget : Type := COLLABORATION_LAYER | SESSION_LAYER | STAGE_STATE.
Inductive NativeProjectionMode : Type := PROJECT | DIRECT | FIELD_ROUTED.

#[global] Instance LayerMode_eq_dec : EqDecision LayerMode.
Proof. solve_decision. Defined.
#[global] Instance EventTarget_eq_dec : EqDecision EventTarget.
Proof. solve_decision. Defined.
#[global] Instance NativeProjectionMode_eq_dec : EqDecision NativeProjectionMode.
Proof. solve_decision. Defined.

Record EventKindInfo := mk_info {
  native_projection : NativeProjectionMode;
  modes : list LayerMode;
  create : bool;
  structural : bool;
  stage_sync : bool;
  arc : bool;
  imports : bool;
  target : EventTarget }.

Definition EVENT_KIND_INFO : list (string * EventKindInfo) := [
  (K_ERASE_TIME_SAMPLES, mk_info FIELD_ROUTED [MANAGED; SHARED_STAGE] false true true false false COLLABORATION_LAYER);
  (K_ENSURE_PRIM, mk_info PROJECT [MANAGED] true true false false false COLLABORATION_LAYER);
  (K_ENSURE_XFORM_OPS, mk_info PROJECT [MANAGED] false true false false false COLLABORATION_LAYER);
  (K_SET_XFORM_TRS, mk_info PROJECT [MANAGED] false false false false false COLLABORATION_LAYER);
  (K_DELETE_PRIM, mk_info PROJECT [MANAGED] false false false false false COLLABORATION_LAYER);
  (K_DEACTIVATE_PRIM, mk_info PROJECT [MANAGED] false false false false false COLLABORATION_LAYER);
  (K_RENAME_PRIM, mk_info PROJECT [MANAGED] false false false false false COLLABORATION_LAYER);
  (K_SET_VISIBILITY, mk_info PROJECT [MANAGED] false false false false false COLLABORATION_LAYER);
  (K_SET_GPRIM_ATTRS, mk_info PROJECT [MANAGED] false false false false false COLLABORATION_LAYER);
  (K_SET_REFERENCE, mk_info PROJECT [MANAGED] false true true true true COLLABORATION_LAYER);
  (K_SET_PAYLOAD, mk_info PROJECT [MANAGED] false true true true false COLLABORATION_LAYER);
  (K_LOAD_PAYLOAD, mk_info DIRECT [MANAGED] false true true false true STAGE_STATE);
  (K_UNLOAD_PAYLOAD, mk_info DIRECT [MANAGED] false true true false false STAGE_STATE);
  (K_SET_VARIANT_SELECTIONS, mk_info PROJECT [MANAGED] false true true true false COLLABORATION_LAYER);
  (K_SET_MATERIAL_BINDING, mk_info PROJECT [MANAGED] false true true false false COLLABORATION_LAYER);
  (K_SET_CONNECTABLE_INPUT, mk_info PROJECT [MANAGED] false true true false false COLLABORATION_LAYER);
  (K_SET_CONNECTABLE_CONNECTION, mk_info PROJECT [MANAGED] false true true false false COLLABORATION_LAYER);
  (K_SET_STAGE_METADATA, mk_info DIRECT [MANAGED] true true true false false SESSION_LAYER);
  (K_SET_INSTANCEABLE, mk_info PROJECT [MANAGED] false true true false false COLLABORATION_LAYER);
  (K_SET_POINT_INSTANCER, mk_info PROJECT [MANAGED] false false false false false COLLABORATION_LAYER);
  (K_SET_SDF_SPEC_FIELDS, mk_info FIELD_ROUTED [MANAGED; SHARED_STAGE] false true true false false COLLABORATION_LAYER);
  (K_REPLACE_SDF_LAYER_CONTENT, mk_info DIRECT [SHARED_STAGE] false true true false false COLLABORATION_LAYER);
  (K_SET_SUBLAYERS, mk_info DIRECT [SHARED_STAGE] false true true false false COLLABORATION_LAYER)].

(** [frozenset(k for k, i in EVENT_KIND_INFO.items() if P(i))] *)
Definition kinds_where (P : EventKindInfo -> bool) : gset string :=
  list_to_set (map fst (filter (fun ki => P ki.2 = true) EVENT_KIND_INFO)).

Definition EVENT_KEYS : gset string := list_to_set (map fst EVENT_KIND_INFO).
Definition STRUCTURAL_EVENT_KINDS : gset string := kinds_where structural.
Definition CREATE_KINDS : gset string := kinds_where create.
Definition STAGE_SYNC_KINDS : gset string := kinds_where stage_sync.
Definition SESSION_LAYER_KINDS : gset string := kinds_where (fun i => bool_decide (target i = SESSION_LAYER)).
Definition STAGE_RUNTIME_KINDS : gset string := kinds_where (fun i => bool_decide (target i = STAGE_STATE)).
Definition NON_COLLABORATION_KINDS : gset string := SESSION_LAYER_KINDS ∪ STAGE_RUNTIME_KINDS.
Definition COLLABORATION_LAYER_KINDS : gset string :=
  kinds_where (fun i => bool_decide (target i = COLLABORATION_LAYER)).
Definition ARC_KINDS : gset string := kinds_where arc.
Definition IMPORT_KINDS : gset string := kinds_where imports.
Definition MANAGED_KINDS : gset string := kinds_where (fun i => bool_decide (MANAGED ∈ modes i)).
Definition SHARED_STAGE_EVENT_KINDS : gset string :=
  kinds_where (fun i => bool_decide (SHARED_STAGE ∈ modes i)).
Definition SHARED_STAGE_ONLY_KINDS : gset string := SHARED_STAGE_EVENT_KINDS ∖ MANAGED_KINDS.

Definition event_apply_tier (kind : string) : nat :=
  if bool_decide (kind ∈ CREATE_KINDS) then 0
  else if bool_decide (kind ∈ STRUCTURAL_EVENT_KINDS) then 1
  else 2.

(** [event["k"] in NON_COLLABORATION_KINDS] *)
Definition non_collaboration (ev : event) : bool := bool_decide (kind_of ev ∈ NON_COLLABORATION_KINDS).

Lemma elem_of_kinds_where P k :
  k ∈ kinds_where P <-> exists i, (k, i) ∈ EVENT_KIND_INFO /\ P i = true.
Proof.
  unfold kinds_where. rewrite elem_of_list_to_set, list_elem_of_fmap. split.
  - intros ([k' i] & -> & [Hp Hi]%list_elem_of_filter). by exists i.
  - intros (i & Hi & Hp). exists (k, i). split; [done|]. by apply list_elem_of_filter.
Qed.

Lemma tiers_generic (X Y : gset string) k : X ⊆ Y ->
  let t := if bool_decide (k ∈ X) then 0 else if bool_decide (k ∈ Y) then 1 else 2 in
  (t = 0 <-> k ∈ X) /\ (t = 2 <-> k ∉ Y).
Proof.
  intros Hsub. simpl. case_bool_decide as HX; [set_solver|]. case_bool_decide as HY; set_solver.
Qed.

(** The apply tiers put creation before the other structural kinds and
    those before values: a kind is in tier 0 exactly when it creates, every
    creating kind is structural, tier 2 holds exactly the kinds that are not
    structural; and the two assertions of the module hold (every kind has a
    mode). *)
Lemma apply_tiers_partition kind :
  (event_apply_tier kind = 0 <-> kind ∈ CREATE_KINDS)
  /\ (event_apply_tier kind = 2 <-> kind ∉ STRUCTURAL_EVENT_KINDS)
  /\ CREATE_KINDS ⊆ STRUCTURAL_EVENT_KINDS
  /\ MANAGED_KINDS ∪ SHARED_STAGE_EVENT_KINDS = EVENT_KEYS
  /\ Forall (fun ki => modes ki.2 ≠ []) EVENT_KIND_INFO.
Proof.
  assert (CREATE_KINDS ⊆ STRUCTURAL_EVENT_KINDS) as Hsub 
    by (refine (bool_decide_eq_true_1 (CREATE_KINDS ⊆ STRUCTURAL_EVENT_KINDS) _); by vm_compute).
  split_and!; [| |done|
    refine (bool_decide_eq_true_1 (MANAGED_KINDS ∪ SHARED_STAGE_EVENT_KINDS = EVENT_KEYS) _); by vm_compute|repeat constructor; done].
  - by apply (tiers_generic _ _ kind).
  - by apply (tiers_generic _ _ kind).
Qed.
