(* ===== verification/Framing.v ===== *)
(** * Framing: length-prefixed messages ([openusdconnect/framing.py])

    A frame is a four-byte big-endian length followed by the payload.  Bytes
    are [Byte.byte]; a socket is the stream the peer has sent (ending where the
    peer closed) with the sizes the kernel will return from successive
    [recv_into] calls, so the read loop is checked against every
    fragmentation. *)

From Stdlib Require Import Strings.Byte.
From S2P Require Import Prelude.

Abbreviation bytes := (list Byte.byte).

Definition HEADER_SIZE : nat := 4.
Definition MAX_MESSAGE_SIZE : Z := 16 * 1024 * 1024.
Definition COALESCE_LIMIT : Z := 64 * 1024.

(** ** struct.Struct(">I") *)

Definition byte_of_Z (z : Z) : Byte.byte :=
  default Byte.x00 (Byte.of_N (Z.to_N (z mod 256))).
Definition Z_of_byte (b : Byte.byte) : Z := Z.of_N (Byte.to_N b).

(** [_HEADER.pack(n)]: [struct.error] outside the unsigned 32-bit range. *)
Definition pack (n : Z) : result bytes :=
  if bool_decide (0 ≤ n < 2 ^ 32)%Z then
    Ok [byte_of_Z (Z.shiftr n 24); byte_of_Z (Z.shiftr n 16);
        byte_of_Z (Z.shiftr n 8); byte_of_Z n]
  else Err (OtherException "struct.error").

(** [_HEADER.unpack(header)[0]]: exactly four bytes. *)
Definition unpack (h : bytes) : result Z :=
  match h with
  | [b3; b2; b1; b0] =>
      Ok (Z.lor (Z.lor (Z.shiftl (Z_of_byte b3) 24) (Z.shiftl (Z_of_byte b2) 16))
                (Z.lor (Z.shiftl (Z_of_byte b1) 8) (Z_of_byte b0)))
  | _ => Err (OtherException "struct.error")
  end.

(** ** Sockets *)

Record sock := mk_sock { stream : bytes; chunks : list nat }.

(** [sock.recv_into(view)] for a view of [n] bytes: at least one byte when any
    is left, at most [n], as many as the kernel has ready. *)
Definition recv_into (s : sock) (n : nat) : bytes * sock :=
  let k := match chunks s with
           | [] => n
           | c :: _ => Nat.min n (Nat.max 1 c)
           end in
  (take k (stream s), mk_sock (drop k (stream s)) (tail (chunks s))).

(** [_recv_exact]: [fuel] bounds the [while pos < n] iterations. [None] is fuel
    exhaustion. *)
Fixpoint recv_exact_loop (fuel : nat) (s : sock) (n : nat) (buf : bytes) :
    option (result (bytes * sock)) :=
  if length buf <? n then
    match fuel with
    | O => None
    | S fuel =>
        let '(got, s') := recv_into s (n - length buf) in
        match got with
        | [] => Some (Err IncompleteRead)
        | _ => recv_exact_loop fuel s' n (buf ++ got)
        end
    end
  else Some (Ok (buf, s)).

(** Every iteration reads at least one byte, so [n] of them suffice
    ([recv_exact_total]); the [None] case is unreachable. *)
Definition recv_exact (s : sock) (n : nat) : result (bytes * sock) :=
  default (Err RuntimeError) (recv_exact_loop n s n []).

Definition recv_framed (s : sock) (max_size : Z) : result (bytes * sock) :=
  hs ← recv_exact s HEADER_SIZE;
  len ← unpack hs.1;
  _ ← raise_if (bool_decide (max_size < len)%Z) MessageTooLarge;
  recv_exact hs.2 (Z.to_nat len).

(** The buffers handed to [sock.sendall], in order. *)
Definition send_framed (payload : bytes) : result (list bytes) :=
  header ← pack (Z.of_nat (length payload));
  Ok (if bool_decide (Z.of_nat (length payload) ≤ COALESCE_LIMIT)%Z
      then [header ++ payload] else [header; payload]).

(** ** Buffered files: [rfile.read(n)] returns fewer bytes only at the end *)

Definition rfile_read (f : bytes) (n : nat) : bytes * bytes := (take n f, drop n f).

Definition send_framed_wfile (wfile payload : bytes) : result bytes :=
  header ← pack (Z.of_nat (length payload));
  Ok ((wfile ++ header) ++ payload).

Definition recv_framed_rfile (f : bytes) (max_size : Z) : result (bytes * bytes) :=
  let '(header, f) := rfile_read f HEADER_SIZE in
  _ ← raise_if (length header <? HEADER_SIZE) IncompleteRead;
  len ← unpack header;
  _ ← raise_if (bool_decide (max_size < len)%Z) MessageTooLarge;
  let '(data, f) := rfile_read f (Z.to_nat len) in
  _ ← raise_if (bool_decide (Z.of_nat (length data) < len)%Z) IncompleteRead;
  Ok (data, f).

(** ** frame_batch: frames written at running offsets of a preallocated buffer *)

(** [buf[offset:offset+len(p)] = p] *)
Definition splice (buf : bytes) (offset : nat) (p : bytes) : bytes :=
  take offset buf ++ p ++ drop (offset + length p) buf.

Definition frame_batch_step (st : bytes * nat) (p : bytes) : result (bytes * nat) :=
  let '(buf, offset) := st in
  header ← pack (Z.of_nat (length p));
  let buf := splice buf offset header in
  let offset := offset + HEADER_SIZE in
  Ok (splice buf offset p, offset + length p).

Definition frame_batch (payloads : list bytes) : result bytes :=
  let total := sum_list (map (fun p => length p + HEADER_SIZE) payloads) in
  fst <$> foldR frame_batch_step (replicate total Byte.x00, 0) payloads.

(** ** Lemmas *)

Lemma Z_of_byte_of_Z z : Z_of_byte (byte_of_Z z) = (z mod 256)%Z.
Proof.
  unfold byte_of_Z, Z_of_byte.
  assert (0 ≤ z mod 256 < 256)%Z as Hz by (apply Z.mod_pos_bound; lia).
  destruct (Byte.of_N (Z.to_N (z mod 256))) as [b|] eqn:E; simpl.
  - apply Byte.to_of_N in E. rewrite E. lia.
  - exfalso. apply Byte.of_N_None_iff in E. lia.
Qed.

Lemma Z_of_byte_range b : (0 ≤ Z_of_byte b < 256)%Z.
Proof. unfold Z_of_byte. pose proof (Byte.to_N_bounded b). lia. Qed.

Lemma pack_length n h : pack n = Ok h -> length h = HEADER_SIZE.
Proof. unfold pack. intros H. by cases. Qed.

Lemma land_shiftl_low a b k : (0 ≤ k)%Z -> (0 ≤ b < 2 ^ k)%Z -> Z.land (Z.shiftl a k) b = 0%Z.
Proof.
  intros Hk Hb. apply Z.bits_inj'; intros i Hi.
  rewrite Z.land_spec, Z.bits_0, Z.shiftl_spec by lia.
  destruct (decide (i < k)%Z).
  - by rewrite (Z.testbit_neg_r a) by lia.
  - rewrite (Z.testbit_eqb b) by lia. rewrite Z.div_small.
    + by rewrite andb_false_r.
    + split; [lia|]. eapply Z.lt_le_trans; [apply Hb|]. apply Z.pow_le_mono_r; lia.
Qed.

Lemma lor_shiftl_add a b k : (0 ≤ k)%Z -> (0 ≤ b < 2 ^ k)%Z ->
  Z.lor (Z.shiftl a k) b = (a * 2 ^ k + b)%Z.
Proof.
  intros Hk Hb. rewrite <-Z.shiftl_mul_pow2 by lia.
  pose proof (land_shiftl_low a b k Hk Hb) as Hl.
  rewrite <-Z.lxor_lor by done. by rewrite <-Z.add_nocarry_lxor.
Qed.

Lemma unpack_value b3 b2 b1 b0 :
  unpack [b3; b2; b1; b0] =
  Ok (Z_of_byte b3 * 2 ^ 24 + Z_of_byte b2 * 2 ^ 16 + Z_of_byte b1 * 2 ^ 8 + Z_of_byte b0)%Z.
Proof.
  pose proof (Z_of_byte_range b0). pose proof (Z_of_byte_range b1).
  pose proof (Z_of_byte_range b2). pose proof (Z_of_byte_range b3).
  simpl. f_equal.
  rewrite <-Z.lor_assoc.
  rewrite (lor_shiftl_add (Z_of_byte b1) _ 8) by lia.
  rewrite (lor_shiftl_add (Z_of_byte b2) _ 16) by lia.
  rewrite lor_shiftl_add by lia. lia.
Qed.

Lemma unpack_pack n h : pack n = Ok h -> unpack h = Ok n.
Proof.
  unfold pack. case_bool_decide as Hn; [|done]. intros [= <-].
  rewrite unpack_value, !Z_of_byte_of_Z, !Z.shiftr_div_pow2 by lia. f_equal.
  Z.to_euclidean_division_equations. lia.
Qed.

Lemma pack_Ok n : (0 ≤ n < 2 ^ 32)%Z -> exists h, pack n = Ok h /\ length h = HEADER_SIZE.
Proof. intros Hn. unfold pack. rewrite bool_decide_true by done. by eexists. Qed.

Lemma pack_Err n e : pack n = Err e -> ¬ (0 ≤ n < 2 ^ 32)%Z.
Proof. unfold pack. by case_bool_decide. Qed.

(** [recv_exact_loop] returns the next [n] bytes whatever the chunk sizes are. *)
Lemma recv_exact_loop_spec fuel s n buf :
  length buf ≤ n -> n - length buf ≤ fuel ->
  match recv_exact_loop fuel s n buf with
  | Some (Ok (got, s')) =>
      n - length buf ≤ length (stream s)
      /\ got = buf ++ take (n - length buf) (stream s)
      /\ stream s' = drop (n - length buf) (stream s)
  | Some (Err e) => e = IncompleteRead /\ length (stream s) < n - length buf
  | None => False
  end.
Proof.
  revert s buf; induction fuel as [|fuel IH]; intros s buf Hbuf Hfuel; simpl.
  - destruct (Nat.ltb_spec (length buf) n); [lia|].
    replace (n - length buf) with 0 by lia. rewrite take_0, drop_0, app_nil_r. split_and!; [lia|done..].
  - destruct (Nat.ltb_spec (length buf) n) as [Hlt|].
    2:{ replace (n - length buf) with 0 by lia.
        rewrite take_0, drop_0, app_nil_r. split_and!; [lia|done..]. }
    set (k := match chunks s with [] => n - length buf
              | c :: _ => Nat.min (n - length buf) (Nat.max 1 c) end).
    assert (1 ≤ k ≤ n - length buf) as Hk by (unfold k; case_match; lia).
    destruct (take k (stream s)) as [|b got'] eqn:Egot.
    + split; [done|]. apply (f_equal length) in Egot.
      rewrite length_take in Egot. simpl in Egot. lia.
    + assert (length (b :: got') = Nat.min k (length (stream s))) as Hlen
        by (rewrite <-Egot, length_take; done).
      assert (1 ≤ length (b :: got')) as Hgot by (simpl; lia).
      remember (b :: got') as got eqn:Eg. clear Eg b got'. clearbody k.
      specialize (IH (mk_sock (drop k (stream s)) (tail (chunks s))) (buf ++ got)).
      rewrite length_app, Hlen in IH. simpl in IH. rewrite length_drop in IH.
      specialize (IH ltac:(lia) ltac:(lia)).
      destruct (recv_exact_loop fuel _ n (buf ++ got)) as [[[g s']|e]|]; [| |done].
      * destruct IH as (Hle & -> & ->). split_and!; [lia| |].
        -- rewrite <-app_assoc, <-Egot. f_equal.
           rewrite Nat.min_l by lia.
           replace (n - length buf) with (k + (n - (length buf + k))) by lia.
           by rewrite take_take_drop.
        -- rewrite drop_drop, Nat.min_l by lia. f_equal. lia.
      * destruct IH as [-> IH]. split; [done|]. lia.
Qed.

Lemma recv_exact_spec s n :
  match recv_exact s n with
  | Ok (got, s') => n ≤ length (stream s) /\ got = take n (stream s)
                    /\ stream s' = drop n (stream s)
  | Err e => e = IncompleteRead /\ length (stream s) < n
  end.
Proof.
  unfold recv_exact. pose proof (recv_exact_loop_spec n s n [] (Nat.le_0_l _)) as H.
  rewrite Nat.sub_0_r in H. specialize (H (le_n _)).
  by destruct (recv_exact_loop n s n []) as [[[]|]|].
Qed.

Lemma unpack_header f : HEADER_SIZE ≤ length f ->
  exists n, unpack (take HEADER_SIZE f) = Ok n /\ (0 ≤ n < 2 ^ 32)%Z.
Proof.
  intros Hf. destruct f as [|b3 [|b2 [|b1 [|b0 f]]]]; simpl in Hf; try (unfold HEADER_SIZE in Hf; lia).
  change (take HEADER_SIZE _) with [b3; b2; b1; b0]. rewrite unpack_value. eexists; split; [done|].
  pose proof (Z_of_byte_range b0). pose proof (Z_of_byte_range b1).
  pose proof (Z_of_byte_range b2). pose proof (Z_of_byte_range b3). lia.
Qed.

(** The result of reading a socket, without its chunk schedule. *)
Definition outcome (r : result (bytes * sock)) : result (bytes * bytes) :=
  (fun p => (p.1, stream p.2)) <$> r.

Lemma recv_framed_rfile_equiv s max_size :
  outcome (recv_framed s max_size) = recv_framed_rfile (stream s) max_size.
Proof.
  unfold recv_framed, recv_framed_rfile, outcome, rfile_read.
  pose proof (recv_exact_spec s HEADER_SIZE) as H.
  destruct (recv_exact s HEADER_SIZE) as [[h s1]|e]; simpl.
  2:{ destruct H as [-> H]. rewrite length_take, Nat.min_r by lia.
      destruct (Nat.ltb_spec (length (stream s)) HEADER_SIZE); [done|lia]. }
  destruct H as (Hlen & -> & Hs1). rewrite length_take, Nat.min_l by lia.
  destruct (Nat.ltb_spec HEADER_SIZE HEADER_SIZE); [lia|]. simpl.
  destruct (unpack_header (stream s) Hlen) as (n & -> & Hn). simpl.
  rewrite <-Hs1. case_bool_decide; simpl; [done|].
  pose proof (recv_exact_spec s1 (Z.to_nat n)) as H'.
  destruct (recv_exact s1 (Z.to_nat n)) as [[d s2]|e]; simpl.
  - destruct H' as (Hle & -> & ->). rewrite length_take, Nat.min_l by lia.
    rewrite bool_decide_false by lia. done.
  - destruct H' as [-> H']. rewrite length_take, Nat.min_r by lia.
    rewrite bool_decide_true by lia. done.
Qed.

Definition frame (payload : bytes) : bytes :=
  default [] (match pack (Z.of_nat (length payload)) with Ok h => Some h | Err _ => None end)
  ++ payload.

Lemma frame_pack p h : pack (Z.of_nat (length p)) = Ok h -> frame p = h ++ p.
Proof. unfold frame. by intros ->. Qed.

Lemma recv_framed_rfile_frame p rest max_size :
  (Z.of_nat (length p) < 2 ^ 32)%Z ->
  recv_framed_rfile (frame p ++ rest) max_size =
  if bool_decide (max_size < Z.of_nat (length p))%Z then Err MessageTooLarge else Ok (p, rest).
Proof.
  intros Hp. destruct (pack_Ok (Z.of_nat (length p))) as (h & Hh & Hl); [lia|].
  rewrite (frame_pack p h Hh), <-app_assoc.
  unfold recv_framed_rfile, rfile_read.
  rewrite take_app_length', drop_app_length' by done. rewrite Hl.
  rewrite (unpack_pack _ _ Hh). simpl.
  destruct (bool_decide (max_size < _)%Z); simpl; [done|].
  rewrite Nat2Z.id, take_app_length, drop_app_length, bool_decide_false by lia. done.
Qed.

Lemma send_framed_concat p bufs : send_framed p = Ok bufs -> concat bufs = frame p.
Proof.
  unfold send_framed. intros H. inv_bind H. rewrite (frame_pack p x H0).
  injection H as <-. case_bool_decide; simpl; by rewrite app_nil_r.
Qed.

(** ** frame_batch *)

Lemma splice_tail done_ pad p : length p ≤ length pad ->
  splice (done_ ++ pad) (length done_) p = (done_ ++ p) ++ drop (length p) pad.
Proof.
  intros Hp. unfold splice. rewrite take_app_length, <-app_assoc. f_equal. f_equal.
  rewrite drop_app_ge by lia. f_equal. lia.
Qed.

Definition frames_size (payloads : list bytes) : nat :=
  sum_list (map (fun p => length p + HEADER_SIZE) payloads).

Definition frameable (p : bytes) : Prop := (Z.of_nat (length p) < 2 ^ 32)%Z.

Lemma frame_length p : frameable p -> length (frame p) = length p + HEADER_SIZE.
Proof.
  intros Hp. destruct (pack_Ok (Z.of_nat (length p))) as (h & Hh & Hl);
    [unfold frameable in Hp; lia|].
  rewrite (frame_pack p h Hh), length_app, Hl. lia.
Qed.

Lemma frame_batch_loop payloads done_ pad :
  Forall frameable payloads -> length pad = frames_size payloads ->
  foldR frame_batch_step (done_ ++ pad, length done_) payloads =
  Ok (done_ ++ concat (map frame payloads), length (done_ ++ concat (map frame payloads))).
Proof.
  intros Hall; revert done_ pad; induction Hall as [|p ps Hp _ IH]; intros done_ pad Hpad; simpl.
  - destruct pad; [|done]. by rewrite !app_nil_r.
  - destruct (pack_Ok (Z.of_nat (length p))) as (h & Hh & Hl); [unfold frameable in Hp; lia|].
    change (frames_size (p :: ps)) with (length p + HEADER_SIZE + frames_size ps) in Hpad.
    rewrite Hh. simpl. rewrite splice_tail by lia.
    rewrite <-Hl, <-length_app. rewrite splice_tail by (rewrite length_drop; lia).
    rewrite <-length_app. rewrite IH by (rewrite !length_drop; lia).
    rewrite (frame_pack p h Hh). by rewrite <-!app_assoc.
Qed.

Lemma frame_batch_concat payloads : Forall frameable payloads ->
  frame_batch payloads = Ok (concat (map frame payloads)).
Proof.
  intros Hall. unfold frame_batch. fold (frames_size payloads).
  pose proof (frame_batch_loop payloads [] (replicate (frames_size payloads) Byte.x00) Hall) as H.
  rewrite length_replicate in H. specialize (H eq_refl). simpl in H. by rewrite H.
Qed.

(** Reading [n] consecutive messages off one connection. *)
Fixpoint recv_all (n : nat) (s : sock) (max_size : Z) : result (list bytes * sock) :=
  match n with
  | O => Ok ([], s)
  | S n => ps ← recv_framed s max_size;
           qs ← recv_all n ps.2 max_size;
           Ok (ps.1 :: qs.1, qs.2)
  end.

Lemma recv_framed_frame s p rest max_size :
  frameable p -> stream s = frame p ++ rest -> (Z.of_nat (length p) ≤ max_size)%Z ->
  exists s', recv_framed s max_size = Ok (p, s') /\ stream s' = rest.
Proof.
  intros Hp Hs Hmax. pose proof (recv_framed_rfile_equiv s max_size) as H.
  rewrite Hs, recv_framed_rfile_frame, bool_decide_false in H by (done || lia).
  destruct (recv_framed s max_size) as [[q s']|e]; simplify_eq/=. eauto.
Qed.

(** ** Properties *)

(** reading a frame from a socket gives the same payload (or the same
    error) and leaves the same unread bytes as reading it from a buffered file
    over the same stream, however the kernel fragments the stream. *)
Theorem recv_framed_refines_rfile s1 s2 max_size :
  stream s1 = stream s2 ->
  outcome (recv_framed s1 max_size) = outcome (recv_framed s2 max_size)
  /\ outcome (recv_framed s1 max_size) = recv_framed_rfile (stream s1) max_size.
Proof. intros Hs. rewrite !recv_framed_rfile_equiv, Hs. done. Qed.

(** C40: a batch framed by [frame_batch] and delivered in any fragmentation is
    read back as exactly the payloads, in order, leaving the following bytes
    unread. *)
Theorem frame_batch_roundtrip payloads max_size b s rest :
  frame_batch payloads = Ok b -> (max_size < 2 ^ 32)%Z ->
  Forall (fun p => Z.of_nat (length p) ≤ max_size)%Z payloads ->
  stream s = b ++ rest ->
  exists s', recv_all (length payloads) s max_size = Ok (payloads, s') /\ stream s' = rest.
Proof.
  intros Hb Hm Hall Hs.
  assert (Forall frameable payloads) as Hf
    by (eapply Forall_impl; [done|unfold frameable; simpl; lia]).
  rewrite frame_batch_concat in Hb by done. injection Hb as <-.
  revert s Hs; induction Hall as [|p ps Hp _ IH]; intros s Hs; simpl in *.
  - by exists s.
  - apply Forall_cons in Hf as [Hp' Hf]. rewrite <-app_assoc in Hs.
    destruct (recv_framed_frame s p _ max_size Hp' Hs Hp) as (s1 & -> & Hs1). simpl.
    destruct (IH Hf s1 Hs1) as (s2 & -> & Hs2). simpl. by exists s2.
Qed.

(** a message written by [send_framed] (in one or two [sendall]s) is read
    back whole; one whose declared length exceeds the receiver's limit is
    refused after its header, before any of the payload is read. *)
Theorem send_recv_framed p bufs s rest max_size :
  send_framed p = Ok bufs -> stream s = concat bufs ++ rest ->
  outcome (recv_framed s max_size) =
  if bool_decide (max_size < Z.of_nat (length p))%Z then Err MessageTooLarge else Ok (p, rest).
Proof.
  intros Hp Hs. rewrite recv_framed_rfile_equiv, Hs, (send_framed_concat p bufs Hp).
  apply recv_framed_rfile_frame.
  unfold send_framed in Hp. inv_bind Hp. unfold pack in Hp0. destruct (bool_decide (0 ≤ _ < _)%Z) eqn:E; [|done]. apply bool_decide_eq_true in E. lia.
Qed.

(** a connection that closes inside a frame is reported as an incomplete
    read, for every cut point and fragmentation: no partial payload is ever
    returned. *)
Theorem recv_framed_truncated p s n max_size :
  frameable p -> (Z.of_nat (length p) ≤ max_size)%Z ->
  n < length (frame p) -> stream s = take n (frame p) ->
  recv_framed s max_size = Err IncompleteRead.
Proof.
  intros Hp Hmax Hn Hs. pose proof (recv_framed_rfile_equiv s max_size) as H.
  enough (recv_framed_rfile (stream s) max_size = Err IncompleteRead) as Hr.
  { rewrite Hr in H. destruct (recv_framed s max_size); by simplify_eq/=. }
  clear H. destruct (pack_Ok (Z.of_nat (length p))) as (h & Hh & Hl);
    [unfold frameable in Hp; lia|].
  rewrite Hs in *. rewrite (frame_pack p h Hh) in *. rewrite length_app, Hl in Hn.
  unfold recv_framed_rfile, rfile_read. rewrite take_take, !length_take, length_app, Hl.
  destruct (decide (n < HEADER_SIZE)).
  - destruct (Nat.ltb_spec (Nat.min (HEADER_SIZE `min` n) (HEADER_SIZE + length p)) HEADER_SIZE);
      [done|lia].
  - destruct (Nat.ltb_spec (Nat.min (HEADER_SIZE `min` n) (HEADER_SIZE + length p)) HEADER_SIZE);
      [lia|].
    rewrite (Nat.min_l HEADER_SIZE n) by lia. rewrite (take_app_length' h p HEADER_SIZE) by done. simpl.
    rewrite (unpack_pack _ _ Hh). simpl.
    rewrite (bool_decide_false (max_size < _)%Z) by lia. simpl.
    rewrite length_take, length_drop, length_take, length_app, Hl.
    rewrite bool_decide_true by lia. done.
Qed.

(** ** Witnesses *)

Definition sample : bytes := [Byte.x61; Byte.x62; Byte.x63].

Lemma recv_framed_refines_rfile_witness :
  let s1 := mk_sock (frame sample) [1; 1; 1] in
  let s2 := mk_sock (frame sample) [] in
  outcome (recv_framed s1 100) = outcome (recv_framed s2 100).
Proof. exact (proj1 (recv_framed_refines_rfile (mk_sock (frame sample) [1; 1; 1])
                       (mk_sock (frame sample) []) 100 eq_refl)). Defined.

Lemma frame_batch_roundtrip_witness :
  exists s', recv_all 2 (mk_sock (frame sample ++ frame [] ++ [Byte.x00]) [2; 3; 1]) 100
             = Ok ([sample; []], s') /\ stream s' = [Byte.x00].
Proof.
  apply (frame_batch_roundtrip [sample; []] 100 (frame sample ++ frame [])
           (mk_sock (frame sample ++ frame [] ++ [Byte.x00]) [2; 3; 1]) [Byte.x00]).
  - reflexivity.
  - lia.
  - apply (bool_decide_eq_true_1 _). reflexivity.
  - reflexivity.
Defined.

Lemma send_recv_framed_witness :
  outcome (recv_framed (mk_sock (frame sample) [1; 9]) 2) = Err MessageTooLarge
  /\ outcome (recv_framed (mk_sock (frame sample) [1; 9]) 3) = Ok (sample, []).
Proof.
  split.
  - rewrite (send_recv_framed sample [frame sample] (mk_sock (frame sample) [1; 9]) [] 2);
      reflexivity.
  - rewrite (send_recv_framed sample [frame sample] (mk_sock (frame sample) [1; 9]) [] 3);
      reflexivity.
Defined.

Lemma recv_framed_truncated_witness :
  recv_framed (mk_sock (take 6 (frame sample)) [4; 1; 1]) 100 = Err IncompleteRead.
Proof.
  apply (recv_framed_truncated sample (mk_sock (take 6 (frame sample)) [4; 1; 1]) 6 100).
  - reflexivity.
  - vm_compute. discriminate.
  - vm_compute. lia.
  - reflexivity.
Defined.
