(* ===== verification/Coalescing.v ===== *)
(** * Coalescing: merging transform opinions before submission
    ([openusdconnect/coalescing.py])

    [merge_latest_transform_events] appends a batch to the emitter's pending
    list and folds a [set_xform_trs] event into the pending event for the same
    prim and time code when only transform events separate them.  The Python
    [candidates] dictionary maps a key to the pending event *object*, which is
    then updated in place; here it maps the key to that event's index, and the
    in-place update is a list update at the index.

    Theorems: applying the merged list has the effect of applying the original
    sequence, for every interpretation of the other events; the pending prefix
    keeps its length, order and keys; merging is idempotent on keys. *)

From Stdlib Require Import QArith.Qcanon.
From S2P Require Import Prelude Constants.

Definition TRS_FIELDS : list string := ["t"; "r"; "s"].

(** The dictionary key [(event["prim"], event.get("time"))]. *)
Abbreviation trs_key := (pyval * pyval)%type.

(** Numbers that compare equal are one dictionary key. *)
Definition hash_key (v : pyval) : pyval :=
  match v with
  | PInt z => PFloat (Fin (Q2Qc (QArith_base.inject_Z z)))
  | PBool b => PFloat (Fin (Q2Qc (QArith_base.inject_Z (if b then 1 else 0))))
  | _ => v
  end.

Definition key_of (ev : event) : trs_key :=
  (hash_key (py_get ev "prim"), hash_key (py_get ev "time")).

Definition is_trs (ev : event) : bool := bool_decide (ev !! "k" = Some (PStr K_SET_XFORM_TRS)).

(** The names in [event.get("fields", ())]. *)
Definition fields_of (ev : event) : list string :=
  match ev !! "fields" with
  | Some (PList l) => omap (fun v => match v with PStr s => Some s | _ => None end) l
  | _ => []
  end.

Abbreviation candidates := (list (trs_key * nat)).

(** [candidates.get(key)]: the newest binding is first. *)
Fixpoint cand_get (c : candidates) (k : trs_key) : option nat :=
  match c with
  | [] => None
  | (k', i) :: c => if decide (k' = k) then Some i else cand_get c k
  end.

(** The first loop: candidates among the already pending events. *)
Fixpoint scan_pending (i : nat) (c : candidates) (pending : list event) : candidates :=
  match pending with
  | [] => c
  | ev :: pending =>
      scan_pending (S i) (if is_trs ev then (key_of ev, i) :: c else []) pending
  end.

(** [previous["fields"] = [...]] followed by [previous[field] = event[field]]
    for the incoming fields. *)
Definition merge_into (previous ev : event) : event :=
  let merged_fields := fields_of previous ++ fields_of ev in
  let previous' :=
    <["fields" := PList (map PStr (filter (fun f => f ∈ merged_fields) TRS_FIELDS))]> previous in
  foldl (fun p f => <[f := py_get ev f]> p) previous' (fields_of ev).

(** One iteration of the second loop. *)
Definition merge_step (st : list event * candidates) (ev : event) : list event * candidates :=
  let '(pending, c) := st in
  if negb (is_trs ev) then (pending ++ [ev], [])
  else
    match cand_get c (key_of ev) with
    | None => (pending ++ [ev], (key_of ev, length pending) :: c)
    | Some i => (alter (fun previous => merge_into previous ev) i pending, c)
    end.

Definition merge_latest_transform_events (pending incoming : list event) : list event :=
  fst (foldl merge_step (pending, scan_pending 0 [] pending) incoming).

Definition is_transform_only (events : list event) : bool :=
  match events with [] => false | _ => forallb is_trs events end.

(** ** TransformCoalescingWindow

    [seconds] and the clock are rationals; [seconds] has passed the
    constructor's check (finite and non-negative). The emitter is the two
    preparation results it would return. *)
Record window := mk_window { seconds : Qc; deadline : option Qc }.

(** [__post_init__] *)
Definition window_init (f : pyfloat) : result window :=
  match f with
  | Fin q => if decide (q < 0)%Qc then Err ValueError else Ok (mk_window q None)
  | _ => Err ValueError
  end.

Definition buffering (w : window) : bool := bool_decide (is_Some (deadline w)).

Definition prepare (w : window) (now : Qc) (for_send coalesced : list event) :
    window * list event :=
  if decide (seconds w = 0)%Qc then (w, for_send)
  else if match coalesced with [] => true | _ => negb (is_transform_only coalesced) end
  then (mk_window (seconds w) None, coalesced)
  else match deadline w with
       | None => (mk_window (seconds w) (Some (now + seconds w)%Qc), [])
       | Some d => (w, if decide (d ≤ now)%Qc then coalesced else [])
       end.

Definition force (w : window) (coalesced : list event) : list event := coalesced.

Definition mark_submitted (w : window) : window := mk_window (seconds w) None.

(** ** What a transaction means

    [TransformState] is what the theorems assume of the stage the events are
    applied to: transform channels (one per key and field) that can be written
    independently, a later write to a channel replacing the earlier one.  Any
    other event is an arbitrary function of the whole state. *)
Class TransformState (S : Type) `{Equiv S} := {
  write : trs_key -> string -> pyval -> S -> S;
  other : event -> S -> S;
  state_equivalence :: Equivalence (≡@{S});
  write_proper :: forall k f v, Proper ((≡) ==> (≡)) (write k f v);
  other_proper :: forall ev, Proper ((≡) ==> (≡)) (other ev);
  write_overwrites k f v v' s : write k f v' (write k f v s) ≡ write k f v' s;
  write_commutes k f v k' f' v' s :
    (k, f) ≠ (k', f') -> write k f v (write k' f' v' s) ≡ write k' f' v' (write k f v s);
}.

Section semantics.
Context {S : Type} `{TransformState S}.
Implicit Types (s : S) (ev p : event) (pending : list event) (c : candidates).

Definition write_all (k : trs_key) (g : string -> pyval) (fs : list string) (s : S) : S :=
  foldl (fun s f => write k f (g f) s) s fs.

Definition apply_one (s : S) (ev : event) : S :=
  if is_trs ev then write_all (key_of ev) (py_get ev) (fields_of ev) s else other ev s.

Definition run (l : list event) (s : S) : S := foldl apply_one s l.

(** A validated transform event lists transform fields only. *)
Definition wf_trs (ev : event) : Prop :=
  is_trs ev = true -> Forall (fun f => f ∈ TRS_FIELDS) (fields_of ev).

#[local] Instance write_all_proper k g fs : Proper ((≡) ==> (≡)) (write_all k g fs).
Proof.
  induction fs as [|f fs IH]; intros s1 s2 Hs; simpl; [done|]. apply IH. by rewrite Hs.
Qed.

#[local] Instance apply_one_proper : Proper ((≡) ==> (=) ==> (≡)) apply_one.
Proof.
  intros s1 s2 Hs e ? <-. unfold apply_one. destruct (is_trs e); by rewrite Hs.
Qed.

#[local] Instance run_proper l : Proper ((≡) ==> (≡)) (run l).
Proof.
  induction l as [|e l IH]; intros s1 s2 Hs; simpl; [done|]. apply IH. by rewrite Hs.
Qed.

Lemma run_app l1 l2 s : run (l1 ++ l2) s = run l2 (run l1 s).
Proof. apply foldl_app. Qed.

Lemma write_all_app k g fs fs' s :
  write_all k g (fs ++ fs') s = write_all k g fs' (write_all k g fs s).
Proof. apply foldl_app. Qed.

Lemma write_all_ext k g g' fs s :
  (forall f, f ∈ fs -> g f = g' f) -> write_all k g fs s = write_all k g' fs s.
Proof.
  revert s; induction fs as [|f fs IH]; intros s Hg; simpl; [done|].
  rewrite (Hg f) by set_solver. apply IH. set_solver.
Qed.

(** A write is absorbed by later writes to the same channel. *)
Lemma write_all_absorb k g fs f v s :
  f ∈ fs -> write_all k g fs (write k f v s) ≡ write_all k g fs s.
Proof.
  revert s; induction fs as [|f' fs IH]; intros s Hin; simpl; [set_solver|].
  destruct (decide (f = f')) as [<-|Hne].
  - by rewrite write_overwrites.
  - rewrite write_commutes by congruence. apply IH. set_solver.
Qed.

Lemma write_all_commute k g fs f s :
  write k f (g f) (write_all k g fs s) ≡ write_all k g fs (write k f (g f) s).
Proof.
  revert s; induction fs as [|f' fs IH]; intros s; simpl; [done|].
  rewrite IH. destruct (decide (f = f')) as [<-|Hne]; [done|].
  by rewrite write_commutes by congruence.
Qed.

Lemma write_all_absorb_all k g g' fs fs' s :
  (forall f, f ∈ fs' -> f ∈ fs) ->
  write_all k g fs (write_all k g' fs' s) ≡ write_all k g fs s.
Proof.
  revert s; induction fs' as [|f fs' IH]; intros s Hsub; simpl; [done|].
  rewrite IH by set_solver. apply write_all_absorb. set_solver.
Qed.

Lemma write_all_again k g fs fs' s :
  (forall f, f ∈ fs' -> f ∈ fs) -> write_all k g fs' (write_all k g fs s) ≡ write_all k g fs s.
Proof.
  revert s; induction fs' as [|f fs' IH]; intros s Hsub; simpl; [done|].
  rewrite write_all_commute, IH by set_solver. apply write_all_absorb. set_solver.
Qed.

(** Only the set of fields matters. *)
Lemma write_all_same k g fs fs' s :
  (forall f, f ∈ fs <-> f ∈ fs') -> write_all k g fs s ≡ write_all k g fs' s.
Proof.
  intros Hsame. rewrite <-(write_all_absorb_all k g g fs fs') by naive_solver.
  apply write_all_again. naive_solver.
Qed.

Lemma write_all_other_key k k' g g' fs fs' s :
  k ≠ k' -> write_all k g fs (write_all k' g' fs' s) ≡ write_all k' g' fs' (write_all k g fs s).
Proof.
  intros Hk. revert s; induction fs as [|f fs IH]; intros s; simpl; [done|].
  rewrite <-IH. apply write_all_proper.
  clear IH. revert s; induction fs' as [|f' fs' IH]; intros s; simpl; [done|].
  rewrite IH. by rewrite write_commutes by congruence.
Qed.

Lemma write_all_past k g fs f v s :
  f ∉ fs -> write_all k g fs (write k f v s) ≡ write k f v (write_all k g fs s).
Proof.
  revert s; induction fs as [|f' fs IH]; intros s Hf; simpl; [done|].
  rewrite write_commutes by set_solver. apply IH. set_solver.
Qed.

(** What was written before to fields that are written again is irrelevant. *)
Lemma write_all_agree k g1 g2 h fs fs' s :
  (forall f, f ∈ fs' -> f ∉ fs -> g1 f = g2 f) ->
  write_all k h fs (write_all k g1 fs' s) ≡ write_all k h fs (write_all k g2 fs' s).
Proof.
  intros Hg. induction fs' as [|f fs' IH] using rev_ind; [done|].
  rewrite !write_all_app. simpl. destruct (decide (f ∈ fs)).
  - rewrite !write_all_absorb by done. apply IH. set_solver.
  - rewrite !write_all_past by done. rewrite (Hg f) by set_solver. rewrite IH; [done|set_solver].
Qed.

(** *** merge_into *)

Lemma foldl_insert_lookup ev fs (p : event) x :
  foldl (fun p f => <[f := py_get ev f]> p) p fs !! x =
  if decide (x ∈ fs) then Some (py_get ev x) else p !! x.
Proof.
  revert p; induction fs as [|f fs IH]; intros p.
  { rewrite decide_False by set_solver. done. }
  change (foldl _ p (f :: fs)) with (foldl (fun p f => <[f := py_get ev f]> p) (<[f := py_get ev f]> p) fs).
  rewrite IH. destruct (decide (x ∈ fs)).
  - rewrite decide_True by set_solver. done.
  - destruct (decide (x = f)) as [->|].
    + rewrite decide_True, lookup_insert_eq by set_solver. done.
    + rewrite decide_False, lookup_insert_ne by set_solver. done.
Qed.

Lemma merge_into_lookup p ev x :
  merge_into p ev !! x =
  if decide (x ∈ fields_of ev) then Some (py_get ev x)
  else if decide (x = "fields") then
    Some (PList (map PStr (filter (fun f => f ∈ fields_of p ++ fields_of ev) TRS_FIELDS)))
  else p !! x.
Proof.
  unfold merge_into. rewrite foldl_insert_lookup. destruct (decide (x ∈ _)); [done|].
  destruct (decide (x = "fields")) as [->|]; [by rewrite lookup_insert_eq|].
  by rewrite lookup_insert_ne.
Qed.

Lemma omap_PStr l : omap (fun v => match v with PStr s => Some s | _ => None end) (map PStr l) = l.
Proof. induction l; simpl; by f_equal. Qed.

Section merge_into.
Context (p ev : event) (Hp : is_trs p = true) (Hev : is_trs ev = true).
Context (Wp : wf_trs p) (Wev : wf_trs ev) (Hkey : key_of p = key_of ev).

Lemma trs_field_ne f x : f ∈ fields_of ev -> x ∉ TRS_FIELDS -> x ≠ f.
Proof using Hev Wev.
  clear Wp Hkey Hp.
  intros Hf Hx ->. specialize (Wev Hev). rewrite Forall_forall in Wev. auto.
Qed.

Lemma merge_into_meta x : x ∉ TRS_FIELDS -> x ≠ "fields" -> merge_into p ev !! x = p !! x.
Proof using Hev Wev.
  clear Wp Hkey Hp.
  intros Hx Hf. rewrite merge_into_lookup, !decide_False; [done..|].
  intros Hin. by apply (trs_field_ne x x Hin).
Qed.

Lemma merge_into_is_trs : is_trs (merge_into p ev) = true.
Proof using Hev Wev Hp.
  clear Wp Hkey.
  unfold is_trs. rewrite merge_into_meta; [done|set_solver|done].
Qed.

Lemma merge_into_key : key_of (merge_into p ev) = key_of p.
Proof using Hev Wev.
  clear Wp Hkey Hp.
  unfold key_of, py_get. rewrite !merge_into_meta by set_solver. done.
Qed.

Lemma merge_into_fields :
  fields_of (merge_into p ev) =
  filter (fun f => f ∈ fields_of p ++ fields_of ev) TRS_FIELDS.
Proof using Hev Wev.
  clear Wp Hkey Hp.
  unfold fields_of at 1. rewrite merge_into_lookup, decide_False.
  - rewrite decide_True by done. apply omap_PStr.
  - intros Hin. by apply (trs_field_ne "fields" "fields" Hin); [set_solver|].
Qed.

Lemma merge_into_wf : wf_trs (merge_into p ev).
Proof using Hev Wev.
  clear Wp Hkey Hp.
  intros _. rewrite merge_into_fields. apply Forall_forall. intros f Hf.
  by apply list_elem_of_filter in Hf as [_ ?].
Qed.

Lemma merge_into_apply s : apply_one s (merge_into p ev) ≡ apply_one (apply_one s p) ev.
Proof using All.
  unfold apply_one. rewrite merge_into_is_trs, Hp, Hev, merge_into_key, merge_into_fields, <-Hkey.
  assert (forall f, f ∈ fields_of p ++ fields_of ev ->  f ∈ TRS_FIELDS) as Hsub.
  { specialize (Wp Hp). specialize (Wev Hev). rewrite Forall_forall in Wp, Wev.
    intros f [|]%elem_of_app; auto. }
  set (g := py_get (merge_into p ev)).
  rewrite (write_all_same _ g _ (fields_of p ++ fields_of ev)).
  2:{ intros f. rewrite list_elem_of_filter. naive_solver. }
  rewrite write_all_app.
  rewrite (write_all_ext _ g (py_get ev) (fields_of ev)).
  2:{ intros f Hf. unfold g, py_get at 1. by rewrite merge_into_lookup, decide_True. }
  apply write_all_agree. intros f Hfp Hf. unfold g, py_get.
  rewrite merge_into_lookup, decide_False by done.
  rewrite decide_False; [done|]. intros ->.
  assert ("fields" ∈ TRS_FIELDS) by (apply Hsub; set_solver). set_solver.
Qed.
End merge_into.

(** *** Candidates *)

(** Every candidate is the index of a transform event of its key, followed
    only by transform events of other keys. *)
Definition cand_ok (pending : list event) (c : candidates) : Prop :=
  forall k i, cand_get c k = Some i ->
  exists l1 p l2, pending = l1 ++ p :: l2 /\ length l1 = i /\ is_trs p = true /\ key_of p = k
    /\ Forall (fun e => is_trs e = true /\ key_of e ≠ k) l2.

Lemma cand_ok_nil pending : cand_ok pending [].
Proof. by intros ??. Qed.

Lemma cand_ok_snoc pending c ev :
  cand_ok pending c -> is_trs ev = true ->
  cand_ok (pending ++ [ev]) ((key_of ev, length pending) :: c).
Proof.
  intros Hc Hev k i. simpl. destruct (decide (key_of ev = k)) as [Hk|Hk].
  - intros [= <-]. exists pending, ev, []. done.
  - intros (l1 & p & l2 & -> & Hi & Hp & Hpk & Hl2)%Hc.
    exists l1, p, (l2 ++ [ev]). rewrite <-app_assoc. split_and!; auto.
    apply Forall_app; auto.
Qed.

Lemma scan_pending_ok done_ pending c :
  cand_ok done_ c -> cand_ok (done_ ++ pending) (scan_pending (length done_) c pending).
Proof.
  revert done_ c; induction pending as [|ev pending IH]; intros done_ c Hc; simpl.
  - by rewrite app_nil_r.
  - specialize (IH (done_ ++ [ev])). rewrite length_app, Nat.add_1_r, <-app_assoc in IH.
    apply IH. destruct (is_trs ev) eqn:Hev; [by apply cand_ok_snoc|apply cand_ok_nil].
Qed.

Lemma cand_ok_merge l1 p l2 c ev :
  is_trs p = true -> is_trs ev = true -> wf_trs ev ->
  cand_ok (l1 ++ p :: l2) c -> cand_ok (l1 ++ merge_into p ev :: l2) c.
Proof.
  intros Hp Hev Wev Hc k i Hi.
  set (same := fun a b : event => is_trs a = is_trs b /\ key_of a = key_of b).
  assert (Forall2 same (l1 ++ p :: l2) (l1 ++ merge_into p ev :: l2)) as Hsame.
  { apply Forall2_app; [|apply Forall2_cons; split].
    - apply Forall2_same_length_lookup_2; [done|]. intros; by simplify_eq.
    - split; [by rewrite Hp, merge_into_is_trs|by rewrite merge_into_key].
    - apply Forall2_same_length_lookup_2; [done|]. intros; by simplify_eq. }
  destruct (Hc k i Hi) as (m1 & q & m2 & Heq & Hlen & Hq & Hqk & Hm2).
  rewrite Heq in Hsame.
  apply Forall2_app_inv_l in Hsame as (n1 & n2' & Hn1 & Hn2 & ->).
  apply Forall2_cons_inv_l in Hn2 as (q' & n2 & [Hq1 Hq2] & Hn2 & ->).
  exists n1, q', n2. split_and!; [done|by rewrite <-(Forall2_length _ _ _ Hn1)|congruence..|].
  clear -Hn2 Hm2. induction Hn2 as [|a b ? ? [Ha Hb] ? IH]; [constructor|].
  apply Forall_cons in Hm2 as [[??] ?]. constructor; [|by apply IH]. by rewrite <-Ha, <-Hb.
Qed.

Lemma run_past_other_keys l ev s :
  is_trs ev = true -> Forall (fun e => is_trs e = true /\ key_of e ≠ key_of ev) l ->
  apply_one (run l s) ev ≡ run l (apply_one s ev).
Proof.
  intros Hev Hl. revert s; induction Hl as [|e l [He Hk] _ IH]; intros s; simpl; [done|].
  rewrite IH. apply run_proper. unfold apply_one. rewrite He, Hev.
  by apply write_all_other_key.
Qed.

Lemma alter_middle (f : event -> event) l1 p l2 :
  alter f (length l1) (l1 ++ p :: l2) = l1 ++ f p :: l2.
Proof.
  rewrite alter_app_r_alt by lia. by rewrite Nat.sub_diag.
Qed.

Lemma merge_step_spec pending c ev s :
  wf_trs ev -> Forall wf_trs pending -> cand_ok pending c ->
  let '(pending', c') := merge_step (pending, c) ev in
  Forall wf_trs pending' /\ cand_ok pending' c' /\ run pending' s ≡ run (pending ++ [ev]) s.
Proof.
  intros Wev Wp Hc. unfold merge_step. destruct (is_trs ev) eqn:Hev; simpl.
  2:{ split_and!; [apply Forall_app; auto|apply cand_ok_nil|done]. }
  destruct (cand_get c (key_of ev)) as [i|] eqn:Hi.
  - destruct (Hc _ _ Hi) as (l1 & p & l2 & -> & <- & Hp & Hkey & Hl2).
    rewrite alter_middle. apply Forall_app in Wp as [W1 [W2 W3]%Forall_cons]. split_and!.
    + apply Forall_app; split; [done|]. apply Forall_cons; split; [|done]. by apply merge_into_wf.
    + by apply cand_ok_merge.
    + rewrite !run_app. simpl. fold (run l2 (apply_one (run l1 s) p)).
      rewrite (run_past_other_keys l2 ev) by done.
      apply run_proper. by apply merge_into_apply.
  - split_and!; [apply Forall_app; auto|by apply cand_ok_snoc|done].
Qed.

Lemma merge_loop_spec incoming pending c s :
  Forall wf_trs incoming -> Forall wf_trs pending -> cand_ok pending c ->
  run (fst (foldl merge_step (pending, c) incoming)) s ≡ run (pending ++ incoming) s.
Proof.
  revert pending c; induction incoming as [|ev incoming IH]; intros pending c Wi Wp Hc.
  - by rewrite app_nil_r.
  - apply Forall_cons in Wi as [Wev Wi].
    change (foldl merge_step (pending, c) (ev :: incoming))
      with (foldl merge_step (merge_step (pending, c) ev) incoming).
    pose proof (merge_step_spec pending c ev s Wev Wp Hc) as Hstep.
    destruct (merge_step (pending, c) ev) as [pending' c']. destruct Hstep as (Wp' & Hc' & Hrun).
    rewrite (IH pending' c') by done. rewrite run_app, Hrun, <-run_app, <-app_assoc. done.
Qed.

(** sending the merged list has the effect of sending the pending events
    and then the incoming ones, whatever the other events do to the stage. *)
Theorem merge_preserves_effect pending incoming s :
  Forall wf_trs pending -> Forall wf_trs incoming ->
  run (merge_latest_transform_events pending incoming) s ≡ run (pending ++ incoming) s.
Proof.
  intros Wp Wi. apply merge_loop_spec; [done..|].
  apply (scan_pending_ok [] pending []). apply cand_ok_nil.
Qed.
End semantics.

(** ** A concrete stage, for the witness: each channel's value, and the other
    events in arrival order with the channels they saw. *)
Record demo_state := mk_demo {
  channel : trs_key -> string -> pyval;
  seen : list (event * list pyval) }.

Definition demo_probe : list (trs_key * string) :=
  [((PStr "/A", PNone), "t"); ((PStr "/A", PNone), "r")].

#[global] Instance demo_equiv : Equiv demo_state := fun a b =>
  (forall k f, channel a k f = channel b k f) /\ seen a = seen b.

#[global] Program Instance demo_transform_state : TransformState demo_state := {
  write k f v s := mk_demo (fun k' f' => if decide ((k', f') = (k, f)) then v else channel s k' f')
                           (seen s);
  other ev s := mk_demo (channel s) (seen s ++ [(ev, map (fun p => channel s p.1 p.2) demo_probe)]);
}.
Next Obligation.
  split.
  - by intros s.
  - intros s1 s2 [H1 H2]. by split.
  - intros s1 s2 s3 [H1 H2] [H3 H4]. split; [intros; by rewrite H1|congruence].
Qed.
Next Obligation. intros k f v s1 s2 [H1 H2]. split; [intros; simpl; by rewrite H1|done]. Qed.
Next Obligation.
  intros ev s1 s2 [H1 H2]. split; [done|]. simpl. by rewrite H2, !H1.
Qed.
Next Obligation. intros k f v v' s. split; [|done]. intros k' f'. simpl. by case_decide. Qed.
Next Obligation.
  intros k f v k' f' v' s Hne. split; [|done]. intros k'' f''. simpl.
  destruct (decide ((k'', f'') = (k, f))), (decide ((k'', f'') = (k', f'))); congruence.
Qed.

Definition demo_trs (prim : string) (vals : list (string * Z)) : event :=
  <["k" := PStr K_SET_XFORM_TRS]> (<["prim" := PStr prim]>
    (<["fields" := PList (map (fun p => PStr p.1) vals)]>
      (list_to_map (map (fun p => (p.1, PInt p.2)) vals)))).

Definition demo_barrier : event := {["k" := PStr "set_visibility"]}.

Definition demo_pending : list event := [demo_barrier; demo_trs "/A" [("t", 1%Z)]; demo_trs "/B" [("s", 7%Z)]].
Definition demo_incoming : list event := [demo_trs "/A" [("r", 2%Z); ("t", 3%Z)]; demo_barrier].

Example demo_merge_shape :
  length (merge_latest_transform_events demo_pending demo_incoming) = 4.
Proof. vm_compute. reflexivity. Qed.

Lemma demo_wf : Forall wf_trs demo_pending /\ Forall wf_trs demo_incoming.
Proof.
  unfold demo_pending, demo_incoming.
  split; repeat apply Forall_cons_2; try apply Forall_nil_2; intros _;
    apply (bool_decide_eq_true_1 _); vm_compute; reflexivity.
Qed.

Lemma merge_preserves_effect_witness :
  run (merge_latest_transform_events demo_pending demo_incoming) (mk_demo (fun _ _ => PNone) [])
  ≡ run (demo_pending ++ demo_incoming) (mk_demo (fun _ _ => PNone) []).
Proof.
  apply (merge_preserves_effect demo_pending demo_incoming (mk_demo (fun _ _ => PNone) [])).
  - apply demo_wf.
  - apply demo_wf.
Defined.
