(* ===== verification/EventStore.v ===== *)
(** * EventStore: the durable event log ([openusdconnect/event_store.py])

    [EventStore] is the interface the journal and the commit worker are proved
    against; [Sqlite] models [SqliteEventStore] and discharges it.  A database
    is its three tables.  SQLite is used through its documented statement
    semantics: a transaction works on the tables row by row, a constraint
    violation raises, and [rollback] restores the tables of [BEGIN]. *)

From S2P Require Import Prelude Framing.

(** ** Rows *)

(** [(seq, record_bin, client_id, kind, prim)] *)
Record store_row := mk_row {
  row_seq : Z; row_bin : bytes;
  row_client : option string; row_kind : option string; row_prim : option string }.

Record ProducerProgress := mk_progress {
  pp_client : string; pp_session : string; committed_through : Z }.

Record LayerIdentity := mk_identity { li_identifier : string; li_layer_key : string }.

Abbreviation producer := (string * string)%type.

Definition pp_producer (p : ProducerProgress) : producer := (pp_client p, pp_session p).

(** ** The interface

    [events_of] is the log the store holds; the laws are the contract stated in
    the docstrings of the abstract class. *)
Definition progress_max (m : gmap producer Z) (p : ProducerProgress) : gmap producer Z :=
  <[pp_producer p :=
      match m !! pp_producer p with
      | Some old => Z.max old (committed_through p)
      | None => committed_through p
      end]> m.

Definition rows_insert (m : gmap Z store_row) (r : store_row) : gmap Z store_row :=
  <[row_seq r := r]> m.

(** Inserting rows whose sequence numbers are new and distinct. *)
Fixpoint rows_fresh (m : gmap Z store_row) (rows : list store_row) : Prop :=
  match rows with
  | [] => True
  | r :: rows => m !! row_seq r = None /\ rows_fresh (rows_insert m r) rows
  end.

Class EventStore (St : Type) := {
  append_batch : list store_row -> list ProducerProgress -> list LayerIdentity -> M St unit;
  clear_and_rewrite : list store_row -> bool -> M St unit;
  get_producer_progress : St -> string -> string -> Z;
  get_max_seq : St -> Z;
  get_count : St -> Z;
  get_all_asc : St -> list (Z * bytes);
  get_from_seq_bin : St -> Z -> option Z -> list bytes;
  get_from_seq_asc : St -> Z -> list (Z * bytes);

  events_of : St -> gmap Z store_row;
  progress_of : St -> gmap producer Z;

  append_batch_atomic st rows pp li st' e :
    append_batch rows pp li st = (st', Err e) -> st' = st;
  append_batch_events st rows pp li st' :
    append_batch rows pp li st = (st', Ok ()) ->
    rows_fresh (events_of st) rows
    /\ events_of st' = foldl rows_insert (events_of st) rows
    /\ progress_of st' = foldl progress_max (progress_of st) pp;
  clear_and_rewrite_atomic st rows cp st' e :
    clear_and_rewrite rows cp st = (st', Err e) -> st' = st;
  clear_and_rewrite_events st rows cp st' :
    clear_and_rewrite rows cp st = (st', Ok ()) ->
    rows_fresh ∅ rows
    /\ events_of st' = foldl rows_insert ∅ rows
    /\ progress_of st' = if cp then ∅ else progress_of st;
  get_producer_progress_spec st c s :
    get_producer_progress st c s = default 0%Z (progress_of st !! (c, s));
  get_max_seq_spec st :
    (forall q, is_Some (events_of st !! q) -> (q ≤ get_max_seq st)%Z)
    /\ (events_of st = ∅ /\ get_max_seq st = 0%Z \/ is_Some (events_of st !! get_max_seq st));
  get_count_spec st : get_count st = Z.of_nat (size (events_of st));
  get_all_asc_spec st :
    get_all_asc st = map (fun p => (p.1, row_bin p.2)) (by_key (events_of st));
  get_from_seq_bin_spec st a b :
    get_from_seq_bin st a b =
    map (fun p => row_bin p.2)
      (filter (fun p => a ≤ p.1 /\ p.1 ≤ default p.1 b)%Z (by_key (events_of st)));
  get_from_seq_asc_spec st a :
    get_from_seq_asc st a =
    map (fun p => (p.1, row_bin p.2)) (filter (fun p => a ≤ p.1)%Z (by_key (events_of st)));
}.

(** ** SqliteEventStore *)
Module Sqlite.

Record db := mk_db {
  events : gmap Z store_row;
  producer_sessions : gmap producer Z;
  shared_layer_identities : gmap string string }.

(** *** Statements *)

(** [INSERT INTO events ...]: [seq] is the primary key. *)
Definition insert_event (r : store_row) : M db unit := fun d =>
  match events d !! row_seq r with
  | Some _ => (d, Err IntegrityError)
  | None => (mk_db (rows_insert (events d) r) (producer_sessions d) (shared_layer_identities d), Ok ())
  end.

(** [INSERT ... ON CONFLICT DO UPDATE SET committed_through = MAX(...)]. *)
Definition upsert_progress (p : ProducerProgress) : M db unit :=
  modify (fun d => mk_db (events d) (progress_max (producer_sessions d) p) (shared_layer_identities d)).

(** [INSERT ... ON CONFLICT(identifier) DO UPDATE SET layer_key = ...] under the
    [UNIQUE] constraint on [layer_key] and the immutability trigger. *)
Definition upsert_identity (i : LayerIdentity) : M db unit := fun d =>
  let ids := shared_layer_identities d in
  let put := mk_db (events d) (producer_sessions d) (<[li_identifier i := li_layer_key i]> ids) in
  match ids !! li_identifier i with
  | Some old => if decide (old = li_layer_key i) then (d, Ok ()) else (d, Err IntegrityError)
  | None =>
      if decide (map_Exists (fun _ k => k = li_layer_key i) ids)
      then (d, Err IntegrityError) else (put, Ok ())
  end.

Definition executemany {A} (stmt : A -> M db unit) (l : list A) : M db unit :=
  iterM stmt l.

(** [try: BEGIN; body; COMMIT  except: ROLLBACK; raise] *)
Definition transaction (body : M db unit) : M db unit := fun d =>
  try_catch body (fun e _ => (d, Err e)) d.

(** *** Operations *)

Definition append (r : store_row) : M db unit := transaction (insert_event r).

Definition append_batch (records : list store_row) (producer_progress : list ProducerProgress)
    (layer_identities : list LayerIdentity) : M db unit :=
  match records, producer_progress, layer_identities with
  | [], [], [] => mret ()
  | _, _, _ =>
      transaction
        (_ ← executemany insert_event records;
         _ ← executemany upsert_progress producer_progress;
         executemany upsert_identity layer_identities)
  end.

Definition get_layer_identities (d : db) : list LayerIdentity :=
  map (fun p => mk_identity p.1 p.2) (sorted_items (shared_layer_identities d)).

Definition get_producer_progress (d : db) (client_id session_id : string) : Z :=
  default 0%Z (producer_sessions d !! (client_id, session_id)).

(** [SELECT MAX(seq)], [0] when the table is empty. *)
Definition get_max_seq (d : db) : Z :=
  match last (by_key (events d)) with Some p => p.1 | None => 0%Z end.

Definition get_count (d : db) : Z := Z.of_nat (size (events d)).

Definition get_all_asc (d : db) : list (Z * bytes) :=
  map (fun p => (p.1, row_bin p.2)) (by_key (events d)).

Definition get_from_seq_bin (d : db) (seq_start : Z) (seq_end : option Z) : list bytes :=
  match seq_end with
  | None =>
      map (fun p => row_bin p.2) (filter (fun p => seq_start ≤ p.1)%Z (by_key (events d)))
  | Some seq_end =>
      map (fun p => row_bin p.2)
        (filter (fun p => seq_start ≤ p.1 /\ p.1 ≤ seq_end)%Z (by_key (events d)))
  end.

Definition get_from_seq_asc (d : db) (seq_start : Z) : list (Z * bytes) :=
  map (fun p => (p.1, row_bin p.2)) (filter (fun p => seq_start ≤ p.1)%Z (by_key (events d))).

(** [query]: [like pattern text] is SQLite's [LIKE], [pattern] being the
    user's text between two [%]. *)
Definition query (like : string -> string -> bool) (d : db) (offset limit : nat)
    (kind prim_contains : string) : list bytes * Z :=
  let matching :=
    filter (fun p => (kind = "" \/ row_kind p.2 = Some kind)
                     /\ (prim_contains = "" \/
                         default false (like (("%" +:+ prim_contains) +:+ "%") <$> row_prim p.2)
                         = true)) (by_key (events d)) in
  (map (fun p => row_bin p.2) (take limit (drop offset (reverse matching))),
   Z.of_nat (length matching)).

(** The UTF-8 encoding of U+FFFF; text compares bytewise in SQLite. *)
Definition U_FFFF : string :=
  String (Ascii.ascii_of_nat 239) (String (Ascii.ascii_of_nat 191) (String (Ascii.ascii_of_nat 191) "")).

(** [prim >= ? AND prim < ?], false on [NULL]. *)
Definition prim_in_range (lo hi : string) (prim : option string) : bool :=
  match prim with Some p => String.leb lo p && String.ltb p hi | None => false end.

Definition get_by_prim_prefix (d : db) (prefix : string) (kinds : gset string) : list bytes :=
  if decide (kinds = ∅) then []
  else
    let upper := prefix +:+ U_FFFF in
    map (fun p => row_bin p.2)
      (filter (fun p => prim_in_range prefix upper (row_prim p.2) = true
                        /\ default false ((fun k => bool_decide (k ∈ kinds)) <$> row_kind p.2) = true)
              (by_key (events d))).

Definition clear_and_rewrite (records : list store_row) (clear_producers : bool) : M db unit :=
  transaction
    (_ ← modify (fun d => mk_db ∅ (producer_sessions d) (shared_layer_identities d));
     _ ← modify (fun d => if clear_producers
                          then mk_db (events d) ∅ (shared_layer_identities d) else d);
     executemany insert_event records).

End Sqlite.

(** ** Lemmas *)

Module SqliteFacts.
Import Sqlite.

Lemma executemany_cons {A} (stmt : A -> M db unit) x l d d' :
  executemany stmt (x :: l) d = (d', Ok ()) <->
  exists d1, stmt x d = (d1, Ok ()) /\ executemany stmt l d1 = (d', Ok ()).
Proof. apply iterM_cons. Qed.

Lemma executemany_nil {A} (stmt : A -> M db unit) d d' :
  executemany stmt [] d = (d', Ok ()) <-> d' = d.
Proof. unfold executemany, iterM, mret, M_ret. naive_solver. Qed.

Lemma insert_events_ok rows d d' :
  executemany insert_event rows d = (d', Ok ()) <->
  rows_fresh (events d) rows
  /\ d' = mk_db (foldl rows_insert (events d) rows) (producer_sessions d) (shared_layer_identities d).
Proof.
  revert d; induction rows as [|r rows IH]; intros d.
  - rewrite executemany_nil. destruct d; naive_solver.
  - rewrite executemany_cons. unfold insert_event. simpl.
    destruct (events d !! row_seq r); split.
    + naive_solver.
    + naive_solver.
    + intros (d1 & [= <-] & H%IH). naive_solver.
    + intros [[_ Hf] ->]. eexists; split; [done|]. by apply IH.
Qed.

Lemma upsert_progresses_ok pp d d' :
  executemany upsert_progress pp d = (d', Ok ()) <->
  d' = mk_db (events d) (foldl progress_max (producer_sessions d) pp) (shared_layer_identities d).
Proof.
  revert d; induction pp as [|p pp IH]; intros d.
  - rewrite executemany_nil. by destruct d.
  - rewrite executemany_cons. unfold upsert_progress at 1, modify. split.
    + intros (d1 & [= <-] & H%IH). done.
    + intros ->. eexists; split; [done|]. by apply IH.
Qed.

(** The identity table is a partial injection that only grows. *)
Definition identities_injective (ids : gmap string string) : Prop :=
  forall i1 i2 k, ids !! i1 = Some k -> ids !! i2 = Some k -> i1 = i2.

Lemma upsert_identities_ok li d d' :
  executemany upsert_identity li d = (d', Ok ()) ->
  events d' = events d /\ producer_sessions d' = producer_sessions d
  /\ shared_layer_identities d ⊆ shared_layer_identities d'
  /\ Forall (fun i => shared_layer_identities d' !! li_identifier i = Some (li_layer_key i)) li
  /\ (identities_injective (shared_layer_identities d) ->
      identities_injective (shared_layer_identities d')).
Proof.
  revert d; induction li as [|i li IH]; intros d.
  - intros ->%executemany_nil. split_and!; [done..|constructor|done].
  - rewrite executemany_cons. intros (d1 & Hi & (He & Hp & Hsub & Hall & Hinj)%IH).
    assert (events d1 = events d /\ producer_sessions d1 = producer_sessions d
      /\ shared_layer_identities d ⊆ shared_layer_identities d1
      /\ shared_layer_identities d1 !! li_identifier i = Some (li_layer_key i)
      /\ (identities_injective (shared_layer_identities d) ->
          identities_injective (shared_layer_identities d1))) as (He1 & Hp1 & Hsub1 & Hi1 & Hinj1).
    { unfold upsert_identity in Hi. destruct (_ !! li_identifier i) as [old|] eqn:Hold.
      - destruct (decide (old = li_layer_key i)) as [->|]; by simplify_eq.
      - destruct (decide (map_Exists _ _)) as [|Hno]; simplify_eq/=. split_and!; [done..| | |].
        + by apply insert_subseteq.
        + by rewrite lookup_insert_eq.
        + intros Hinj' i1 i2 k. apply map_not_Exists in Hno.
          destruct (decide (i1 = li_identifier i)) as [->|], (decide (i2 = li_identifier i)) as [->|];
            rewrite ?lookup_insert_eq, ?lookup_insert_ne by done; intros H1 H2; simplify_eq; [done| | |].
          * by specialize (Hno _ _ H2).
          * by specialize (Hno _ _ H1).
          * eauto. }
    split_and!; [congruence..|by etrans| |tauto].
    constructor; [|done]. by eapply lookup_weaken.
Qed.

Lemma transaction_ok body d d' : transaction body d = (d', Ok ()) <-> body d = (d', Ok ()).
Proof. unfold transaction, try_catch. destruct (body d) as [? [[]|]]; naive_solver. Qed.

Lemma transaction_err body d d' e : transaction body d = (d', Err e) -> d' = d.
Proof. unfold transaction, try_catch. destruct (body d) as [? [[]|]]; naive_solver. Qed.

Lemma append_batch_ok rows pp li d d' :
  append_batch rows pp li d = (d', Ok ()) ->
  rows_fresh (events d) rows
  /\ events d' = foldl rows_insert (events d) rows
  /\ producer_sessions d' = foldl progress_max (producer_sessions d) pp
  /\ shared_layer_identities d ⊆ shared_layer_identities d'
  /\ Forall (fun i => shared_layer_identities d' !! li_identifier i = Some (li_layer_key i)) li
  /\ (identities_injective (shared_layer_identities d) ->
      identities_injective (shared_layer_identities d')).
Proof.
  intros H.
  assert (rows = [] /\ pp = [] /\ li = [] /\ d' = d \/
          (_ ← executemany insert_event rows;
           _ ← executemany upsert_progress pp;
           executemany upsert_identity li) d = (d', Ok ())) as [(-> & -> & -> & ->)|H'].
  { unfold append_batch in H. destruct rows, pp, li; try (right; by apply transaction_ok). }
  { split_and!; [done..|constructor|done]. }
  inv_M H'. destruct x. apply insert_events_ok in H'0 as [Hf ->].
  inv_M H'. destruct x. apply upsert_progresses_ok in H'0 as ->.
  apply upsert_identities_ok in H' as (He & Hp & Hsub & Hall & Hinj). naive_solver.
Qed.

Lemma append_batch_err rows pp li d d' e : append_batch rows pp li d = (d', Err e) -> d' = d.
Proof.
  unfold append_batch. destruct rows, pp, li; try apply transaction_err. by intros [= <-].
Qed.

Lemma clear_and_rewrite_ok rows cp d d' :
  clear_and_rewrite rows cp d = (d', Ok ()) <->
  rows_fresh ∅ rows
  /\ d' = mk_db (foldl rows_insert ∅ rows) (if cp then ∅ else producer_sessions d)
            (shared_layer_identities d).
Proof.
  unfold clear_and_rewrite. rewrite transaction_ok. unfold mbind at 1 2, M_bind, modify.
  rewrite insert_events_ok. by destruct cp.
Qed.

Lemma get_max_seq_ok d :
  (forall q, is_Some (events d !! q) -> (q ≤ get_max_seq d)%Z)
  /\ (events d = ∅ /\ get_max_seq d = 0%Z \/ is_Some (events d !! get_max_seq d)).
Proof.
  unfold get_max_seq.
  destruct (last (by_key (events d))) as [[k v]|] eqn:Hl.
  - apply last_Some in Hl as [l Hl]. pose proof (by_key_sorted (events d)) as Hs. rewrite Hl in Hs.
    split.
    + intros q [w Hq]. apply elem_of_by_key in Hq. rewrite Hl in Hq.
      apply elem_of_app in Hq as [Hq|Hq%list_elem_of_singleton]; [|by simplify_eq/=].
      assert (key_le (q, w) (k, v)) as Hle by (eapply StronglySorted_app_1_elem_of; [done..|set_solver]).
      done.
    + right. exists v. apply elem_of_by_key. rewrite Hl. set_solver.
  - apply last_None in Hl. assert (events d = ∅) as ->.
    { apply map_empty. intros k. destruct (events d !! k) eqn:Hk; [|done].
      apply elem_of_by_key in Hk. rewrite Hl in Hk. set_solver. }
    split; [|by left]. intros q [? Hq]. by rewrite lookup_empty in Hq.
Qed.

End SqliteFacts.

#[export] Program Instance sqlite_event_store : EventStore Sqlite.db := {
  append_batch := Sqlite.append_batch;
  clear_and_rewrite := Sqlite.clear_and_rewrite;
  get_producer_progress := Sqlite.get_producer_progress;
  get_max_seq := Sqlite.get_max_seq;
  get_count := Sqlite.get_count;
  get_all_asc := Sqlite.get_all_asc;
  get_from_seq_bin := Sqlite.get_from_seq_bin;
  get_from_seq_asc := Sqlite.get_from_seq_asc;
  events_of := Sqlite.events;
  progress_of := Sqlite.producer_sessions;
}.
Next Obligation. intros. by eapply SqliteFacts.append_batch_err. Qed.
Next Obligation. intros ????? (?&?&?&_)%SqliteFacts.append_batch_ok. done. Qed.
Next Obligation. intros ????? H. by eapply SqliteFacts.transaction_err. Qed.
Next Obligation. by intros ???? [? ->]%SqliteFacts.clear_and_rewrite_ok. Qed.
Next Obligation. done. Qed.
Next Obligation. intros. apply SqliteFacts.get_max_seq_ok. Qed.
Next Obligation. done. Qed.
Next Obligation. done. Qed.
Next Obligation.
  intros d a [b|]; simpl; [done|]. f_equal.
  apply list_filter_iff. intros p. split; [|tauto]. intros ?; split; [done|lia].
Qed.
Next Obligation. done. Qed.

(** ** Properties of SqliteEventStore *)

Section sqlite_properties.
Import Sqlite SqliteFacts.

Lemma progress_max_lookup m p k :
  progress_max m p !! k =
  if decide (k = pp_producer p) then
    Some (match m !! k with Some old => Z.max old (committed_through p) | None => committed_through p end)
  else m !! k.
Proof.
  unfold progress_max. case_decide as Hk.
  - subst. apply lookup_insert_eq.
  - by rewrite lookup_insert_ne.
Qed.

(** Progress never moves backwards. *)
Lemma progress_max_monotone pp m k old :
  m !! k = Some old -> exists new, foldl progress_max m pp !! k = Some new /\ (old ≤ new)%Z.
Proof.
  revert m old; induction pp as [|p pp IH]; intros m old Hm; simpl; [eauto with lia|].
  destruct (IH (progress_max m p)
    (if decide (k = pp_producer p) then Z.max old (committed_through p) else old)) as (new & H & Hle).
  - rewrite progress_max_lookup, Hm. by case_decide.
  - exists new. split; [done|]. case_decide; lia.
Qed.

Lemma progress_max_covers pp m p :
  p ∈ pp -> exists new, foldl progress_max m pp !! pp_producer p = Some new
                        /\ (committed_through p ≤ new)%Z.
Proof.
  revert m; induction pp as [|q pp IH]; intros m; simpl; [by intros ?%not_elem_of_nil|].
  intros [->|Hin]%elem_of_cons; [|by apply IH].
  destruct (progress_max_monotone pp (progress_max m q) (pp_producer q)
    (match m !! pp_producer q with Some old => Z.max old (committed_through q)
     | None => committed_through q end)) as (new & H & Hle).
  - by rewrite progress_max_lookup, decide_True.
  - exists new. split; [done|]. case_match; lia.
Qed.

(** [append_batch] is all or nothing: when it raises, the database is
    unchanged; when it returns, every row was new and is stored, every producer
    named in the batch has reached at least the acknowledged transaction and no
    producer moved backwards, and the layer identities are a one-to-one
    extension of the old ones that contains the given pairs. *)
Theorem append_batch_atomic_and_complete rows pp li d :
  identities_injective (shared_layer_identities d) ->
  match Sqlite.append_batch rows pp li d with
  | (d', Err _) => d' = d
  | (d', Ok _) =>
      rows_fresh (events d) rows /\ events d' = foldl rows_insert (events d) rows
      /\ (forall p, p ∈ pp -> exists n, producer_sessions d' !! pp_producer p = Some n
                                      /\ (committed_through p ≤ n)%Z)
      /\ (forall k n, producer_sessions d !! k = Some n ->
           exists n', producer_sessions d' !! k = Some n' /\ (n ≤ n')%Z)
      /\ shared_layer_identities d ⊆ shared_layer_identities d'
      /\ Forall (fun i => shared_layer_identities d' !! li_identifier i = Some (li_layer_key i)) li
      /\ identities_injective (shared_layer_identities d')
  end.
Proof.
  intros Hinj. destruct (Sqlite.append_batch rows pp li d) as [d' [[]|e]] eqn:H.
  - apply append_batch_ok in H as (Hf & He & Hp & Hsub & Hall & Hi).
    split_and!; auto; rewrite Hp.
    + apply progress_max_covers.
    + apply progress_max_monotone.
  - by apply append_batch_err in H.
Qed.

(** *** Prefix scans *)

Fixpoint below_239 (s : string) : bool :=
  match s with
  | "" => true
  | String a s => (Ascii.N_of_ascii a <? 239)%N && below_239 s
  end.

Lemma ascii_compare_Eq a b : Ascii.compare a b = Eq <-> a = b.
Proof.
  split; [apply Ascii.compare_eq_iff|intros ->]. unfold Ascii.compare. apply N.compare_refl.
Qed.

Lemma prefix_range lo prim : below_239 prim = true ->
  String.leb lo prim && String.ltb prim (lo +:+ U_FFFF) = String.prefix lo prim.
Proof.
  revert prim; induction lo as [|a lo IH]; intros prim Hp.
  - replace (String.leb "" prim) with true by (by destruct prim). simpl.
    destruct prim as [|b prim]; [done|]. simpl in Hp. apply andb_true_iff in Hp as [Hb _].
    unfold String.ltb, U_FFFF. simpl. unfold Ascii.compare.
    replace (Ascii.N_of_ascii (Ascii.ascii_of_nat 239)) with 239%N by (vm_compute; reflexivity).
    apply N.ltb_lt in Hb. rewrite (proj2 (N.compare_lt_iff _ _) Hb). done.
  - destruct prim as [|b prim]; [done|]. simpl in Hp. apply andb_true_iff in Hp as [_ Hp].
    specialize (IH prim Hp). unfold String.leb, String.ltb in *. simpl String.append.
    rewrite !string_compare_cons. simpl.
    destruct (Ascii.ascii_dec a b) as [<-|Hne].
    + by rewrite (proj2 (ascii_compare_Eq a a) eq_refl).
    + destruct (Ascii.compare a b) eqn:Hab; [by apply ascii_compare_Eq in Hab| |done].
      rewrite Ascii.compare_antisym, Hab. done.
Qed.

(** on prim paths made of ASCII characters (more generally, of characters
    below U+F000), the index range scan of [get_by_prim_prefix] selects exactly
    the rows whose path starts with the prefix. *)
Theorem get_by_prim_prefix_exact d prefix kinds :
  (forall q r p, events d !! q = Some r -> row_prim r = Some p -> below_239 p = true) ->
  get_by_prim_prefix d prefix kinds =
  map (fun p => row_bin p.2)
    (filter (fun p => match row_prim p.2 with Some prim => String.prefix prefix prim | None => false end
                      && match row_kind p.2 with Some k => bool_decide (k ∈ kinds) | None => false end
                      = true) (by_key (events d))).
Proof.
  intros Hascii. unfold get_by_prim_prefix. case_decide as Hk.
  - subst. rewrite (list_filter_none _ _); [done|].
    intros [q r] _ [_ H]%andb_true_iff. simpl in H. case_match; [|done].
    apply bool_decide_eq_true in H. set_solver.
  - f_equal. apply list_filter_iff'. intros [q r] Hin. apply elem_of_by_key in Hin. simpl.
    rewrite andb_true_iff. destruct (row_prim r) as [p|] eqn:Hp; simpl; [|naive_solver].
    rewrite (prefix_range prefix p) by eauto. destruct (row_kind r); simpl; naive_solver.
Qed.
End sqlite_properties.

(** *** Replay windows *)

Lemma filter_split_sorted (l : list (Z * store_row)) a b : (a ≤ b + 1)%Z ->
  StronglySorted key_lt l ->
  filter (fun p => a ≤ p.1)%Z l
  = filter (fun p => a ≤ p.1 /\ p.1 ≤ b)%Z l ++ filter (fun p => b + 1 ≤ p.1)%Z l.
Proof.
  intros Hab. induction 1 as [|[q r] l Hs IH Hall]; [done|].
  rewrite !filter_cons. simpl. rewrite IH.
  destruct (decide (a ≤ q)%Z), (decide (a ≤ q ∧ q ≤ b)%Z), (decide (b + 1 ≤ q)%Z); try lia; try done.
  rewrite (list_filter_none (fun p => a ≤ p.1 /\ p.1 ≤ b)%Z); [done|].
  intros [q' r'] Hin. rewrite Forall_forall in Hall. specialize (Hall _ Hin).
  unfold key_lt in Hall. simpl in *. lia.
Qed.

(** a replay of the range [a..b] followed by an open replay from [b + 1] is
    the open replay from [a]: splitting a catch-up at any head neither drops
    nor repeats a record. *)
Theorem replay_window_split (d : Sqlite.db) a b :
  (a ≤ b + 1)%Z ->
  Sqlite.get_from_seq_bin d a None
  = Sqlite.get_from_seq_bin d a (Some b) ++ Sqlite.get_from_seq_bin d (b + 1) None.
Proof.
  intros Hab. unfold Sqlite.get_from_seq_bin. rewrite <-map_app. f_equal.
  apply filter_split_sorted; [done|]. apply by_key_strictly_sorted.
Qed.

(** ** Witnesses *)

Definition demo_row (q : Z) (prim : string) : store_row :=
  mk_row q [] (Some "c") (Some "ensure_prim") (Some prim).

Definition demo_db : Sqlite.db :=
  Sqlite.mk_db (foldl rows_insert ∅ [demo_row 1 "/A"; demo_row 2 "/A/B"; demo_row 3 "/B"])
    {[("c", "s") := 2%Z]} {["anon:1" := "layer:1"]}.

Lemma demo_identities : SqliteFacts.identities_injective (Sqlite.shared_layer_identities demo_db).
Proof.
  intros i1 i2 k H1 H2. simpl in *.
  apply lookup_singleton_Some in H1 as [<- <-]. by apply lookup_singleton_Some in H2 as [<- _].
Qed.

Lemma append_batch_atomic_and_complete_witness :
  exists d', Sqlite.append_batch [demo_row 4 "/C"] [mk_progress "c" "s" 3] [mk_identity "anon:2" "layer:2"]
               demo_db = (d', Ok ())
  /\ SqliteFacts.identities_injective (Sqlite.shared_layer_identities d').
Proof.
  pose proof (append_batch_atomic_and_complete [demo_row 4 "/C"] [mk_progress "c" "s" 3]
    [mk_identity "anon:2" "layer:2"] demo_db demo_identities) as H.
  destruct (Sqlite.append_batch _ _ _ demo_db) as [d' [[]|e]] eqn:E.
  - exists d'. split; [done|]. apply H.
  - exfalso. vm_compute in E. discriminate.
Defined.

Lemma demo_ascii q r p :
  Sqlite.events demo_db !! q = Some r -> row_prim r = Some p -> below_239 p = true.
Proof.
  intros H Hp. apply elem_of_map_to_list, list_elem_of_In in H.
  assert (forallb (fun qr => match row_prim qr.2 with Some p => below_239 p | None => true end)
            (map_to_list (Sqlite.events demo_db)) = true) as Hall by (vm_compute; reflexivity).
  rewrite forallb_forall in Hall. specialize (Hall _ H). simpl in Hall. by rewrite Hp in Hall.
Qed.

Lemma get_by_prim_prefix_exact_witness :
  Sqlite.get_by_prim_prefix demo_db "/A" {["ensure_prim"]} =
  map (fun p => row_bin p.2)
    (filter (fun p => match row_prim p.2 with Some prim => String.prefix "/A" prim | None => false end
      && match row_kind p.2 with
         | Some k => bool_decide (k ∈ ({["ensure_prim"]} : gset string)) | None => false end
      = true) (by_key (Sqlite.events demo_db))).
Proof. exact (get_by_prim_prefix_exact demo_db "/A" {["ensure_prim"]} demo_ascii). Defined.

Lemma replay_window_split_witness :
  Sqlite.get_from_seq_bin demo_db 1 None
  = Sqlite.get_from_seq_bin demo_db 1 (Some 2%Z) ++ Sqlite.get_from_seq_bin demo_db (2 + 1) None.
Proof. apply (replay_window_split demo_db 1 2). lia. Defined.
