(* ===== verification/Journal.v ===== *)
(** * Journal: sequencing and durable history ([openusdconnect/server/journal.py])

    [EventJournal] over any [EventStore].  The commit scope serialises the
    operations, so each is one atomic step on the journal state; a statement
    that raises keeps what it did before ([M]).  The wire encoder
    ([codec.encode_message]) is a parameter that may raise, and the byte
    counters of [WireMetrics], which nothing reads back, are left out.

    Theorems: a reservation that fails restores the sequence counter; encoded
    events carry consecutive sequence numbers in input order; the invariant
    (stored and queued sequence numbers lie below the counter, cached producer
    progress is the durable progress, the event count is the store's) is kept
    by every operation. *)

From S2P Require Import Prelude Framing EventStore.

(** ** Records *)

Record wire_record := mk_wire {
  wr_seq : Z; wr_event : event;
  wr_client : option string; wr_client_id : option string;
  wr_origin : option string; wr_layer_key : option string }.

Abbreviation encoded_record := (wire_record * bytes)%type.

(** [if origin: record["origin"] = origin]: the empty string is dropped. *)
Definition truthy_text (o : option string) : option string :=
  match o with Some "" => None | _ => o end.

Record EncodedEvents := mk_encoded {
  records : list encoded_record;
  store_rows : list store_row }.

Definition row_of (r : encoded_record) : store_row :=
  mk_row (wr_seq r.1) r.2 (wr_client_id r.1) (Some (kind_of (wr_event r.1)))
    (match wr_event r.1 !! "prim" with Some (PStr p) => Some p | _ => None end).

Definition encoded_append (enc : EncodedEvents) (r : encoded_record) : EncodedEvents :=
  mk_encoded (records enc ++ [r]) (store_rows enc ++ [row_of r]).

Record TransactionCheckpoint := mk_checkpoint { epoch : Z; head_seq : Z }.

(** ** State *)

Record journal (St : Type) := mk_journal {
  store : St;
  next_seq : Z;
  event_count : Z;
  seq_at_last_compact : Z;
  snapshot_epoch : Z;
  replay_epoch : Z;
  progress_cache : gmap producer Z;
  (** rows admitted to the realtime queue, oldest first *)
  queue : list (list store_row);
  (** the persist thread exists ([durability == "realtime"]) *)
  realtime : bool }.
Arguments mk_journal {St}.
Arguments store {St}. Arguments next_seq {St}. Arguments event_count {St}.
Arguments seq_at_last_compact {St}. Arguments snapshot_epoch {St}.
Arguments replay_epoch {St}. Arguments progress_cache {St}. Arguments queue {St}.
Arguments realtime {St}.

Section journal.
Context {St : Type} `{EventStore St}.
Context (encode : wire_record -> result bytes).

Abbreviation J := (journal St).
Implicit Types j : J.

Definition set_next_seq (n : Z) (j : J) : J :=
  mk_journal (store j) n (event_count j) (seq_at_last_compact j) (snapshot_epoch j)
    (replay_epoch j) (progress_cache j) (queue j) (realtime j).

Definition set_event_count (n : Z) (j : J) : J :=
  mk_journal (store j) (next_seq j) n (seq_at_last_compact j) (snapshot_epoch j)
    (replay_epoch j) (progress_cache j) (queue j) (realtime j).

Definition set_store (st : St) (j : J) : J :=
  mk_journal st (next_seq j) (event_count j) (seq_at_last_compact j) (snapshot_epoch j)
    (replay_epoch j) (progress_cache j) (queue j) (realtime j).

Definition set_cache (c : gmap producer Z) (j : J) : J :=
  mk_journal (store j) (next_seq j) (event_count j) (seq_at_last_compact j) (snapshot_epoch j)
    (replay_epoch j) c (queue j) (realtime j).

Definition set_queue (q : list (list store_row)) (j : J) : J :=
  mk_journal (store j) (next_seq j) (event_count j) (seq_at_last_compact j) (snapshot_epoch j)
    (replay_epoch j) (progress_cache j) q (realtime j).

Definition set_snapshot_epoch (n : Z) (j : J) : J :=
  mk_journal (store j) (next_seq j) (event_count j) (seq_at_last_compact j) n
    (replay_epoch j) (progress_cache j) (queue j) (realtime j).

(** [EventJournal.__init__] *)
Definition journal_init (st : St) (realtime : bool) : J :=
  mk_journal st (get_max_seq st + 1) (get_count st) 1 0 0 ∅ [] realtime.

Definition assign_seq : M J Z := fun j => (set_next_seq (next_seq j + 1) j, Ok (next_seq j)).

(** [with reserve_sequences(): body] restores the counter on [Exception]. *)
Definition reserve_sequences {A} (body : M J A) : M J A := fun j =>
  let first_sequence := next_seq j in
  try_catch body (fun e j' =>
    ((if is_exception e then set_next_seq first_sequence j' else j'), Err e)) j.

Definition snapshot_token (j : J) : Z * Z := (snapshot_epoch j, Z.max 0 (next_seq j - 1)).
Definition replay_token (j : J) : Z * Z := (replay_epoch j, Z.max 0 (next_seq j - 1)).

Definition bump_snapshot_epoch : M J Z := fun j =>
  let n := (snapshot_epoch j + 1)%Z in (set_snapshot_epoch n j, Ok n).

Definition needs_compaction (j : J) : bool := bool_decide (seq_at_last_compact j < next_seq j)%Z.

Definition durable_checkpoint (j : J) : TransactionCheckpoint :=
  mk_checkpoint (replay_epoch j) (get_max_seq (store j)).

Definition reset_history (record_count : Z) (j : J) : J :=
  mk_journal (store j) (record_count + 1) record_count (record_count + 1)
    (snapshot_epoch j + 1) (replay_epoch j + 1) (progress_cache j) (queue j) (realtime j).

Definition committed_through (client_id session_id : string) : M J Z := fun j =>
  match progress_cache j !! (client_id, session_id) with
  | Some cached => (j, Ok cached)
  | None =>
      let cached := get_producer_progress (store j) client_id session_id in
      (set_cache (<[(client_id, session_id) := cached]> (progress_cache j)) j, Ok cached)
  end.

Definition remember_progress (updates : list (producer * Z)) : M J unit :=
  modify (fun j => set_cache (dict_update (progress_cache j) updates) j).

(** [encode_event_record] *)
Definition encode_event_record (sequence : Z) (ev : event)
    (client client_id origin layer_key : option string) : result encoded_record :=
  let record := mk_wire sequence ev client client_id (truthy_text origin) (truthy_text layer_key) in
  bin ← encode record; Ok (record, bin).

Definition assign_and_encode_event (ev : event)
    (client_id origin client_addr layer_key : option string) : M J encoded_record :=
  sequence ← assign_seq;
  lift (encode_event_record sequence ev client_addr client_id origin layer_key).

Fixpoint encode_routed (routed_events : list (string * event))
    (client_id origin client_addr : option string) (enc : EncodedEvents) : M J EncodedEvents :=
  match routed_events with
  | [] => mret enc
  | (layer_key, ev) :: rest =>
      r ← assign_and_encode_event ev client_id origin client_addr (Some layer_key);
      encode_routed rest client_id origin client_addr (encoded_append enc r)
  end.

Definition assign_and_encode_events (routed_events : list (string * event))
    (client_id origin client_addr : option string) : M J EncodedEvents :=
  encode_routed routed_events client_id origin client_addr (mk_encoded [] []).

(** Run a store operation on the journal's store. *)
Definition on_store {A} (m : M St A) : M J A := zoom store set_store m.

Definition add_event_count (n : nat) : M J unit :=
  modify (fun j => set_event_count (event_count j + Z.of_nat n) j).

Definition append_batch (rows : list store_row) (producer_progress : list ProducerProgress)
    (layer_identities : list LayerIdentity) (synchronous : bool) : M J unit := fun j =>
  let can_queue := realtime j && negb (synchronous
      || match producer_progress with [] => false | _ => true end
      || match layer_identities with [] => false | _ => true end) in
  if can_queue then (set_queue (queue j ++ [rows]) j, Ok ())
  else (_ ← on_store (EventStore.append_batch rows producer_progress layer_identities);
        add_event_count (length rows)) j.

(** One turn of [_persist_loop]: the exception is logged and the rows dropped. *)
Definition persist_one (j : J) : J :=
  match queue j with
  | [] => j
  | rows :: rest =>
      let j := set_queue rest j in
      fst (try_catch (_ ← on_store (EventStore.append_batch rows [] []);
                      add_event_count (length rows))
             (fun _ => mret ()) j)
  end.

(** [drain]: [queue.join()] returns when the persist thread has emptied the queue. *)
Definition drain (j : J) : J := Nat.iter (length (queue j)) persist_one j.

(** ** Invariant *)

Record journal_ok (j : J) : Prop := {
  stored_below q : is_Some (events_of (store j) !! q) -> (q < next_seq j)%Z;
  queued_below rows r : rows ∈ queue j -> r ∈ rows -> (row_seq r < next_seq j)%Z;
  count_stored : event_count j = get_count (store j);
}.

(** Outside a commit scope the cached producer progress is the durable one. *)
Definition cache_ok (j : J) : Prop :=
  forall c s n, progress_cache j !! (c, s) = Some n -> n = get_producer_progress (store j) c s.

Lemma journal_init_ok st rt : journal_ok (journal_init st rt).
Proof.
  split; simpl.
  - intros q Hq. apply (proj1 (get_max_seq_spec st)) in Hq. lia.
  - intros rows r Hr. by apply not_elem_of_nil in Hr.
  - done.
Qed.

(** *** Sequences *)

Lemma assign_and_encode_event_Ok ev c o a k j j' r :
  assign_and_encode_event ev c o a k j = (j', Ok r) ->
  j' = set_next_seq (next_seq j + 1) j /\ wr_seq r.1 = next_seq j /\ wr_event r.1 = ev
  /\ wr_client_id r.1 = c.
Proof.
  unfold assign_and_encode_event, assign_seq, lift, encode_event_record.
  unfold mbind at 1, M_bind. intros [= <- Hr]. inv_bind Hr. by injection Hr as <-.
Qed.

Definition consecutive (first : Z) (l : list Z) : Prop :=
  forall i q, l !! i = Some q -> q = (first + Z.of_nat i)%Z.

Lemma consecutive_cons q l : consecutive q (q :: l) <-> consecutive (q + 1) l.
Proof.
  split.
  - intros Hl i x Hi. specialize (Hl (S i) x Hi). lia.
  - intros Hl [|i] x Hi; simpl in Hi; [injection Hi as <-; lia|]. apply Hl in Hi. lia.
Qed.

Lemma encode_routed_Ok routed c o a enc j j' enc' :
  encode_routed routed c o a enc j = (j', Ok enc') ->
  exists new,
    enc' = mk_encoded (records enc ++ new) (store_rows enc ++ map row_of new)
    /\ j' = set_next_seq (next_seq j + Z.of_nat (length routed)) j
    /\ map (fun r => wr_event r.1) new = map snd routed
    /\ consecutive (next_seq j) (map (fun r => wr_seq r.1) new)
    /\ Forall (fun r => wr_client_id r.1 = c) new.
Proof.
  revert enc j; induction routed as [|[key ev] routed IH]; intros enc j Hr; simpl in Hr.
  - injection Hr as <- <-. exists []. rewrite !app_nil_r. split_and!.
    + by destruct enc.
    + destruct j; unfold set_next_seq; simpl. f_equal. lia.
    + done.
    + intros i q Hi. by destruct i.
    + constructor.
  - inv_M Hr. apply assign_and_encode_event_Ok in Hr0 as (-> & Hs & He & Hc).
    apply IH in Hr as (new & -> & -> & Hev & Hseq & Hcl). exists (x :: new). split_and!.
    + simpl. by rewrite <-!app_assoc.
    + unfold set_next_seq; simpl. f_equal. lia.
    + simpl. by rewrite He, Hev.
    + simpl. rewrite Hs. by apply consecutive_cons.
    + by constructor.
Qed.

Lemma set_next_seq_twice n m j : set_next_seq n (set_next_seq m j) = set_next_seq n j.
Proof. done. Qed.

Lemma set_next_seq_same j : set_next_seq (next_seq j) j = j.
Proof. by destruct j. Qed.

(** Encoding moves nothing but the counter, even when it fails part way. *)
Lemma encode_routed_frame routed c o a enc j j' r :
  encode_routed routed c o a enc j = (j', r) ->
  j' = set_next_seq (next_seq j') j /\ (next_seq j ≤ next_seq j')%Z.
Proof.
  revert enc j; induction routed as [|[key ev] routed IH]; intros enc j Hr; simpl in Hr.
  - injection Hr as <- <-. rewrite set_next_seq_same. split; [done|lia].
  - unfold mbind, M_bind in Hr.
    unfold assign_and_encode_event, assign_seq, lift in Hr. unfold mbind at 1, M_bind in Hr.
    destruct (encode_event_record (next_seq j) ev a c o (Some key)) as [x|e].
    + apply IH in Hr as [Hj Hle]. rewrite Hj. simpl in *. split; [done|lia].
    + injection Hr as <- <-. simpl. split; [done|lia].
Qed.

(** *** append_batch *)

Lemma append_batch_Err rows pp li sync j j' e :
  append_batch rows pp li sync j = (j', Err e) -> j' = j.
Proof.
  unfold append_batch. case_match; [done|].
  unfold mbind, M_bind, on_store, zoom, add_event_count, modify.
  destruct (EventStore.append_batch rows pp li (store j)) as [st [[]|e']] eqn:E; intros [= <- <-].
  apply append_batch_atomic in E as ->. by destruct j.
Qed.

Definition queued (pp : list ProducerProgress) (li : list LayerIdentity) (sync : bool) j : bool :=
  realtime j && negb (sync || match pp with [] => false | _ => true end
                           || match li with [] => false | _ => true end).

Lemma append_batch_sync_Ok rows pp li sync j j' :
  queued pp li sync j = false ->
  append_batch rows pp li sync j = (j', Ok ()) ->
  exists st', EventStore.append_batch rows pp li (store j) = (st', Ok ())
    /\ j' = set_event_count (event_count j + Z.of_nat (length rows)) (set_store st' j).
Proof.
  unfold append_batch, queued. intros ->.
  unfold mbind, M_bind, on_store, zoom, add_event_count, modify.
  destruct (EventStore.append_batch rows pp li (store j)) as [st [[]|e']] eqn:E; intros [= <-].
  by exists st.
Qed.

Lemma size_rows_insert rows m :
  rows_fresh m rows -> size (foldl rows_insert m rows) = size m + length rows.
Proof.
  revert m; induction rows as [|r rows IH]; intros m; simpl; [lia|].
  intros [Hr Hf]. rewrite IH by done. unfold rows_insert. rewrite map_size_insert_None by done. lia.
Qed.

Lemma rows_insert_lookup rows m q :
  is_Some (foldl rows_insert m rows !! q) -> is_Some (m !! q) \/ exists r, r ∈ rows /\ row_seq r = q.
Proof.
  revert m; induction rows as [|r rows IH]; intros m Hq; simpl in *; [by left|].
  apply IH in Hq as [Hq|(r' & ? & ?)]; [|right; exists r'; split; [set_solver|done]].
  unfold rows_insert in Hq. destruct (decide (row_seq r = q)) as [<-|].
  - right. exists r. split; [set_solver|done].
  - rewrite lookup_insert_ne in Hq by done. by left.
Qed.

Lemma append_batch_count rows pp li st st' :
  EventStore.append_batch rows pp li st = (st', Ok ()) ->
  get_count st' = (get_count st + Z.of_nat (length rows))%Z.
Proof.
  intros (Hf & He & _)%append_batch_events. rewrite !get_count_spec, He, size_rows_insert by done. lia.
Qed.

Lemma stored_below_append rows pp li st st' n :
  EventStore.append_batch rows pp li st = (st', Ok ()) ->
  (forall q, is_Some (events_of st !! q) -> (q < n)%Z) ->
  (forall r, r ∈ rows -> (row_seq r < n)%Z) ->
  forall q, is_Some (events_of st' !! q) -> (q < n)%Z.
Proof.
  intros (_ & He & _)%append_batch_events Hst Hrows q Hq. rewrite He in Hq.
  apply rows_insert_lookup in Hq as [?|(r & ? & <-)]; auto.
Qed.

Lemma journal_append_ok rows pp li sync j j' :
  journal_ok j -> (forall r, r ∈ rows -> (row_seq r < next_seq j)%Z) ->
  append_batch rows pp li sync j = (j', Ok ()) -> journal_ok j'.
Proof.
  intros [Hst Hq Hc] Hrows Ha. destruct (queued pp li sync j) eqn:E.
  - unfold append_batch in Ha. unfold queued in E. rewrite E in Ha. injection Ha as <-.
    split; simpl; [done| |done]. intros rows' r [?| ->%list_elem_of_singleton]%elem_of_app; eauto.
  - apply append_batch_sync_Ok in Ha as (st' & Ha & ->); [|done]. split; simpl; [|done|].
    + eapply stored_below_append; eauto.
    + rewrite (append_batch_count _ _ _ _ _ Ha), Hc. lia.
Qed.

Lemma persist_one_ok j : journal_ok j -> journal_ok (persist_one j).
Proof.
  intros [Hst Hq Hc]. unfold persist_one. destruct (queue j) as [|rows rest] eqn:Eq; [by split; rewrite ?Eq|].
  unfold try_catch, mbind, M_bind, on_store, zoom, add_event_count, modify. simpl.
  destruct (EventStore.append_batch rows [] [] (store j)) as [st' [[]|e]] eqn:Ha; simpl.
  - split; simpl.
    + eapply stored_below_append; [done|done|]. intros r Hr. apply (Hq rows); [set_solver|done].
    + intros rows' r Hr. apply Hq. set_solver.
    + rewrite (append_batch_count _ _ _ _ _ Ha), Hc. lia.
  - apply append_batch_atomic in Ha as ->. split; simpl; [done| |done].
    intros rows' r Hr. apply Hq. set_solver.
Qed.

Lemma persist_one_queue j : queue (persist_one j) = tail (queue j).
Proof.
  unfold persist_one. destruct (queue j) as [|rows rest] eqn:Eq; [done|].
  unfold try_catch, mbind, M_bind, on_store, zoom, add_event_count, modify. simpl.
  by destruct (EventStore.append_batch rows [] [] (store j)) as [st' [[]|e]].
Qed.

Lemma drain_empty_and_ok j : journal_ok j -> journal_ok (drain j) /\ queue (drain j) = [].
Proof.
  unfold drain. remember (length (queue j)) as n eqn:Hn. revert j Hn.
  induction n as [|n IH]; intros j Hn Hok.
  - simpl. split; [done|]. by destruct (queue j).
  - rewrite Nat.iter_succ_r. apply IH; [|by apply persist_one_ok].
    rewrite persist_one_queue. destruct (queue j); simpl in *; lia.
Qed.

(** *** The commit step of the journal

    Encoding and appending under a reservation, as every commit path does. *)
Definition encode_and_append (routed : list (string * event)) (c o a : option string)
    (pp : list ProducerProgress) (li : list LayerIdentity) : M J EncodedEvents :=
  reserve_sequences
    (enc ← assign_and_encode_events routed c o a;
     _ ← append_batch (store_rows enc) pp li true;
     mret enc).

(** a journal commit is all or nothing.  If encoding or storage raises an
    [Exception], the journal is exactly as before, sequence counter included.
    If it returns, the records carry the input events in order under
    consecutive sequence numbers starting at the old counter, all of them are
    stored, the counter has advanced by their number and the journal invariant
    holds. *)
Theorem journal_commit_all_or_nothing routed c o a pp li j :
  journal_ok j ->
  match encode_and_append routed c o a pp li j with
  | (j', Ok enc) =>
      journal_ok j'
      /\ map (fun r => wr_event r.1) (records enc) = map snd routed
      /\ consecutive (next_seq j) (map (fun r => wr_seq r.1) (records enc))
      /\ next_seq j' = (next_seq j + Z.of_nat (length routed))%Z
      /\ events_of (store j') = foldl rows_insert (events_of (store j)) (map row_of (records enc))
      /\ progress_of (store j') = foldl progress_max (progress_of (store j)) pp
  | (j', Err e) => is_exception e = true -> j' = j
  end.
Proof.
  intros Hok. unfold encode_and_append, reserve_sequences, try_catch.
  destruct ((enc ← assign_and_encode_events routed c o a;
             _ ← append_batch (store_rows enc) pp li true; mret enc) j) as [j' [enc|e]] eqn:E.
  - inv_M E. apply encode_routed_Ok in E0 as (new & -> & -> & Hev & Hseq & _). simpl in E.
    inv_M E. injection E as -> <-. destruct x.
    assert (length new = length routed) as Hlen
      by (rewrite <-(length_map (fun r => wr_event r.1) new), Hev; apply length_map).
    set (j1 := set_next_seq (next_seq j + Z.of_nat (length routed)) j) in *.
    assert (journal_ok j1) as Hok1.
    { destruct Hok as [H1 H2 H3]. split; unfold j1; simpl; [|intros ???? |done].
      - intros q Hq. specialize (H1 q Hq). lia.
      - assert (row_seq r < next_seq j)%Z by eauto. lia. }
    split; [|split_and!; [done..| | |]].
    + eapply journal_append_ok; [exact Hok1| |exact E0]. intros r Hr.
      apply list_elem_of_fmap in Hr as (x & -> & Hx). apply list_elem_of_lookup in Hx as [i Hi].
      specialize (Hseq i (wr_seq x.1)). rewrite list_lookup_fmap, Hi in Hseq.
      specialize (Hseq eq_refl). apply lookup_lt_Some in Hi. simpl. lia.
    + apply append_batch_sync_Ok in E0 as (st' & _ & ->); [done|].
      unfold queued. simpl. by rewrite andb_false_r.
    + apply append_batch_sync_Ok in E0 as (st' & Ha & ->); [|unfold queued; simpl; by rewrite andb_false_r].
      simpl. by apply append_batch_events in Ha as (_ & -> & _).
    + apply append_batch_sync_Ok in E0 as (st' & Ha & ->); [|unfold queued; simpl; by rewrite andb_false_r].
      simpl. by apply append_batch_events in Ha as (_ & _ & ->).
  - intros He. rewrite He. apply M_bind_Err in E as [E|(j1 & enc & E1 & E)].
    + apply encode_routed_frame in E as [-> _]. simpl. by rewrite set_next_seq_twice, set_next_seq_same.
    + apply encode_routed_frame in E1 as [E1 _].
      apply M_bind_Err in E as [E|(? & ? & _ & [=])].
      apply append_batch_Err in E as ->. rewrite E1. by rewrite set_next_seq_twice, set_next_seq_same.
Qed.

End journal.

(** ** Witness *)

Definition demo_encode (r : wire_record) : result bytes := Ok [].
Definition demo_journal : journal Sqlite.db := journal_init (Sqlite.mk_db ∅ ∅ ∅) false.
Definition demo_event (k prim : string) : event := <["k" := PStr k]> {["prim" := PStr prim]}.

Lemma journal_commit_all_or_nothing_witness :
  exists j' enc,
    encode_and_append demo_encode [("default", demo_event "ensure_prim" "/A")]
      (Some "c") None None [mk_progress "c" "s" 1] [] demo_journal = (j', Ok enc)
    /\ journal_ok j' /\ next_seq j' = 2%Z.
Proof.
  pose proof (journal_commit_all_or_nothing demo_encode [("default", demo_event "ensure_prim" "/A")]
    (Some "c") None None [mk_progress "c" "s" 1] [] demo_journal (journal_init_ok _ _)) as H.
  destruct (encode_and_append demo_encode _ _ _ _ _ _ demo_journal) as [j' [enc|e]] eqn:E.
  - exists j', enc. split_and!; [done| |]; [apply H|].
    destruct H as (_ & _ & _ & -> & _). reflexivity.
  - exfalso. vm_compute in E. discriminate.
Defined.
