(* ===== verification/Rollback.v ===== *)
(** * Rollback: scoped restoration of a layer
    ([_AtomicApply] and [_ScopedAtomicApply] of [openusdconnect/event_apply.py],
    [_managed_rollback_paths] of [openusdconnect/server/commit.py])

    A layer is used through the Sdf operations the code calls; [SdfLayer]
    states their documented effect on the specs of a layer: copying a spec
    replaces its namespace subtree and needs the parent of the destination to
    exist.

    Theorems: when ancestors are saved before descendants, the scoped snapshot
    restores every spec provided the block wrote under the covered paths only;
    saving a descendant first can make the restoration raise and lose specs;
    the managed rollback paths omit the source prims of connections. *)

From S2P Require Import Prelude Constants.

(** A prim path: its names from the root; [[]] is [Sdf.Path.absoluteRootPath]. *)
Abbreviation path := (list string).

Definition parent (p : path) : path := removelast p.

(** ** Layers *)

Class SdfLayer (V L : Type) := {
  spec_at : L -> path -> option V;
  anonymous : L;
  create_prim_in_layer : L -> path -> L;
  copy_spec : L -> path -> L -> result L;
  remove_prim : L -> path -> L;

  pseudo_root l : is_Some (spec_at l []);
  anonymous_specs p : p ≠ [] -> spec_at anonymous p = None;
  create_keeps l p q : ¬ q `prefix_of` p \/ is_Some (spec_at l q) ->
    spec_at (create_prim_in_layer l p) q = spec_at l q;
  create_creates l p q : q `prefix_of` p -> is_Some (spec_at (create_prim_in_layer l p) q);
  copy_spec_ok src p dst :
    p ≠ [] -> is_Some (spec_at src p) -> is_Some (spec_at dst (parent p)) ->
    exists l, copy_spec src p dst = Ok l
      /\ forall q, spec_at l q = if decide (p `prefix_of` q) then spec_at src q else spec_at dst q;
  copy_spec_no_parent src p dst :
    p ≠ [] -> spec_at dst (parent p) = None ->
    exists e, copy_spec src p dst = Err e;
  remove_prim_spec l p q : p ≠ [] ->
    spec_at (remove_prim l p) q = if decide (p `prefix_of` q) then None else spec_at l q;
}.

Section rollback.
Context {V L : Type} `{SdfLayer V L}.
Implicit Types (l layer : L) (p q : path).

Definition has_prim l p : bool := bool_decide (is_Some (spec_at l p)).

(** ** _ScopedAtomicApply *)

Record snapshot := mk_snapshot {
  backup : L;
  saved : list path;
  created_roots : list path }.

(** [_covered] *)
Definition covered (s : snapshot) p : bool :=
  existsb (fun q => bool_decide (q `prefix_of` p)) (saved s ++ created_roots s).

(** The [while True] walk to the outermost missing ancestor; the path's length
    bounds the number of turns. *)
Fixpoint missing_root (fuel : nat) layer (root : path) : path :=
  match fuel with
  | O => root
  | S fuel =>
      let par := parent root in
      if bool_decide (par = []) || has_prim layer par then root
      else missing_root fuel layer par
  end.

Definition enter_step layer (s : snapshot) p : result snapshot :=
  if covered s p then Ok s
  else if has_prim layer p then
    let par := parent p in
    let backup' := if bool_decide (par = []) then backup s
                   else create_prim_in_layer (backup s) par in
    b ← copy_spec layer p backup';
    Ok (mk_snapshot b (saved s ++ [p]) (created_roots s))
  else Ok (mk_snapshot (backup s) (saved s)
             (created_roots s ++ [missing_root (length p) layer p])).

Definition scoped_enter layer (paths : list path) : result snapshot :=
  foldR (enter_step layer) (mk_snapshot anonymous [] []) paths.

Definition remove_created layer root : L :=
  if has_prim layer root then remove_prim layer root else layer.

(** [__exit__] after an exception: the layer may be left half restored when a
    copy raises. *)
Definition scoped_exit_error (s : snapshot) : M L unit :=
  _ ← modify (fun layer => foldl remove_created layer (created_roots s));
  iterM (fun p layer => match copy_spec (backup s) p layer with
                        | Ok layer' => (layer', Ok ())
                        | Err e => (layer, Err e)
                        end) (saved s).

(** The two context managers around a block that acts on a larger state [S];
    [view] and [set] are the layer they were given. *)
Section context_managers.
Context {S : Type} (view : S -> L) (set : L -> S -> S).

(** [with _ScopedAtomicApply(layer, paths): body] *)
Definition with_scoped {A} (paths : list path) (body : M S A) : M S A := fun st =>
  match scoped_enter (view st) paths with
  | Err e => (st, Err e)
  | Ok s =>
      match body st with
      | (st', Ok a) => (st', Ok a)
      | (st', Err e) =>
          let '(layer, r) := scoped_exit_error s (view st') in
          (set layer st', match r with Ok _ => Err e | Err e' => Err e' end)
      end
  end.

(** [with _AtomicApply(layer): body]: the whole content is transferred back. *)
Definition with_full {A} (body : M S A) : M S A := fun st =>
  match body st with
  | (st', Ok a) => (st', Ok a)
  | (st', Err e) => (set (view st) st', Err e)
  end.

(** [with atomic_apply_layer(layer, paths): body] *)
Definition atomic_apply_layer {A} (paths : option (list path)) (body : M S A) : M S A :=
  match paths with
  | None => with_full body
  | Some paths =>
      if existsb (fun p => bool_decide (p = [])) paths then with_full body
      else with_scoped paths body
  end.
End context_managers.

(** The scoped manager around a block that acts on the layer alone. *)
Definition scoped_atomic {A} : list path -> M L A -> M L A := with_scoped id (fun l _ => l).

(** ** Lemmas *)

(** Every spec's parent exists, as in any prim hierarchy. *)
Definition tree l : Prop := forall p, is_Some (spec_at l p) -> is_Some (spec_at l (parent p)).

Lemma parent_prefix p : parent p `prefix_of` p.
Proof.
  unfold parent. destruct (decide (p = [])) as [->|Hp]; [done|].
  rewrite (app_removelast_last "" Hp) at 2. by apply prefix_app_r.
Qed.

Lemma parent_shorter p : p ≠ [] -> length (parent p) < length p.
Proof.
  intros Hp. unfold parent. rewrite (app_removelast_last "" Hp) at 2. rewrite length_app. simpl. lia.
Qed.

Lemma prefix_parent q p : q `prefix_of` p -> q = p \/ q `prefix_of` parent p.
Proof.
  intros [k ->]. destruct (decide (k = [])) as [->|Hk]; [left; by rewrite app_nil_r|].
  right. unfold parent. rewrite removelast_app by done. by apply prefix_app_r.
Qed.

Lemma tree_prefix l p q : tree l -> is_Some (spec_at l p) -> q `prefix_of` p -> is_Some (spec_at l q).
Proof.
  intros Ht. remember (length p) as n eqn:Hn. revert p Hn.
  induction n as [n IH] using lt_wf_ind. intros p -> Hp [->|Hq]%prefix_parent; [done|].
  destruct (decide (p = [])) as [->|Hne]; [by apply Ht in Hp; apply prefix_nil_inv in Hq as ->|].
  eapply IH; [by apply parent_shorter|done|by apply Ht|done].
Qed.

(** The root found for a missing path is a missing prefix of it whose parent exists. *)
Lemma missing_root_spec fuel layer p :
  p ≠ [] -> spec_at layer p = None -> length p ≤ fuel ->
  let r := missing_root fuel layer p in
  r ≠ [] /\ r `prefix_of` p /\ spec_at layer r = None /\ is_Some (spec_at layer (parent r)).
Proof.
  revert p; induction fuel as [|fuel IH]; intros p Hp Hnone Hlen; simpl.
  - destruct p; simpl in *; [done|lia].
  - unfold has_prim. destruct (decide (parent p = [])) as [E|E]; simpl.
    { rewrite bool_decide_true by done. simpl. rewrite E. split_and!; [done..|apply pseudo_root]. }
    rewrite bool_decide_false by done. simpl.
    case_bool_decide as Hs; [done|]. apply eq_None_not_Some in Hs.
    destruct (IH (parent p)) as (H1 & H2 & H3 & H4); [done|done| |].
    + pose proof (parent_shorter p Hp). lia.
    + split_and!; [done| |done..]. etrans; [done|]. apply parent_prefix.
Qed.

(** Saved paths exist in the layer and are backed up with their subtree;
    created roots are missing in the layer and their parent exists. *)
Record snapshot_ok layer (s : snapshot) : Prop := {
  saved_exist p : p ∈ saved s -> p ≠ [] /\ is_Some (spec_at layer p);
  saved_backup p q : p ∈ saved s -> p `prefix_of` q -> spec_at (backup s) q = spec_at layer q;
  created_missing r : r ∈ created_roots s ->
    r ≠ [] /\ spec_at layer r = None /\ is_Some (spec_at layer (parent r));
}.

(** The paths given to the snapshot list ancestors before descendants. *)
Definition ancestors_first (paths : list path) : Prop :=
  forall i j p q, paths !! i = Some p -> paths !! j = Some q -> p `prefix_of` q -> p ≠ q -> i < j.

Definition antichain (ps : list path) : Prop :=
  forall p q, p ∈ ps -> q ∈ ps -> p `prefix_of` q -> p = q.

Lemma covered_true s p : covered s p = true <-> exists q, q ∈ saved s ++ created_roots s /\ q `prefix_of` p.
Proof.
  unfold covered. rewrite existsb_exists. split; intros (q & Hq & Hp); exists q.
  - rewrite <-list_elem_of_In in Hq. by apply bool_decide_eq_true in Hp.
  - rewrite <-list_elem_of_In. by rewrite bool_decide_eq_true.
Qed.

Lemma covered_false s p : covered s p = false <-> forall q, q ∈ saved s ++ created_roots s -> ¬ q `prefix_of` p.
Proof. rewrite <-not_true_iff_false, covered_true. naive_solver. Qed.

Lemma covered_mono s p q : covered s p = true -> p `prefix_of` q -> covered s q = true.
Proof. rewrite !covered_true. intros (r & ? & ?) ?. exists r. split; [done|]. by etrans. Qed.

Section enter.
Context (layer : L) (Htree : tree layer).

Lemma enter_step_ok s p :
  p ≠ [] -> snapshot_ok layer s ->
  exists s', enter_step layer s p = Ok s' /\ snapshot_ok layer s'
    /\ covered s' p = true /\ (forall q, covered s q = true -> covered s' q = true)
    /\ (saved s' = saved s \/ saved s' = saved s ++ [p] /\ covered s p = false).
Proof using Htree.
  intros Hp [Hsaved Hback Hcreated]. unfold enter_step.
  destruct (covered s p) eqn:Hcov; [exists s; split_and!; auto; by split|].
  pose proof (proj1 (covered_false s p) Hcov) as Hnc.
  unfold has_prim. case_bool_decide as Hex.
  - set (backup' := if bool_decide (parent p = []) then backup s
                    else create_prim_in_layer (backup s) (parent p)).
    assert (forall q x, q ∈ saved s -> q `prefix_of` x -> spec_at backup' x = spec_at layer x) as Hb'.
    { intros q x Hq Hx. unfold backup'. case_bool_decide; [by eapply Hback|].
      rewrite create_keeps; [by eapply Hback|]. left. intros Hxp.
      apply (Hnc q); [set_solver|]. do 2 (etrans; [done|]). apply parent_prefix. }
    destruct (decide (is_Some (spec_at backup' (parent p)))) as [Hpar|Hpar].
    + destruct (copy_spec_ok layer p backup' Hp Hex Hpar) as (b & -> & Hb). simpl.
      eexists; split; [done|]. split_and!.
      * split; simpl; [| |done].
        -- intros q [?| ->%list_elem_of_singleton]%elem_of_app; [by apply Hsaved|done].
        -- intros q x Hq Hx. rewrite Hb. case_decide; [done|].
           apply elem_of_app in Hq as [Hq| ->%list_elem_of_singleton]; [by eapply Hb'|done].
      * apply covered_true. exists p. simpl. set_solver.
      * intros q (r & Hr & ?)%covered_true. apply covered_true. exists r. simpl. set_solver.
      * right. done.
    + (* the parent of a copied spec is the root or was just created *)
      exfalso. apply Hpar. unfold backup'. case_bool_decide as E.
      * rewrite E. apply pseudo_root.
      * by apply create_creates.
  - apply eq_None_not_Some in Hex.
    destruct (missing_root_spec (length p) layer p Hp Hex (le_n _)) as (H1 & H2 & H3 & H4).
    eexists; split; [done|]. split_and!; simpl.
    + split; simpl; [done|done|].
      intros r [Hr| ->%list_elem_of_singleton]%elem_of_app; [by apply Hcreated|done].
    + apply covered_true. eexists; split; [|exact H2]. simpl. set_solver.
    + intros q (r & Hr & ?)%covered_true. apply covered_true. exists r. simpl. set_solver.
    + by left.
Qed.

Lemma enter_loop_ok s paths :
  Forall (fun p => p ≠ []) paths -> snapshot_ok layer s ->
  exists s', foldR (enter_step layer) s paths = Ok s' /\ snapshot_ok layer s'
    /\ (forall p, p ∈ paths -> covered s' p = true)
    /\ (forall q, covered s q = true -> covered s' q = true).
Proof using Htree.
  intros Hp; revert s; induction Hp as [|p paths Hp _ IH]; intros s Hs; simpl.
  - exists s. split_and!; auto. by intros ? ?%not_elem_of_nil.
  - destruct (enter_step_ok s p Hp Hs) as (s1 & -> & Hs1 & Hc1 & Hm1 & _). simpl.
    destruct (IH s1 Hs1) as (s2 & -> & Hs2 & Hc2 & Hm2). exists s2. split_and!; auto.
    intros q [->|Hq]%elem_of_cons; auto.
Qed.

(** Ancestors first: no saved path lies under another one. *)
Lemma enter_loop_antichain done_ s paths s' :
  Forall (fun p => p ≠ []) paths -> snapshot_ok layer s ->
  ancestors_first (done_ ++ paths) -> (forall p, p ∈ saved s -> p ∈ done_) -> antichain (saved s) ->
  foldR (enter_step layer) s paths = Ok s' -> antichain (saved s').
Proof using Htree.
  intros Hp; revert done_ s; induction Hp as [|p paths Hp _ IH]; intros done_ s Hs Haf Hsub Hac Hrun.
  - by injection Hrun as <-.
  - simpl in Hrun. destruct (enter_step_ok s p Hp Hs) as (s1 & Hs1e & Hs1 & _ & _ & Hsaved).
    rewrite Hs1e in Hrun. simpl in Hrun. eapply (IH (done_ ++ [p])); [done| | | |done].
    + by rewrite <-app_assoc.
    + intros q Hq. destruct Hsaved as [E|[E _]]; rewrite E in Hq; set_solver.
    + destruct Hsaved as [->|[-> Hnc]]; [done|]. rewrite covered_false in Hnc.
      intros q r [Hq| ->%list_elem_of_singleton]%elem_of_app
        [Hr| ->%list_elem_of_singleton]%elem_of_app Hqr; [by apply Hac| | |done].
      * exfalso. apply (Hnc q); set_solver.
      * destruct (decide (p = r)) as [|Hne]; [done|]. exfalso.
        apply Hsub in Hr. apply list_elem_of_lookup in Hr as [i Hi].
        assert (length done_ < i); [|apply lookup_lt_Some in Hi; lia].
        apply (Haf (length done_) i p r); [|by apply lookup_app_l_Some|done|done].
        by rewrite lookup_app_r, Nat.sub_diag by lia.
Qed.
End enter.

(** ** Leaving the block after an exception *)

Lemma remove_created_spec layer root q : root ≠ [] -> tree layer ->
  spec_at (remove_created layer root) q = if decide (root `prefix_of` q) then None else spec_at layer q.
Proof.
  intros Hr Ht. unfold remove_created, has_prim. case_bool_decide as Hs.
  - by apply remove_prim_spec.
  - case_decide as Hq; [|done]. apply eq_None_not_Some. intros Hsome. apply Hs.
    by eapply tree_prefix.
Qed.

Lemma remove_created_tree layer root : root ≠ [] -> tree layer -> tree (remove_created layer root).
Proof.
  intros Hr Ht p. rewrite !remove_created_spec by done. case_decide as Hp; [by intros [? ?]|].
  intros Hs. rewrite decide_False; [by apply Ht|]. intros Hpar. apply Hp.
  etrans; [done|]. apply parent_prefix.
Qed.

Lemma remove_all_created roots layer q : Forall (fun r => r ≠ []) roots -> tree layer ->
  spec_at (foldl remove_created layer roots) q =
  if existsb (fun r => bool_decide (r `prefix_of` q)) roots then None else spec_at layer q.
Proof.
  intros Hr; revert layer; induction Hr as [|r roots Hr _ IH]; intros layer Ht; simpl; [done|].
  rewrite IH by (by apply remove_created_tree). rewrite remove_created_spec by done.
  destruct (decide (r `prefix_of` q)) as [Hd|Hd].
  - rewrite (bool_decide_true _ Hd). by destruct (existsb _ roots).
  - by rewrite (bool_decide_false _ Hd).
Qed.

Section exit.
Context (layer : L) (s : snapshot) (Htree : tree layer) (Hs : snapshot_ok layer s).
Context (Hanti : antichain (saved s)).

(** The copy loop: what is not under a path still to be copied is restored. *)
Lemma copy_back ps cur :
  (forall p, p ∈ ps -> p ∈ saved s) ->
  (forall q, (forall p, p ∈ ps -> ¬ p `prefix_of` q) -> spec_at cur q = spec_at layer q) ->
  exists cur', iterM (fun p layer => match copy_spec (backup s) p layer with
                        | Ok layer' => (layer', Ok ())
                        | Err e => (layer, Err e)
                        end) ps cur = (cur', Ok ())
    /\ forall q, spec_at cur' q = spec_at layer q.
Proof using Htree Hs Hanti.
  revert cur; induction ps as [|p ps IH]; intros cur Hps Hcur.
  - exists cur. split; [done|]. intros q. apply Hcur. by intros ? ?%not_elem_of_nil.
  - destruct (saved_exist _ _ Hs p) as [Hp Hex]; [set_solver|].
    assert (spec_at cur (parent p) = spec_at layer (parent p)) as Hpar.
    { apply Hcur. intros p' Hp' Hpre. assert (p' = p) as ->.
      - apply Hanti; [set_solver..|]. etrans; [done|]. apply parent_prefix.
      - apply prefix_length in Hpre. pose proof (parent_shorter p Hp). lia. }
    destruct (copy_spec_ok (backup s) p cur Hp) as (cur1 & Hcopy & Hcur1).
    { rewrite (saved_backup _ _ Hs p p); [done|set_solver|done]. }
    { rewrite Hpar. by apply Htree. }
    simpl. unfold mbind, M_bind. rewrite Hcopy. apply IH; [set_solver|].
    intros q Hq. rewrite Hcur1. case_decide as Hpq.
    + apply (saved_backup _ _ Hs p q); [set_solver|done].
    + apply Hcur. intros p' [->|Hp']%elem_of_cons; auto.
Qed.

Lemma scoped_exit_restores layer' : tree layer' ->
  (forall q, covered s q = false -> spec_at layer' q = spec_at layer q) ->
  exists layer'', scoped_exit_error s layer' = (layer'', Ok ())
    /\ forall q, spec_at layer'' q = spec_at layer q.
Proof using Htree Hs Hanti.
  intros Ht' Hout. unfold scoped_exit_error. unfold mbind, M_bind, modify.
  assert (Forall (fun r => r ≠ []) (created_roots s)) as Hroots.
  { apply Forall_forall. intros r Hr. by apply (created_missing _ _ Hs) in Hr as [? _]. }
  apply copy_back; [done|]. intros q Hq. rewrite remove_all_created by done.
  destruct (existsb _ _) eqn:E.
  - apply existsb_exists in E as (r & Hr & Hrq%bool_decide_eq_true).
    apply list_elem_of_In in Hr. apply (created_missing _ _ Hs) in Hr as (_ & Hnone & _).
    symmetry. apply eq_None_not_Some. intros Hsome.
    apply (tree_prefix layer q r Htree) in Hsome; [|done]. rewrite Hnone in Hsome. by destruct Hsome.
  - apply Hout. apply covered_false. intros r [Hr|Hr]%elem_of_app; [by apply Hq|].
    intros Hrq. apply not_true_iff_false in E. apply E. apply existsb_exists.
    exists r. rewrite <-list_elem_of_In. by rewrite bool_decide_eq_true.
Qed.
End exit.

(** What a block declared with [paths] may write: specs under a declared path,
    and missing ancestors of one. *)
Definition writes_within layer layer' (paths : list path) : Prop :=
  forall q, (forall p, p ∈ paths -> ¬ p `prefix_of` q /\ (q `prefix_of` p -> is_Some (spec_at layer q))) ->
  spec_at layer' q = spec_at layer q.

Lemma prefix_comparable (p q r : path) : p `prefix_of` r -> q `prefix_of` r -> p `prefix_of` q \/ q `prefix_of` p.
Proof. apply prefix_weak_total. Qed.

Lemma writes_within_covered layer layer' s paths :
  tree layer -> snapshot_ok layer s -> (forall p, p ∈ paths -> covered s p = true) ->
  writes_within layer layer' paths ->
  forall q, covered s q = false -> spec_at layer' q = spec_at layer q.
Proof.
  intros Ht Hs Hcov Hw q Hq. pose proof (proj1 (covered_false s q) Hq) as Hnc.
  apply Hw. intros p Hp. split.
  - intros Hpq. apply Hcov in Hp. apply (covered_mono s p q) in Hp; [congruence|done].
  - intros Hqp. apply Hcov, covered_true in Hp as (r & Hr & Hrp).
    destruct (prefix_comparable q r p Hqp Hrp) as [Hqr|Hrq]; [|by apply Hnc in Hr].
    apply elem_of_app in Hr as [Hr|Hr].
    + apply (saved_exist _ _ Hs) in Hr as [_ Hr]. by eapply tree_prefix.
    + pose proof Hr as Hr0. apply (created_missing _ _ Hs) in Hr as (Hne & _ & Hpar).
      apply prefix_parent in Hqr as [->|Hqr]; [|by eapply tree_prefix].
      exfalso. apply (Hnc r); [set_solver|done].
Qed.

Lemma empty_snapshot_ok layer : snapshot_ok layer (mk_snapshot anonymous [] []).
Proof.
  split; simpl.
  - by intros ? ?%not_elem_of_nil.
  - by intros ? ? ?%not_elem_of_nil.
  - by intros ? ?%not_elem_of_nil.
Qed.

Lemma with_scoped_restores {S A} (view : S -> L) (set : L -> S -> S) paths (body : M S A) st st' e :
  (forall l st, view (set l st) = l) ->
  tree (view st) -> Forall (fun p => p ≠ []) paths -> ancestors_first paths ->
  body st = (st', Err e) -> tree (view st') -> writes_within (view st) (view st') paths ->
  exists l, with_scoped view set paths body st = (set l st', Err e)
    /\ forall q, spec_at l q = spec_at (view st) q.
Proof.
  intros Hvs Ht Hp Haf Hbody Ht' Hw. unfold with_scoped, scoped_enter.
  destruct (enter_loop_ok (view st) Ht _ paths Hp (empty_snapshot_ok (view st)))
    as (s & Hrun & Hs & Hcov & _).
  assert (antichain (saved s)) as Hac.
  { eapply (enter_loop_antichain (view st) Ht [] (mk_snapshot anonymous [] []));
      [done| |done| | |done].
    - apply empty_snapshot_ok.
    - done.
    - by intros ? ? ?%not_elem_of_nil. }
  rewrite Hrun, Hbody.
  destruct (scoped_exit_restores (view st) s Ht Hs Hac (view st') Ht') as (l & -> & Hres).
  - by eapply writes_within_covered.
  - by exists l.
Qed.

(** What a scope can end in: the block's success, nothing done (entering
    raised), or the block's failure with the layer replaced. *)
Lemma atomic_apply_layer_cases {S A} (view : S -> L) (set : L -> S -> S) paths (body : M S A) st st' r :
  atomic_apply_layer view set paths body st = (st', r) ->
  match r with
  | Ok a => body st = (st', Ok a)
  | Err _ => st' = st \/ exists st1 e1 l, body st = (st1, Err e1) /\ st' = set l st1
  end.
Proof.
  assert (with_full view set body st = (st', r) ->
    match r with
    | Ok a => body st = (st', Ok a)
    | Err _ => st' = st \/ exists st1 e1 l, body st = (st1, Err e1) /\ st' = set l st1
    end) as Hfull.
  { unfold with_full. destruct (body st) as [st1 [a|e]]; intros [= <- <-]; [done|]. right. by eexists _, _, _. }
  unfold atomic_apply_layer. destruct paths as [paths|]; [|done].
  destruct (existsb _ paths); [done|]. unfold with_scoped.
  destruct (scoped_enter (view st) paths) as [s|e]; [|intros [= <- <-]; by left].
  destruct (body st) as [st1 [a|e]]; [by intros [= <- <-]|].
  destruct (scoped_exit_error s (view st1)) as [l [u|e']]; intros [= <- <-]; right; by eexists _, _, _.
Qed.

(** if the declared paths list ancestors before descendants and the block
    writes only under them (or creates missing ancestors of them), then after
    an exception every spec of the layer is the one of before, and the original
    exception propagates. *)
Theorem scoped_atomic_restores {A} paths (body : M L A) layer layer' e :
  tree layer -> Forall (fun p => p ≠ []) paths -> ancestors_first paths ->
  body layer = (layer', Err e) -> tree layer' -> writes_within layer layer' paths ->
  exists layer'', scoped_atomic paths body layer = (layer'', Err e)
    /\ forall q, spec_at layer'' q = spec_at layer q.
Proof. intros. by apply (with_scoped_restores id (fun l _ => l) paths body layer layer'). Qed.

End rollback.

(** ** Managed rollback paths *)

Section paths.
(** [Sdf.Path(text)] and [str(path)]. *)
Context (path_of : string -> path) (text_of : path -> string).

(** [_managed_rollback_paths]; the set is the list of its elements. *)
Definition managed_rollback_paths (events : list event) : gset string :=
  let paths := list_to_set (omap (fun ev =>
    if bool_decide (kind_of ev ∉ NON_COLLABORATION_KINDS) && negb (bool_decide (str_of ev "prim" = ""))
    then Some (str_of ev "prim") else None) events) in
  foldl (fun paths ev =>
    if bool_decide (kind_of ev ≠ K_RENAME_PRIM) then paths
    else {[text_of (parent (path_of (str_of ev "prim")) ++ [str_of ev "new_name"])]} ∪ paths)
    paths events.

(** [event.get("connections", {}).values()], each entry's [source_prim]. *)
Definition connection_sources (ev : event) : list string :=
  match ev !! "connections" with
  | Some (PDict d) =>
      omap (fun entry => match entry.2 with
                         | PDict c => match list_find (fun kv => kv.1 = "source_prim") c with
                                      | Some (_, (_, PStr s)) => if bool_decide (s = "") then None else Some s
                                      | _ => None
                                      end
                         | _ => None
                         end) d
  | _ => []
  end.

(** [prim_path.rsplit("/", 1)[0]]: the text before the last slash. *)
Context (rsplit_parent : string -> string).
(** [Sdf.Path.GetPrefixes], [IsPrimVariantSelectionPath] and [GetPrimPath] on
    path texts; the empty text is the empty path. *)
Context (get_prefixes : string -> list string).
Context (is_prim_variant_selection_path : string -> bool).
Context (get_prim_path : string -> string).

(** [atomic_apply_prim_paths]: [None] asks for a full-layer snapshot. *)
Definition atomic_paths_of_event (ev : event) : option (list string) :=
  let kind := kind_of ev in
  if bool_decide (kind ∈ ["set_stage_metadata"; "replace_sdf_layer_content"; "set_sublayers"]) then None
  else if bool_decide (kind ∈ ["set_sdf_spec_fields"; "erase_time_samples"]) then
    if bool_decide (str_of ev "spec_kind" = "layer") then None
    else
      let spec_path := str_of ev "spec_path" in
      if bool_decide (spec_path = "") then None
      else
        let variant_owner :=
          head (map get_prim_path (filter (fun p => is_prim_variant_selection_path p = true)
                                          (get_prefixes spec_path))) in
        let prim_path := match variant_owner with
                         | Some o => if bool_decide (o = "") then get_prim_path spec_path else o
                         | None => get_prim_path spec_path
                         end in
        if bool_decide (prim_path = "" \/ prim_path = "/") then None else Some [prim_path]
  else
    let prim_path := str_of ev "prim" in
    if bool_decide (prim_path = "" \/ prim_path = "/") then None
    else if bool_decide (kind = K_RENAME_PRIM) then
      let new_name := str_of ev "new_name" in
      if bool_decide (new_name = "") then None
      else Some [prim_path; (rsplit_parent prim_path +:+ "/") +:+ new_name]
    else if bool_decide (kind = K_SET_CONNECTABLE_CONNECTION) then
      Some (prim_path :: connection_sources ev)
    else Some [prim_path].

Definition atomic_apply_prim_paths (events : list event) : option (list string) :=
  foldl (fun acc ev => paths ← acc; new ← atomic_paths_of_event ev; Some (paths ++ new))
    (Some []) events.

Lemma managed_rollback_single ev :
  kind_of ev = K_SET_CONNECTABLE_CONNECTION -> str_of ev "prim" ≠ "" ->
  managed_rollback_paths [ev] = {[str_of ev "prim"]}.
Proof.
  intros Hk Hp. unfold managed_rollback_paths. simpl. rewrite Hk.
  rewrite !(bool_decide_true (K_SET_CONNECTABLE_CONNECTION ≠ _)) by done.
  rewrite (bool_decide_false _ Hp), bool_decide_true; [set_solver|].
  unfold NON_COLLABORATION_KINDS, K_SET_CONNECTABLE_CONNECTION. set_solver.
Qed.

(** for a connection event the shared-stage scope
    ([atomic_apply_prim_paths]) includes every source prim, which applying the
    event may define, while the managed scope ([_managed_rollback_paths]) is the
    event's own prim only. *)
Theorem managed_rollback_omits_connection_sources ev src :
  kind_of ev = K_SET_CONNECTABLE_CONNECTION ->
  str_of ev "prim" ≠ "" -> str_of ev "prim" ≠ "/" ->
  src ∈ connection_sources ev -> src ≠ str_of ev "prim" ->
  src ∉ managed_rollback_paths [ev]
  /\ exists scope, atomic_apply_prim_paths [ev] = Some scope /\ src ∈ scope.
Proof.
  intros Hk Hp Hp' Hsrc Hne. rewrite managed_rollback_single by done. split; [set_solver|].
  unfold atomic_apply_prim_paths, atomic_paths_of_event. simpl. rewrite Hk.
  rewrite !(bool_decide_false (_ ∈ _)) by (unfold K_SET_CONNECTABLE_CONNECTION; set_solver).
  rewrite (bool_decide_false (_ \/ _)) by tauto.
  rewrite (bool_decide_false (_ = K_RENAME_PRIM)) by done.
  rewrite (bool_decide_true (_ = K_SET_CONNECTABLE_CONNECTION)) by done. simpl.
  eexists; split; [done|]. set_solver.
Qed.

End paths.

(** ** A concrete layer: a finite map of specs under an ever-present root *)
Section map_layer.

Definition map_spec_at (l : gmap path string) (q : path) : option string :=
  match q with [] => Some "" | _ => l !! q end.

Definition under (p : path) (kv : path * string) : Prop := p `prefix_of` kv.1.
#[local] Instance under_dec p kv : Decision (under p kv).
Proof. unfold under. apply _. Defined.

Definition overs (p : path) : gmap path string :=
  list_to_map (map (fun n => (take n p, "over")) (seq 1 (length p))).

Definition map_create (l : gmap path string) (p : path) : gmap path string := l ∪ overs p.

Definition map_copy (src : gmap path string) (p : path) (dst : gmap path string) :
    result (gmap path string) :=
  match map_spec_at dst (parent p), map_spec_at src p with
  | Some _, Some _ => Ok (filter (under p) src ∪ filter (fun kv => ¬ under p kv) dst)
  | _, _ => Err (OtherException "Tf.ErrorException")
  end.

Lemma overs_prefix p q x : overs p !! q = Some x -> q `prefix_of` p.
Proof.
  intros H%elem_of_list_to_map_2. apply list_elem_of_fmap in H as (n & [= -> _] & _).
  exists (drop n p). by rewrite take_drop.
Qed.

Lemma overs_some p q : q ≠ [] -> q `prefix_of` p -> is_Some (overs p !! q).
Proof.
  intros Hq [k ->]. apply not_eq_None_Some. unfold overs. rewrite <-not_elem_of_list_to_map.
  intros Hn. apply Hn. rewrite <-list_fmap_compose. apply list_elem_of_fmap.
  exists (length q). split; [by simpl; rewrite take_app_length|].
  apply elem_of_seq. rewrite length_app. destruct q; simpl in *; [done|lia].
Qed.

Lemma map_spec_at_ne l q : q ≠ [] -> map_spec_at l q = l !! q.
Proof. by destruct q. Qed.

#[export] Program Instance map_sdf_layer : SdfLayer string (gmap path string) := {
  spec_at := map_spec_at;
  anonymous := ∅;
  create_prim_in_layer := map_create;
  copy_spec := map_copy;
  remove_prim l p := filter (fun kv => ¬ under p kv) l;
}.
Next Obligation. by intros l. Qed.
Next Obligation. intros p Hp. by rewrite map_spec_at_ne, lookup_empty. Qed.
Next Obligation.
  intros l p q Hq. destruct (decide (q = [])) as [->|Hne]; [done|].
  rewrite !map_spec_at_ne in * by done. unfold map_create.
  destruct Hq as [Hq|[x Hx]]; [|by rewrite Hx; apply lookup_union_Some_l].
  apply lookup_union_l. destruct (overs p !! q) eqn:E; [|done]. by apply overs_prefix in E.
Qed.
Next Obligation.
  intros l p q Hq. destruct (decide (q = [])) as [->|Hne]; [done|].
  rewrite map_spec_at_ne by done. unfold map_create.
  destruct (overs_some p q Hne Hq) as [x Hx]. rewrite lookup_union_is_Some. right. by exists x.
Qed.
Next Obligation.
  intros src p dst Hp [x Hx] [y Hy]. unfold map_copy. rewrite Hx, Hy. eexists; split; [done|].
  intros q. destruct (decide (q = [])) as [->|Hne].
  { rewrite decide_False; [done|]. by intros ->%prefix_nil_inv. }
  rewrite !map_spec_at_ne by done. case_decide as Hpq.
  - rewrite lookup_union_l.
    + rewrite map_lookup_filter. destruct (src !! q); simpl; [|done].
      rewrite option_guard_True; [done|]. exact Hpq.
    + rewrite map_lookup_filter. destruct (dst !! q); simpl; [|done].
      rewrite option_guard_False; [done|]. intros Hn. by apply Hn.
  - rewrite lookup_union_r.
    + rewrite map_lookup_filter. destruct (dst !! q); simpl; [|done].
      rewrite option_guard_True; [done|]. exact Hpq.
    + rewrite map_lookup_filter. destruct (src !! q); simpl; [|done].
      rewrite option_guard_False; [done|]. exact Hpq.
Qed.
Next Obligation. intros src p dst Hp Hn. unfold map_copy. rewrite Hn. eauto. Qed.
Next Obligation.
  intros l p q Hp. destruct (decide (q = [])) as [->|Hne].
  { rewrite decide_False; [done|]. by intros ->%prefix_nil_inv. }
  rewrite !map_spec_at_ne by done. rewrite map_lookup_filter. case_decide as Hpq.
  - destruct (l !! q); simpl; [|done]. rewrite option_guard_False; [done|]. intros Hn. by apply Hn.
  - destruct (l !! q); simpl; [|done]. rewrite option_guard_True; [done|]. exact Hpq.
Qed.

Definition demo_layer : gmap path string :=
  list_to_map [(["A"], "Xform"); (["A"; "B"], "Mesh"); (["C"], "Xform")].

(** Edit [/A/B], delete [/A], define [/D/E], then fail. *)
Definition demo_body : M (gmap path string) unit := fun l =>
  (<[["D"; "E"] := "Shader"]> (<[["D"] := "over"]> (filter (fun kv => ¬ under ["A"] kv) l)),
   Err IntegrityError).

(** saving [/A/B] before [/A] (as iterating a set may) makes the
    restoration raise once the block has deleted [/A]: the copy of [/A/B] has no
    parent to go to, [/A] is never restored, and the caller sees the copy's error. *)
Theorem descendant_first_rollback_fails :
  scoped_atomic [["A"; "B"]; ["A"]; ["D"; "E"]] demo_body demo_layer
  = (list_to_map [(["C"], "Xform")], Err (OtherException "Tf.ErrorException"))
  /\ scoped_atomic [["A"]; ["A"; "B"]; ["D"; "E"]] demo_body demo_layer
     = (demo_layer, Err IntegrityError).
Proof. split; vm_compute; reflexivity. Qed.

Lemma demo_tree (l : gmap path string) :
  forallb (fun kv => match map_spec_at l (parent kv.1) with Some _ => true | None => false end)
    (map_to_list l) = true -> tree l.
Proof.
  intros Hl p Hp. destruct (decide (p = [])) as [->|Hne]; [done|].
  simpl in *. rewrite map_spec_at_ne in Hp by done. destruct Hp as [x Hx].
  apply elem_of_map_to_list, list_elem_of_In in Hx. rewrite forallb_forall in Hl.
  specialize (Hl _ Hx). simpl in Hl. destruct (map_spec_at l (parent p)); [eauto|done].
Qed.

Lemma demo_writes_within :
  writes_within demo_layer (demo_body demo_layer).1 [["A"]; ["A"; "B"]; ["D"; "E"]].
Proof.
  intros q Hq. simpl. destruct (decide (q = [])) as [->|Hne]; [done|].
  rewrite !map_spec_at_ne by done.
  destruct (Hq ["A"]) as [HA _]; [set_solver|]. destruct (Hq ["D"; "E"]) as [HE HD]; [set_solver|].
  assert (q ≠ ["D"; "E"]) by (by intros ->).
  assert (q ≠ ["D"]) as HneD.
  { intros ->. destruct HD as [? HD]; [by exists ["E"]|]. vm_compute in HD. done. }
  rewrite !lookup_insert_ne by done. rewrite map_lookup_filter.
  destruct (demo_layer !! q); simpl; [|done]. by rewrite option_guard_True.
Qed.

Lemma demo_ancestors_first : ancestors_first [["A"]; ["A"; "B"]; ["D"; "E"]].
Proof.
  intros [|[|[|i]]] [|[|[|j]]] p q Hi Hj Hpq Hne; simpl in *; simplify_eq; try lia; try done;
    exfalso; apply prefix_length in Hpq as Hl; simpl in Hl; try lia;
    apply (bool_decide_eq_true_2 _) in Hpq; vm_compute in Hpq; done.
Qed.

Lemma scoped_atomic_restores_witness :
  exists l, scoped_atomic [["A"]; ["A"; "B"]; ["D"; "E"]] demo_body demo_layer = (l, Err IntegrityError)
    /\ forall q, spec_at l q = spec_at demo_layer q.
Proof.
  apply (scoped_atomic_restores [["A"]; ["A"; "B"]; ["D"; "E"]] demo_body demo_layer
           (demo_body demo_layer).1 IntegrityError).
  - apply demo_tree. vm_compute. reflexivity.
  - repeat constructor; done.
  - apply demo_ancestors_first.
  - reflexivity.
  - apply demo_tree. vm_compute. reflexivity.
  - apply demo_writes_within.
Defined.

Definition demo_connection : event :=
  <["k" := PStr K_SET_CONNECTABLE_CONNECTION]> (<["prim" := PStr "/Mat/Tex"]>
    {["connections" := PDict [("inputs:st", PDict [("source_prim", PStr "/Mat/St"); ("source_attr", PStr "outputs:r")])]]}).

Lemma managed_rollback_omits_connection_sources_witness :
  "/Mat/St" ∉ managed_rollback_paths (fun _ => []) (fun _ => "") [demo_connection].
Proof.
  apply (managed_rollback_omits_connection_sources (fun _ => []) (fun _ => "") id (fun _ => [])
           (fun _ => false) id demo_connection "/Mat/St"); try (vm_compute; done).
  apply list_elem_of_In. vm_compute. by left.
Defined.
End map_layer.
