(* ===== verification/Validation.v ===== *)
(** * Validation: what an event must look like to be admitted
    ([openusdconnect/protocol_validation.py], [connectable_attrs.py], and the
    validators of [sdf_spec_delta.py] and [shared_layer_graph.py])

    Producers validate a transaction before they queue it, the server before
    it stages it.  Every validator either returns or raises: [raise_if] is a
    guard followed by [_fail].  USD (paths, identifiers, value types, layers
    read from a fragment) is the class [Sdf]; the registry filled by the
    [register_validator] decorators is [validators].

    Event dictionaries hold the values of [pyval]: JSON-like data, so numpy
    arrays and tuples, which the decoder may also produce, are left out, and a
    dictionary key is a string.

    Theorems: the transform events that pass are exactly those coalescing
    expects, and coalescing a valid transaction gives a valid transaction
    with the same effect; [validate_event] answers for every event whose
    integers fit a double; for a larger integer it raises instead. *)

From Stdlib Require Import QArith.Qcanon.
From S2P Require Import Prelude Constants Coalescing.
#[local] Set Default Proof Using "Type".

Definition OverflowError : exn := OtherException "OverflowError".
Definition ErrorException : exn := OtherException "Tf.ErrorException".

(** ** Numbers *)

(** [float(z)] rounds to nearest, ties to even: from [2^1024 - 2^970] on, the
    result would not be finite and [OverflowError] is raised. *)
Definition float_fits (z : Z) : bool := (Z.abs z <? 2 ^ 1024 - 2 ^ 970)%Z.
Definition to_float (z : Z) : result unit := raise_if (negb (float_fits z)) OverflowError.

(** [math.isfinite(float(v))] of a number that is not a boolean *)
Definition isfinite (v : pyval) : result bool :=
  match v with
  | PInt z => _ ← to_float z; Ok true
  | PFloat (Fin _) => Ok true
  | _ => Ok false
  end.

Definition is_finite_number (v : pyval) : result bool :=
  match v with PInt _ | PFloat _ => isfinite v | _ => Ok false end.

Definition require_finite (v : pyval) : result unit :=
  b ← is_finite_number v; raise_if (negb b) ValueError.

(** [all(p(x) for x in l)] *)
Fixpoint allR {A} (p : A -> result bool) (l : list A) : result bool :=
  match l with
  | [] => Ok true
  | x :: l => match p x with Ok true => allR p l | r => r end
  end.

(** [for x in l: check(x)] *)
Fixpoint eachR {A} (check : A -> result unit) (l : list A) : result unit :=
  match l with
  | [] => Ok ()
  | x :: l => _ ← check x; eachR check l
  end.

Definition is_str (v : pyval) : bool := match v with PStr _ => true | _ => false end.
Definition is_bool (v : pyval) : bool := match v with PBool _ => true | _ => false end.
Definition is_none (v : pyval) : bool := match v with PNone => true | _ => false end.

(** A list or a dictionary has no hash. *)
Definition unhashable (v : pyval) : bool := match v with PList _ | PDict _ => true | _ => false end.

(** [x.get(k, d)] *)
Definition get_or (ev : event) (k : string) (d : pyval) : pyval := default d (ev !! k).
Definition item_get (x : list (string * pyval)) (k : string) : pyval := default PNone (dict_get k x).
Definition item_get_or (x : list (string * pyval)) (k : string) (d : pyval) : pyval := default d (dict_get k x).

(** The list or the dictionary that a guard has checked for. *)
Definition as_list (v : pyval) : result (list pyval) := match v with PList l => Ok l | _ => Err ValueError end.
Definition as_dict (v : pyval) : result (list (string * pyval)) :=
  match v with PDict d => Ok d | _ => Err ValueError end.

Definition require_optional_time (ev : event) : result unit :=
  if is_none (py_get ev "time") then Ok () else require_finite (py_get ev "time").

Definition require_bool (ev : event) (field : string) : result unit :=
  raise_if (negb (is_bool (py_get ev field))) ValueError.

Definition require_string (ev : event) (field : string) (empty : bool) : result string :=
  match py_get ev field with
  | PStr s => _ ← raise_if (negb empty && bool_decide (s = "")) ValueError; Ok s
  | _ => Err ValueError
  end.

(** [len(fields) != len(set(fields)) or any(field not in allowed ...)]: only
    strings are allowed, so duplicates matter among strings alone. *)
Definition require_field_set (ev : event) (allowed : list string) : result (list string) :=
  fields ← as_list (py_get ev "fields");
  _ ← raise_if (bool_decide (fields = [])) ValueError;
  _ ← raise_if (existsb unhashable fields) TypeError;
  _ ← raise_if (negb (bool_decide (NoDup fields)) ||
                negb (forallb (fun f => bool_decide (f ∈ map PStr allowed)) fields)) ValueError;
  Ok (omap (fun f => match f with PStr s => Some s | _ => None end) fields).

Definition require_vector (v : pyval) (size : nat) : result unit :=
  match v with
  | PList l =>
      _ ← raise_if (negb (length l =? size)%nat) ValueError;
      b ← allR is_finite_number l;
      raise_if (negb b) ValueError
  | _ => Err ValueError
  end.

Definition is_vector_valid (size : nat) (v : pyval) : result bool :=
  match require_vector v size with
  | Ok _ => Ok true
  | Err ValueError => Ok false
  | Err e => Err e
  end.
Definition is_quat_valid : pyval -> result bool := is_vector_valid 4.
Definition is_vec3_valid : pyval -> result bool := is_vector_valid 3.
Definition clamp_fields (fields : list string) : list string := filter (fun f => f ∈ TRS_FIELDS) fields.

(** ** Qualified attribute names ([connectable_attrs.py]) *)

Inductive side : Type := SIDE_INPUT | SIDE_OUTPUT.
Record ConnectableAttr := mk_attr { attr_side : side; base_name : string }.
#[global] Instance side_eq_dec : EqDecision side.
Proof. solve_decision. Defined.
#[global] Instance ConnectableAttr_eq_dec : EqDecision ConnectableAttr.
Proof. solve_decision. Defined.

Definition USDSHADE_INPUT_PREFIX : string := "inputs:".
Definition USDSHADE_OUTPUT_PREFIX : string := "outputs:".

(** [s[len(prefix):]] when [s] starts with the prefix *)
Fixpoint strip_prefix (p s : string) : option string :=
  match p, s with
  | EmptyString, _ => Some s
  | String a p, String b s => if Ascii.eqb a b then strip_prefix p s else None
  | _, _ => None
  end.

Definition parse_qualified_attr (v : pyval) : option ConnectableAttr :=
  match v with
  | PStr s =>
      match strip_prefix USDSHADE_INPUT_PREFIX s with
      | Some (String _ _ as base) => Some (mk_attr SIDE_INPUT base)
      | _ => match strip_prefix USDSHADE_OUTPUT_PREFIX s with
             | Some (String _ _ as base) => Some (mk_attr SIDE_OUTPUT base)
             | _ => None
             end
      end
  | _ => None
  end.

Definition qualified_name (a : ConnectableAttr) : string :=
  match attr_side a with
  | SIDE_INPUT => USDSHADE_INPUT_PREFIX +:+ base_name a
  | SIDE_OUTPUT => USDSHADE_OUTPUT_PREFIX +:+ base_name a
  end.

(** ** USD *)

(** The concrete class of a spec object. *)
Inductive spec_class : Type :=
  | PseudoRootSpec | VariantSetSpec | VariantSpec | AttributeSpec | RelationshipSpec | PrimSpec | OtherSpec.

Class Sdf := {
  path : Type;
  to_path : string -> path;                       (* Sdf.Path(s) *)
  IsValidPathString : string -> bool;
  IsAbsolutePath : path -> bool;
  IsPrimPath : path -> bool;
  IsPropertyPath : path -> bool;
  IsPrimPropertyPath : path -> bool;
  IsPrimVariantSelectionPath : path -> bool;
  ContainsPrimVariantSelection : path -> bool;
  has_selection : path -> bool;                   (* bool(path.GetVariantSelection()[1]) *)
  is_root : path -> bool;                         (* path == Sdf.Path.absoluteRootPath *)
  owner_prim : path -> string;                    (* str(path.GetPrimPath().StripAllVariantSelections()) *)
  IsValidIdentifier : string -> bool;
  IsValidNamespacedIdentifier : string -> bool;
  ValueTypeNames_Find : string -> bool;
  layer : Type;
  ImportFromString : string -> result (option layer);
  GetObjectAtPath : layer -> path -> option spec_class;
  has_sublayers : layer -> bool;                  (* bool(layer.subLayerPaths) *)
  (** not anonymous and not a local asset path *)
  portable_asset : string -> bool;
  (** reading a fragment raises USD's own exception at most *)
  import_raises : forall s e, ImportFromString s = Err e -> e = ErrorException;
}.

Section validators.
Context `{Sdf}.

Definition sdf_path (v : pyval) : result path :=
  match v with
  | PStr s => _ ← raise_if (bool_decide (s = "") || negb (IsValidPathString s)) ValueError; Ok (to_path s)
  | _ => Err ValueError
  end.

(** every call leaves [allow_root] at its default, [False] *)
Definition require_prim_path (v : pyval) : result unit :=
  p ← sdf_path v;
  _ ← raise_if (negb (IsAbsolutePath p) || negb (IsPrimPath p)) ValueError;
  _ ← raise_if (is_root p) ValueError;
  raise_if (ContainsPrimVariantSelection p) ValueError.

Definition require_identifier (v : pyval) (namespaced : bool) : result unit :=
  raise_if (negb match v with
                 | PStr s => if namespaced then IsValidNamespacedIdentifier s else IsValidIdentifier s
                 | _ => false
                 end) ValueError.

Definition validate_ensure_prim (ev : event) : result unit :=
  _ ← require_string ev "typeName" true;
  match py_get ev "api_schemas" with
  | PNone => Ok ()
  | PList l =>
      raise_if (negb (forallb (fun v => match v with
        | PStr s => negb (bool_decide (s = "")) && IsValidNamespacedIdentifier s
        | _ => false end) l)) ValueError
  | _ => Err ValueError
  end.

Definition validate_prim_only (_ : event) : result unit := Ok ().

(** [{field for field in allowed if field in event}] *)
Definition present_in (ev : event) (allowed : list string) : list string :=
  filter (fun f => is_Some (ev !! f)) allowed.

Definition validate_xform (ev : event) : result unit :=
  fields ← require_field_set ev TRS_FIELDS;
  _ ← raise_if (bool_decide ((list_to_set fields : gset string) ≠ list_to_set (present_in ev TRS_FIELDS))) ValueError;
  _ ← eachR (fun f => v ← py_item ev f; require_vector v (if bool_decide (f = "r") then 4 else 3)) fields;
  require_optional_time ev.

Definition validate_active (ev : event) : result unit := require_bool ev "active".
Definition validate_rename (ev : event) : result unit := require_identifier (py_get ev "new_name") false.
Definition validate_visibility (ev : event) : result unit :=
  _ ← require_bool ev "visible"; require_optional_time ev.

Definition valid_attr_value (v : pyval) : result bool :=
  match v with
  | PBool _ | PStr _ | PInt _ => Ok true
  | PFloat _ => isfinite v
  | PList _ => Ok true
  | _ => Ok false
  end.

Definition validate_gprim_attrs (ev : event) : result unit :=
  attrs ← as_dict (py_get ev "attrs");
  _ ← eachR (fun nv : string * pyval =>
        _ ← require_identifier (PStr nv.1) true;
        b ← valid_attr_value nv.2; raise_if (negb b) ValueError) attrs;
  primvar_meta ← as_dict (get_or ev "primvar_meta" (PDict []));
  _ ← eachR (fun nm : string * pyval =>
        _ ← require_identifier (PStr nm.1) true;
        metadata ← as_dict nm.2;
        _ ← raise_if (negb match item_get metadata "typeName" with
                           | PStr t => ValueTypeNames_Find t | _ => false end) ValueError;
        raise_if (negb (is_none (item_get metadata "interpolation")) &&
                  negb (is_str (item_get metadata "interpolation"))) ValueError) primvar_meta;
  attr_interp ← as_dict (get_or ev "attr_interp" (PDict []));
  _ ← raise_if (negb (forallb (fun nv => is_str nv.2) attr_interp)) ValueError;
  require_optional_time ev.

(** *** Composition arcs *)

Definition ARC_LIST_POSITIONS : list string :=
  ["explicit"; "added"; "prepended"; "appended"; "deleted"; "ordered"].

(** [deserialize_reference_custom_data] of a non-empty fragment *)
Definition deserialize_reference_custom_data (fragment : string) : result unit :=
  l ← ImportFromString fragment; raise_if (negb (bool_decide (is_Some l))) ValueError.

Definition validate_arc_entry (references explicit : bool) (v : pyval) : result unit :=
  entry ← as_dict v;
  let asset_path := item_get entry "asset_path" in
  let prim_path := item_get entry "prim_path" in
  _ ← raise_if (is_none asset_path && is_none prim_path) ValueError;
  _ ← raise_if (negb (is_none asset_path) && negb (is_str asset_path)) ValueError;
  _ ← raise_if (bool_decide (asset_path = PStr "") && is_none prim_path) ValueError;
  _ ← (if is_none prim_path then Ok () else require_prim_path prim_path);
  let position := item_get_or entry "list_position" (PStr (if explicit then "explicit" else "prepended")) in
  _ ← raise_if (unhashable position) TypeError;
  _ ← raise_if (negb (bool_decide (position ∈ map PStr ARC_LIST_POSITIONS)) ||
                negb (eqb explicit (bool_decide (position = PStr "explicit")))) ValueError;
  _ ← require_finite (item_get_or entry "layer_offset" (PFloat (Fin 0%Qc)));
  _ ← require_finite (item_get_or entry "layer_scale" (PFloat (Fin 1%Qc)));
  match item_get entry "custom_data_fragment" with
  | PNone => Ok ()
  | PStr s =>
      _ ← raise_if (negb references || bool_decide (s = "")) ValueError;
      deserialize_reference_custom_data s
  | _ => Err ValueError
  end.

Definition validate_arc_event (key : string) (references : bool) (ev : event) : result unit :=
  arcs ← as_list (py_get ev key);
  match get_or ev "list_op_explicit" (PBool false) with
  | PBool explicit =>
      match get_or ev "list_op_authored" (PBool (negb (bool_decide (arcs = [])) || explicit)) with
      | PBool authored =>
          _ ← raise_if (negb authored && (negb (bool_decide (arcs = [])) || explicit)) ValueError;
          eachR (validate_arc_entry references explicit) arcs
      | _ => Err ValueError
      end
  | _ => Err ValueError
  end.

Definition validate_references : event -> result unit := validate_arc_event "refs" true.
Definition validate_payloads : event -> result unit := validate_arc_event "payloads" false.

Definition validate_variants (ev : event) : result unit :=
  selections ← as_dict (py_get ev "selections");
  eachR (fun nv : string * pyval =>
    match nv.2 with
    | PStr selection =>
        raise_if (negb (IsValidPathString ("/Prim{" +:+ nv.1 +:+ "=" +:+ selection +:+ "}"))) ValueError
    | _ => Err ValueError
    end) selections.

Definition validate_material_binding (ev : event) : result unit :=
  material_path ← require_string ev "material_path" true;
  _ ← (if bool_decide (material_path = "") then Ok () else require_prim_path (PStr material_path));
  let purpose := py_get ev "material_purpose" in
  if truthy purpose then require_identifier purpose true
  else raise_if (negb (is_none purpose) && negb (is_str purpose)) ValueError.

(** *** Connectable prims *)

Definition valid_connectable_value (v : pyval) : result bool :=
  match v with
  | PBool _ | PStr _ | PInt _ => Ok true
  | PFloat _ => isfinite v
  | PList l => if forallb is_str l then Ok true else allR is_finite_number l
  | _ => Ok false
  end.

Definition validate_connectable_input (ev : event) : result unit :=
  _ ← require_string ev "info_id" true;
  inputs ← as_dict (py_get ev "inputs");
  _ ← eachR (fun nv : string * pyval =>
        _ ← require_identifier (PStr nv.1) true;
        b ← valid_connectable_value nv.2; raise_if (negb b) ValueError) inputs;
  input_types ← as_dict (get_or ev "input_types" (PDict []));
  _ ← raise_if (negb (forallb (fun n => bool_decide (n ∈ map fst inputs)) (map fst input_types))) ValueError;
  _ ← eachR (fun nt : string * pyval =>
        raise_if (negb match nt.2 with
                       | PStr t => bool_decide (t = "") || ValueTypeNames_Find t | _ => false end) ValueError) input_types;
  require_optional_time ev.

Definition require_connectable_attr (v : pyval) : result unit :=
  match parse_qualified_attr v with
  | Some a => raise_if (negb (IsValidNamespacedIdentifier (base_name a))) ValueError
  | None => Err ValueError
  end.

Definition validate_connectable_connections (ev : event) : result unit :=
  connections ← as_dict (py_get ev "connections");
  _ ← eachR (fun nc : string * pyval =>
        _ ← require_connectable_attr (PStr nc.1);
        connection ← as_dict nc.2;
        _ ← require_prim_path (item_get connection "source_prim");
        require_connectable_attr (item_get connection "source_attr")) connections;
  disconnections ← as_list (get_or ev "disconnections" (PList []));
  eachR require_connectable_attr disconnections.

(** *** Stage metadata, instancing *)

Definition STAGE_METADATA_KEYS : list string :=
  ["timeCodesPerSecond"; "framesPerSecond"; "startTimeCode"; "endTimeCode"; "metersPerUnit"; "upAxis"].

(** [value <= 0] of a finite number *)
Definition not_positive (v : pyval) : bool :=
  match v with
  | PInt z => (z <=? 0)%Z
  | PFloat (Fin q) => bool_decide (q ≤ 0)%Qc
  | _ => false
  end.

Definition validate_stage_metadata (ev : event) : result unit :=
  let present := present_in ev STAGE_METADATA_KEYS in
  _ ← raise_if (bool_decide (present = [])) ValueError;
  eachR (fun field =>
    value ← py_item ev field;
    if bool_decide (field = "upAxis") then raise_if (negb (bool_decide (value ∈ [PStr "Y"; PStr "Z"]))) ValueError
    else
      _ ← require_finite value;
      raise_if (bool_decide (field ∈ ["timeCodesPerSecond"; "framesPerSecond"; "metersPerUnit"]) &&
                not_positive value) ValueError) present.

Definition validate_instanceable (ev : event) : result unit := require_bool ev "instanceable".

Definition POINT_INSTANCER_FIELDS : list string :=
  ["prototypes"; "proto_indices"; "positions"; "orientations"; "scales"; "velocities"; "accelerations";
   "angular_velocities"; "ids"; "invisible_ids"; "inactive_ids"].

(** One item of a flat list: [integer] or finite *)
Definition bulk_item (integer : bool) (v : pyval) : result bool :=
  match v with
  | PInt _ => if integer then Ok true else isfinite v
  | PFloat _ => if integer then Ok false else isfinite v
  | _ => Ok false
  end.

Definition require_bulk_array (v : pyval) (width : option nat) (integer : bool) : result unit :=
  l ← as_list v;
  valid ← match width with
          | None => allR (bulk_item integer) l
          | Some w => allR (fun row => match row with
              | PList r => if (length r =? w)%nat then allR is_finite_number r else Ok false
              | _ => Ok false end) l
          end;
  raise_if (negb valid) ValueError.

Definition validate_point_instancer (ev : event) : result unit :=
  fields ← require_field_set ev POINT_INSTANCER_FIELDS;
  let present := present_in ev POINT_INSTANCER_FIELDS in
  _ ← raise_if (bool_decide ((list_to_set fields : gset string) ≠ list_to_set present)) ValueError;
  _ ← raise_if (negb (is_none (py_get ev "time")) &&
                (bool_decide ("prototypes" ∈ present) || bool_decide ("inactive_ids" ∈ present))) ValueError;
  _ ← (if bool_decide ("prototypes" ∈ present) then
         prototypes ← as_list (py_get ev "prototypes"); eachR require_prim_path prototypes
       else Ok ());
  _ ← eachR (fun field => if bool_decide (field ∈ present) then require_bulk_array (py_get ev field) None true
                          else Ok ())
            ["proto_indices"; "ids"; "invisible_ids"; "inactive_ids"];
  _ ← eachR (fun fw : string * nat =>
               if bool_decide (fw.1 ∈ present) then require_bulk_array (py_get ev fw.1) (Some fw.2) false else Ok ())
            [("positions", 3); ("orientations", 4); ("scales", 3); ("velocities", 3); ("accelerations", 3);
             ("angular_velocities", 3)];
  require_optional_time ev.

(** *** Exact Sdf events *)

Definition validate_erase_time_samples (ev : event) : result unit :=
  p ← sdf_path (py_get ev "spec_path");
  _ ← raise_if (negb (IsAbsolutePath p) || negb (IsPrimPropertyPath p)) ValueError;
  _ ← raise_if (bool_decide (py_get ev "prim" ≠ PStr (owner_prim p))) ValueError;
  times ← as_list (py_get ev "times");
  _ ← raise_if (bool_decide (times = [])) ValueError;
  eachR require_finite times.

Definition SDF_SPEC_KINDS : list string :=
  ["layer"; "prim"; "attribute"; "relationship"; "variant_set"; "variant"; "property"].
Definition SDF_LAYER_TOPOLOGY_FIELDS : list string := ["subLayers"; "subLayerOffsets"].

(** [_spec_path] of a string *)
Definition spec_path (value kind : string) : result path :=
  _ ← raise_if (negb (bool_decide (kind ∈ SDF_SPEC_KINDS))) ValueError;
  let p := to_path value in
  _ ← raise_if (negb (IsAbsolutePath p)) ValueError;
  let valid :=
    if bool_decide (kind = "layer") then is_root p
    else if bool_decide (kind = "prim") then IsPrimPath p
    else if bool_decide (kind ∈ ["attribute"; "relationship"; "property"]) then IsPropertyPath p
    else if bool_decide (kind = "variant_set") then IsPrimVariantSelectionPath p && negb (has_selection p)
    else IsPrimVariantSelectionPath p && has_selection p in
  _ ← raise_if (negb valid) ValueError;
  Ok p.

Definition event_prim_path (p : path) (kind : string) : string :=
  if bool_decide (kind = "layer") then "/" else owner_prim p.

Definition spec_kind_for_object (c : spec_class) : result string :=
  match c with
  | PseudoRootSpec => Ok "layer" | VariantSetSpec => Ok "variant_set" | VariantSpec => Ok "variant"
  | AttributeSpec => Ok "attribute" | RelationshipSpec => Ok "relationship" | PrimSpec => Ok "prim"
  | OtherSpec => Err TypeError
  end.

(** [_get_spec(layer, path, kind)] *)
Definition get_spec (l : layer) (p : path) (kind : string) : result (option spec_class) :=
  match if bool_decide (kind = "layer") then Some PseudoRootSpec else GetObjectAtPath l p with
  | None => Ok None
  | Some c =>
      if bool_decide (kind = "property")
      then Ok (match c with AttributeSpec | RelationshipSpec => Some c | _ => None end)
      else k ← spec_kind_for_object c; Ok (if bool_decide (k = kind) then Some c else None)
  end.

(** [_spec_delta_info], after the checks of [_validate_sdf_spec_fields] *)
Definition spec_delta_info (ev : event) (kind value : string) (raw_fields : list pyval) (removed : bool) : result path :=
  p ← spec_path value kind;
  _ ← raise_if (negb (is_none (py_get ev "prim")) &&
                bool_decide (py_get ev "prim" ≠ PStr (event_prim_path p kind))) ValueError;
  _ ← raise_if (negb (forallb (fun v => match v with PStr s => negb (bool_decide (s = "")) | _ => false end)
                               raw_fields)) ValueError;
  _ ← raise_if (bool_decide (kind = "layer") &&
                existsb (fun f => bool_decide (PStr f ∈ raw_fields)) SDF_LAYER_TOPOLOGY_FIELDS) ValueError;
  _ ← raise_if (removed && bool_decide (kind = "layer")) ValueError;
  _ ← raise_if (bool_decide (kind = "property") && negb removed) ValueError;
  Ok p.

(** [fragment_authored_fields]: that the fragment can be read and has the spec *)
Definition fragment_authored_fields (fragment : string) (p : path) (kind : string) : result unit :=
  l ← ImportFromString fragment;
  match l with
  | None => Err ValueError
  | Some l => spec ← get_spec l p kind; raise_if (negb (bool_decide (is_Some spec))) ValueError
  end.

Definition validate_spec_delta (ev : event) (kind value : string) (raw_fields : list pyval) (fragment : string)
    (removed : bool) : result unit :=
  p ← spec_delta_info ev kind value raw_fields removed;
  if removed then Ok () else
  _ ← raise_if (bool_decide (fragment = "")) ValueError;
  fragment_authored_fields fragment p kind.

Definition validate_sdf_spec_fields (ev : event) : result unit :=
  _ ← raise_if (negb (bool_decide (py_get ev "spec_kind" ∈ map PStr SDF_SPEC_KINDS))) ValueError;
  value ← match py_get ev "spec_path" with PStr s => Ok s | _ => Err ValueError end;
  raw_fields ← as_list (py_get ev "fields");
  fragment ← match py_get ev "fragment" with PStr s => Ok s | _ => Err ValueError end;
  removed ← match py_get ev "removed" with PBool b => Ok b | _ => Err ValueError end;
  validate_spec_delta ev (str_of ev "spec_kind") value raw_fields fragment removed.

(** [validate_layer_content_replacement] *)
Definition replacement_layer (v : pyval) : result layer :=
  match v with
  | PStr fragment =>
      _ ← raise_if (bool_decide (fragment = "")) ValueError;
      l ← ImportFromString fragment;
      match l with
      | None => Err ValueError
      | Some l => _ ← raise_if (has_sublayers l) ValueError; Ok l
      end
  | _ => Err ValueError
  end.

Definition validate_layer_replacement (ev : event) : result unit :=
  _ ← raise_if (bool_decide (py_get ev "prim" ≠ PStr "/")) ValueError;
  _ ← replacement_layer (get_or ev "fragment" (PStr "")); Ok ().

(** One iteration of [normalize_sublayer_entries]; the paths seen so far *)
Definition check_sublayer_entry (authored_paths : list string) (v : pyval) : result (list string) :=
  entry ← as_dict v;
  match item_get entry "authored_path" with
  | PStr authored_path =>
      _ ← raise_if (bool_decide (authored_path = "")) ValueError;
      _ ← raise_if (negb (portable_asset authored_path)) ValueError;
      _ ← raise_if (bool_decide (authored_path ∈ authored_paths)) ValueError;
      let offset := item_get_or entry "offset" (PFloat (Fin 0%Qc)) in
      let scale := item_get_or entry "scale" (PFloat (Fin 1%Qc)) in
      let number v := match v with PInt _ | PFloat _ => true | _ => false end in
      _ ← raise_if (negb (number offset) || negb (number scale)) ValueError;
      _ ← require_finite offset;
      _ ← require_finite scale;
      _ ← raise_if (negb (is_str (item_get_or entry "layer_key" (PStr "")))) ValueError;
      Ok (authored_path :: authored_paths)
  | _ => Err ValueError
  end.

Definition validate_sublayers (ev : event) : result unit :=
  _ ← raise_if (bool_decide (py_get ev "prim" ≠ PStr "/")) ValueError;
  _ ← require_string ev "generation" false;
  _ ← raise_if (match py_get ev "revision" with PInt z => (z <? 0)%Z | _ => true end) ValueError;
  sublayers ← as_list (py_get ev "sublayers");
  _ ← foldR check_sublayer_entry [] sublayers; Ok ().

(** ** The registry and the entry points *)

Definition validators : list (string * (event -> result unit)) := [
  (K_ENSURE_PRIM, validate_ensure_prim);
  (K_ENSURE_XFORM_OPS, validate_prim_only);
  (K_DELETE_PRIM, validate_prim_only);
  (K_LOAD_PAYLOAD, validate_prim_only);
  (K_UNLOAD_PAYLOAD, validate_prim_only);
  (K_SET_XFORM_TRS, validate_xform);
  (K_DEACTIVATE_PRIM, validate_active);
  (K_RENAME_PRIM, validate_rename);
  (K_SET_VISIBILITY, validate_visibility);
  (K_SET_GPRIM_ATTRS, validate_gprim_attrs);
  (K_SET_REFERENCE, validate_references);
  (K_SET_PAYLOAD, validate_payloads);
  (K_SET_VARIANT_SELECTIONS, validate_variants);
  (K_SET_MATERIAL_BINDING, validate_material_binding);
  (K_SET_CONNECTABLE_INPUT, validate_connectable_input);
  (K_SET_CONNECTABLE_CONNECTION, validate_connectable_connections);
  (K_SET_STAGE_METADATA, validate_stage_metadata);
  (K_SET_INSTANCEABLE, validate_instanceable);
  (K_SET_POINT_INSTANCER, validate_point_instancer);
  (K_ERASE_TIME_SAMPLES, validate_erase_time_samples);
  (K_SET_SDF_SPEC_FIELDS, validate_sdf_spec_fields);
  (K_REPLACE_SDF_LAYER_CONTENT, validate_layer_replacement);
  (K_SET_SUBLAYERS, validate_sublayers)].

(** The kinds whose validator checks the path itself *)
Definition no_prim_check : list string :=
  [K_SET_STAGE_METADATA; K_SET_SDF_SPEC_FIELDS; K_REPLACE_SDF_LAYER_CONTENT; K_SET_SUBLAYERS].

Definition validate_event_or_raise (layer_mode : option LayerMode) (ev : event) : result unit :=
  kind ← match py_get ev "k" with PStr s => Ok s | _ => Err ValueError end;
  match dict_get kind EVENT_KIND_INFO, dict_get kind validators with
  | Some info, Some validate =>
      _ ← raise_if (match layer_mode with Some m => negb (bool_decide (m ∈ modes info)) | None => false end) ValueError;
      _ ← (if bool_decide (kind ∈ no_prim_check) then Ok () else require_prim_path (py_get ev "prim"));
      match validate ev with
      | Err e => Err (if bool_decide (e = ErrorException) then ValueError else e)
      | r => r
      end
  | _, _ => Err ValueError
  end.

Definition count_kind (kind : string) (events : list event) : nat :=
  length (filter (fun ev => ev !! "k" = Some (PStr kind)) events).

Definition validate_events (layer_mode : option LayerMode) (events : list event) : result unit :=
  _ ← raise_if (bool_decide (events = [])) ValueError;
  _ ← eachR (fun ev => match validate_event_or_raise layer_mode ev with
        | Err e => Err (if bool_decide (e ∈ [TypeError; ValueError]) then ValueError else e)
        | r => r
        end) events;
  if bool_decide (layer_mode = None \/ layer_mode = Some SHARED_STAGE) then
    _ ← raise_if (1 <? count_kind K_SET_SUBLAYERS events)%nat ValueError;
    raise_if (1 <? count_kind K_REPLACE_SDF_LAYER_CONTENT events)%nat ValueError
  else Ok ().

Definition validate_event (ev : event) : result bool :=
  match validate_event_or_raise None ev with
  | Ok _ => Ok true
  | Err e => if bool_decide (e ∈ [TypeError; ValueError]) then Ok false else Err e
  end.

(** ** Which exceptions a validator raises *)

(** Every integer in the value fits a double. *)
Fixpoint fits (v : pyval) : bool :=
  match v with
  | PInt z => float_fits z
  | PList l => forallb fits l
  | PDict d => forallb (fun kv => fits kv.2) d
  | _ => true
  end.
Definition event_fits (ev : event) : Prop := map_Forall (fun _ v => fits v = true) ev.
#[global] Instance event_fits_dec ev : Decision (event_fits ev) := _.

Definition raises_only (P : exn -> Prop) {A} (r : result A) : Prop := forall e, r = Err e -> P e.

(** What the validators are documented to raise, and what
    [validate_event_or_raise] turns into it. *)
Definition expected (e : exn) : Prop := e = ValueError \/ e = TypeError \/ e = ErrorException.
Abbreviation quiet := (raises_only expected).

Lemma quiet_Ok {A} (a : A) : quiet (Ok a).
Proof. by intros e. Qed.
Lemma quiet_ValueError {A} : quiet (Err ValueError : result A).
Proof. intros e [= <-]. by left. Qed.
Lemma quiet_TypeError {A} : quiet (Err TypeError : result A).
Proof. intros e [= <-]. right; by left. Qed.
Lemma quiet_convert {A} (b : bool) e :
  quiet (Err e : result A) -> quiet (Err (if b then ValueError else e) : result A).
Proof. destruct b; [intros _; apply quiet_ValueError|done]. Qed.
Lemma quiet_raise_if b e : expected e -> quiet (raise_if b e).
Proof. intros He e'. destruct b; [|done]. by intros [= <-]. Qed.
Lemma quiet_bind {A B} (r : result A) (f : A -> result B) :
  quiet r -> (forall a, r = Ok a -> quiet (f a)) -> quiet (r ≫= f).
Proof. intros Hr Hf e [He|(a & Ha & He)]%bind_Err; [by apply Hr|by eapply Hf]. Qed.
Lemma quiet_allR {A} (p : A -> result bool) l : (forall x, x ∈ l -> quiet (p x)) -> quiet (allR p l).
Proof.
  induction l as [|x l IH]; intros Hp; [apply quiet_Ok|]. simpl.
  pose proof (Hp x ltac:(set_solver)) as Hx. destruct (p x) as [[]|e]; [|apply quiet_Ok|].
  - apply IH. set_solver.
  - intros e' [= <-]. by apply Hx.
Qed.
Lemma quiet_eachR {A} (c : A -> result unit) l : (forall x, x ∈ l -> quiet (c x)) -> quiet (eachR c l).
Proof.
  induction l as [|x l IH]; intros Hc; [apply quiet_Ok|].
  apply quiet_bind; [apply Hc; set_solver|]. intros _ _. apply IH. set_solver.
Qed.
Lemma quiet_foldR {S A} (f : S -> A -> result S) s l :
  (forall s x, x ∈ l -> quiet (f s x)) -> quiet (foldR f s l).
Proof.
  revert s; induction l as [|x l IH]; intros s Hf; [apply quiet_Ok|].
  apply quiet_bind; [apply Hf; set_solver|]. intros s' _. apply IH. set_solver.
Qed.
Lemma quiet_as_list v : quiet (as_list v).
Proof. destruct v; try apply quiet_ValueError. apply quiet_Ok. Qed.
Lemma quiet_as_dict v : quiet (as_dict v).
Proof. destruct v; try apply quiet_ValueError. apply quiet_Ok. Qed.
Lemma quiet_import s : quiet (ImportFromString s).
Proof. intros e He%import_raises. unfold expected; auto. Qed.

Lemma expected_ValueError : expected ValueError. Proof. by left. Qed.
Lemma expected_TypeError : expected TypeError. Proof. right; by left. Qed.

Lemma fits_list v l x : fits v = true -> as_list v = Ok l -> x ∈ l -> fits x = true.
Proof.
  destruct v; try done. simpl. intros Hv [= <-] Hx. apply forallb_forall with (x := x) in Hv; [done|]. by apply list_elem_of_In.
Qed.
Lemma fits_item v d kv : fits v = true -> as_dict v = Ok d -> kv ∈ d -> fits kv.2 = true.
Proof.
  destruct v; try done. simpl. intros Hv [= <-] Hx.
  apply forallb_forall with (x := kv) in Hv; [done|]. by apply list_elem_of_In.
Qed.
Lemma fits_item_get_or v d k v0 :
  fits v = true -> as_dict v = Ok d -> fits v0 = true -> fits (item_get_or d k v0) = true.
Proof.
  intros Hv Hd H0. unfold item_get_or. destruct (dict_get k d) as [x|] eqn:Hx; [|done].
  apply dict_get_elem in Hx. by apply (fits_item v d (k, x)).
Qed.
Lemma fits_get_or ev k v0 : event_fits ev -> fits v0 = true -> fits (get_or ev k v0) = true.
Proof.
  intros Hev H0. unfold get_or. destruct (ev !! k) as [x|] eqn:Hx; [|done]. by apply (Hev k x).
Qed.
Lemma fits_py_get ev k : event_fits ev -> fits (py_get ev k) = true.
Proof. intros Hev. by apply (fits_get_or ev k PNone). Qed.
Lemma fits_py_item ev k v : event_fits ev -> py_item ev k = Ok v -> fits v = true.
Proof.
  intros Hev. unfold py_item. destruct (ev !! k) eqn:E; [|done]. intros [= <-]. by apply (Hev k).
Qed.

Lemma quiet_isfinite v : fits v = true -> quiet (isfinite v).
Proof.
  destruct v as [| |z|[]| | |]; try (intros; apply quiet_Ok). simpl. intros Hz.
  unfold to_float. rewrite Hz. apply quiet_Ok.
Qed.
Lemma quiet_is_finite_number v : fits v = true -> quiet (is_finite_number v).
Proof. intros Hv. destruct v; try apply quiet_Ok; by apply quiet_isfinite. Qed.

(** One syntactic step: sequencing, guards, loops, case analysis. *)
Ltac quiet_step :=
  match goal with
  | |- quiet (Ok _) => apply quiet_Ok
  | |- quiet (Err ValueError) => apply quiet_ValueError
  | |- quiet (Err TypeError) => apply quiet_TypeError
  | |- quiet (raise_if _ _) => apply quiet_raise_if
  | |- expected ValueError => apply expected_ValueError
  | |- expected TypeError => apply expected_TypeError
  | |- quiet (as_list _) => apply quiet_as_list
  | |- quiet (as_dict _) => apply quiet_as_dict
  | |- quiet (ImportFromString _) => apply quiet_import
  | |- quiet (mbind _ _) => apply quiet_bind
  | |- forall a, _ = Ok a -> quiet _ => let a := fresh "a" in let E := fresh "E" in intros a E
  | |- quiet (eachR _ _) => apply quiet_eachR; intros ? ?
  | |- quiet (allR _ _) => apply quiet_allR; intros ? ?
  | |- quiet (foldR _ _ _) => apply quiet_foldR; intros ? ? ?
  | |- quiet (if ?b then _ else _) => destruct b eqn:?
  | |- quiet (match ?x with _ => _ end) => destruct x eqn:?
  end.
Ltac quiet_tac := repeat (quiet_step; cbv beta zeta).

Lemma quiet_require_finite v : fits v = true -> quiet (require_finite v).
Proof. intros Hv. apply quiet_bind; [by apply quiet_is_finite_number|]. intros. quiet_tac. Qed.
Lemma quiet_optional_time ev : event_fits ev -> quiet (require_optional_time ev).
Proof. intros Hev. unfold require_optional_time. quiet_tac. by apply quiet_require_finite, fits_py_get. Qed.
Lemma quiet_require_string ev f b : quiet (require_string ev f b).
Proof. unfold require_string. quiet_tac. Qed.
Lemma quiet_field_set ev l : quiet (require_field_set ev l).
Proof. unfold require_field_set. quiet_tac. Qed.
Lemma quiet_require_vector v n : fits v = true -> quiet (require_vector v n).
Proof.
  intros Hv. unfold require_vector. quiet_tac. apply quiet_is_finite_number.
  by eapply (fits_list (PList l)).
Qed.
Lemma quiet_prim_path v : quiet (require_prim_path v).
Proof. unfold require_prim_path, sdf_path. quiet_tac. Qed.
Lemma quiet_sdf_path v : quiet (sdf_path v).
Proof. unfold sdf_path. quiet_tac. Qed.
Lemma quiet_identifier v b : quiet (require_identifier v b).
Proof. unfold require_identifier. quiet_tac. Qed.
Lemma quiet_connectable_attr v : quiet (require_connectable_attr v).
Proof. unfold require_connectable_attr. quiet_tac. Qed.
Lemma quiet_attr_value v : fits v = true -> quiet (valid_attr_value v).
Proof. intros Hv. destruct v; try apply quiet_Ok. by apply quiet_isfinite. Qed.
Lemma quiet_connectable_value v : fits v = true -> quiet (valid_connectable_value v).
Proof.
  intros Hv. destruct v as [| | | | |l|]; try apply quiet_Ok; [by apply quiet_isfinite|].
  unfold valid_connectable_value. quiet_tac. apply quiet_is_finite_number. by eapply (fits_list (PList l)).
Qed.
Lemma quiet_bulk_item i v : fits v = true -> quiet (bulk_item i v).
Proof. intros Hv. unfold bulk_item. quiet_tac; by apply quiet_isfinite. Qed.
Lemma quiet_py_item ev f : is_Some (ev !! f) -> quiet (py_item ev f).
Proof. intros [v Hv]. unfold py_item. rewrite Hv. apply quiet_Ok. Qed.

#[local] Hint Resolve fits_py_get fits_list fits_item fits_item_get_or fits_get_or fits_py_item : fits.
#[local] Hint Resolve quiet_require_finite quiet_optional_time quiet_require_string quiet_field_set
  quiet_require_vector quiet_prim_path quiet_sdf_path quiet_identifier quiet_connectable_attr quiet_attr_value
  quiet_connectable_value quiet_bulk_item quiet_is_finite_number quiet_isfinite : quiet.
Ltac quiet_auto := quiet_tac; eauto with quiet fits.

Lemma quiet_arc_entry r x v : fits v = true -> quiet (validate_arc_entry r x v).
Proof. intros Hv. unfold validate_arc_entry, deserialize_reference_custom_data. quiet_auto. Qed.
Lemma quiet_arc_event k r ev : event_fits ev -> quiet (validate_arc_event k r ev).
Proof.
  intros Hev. unfold validate_arc_event. quiet_tac. apply quiet_arc_entry. eauto with fits.
Qed.
Lemma quiet_bulk_array v w i : fits v = true -> quiet (require_bulk_array v w i).
Proof.
  intros Hv. unfold require_bulk_array. quiet_auto.
Qed.
Lemma quiet_gprim_attrs ev : event_fits ev -> quiet (validate_gprim_attrs ev).
Proof. intros Hev. unfold validate_gprim_attrs. quiet_auto. Qed.
Lemma quiet_connectable_input ev : event_fits ev -> quiet (validate_connectable_input ev).
Proof. intros Hev. unfold validate_connectable_input. quiet_auto. Qed.

Lemma elem_of_present ev l f : f ∈ present_in ev l <-> f ∈ l /\ is_Some (ev !! f).
Proof. unfold present_in. rewrite list_elem_of_filter. tauto. Qed.

Lemma quiet_xform ev : event_fits ev -> quiet (validate_xform ev).
Proof.
  intros Hev. unfold validate_xform. apply quiet_bind; [auto with quiet|]. intros fields Hf.
  apply quiet_bind; [quiet_tac|]. intros _ Hset%raise_if_Ok%bool_decide_eq_false%dec_stable.
  quiet_auto.
  apply quiet_py_item. assert (x ∈ present_in ev TRS_FIELDS) as [_ ?]%elem_of_present; [|done].
  apply (elem_of_list_to_set (C := gset string)). rewrite <-Hset. by apply elem_of_list_to_set.
Qed.
Lemma quiet_stage_metadata ev : event_fits ev -> quiet (validate_stage_metadata ev).
Proof.
  intros Hev. unfold validate_stage_metadata. quiet_auto.
  apply quiet_py_item. by eapply elem_of_present.
Qed.
Lemma quiet_point_instancer ev : event_fits ev -> quiet (validate_point_instancer ev).
Proof.
  intros Hev. unfold validate_point_instancer. quiet_auto; apply quiet_bulk_array; eauto with fits.
Qed.
Lemma quiet_spec_delta ev k v l f r : quiet (validate_spec_delta ev k v l f r).
Proof.
  unfold validate_spec_delta, spec_delta_info, spec_path, fragment_authored_fields, get_spec,
    spec_kind_for_object. quiet_auto.
Qed.
Lemma quiet_sublayers ev : event_fits ev -> quiet (validate_sublayers ev).
Proof. intros Hev. unfold validate_sublayers, check_sublayer_entry. quiet_auto. Qed.

Lemma quiet_validator kind validate ev :
  event_fits ev -> dict_get kind validators = Some validate -> quiet (validate ev).
Proof.
  intros Hev Hv%dict_get_elem.
  repeat (apply elem_of_cons in Hv as [[= -> ->]|Hv]); [..|by apply not_elem_of_nil in Hv];
    eauto using quiet_arc_event, quiet_gprim_attrs, quiet_connectable_input, quiet_xform, quiet_stage_metadata,
      quiet_point_instancer, quiet_sublayers.
  all: unfold validate_ensure_prim, validate_prim_only, validate_active, require_bool, validate_rename,
    validate_visibility, validate_variants, validate_material_binding, validate_connectable_connections,
    validate_instanceable, validate_erase_time_samples, validate_sdf_spec_fields, validate_layer_replacement,
    replacement_layer, require_bool; quiet_auto.
  all: auto using quiet_spec_delta.
Qed.

(** With integers that fit, only the two exceptions callers catch come out. *)
Lemma validate_event_or_raise_raises m ev e :
  event_fits ev -> validate_event_or_raise m ev = Err e -> e ∈ [TypeError; ValueError].
Proof.
  intros Hev He. assert (quiet (validate_event_or_raise m ev) /\ e ≠ ErrorException) as [Hq Hne].
  - split.
    + unfold validate_event_or_raise. quiet_auto. apply quiet_convert.
      intros e' [= <-]. by eapply quiet_validator.
    + intros ->. revert He. unfold validate_event_or_raise.
      intros [He|(kind & _ & He)]%bind_Err; [by destruct (py_get ev "k"); simplify_eq/=|].
      destruct (dict_get kind EVENT_KIND_INFO); [|done]. destruct (dict_get kind validators) as [validate|]; [|done].
      apply bind_Err in He as [He|(_ & _ & [He|(_ & _ & He)]%bind_Err)].
      * revert He. unfold raise_if. by case_match.
      * revert He. case_bool_decide; [done|]. unfold require_prim_path, sdf_path, raise_if.
        destruct (py_get ev "prim"); try done. simpl. by repeat (case_match; simpl).
      * destruct (validate ev) as [|e0]; [done|]. injection He as He.
        destruct (decide (e0 = ErrorException)) as [->|Hne]; [done|]. by rewrite bool_decide_eq_false_2 in He.
  - apply Hq in He as [ -> | [ -> | -> ] ]; [set_solver..|done].
Qed.

(** *** Transform events *)

Definition vector_size (f : string) : nat := if bool_decide (f = "r") then 4 else 3.

(** What [validate_xform] accepts, with the listed fields. *)
Record xform_ok (ev : event) (fs : list string) : Prop := {
  xf_fields : ev !! "fields" = Some (PList (map PStr fs));
  xf_some : fs ≠ [];
  xf_nodup : NoDup fs;
  xf_exact f : f ∈ fs <-> f ∈ TRS_FIELDS /\ is_Some (ev !! f);
  xf_vector f : f ∈ fs -> require_vector (py_get ev f) (vector_size f) = Ok ();
  xf_time : require_optional_time ev = Ok () }.

Lemma eachR_Ok {A} (c : A -> result unit) l : eachR c l = Ok () <-> (forall x, x ∈ l -> c x = Ok ()).
Proof.
  induction l as [|x l IH]; simpl; [set_solver|]. rewrite bind_Ok. setoid_rewrite IH. split.
  - intros ([] & Hx & Hl) y [->|Hy]%elem_of_cons; auto.
  - intros Hc. exists (). split; [apply Hc; set_solver|]. intros; apply Hc; set_solver.
Qed.

Lemma all_strings fields allowed :
  forallb (fun f => bool_decide (f ∈ map PStr allowed)) fields = true ->
  fields = map PStr (omap (fun f => match f with PStr s => Some s | _ => None end) fields)
  /\ forall f, f ∈ omap (fun f => match f with PStr s => Some s | _ => None end) fields -> f ∈ allowed.
Proof.
  induction fields as [|v fields IH]; simpl; [set_solver|].
  intros [Hv%bool_decide_eq_true Hl]%andb_true_iff. apply list_elem_of_fmap in Hv as (s & -> & Hs).
  destruct (IH Hl) as [E Hin]. simpl. split; [by f_equal|]. intros f [->|]%elem_of_cons; auto.
Qed.

Lemma require_field_set_Ok ev allowed fs :
  require_field_set ev allowed = Ok fs <->
  ev !! "fields" = Some (PList (map PStr fs)) /\ fs ≠ [] /\ NoDup fs /\ forall f, f ∈ fs -> f ∈ allowed.
Proof.
  unfold require_field_set. split.
  - intros Hf. inv_bind Hf. rename x into fields. inv_bind Hf. inv_bind Hf. inv_bind Hf.
    apply raise_if_Ok, bool_decide_eq_false in Hf1. clear Hf2.
    apply raise_if_Ok, orb_false_iff in Hf3 as [Hn%negb_false_iff%bool_decide_eq_true Ha%negb_false_iff].
    injection Hf as <-. destruct (all_strings _ _ Ha) as [E Hin]. split_and!; [|..|done].
    + unfold py_get in Hf0. destruct (ev !! "fields") as [[]|]; simplify_eq/=. by rewrite <-E.
    + intros E0. by rewrite E0 in E.
    + rewrite E in Hn. by apply NoDup_fmap_1 in Hn.
  - intros (Hf & Hne & Hnd & Hin). unfold py_get. rewrite Hf. simpl.
    rewrite (bool_decide_eq_false_2 (map PStr fs = [])) by (by destruct fs). simpl.
    assert (existsb unhashable (map PStr fs) = false) as -> by (clear; by induction fs). simpl.
    rewrite (bool_decide_eq_true_2 (NoDup (map PStr fs))) by (apply NoDup_fmap_2; [by intros ?? [=]|done]).
    assert (forallb (fun f => bool_decide (f ∈ map PStr allowed)) (map PStr fs) = true) as ->.
    { apply forallb_forall. intros v (f & <- & Hfs)%in_map_iff. apply bool_decide_eq_true.
      apply list_elem_of_fmap_2, Hin. by apply list_elem_of_In. }
    simpl. by rewrite omap_PStr.
Qed.

Lemma validate_xform_Ok ev : validate_xform ev = Ok () <-> exists fs, xform_ok ev fs.
Proof.
  unfold validate_xform. split.
  - intros Hv. inv_bind Hv. rename x into fs. inv_bind Hv. inv_bind Hv.
    apply require_field_set_Ok in Hv0 as (Hf & Hne & Hnd & Hin).
    apply raise_if_Ok, bool_decide_eq_false, dec_stable in Hv1.
    destruct x0. rewrite eachR_Ok in Hv2. exists fs.
    assert (forall f, f ∈ fs <-> f ∈ TRS_FIELDS /\ is_Some (ev !! f)) as Hex.
    { intros f. rewrite <-elem_of_present, <-!(elem_of_list_to_set (C := gset string)). by rewrite Hv1. }
    split; [done..| |done]. intros f Hfs. specialize (Hv2 f Hfs).
    unfold py_item, py_get in *. by destruct (ev !! f).
  - intros (fs & [Hf Hne Hnd Hex Hv Ht]). apply bind_Ok. exists fs. split.
    { apply require_field_set_Ok. split_and!; [done..|set_solver]. }
    apply bind_Ok. exists (). split.
    { apply raise_if_Ok, bool_decide_eq_false. intros Hn. apply Hn, set_eq. intros f.
      rewrite !elem_of_list_to_set, elem_of_present. apply Hex. }
    apply bind_Ok. exists (). split; [|done]. apply eachR_Ok. intros f Hfs. specialize (Hv f Hfs).
    apply Hex in Hfs as [_ [v E]]. unfold py_item, py_get in *. by rewrite E in *.
Qed.

Lemma xform_ok_fields_of ev fs : xform_ok ev fs -> fields_of ev = fs.
Proof. intros [Hf _ _ _ _ _]. unfold fields_of. by rewrite Hf, omap_PStr. Qed.

Lemma xform_ok_merge p ev fsp fse :
  xform_ok p fsp -> xform_ok ev fse ->
  xform_ok (merge_into p ev) (filter (fun f => f ∈ fsp ++ fse) TRS_FIELDS).
Proof.
  intros Hp Hev. pose proof (xform_ok_fields_of _ _ Hp) as Efp. pose proof (xform_ok_fields_of _ _ Hev) as Efe.
  pose proof (fun x => merge_into_lookup p ev x) as L. rewrite Efp, Efe in L.
  destruct Hp as [Fp Np Dp Xp Vp Tp], Hev as [Fe Ne De Xe Ve Te].
  assert (forall x, x ∉ TRS_FIELDS -> x ∉ fse) as Hout by (intros x Hx Hin; by apply Xe in Hin as [? _]).
  split.
  - by rewrite L, decide_False, decide_True by (try apply Hout; set_solver).
  - destruct fsp as [|f fsp]; [done|]. intros E.
    assert (f ∈ filter (fun f' => f' ∈ (f :: fsp) ++ fse) TRS_FIELDS) as Hin; [|rewrite E in Hin; set_solver].
    apply list_elem_of_filter. split; [set_solver|]. apply Xp. set_solver.
  - apply NoDup_filter. repeat constructor; set_solver.
  - intros f. rewrite list_elem_of_filter, elem_of_app, L. destruct (decide (f ∈ fse)) as [Hf|Hf].
    + split; [intros [_ ?]; split; [done|by eexists]|intros [? _]; auto].
    + destruct (decide (f = "fields")) as [->|Hne]; [set_solver|]. rewrite (Xp f). naive_solver.
  - intros f [Hin Ht]%list_elem_of_filter. unfold py_get. rewrite L. destruct (decide (f ∈ fse)) as [Hf|Hf].
    + by apply Ve.
    + rewrite decide_False by (intros ->; set_solver). apply Vp. set_solver.
  - unfold require_optional_time, py_get in *. rewrite !L.
    rewrite !decide_False by (try apply Hout; set_solver). done.
Qed.

Definition valid (m : option LayerMode) (ev : event) : Prop := validate_event_or_raise m ev = Ok ().

Lemma valid_trs m ev :
  is_trs ev = true ->
  valid m ev <-> m ≠ Some SHARED_STAGE /\ require_prim_path (py_get ev "prim") = Ok () /\ exists fs, xform_ok ev fs.
Proof.
  intros Hk%bool_decide_eq_true. rewrite <-validate_xform_Ok. unfold valid, validate_event_or_raise.
  assert (py_get ev "k" = PStr K_SET_XFORM_TRS) as -> by (unfold py_get; by rewrite Hk).
  unfold mbind at 1, result_bind at 1.
  assert (dict_get K_SET_XFORM_TRS validators = Some validate_xform) as -> by done.
  assert (exists i, dict_get K_SET_XFORM_TRS EVENT_KIND_INFO = Some i /\ modes i = [MANAGED]) as (i & Hi & Hm).
  { by eexists. }
  rewrite Hi, Hm.
  rewrite (bool_decide_eq_false_2 (K_SET_XFORM_TRS ∈ no_prim_check)) by (apply (bool_decide_unpack (K_SET_XFORM_TRS ∉ no_prim_check)); by vm_compute).
  rewrite bind_Ok. setoid_rewrite raise_if_Ok. split.
  - intros (_ & Hmode & ([] & Hp & Hx)%bind_Ok). split_and!; [|done|].
    + by intros ->.
    + destruct (validate_xform ev) as [[]|]; done.
  - intros (Hmode & Hp & Hx). exists (). split; [by destruct m as [[]|]|]. apply bind_Ok. exists (). by rewrite Hx.
Qed.

Lemma valid_wf_trs m ev : valid m ev -> wf_trs ev.
Proof.
  intros Hv Hk. apply (valid_trs m ev Hk) in Hv as (_ & _ & fs & Hx).
  rewrite (xform_ok_fields_of _ _ Hx). apply Forall_forall. intros f Hf. by apply (xf_exact _ _ Hx).
Qed.

Lemma merge_into_valid m p ev :
  is_trs p = true -> is_trs ev = true -> valid m p -> valid m ev -> valid m (merge_into p ev).
Proof.
  intros Hp Hev Vp Ve. pose proof (valid_wf_trs _ _ Ve) as We.
  apply valid_trs; [by apply merge_into_is_trs|].
  apply valid_trs in Vp as (Hm & Pp & fsp & Xp); [|done]. apply valid_trs in Ve as (_ & _ & fse & Xe); [|done].
  split_and!; [done| |eexists; by apply xform_ok_merge].
  unfold py_get. rewrite (merge_into_meta p ev Hev We) by set_solver. done.
Qed.

(** What coalescing keeps while it folds [orig] into the pending list. *)
Record merged (m : option LayerMode) (orig : list event) (st : list event * candidates) : Prop := {
  mg_valid : Forall (valid m) st.1;
  mg_cand : cand_ok st.1 st.2;
  mg_some : st.1 = [] -> orig = [];
  mg_count kind : kind ≠ K_SET_XFORM_TRS -> count_kind kind st.1 = count_kind kind orig }.

Lemma count_kind_app kind l k : count_kind kind (l ++ k) = (count_kind kind l + count_kind kind k)%nat.
Proof. unfold count_kind. by rewrite filter_app, length_app. Qed.

Lemma count_kind_trs kind ev : is_trs ev = true -> kind ≠ K_SET_XFORM_TRS -> count_kind kind [ev] = 0%nat.
Proof.
  intros Hk%bool_decide_eq_true Hne. unfold count_kind. rewrite filter_cons_False; [done|].
  rewrite Hk. intros [= <-]. done.
Qed.

Lemma merge_step_merged m orig st ev :
  merged m orig st -> valid m ev -> merged m (orig ++ [ev]) (merge_step st ev).
Proof.
  destruct st as [pending c]. intros [Hv Hc Hs Hn] Ve. simpl in *. unfold merge_step.
  destruct (is_trs ev) eqn:Hev; simpl.
  2:{ split; simpl; [by apply Forall_app; auto|apply cand_ok_nil|by destruct pending|].
      intros kind Hk. by rewrite !count_kind_app, Hn. }
  destruct (cand_get c (key_of ev)) as [i|] eqn:Hi.
  2:{ split; simpl; [by apply Forall_app; auto|by apply cand_ok_snoc|by destruct pending|].
      intros kind Hk. by rewrite !count_kind_app, Hn. }
  destruct (Hc _ _ Hi) as (l1 & p & l2 & -> & <- & Hp & Hkey & Hl2). rewrite alter_middle.
  pose proof (valid_wf_trs _ _ Ve) as We.
  apply Forall_app in Hv as [V1 [V2 V3]%Forall_cons]. split; simpl.
  - apply Forall_app; split; [done|]. apply Forall_cons; split; [by apply merge_into_valid|done].
  - by apply cand_ok_merge.
  - by destruct l1.
  - intros kind Hk. rewrite (count_kind_app kind orig), <-(Hn kind Hk). simpl.
    rewrite (count_kind_trs kind ev Hev Hk), Nat.add_0_r.
    change (p :: l2) with ([p] ++ l2). change (merge_into p ev :: l2) with ([merge_into p ev] ++ l2).
    rewrite !count_kind_app, !count_kind_trs by (done || by apply merge_into_is_trs). done.
Qed.

Lemma merge_merged m incoming : forall orig st,
  merged m orig st -> Forall (valid m) incoming -> merged m (orig ++ incoming) (foldl merge_step st incoming).
Proof.
  induction incoming as [|ev incoming IH]; intros orig st Hm Hv; simpl; [by rewrite app_nil_r|].
  apply Forall_cons in Hv as [Ve Hv]. replace (orig ++ ev :: incoming) with ((orig ++ [ev]) ++ incoming)
    by (by rewrite <-app_assoc). apply IH; [by apply merge_step_merged|done].
Qed.

Lemma scan_merged m pending : Forall (valid m) pending -> merged m pending (pending, scan_pending 0 [] pending).
Proof.
  intros Hv. split; simpl; [done| |done|done]. apply (scan_pending_ok [] pending []), cand_ok_nil.
Qed.

Lemma validate_events_Ok m events :
  validate_events m events = Ok () <->
  events ≠ [] /\ Forall (valid m) events /\
  (m ≠ Some MANAGED -> (count_kind K_SET_SUBLAYERS events ≤ 1)%nat /\
                       (count_kind K_REPLACE_SDF_LAYER_CONTENT events ≤ 1)%nat).
Proof.
  unfold validate_events. rewrite Forall_forall.
  assert (forall ev, match validate_event_or_raise m ev with
          | Err e => Err (if bool_decide (e ∈ [TypeError; ValueError]) then ValueError else e)
          | r => r end = Ok () <-> valid m ev) as Hone.
  { intros ev. unfold valid. by destruct (validate_event_or_raise m ev) as [[]|]. }
  rewrite !bind_Ok. split.
  - intros ([] & Hne%raise_if_Ok%bool_decide_eq_false & ([] & Hl & Hcount)%bind_Ok). split_and!; [done|..].
    + intros ev Hin. apply Hone. rewrite eachR_Ok in Hl. by apply Hl.
    + intros Hm. rewrite bool_decide_eq_true_2 in Hcount by (destruct m as [[]|]; auto; done).
      apply bind_Ok in Hcount as (_ & ?%raise_if_Ok%Nat.ltb_ge & ?%raise_if_Ok%Nat.ltb_ge). done.
  - intros (Hne & Hv & Hcount). exists (). split; [by apply raise_if_Ok, bool_decide_eq_false|].
    apply bind_Ok. exists (). split; [apply eachR_Ok; intros ev Hin; by apply Hone, Hv|].
    case_bool_decide as Hm; [|done].
    destruct Hcount as [H1 H2]; [by intros ->; destruct Hm|].
    apply bind_Ok. exists (). split; apply raise_if_Ok, Nat.ltb_ge; lia.
Qed.

(** C39: what a producer coalesces before submitting is accepted: folding valid
    incoming events into valid pending ones gives a transaction the
    validators accept again, whatever the layer mode, and applying it has the
    effect of applying every event in order. *)
Theorem coalesced_batch_is_accepted {St} `{TransformState St} m pending incoming (s : St) :
  validate_events m (pending ++ incoming) = Ok () ->
  validate_events m (merge_latest_transform_events pending incoming) = Ok () /\
  run (merge_latest_transform_events pending incoming) s ≡ run (pending ++ incoming) s.
Proof.
  rewrite !validate_events_Ok. intros (Hne & [Vp Vi]%Forall_app & Hcount). split.
  - destruct (merge_merged m incoming pending _ (scan_merged m pending Vp) Vi) as [Hv _ Hs Hn].
    split_and!; [by intros E; apply Hne, Hs|done|]. intros Hm.
    unfold merge_latest_transform_events. rewrite !Hn by done. by apply Hcount.
  - apply merge_loop_spec.
    + eapply Forall_impl; [exact Vi|]. apply valid_wf_trs.
    + eapply Forall_impl; [exact Vp|]. apply valid_wf_trs.
    + apply (scan_pending_ok [] pending []), cand_ok_nil.
Qed.

(** [validate_event] answers: for an event whose integers fit a double it
    returns whether [validate_event_or_raise] accepts the event, whatever
    other exception a validator or USD raises on the way. *)
Theorem validate_event_answers ev :
  event_fits ev -> validate_event ev = Ok (bool_decide (validate_event_or_raise None ev = Ok ())).
Proof.
  intros Hev. unfold validate_event. destruct (validate_event_or_raise None ev) as [[]|e] eqn:E; [done|].
  by rewrite (bool_decide_eq_true_2 _ (validate_event_or_raise_raises None ev e Hev E)).
Qed.

(** an integer too large for a double is not refused with the
    [ValueError] that [validate_events] documents: the predicate
    [validate_event] itself raises, and so does the validation of a
    transaction that starts with such an event. *)
Theorem oversized_integer_escapes n prim rest :
  float_fits n = false -> require_prim_path prim = Ok () ->
  let ev : event :=
    {["k" := PStr K_SET_VISIBILITY; "prim" := prim; "visible" := PBool true; "time" := PInt n]} in
  validate_event ev = Err OverflowError /\ validate_events (Some MANAGED) (ev :: rest) = Err OverflowError.
Proof.
  intros Hn Hp ev.
  assert (forall m, m ≠ Some SHARED_STAGE -> validate_event_or_raise m ev = Err OverflowError) as Hev.
  { intros m Hm. unfold validate_event_or_raise.
    assert (py_get ev "k" = PStr K_SET_VISIBILITY) as -> by done.
    assert (py_get ev "prim" = prim) as -> by done. unfold mbind at 1, result_bind at 1.
    assert (dict_get K_SET_VISIBILITY validators = Some validate_visibility) as -> by done.
    assert (exists i, dict_get K_SET_VISIBILITY EVENT_KIND_INFO = Some i /\ modes i = [MANAGED]) as (i & Hi & Hmodes)
      by by eexists.
    rewrite Hi, Hmodes, Hp. rewrite (proj2 (raise_if_Ok _ _ ())) by (by destruct m as [[]|]).
    assert (validate_visibility ev = Err OverflowError) as ->; [|by case_bool_decide].
    unfold validate_visibility, require_bool. change (py_get ev "visible") with (PBool true).
    unfold require_optional_time. change (py_get ev "time") with (PInt n). cbn -[float_fits]. unfold to_float. by rewrite Hn. }
  unfold validate_event, validate_events. simpl eachR. rewrite !Hev by done. done.
Qed.
End validators.

(** ** Qualified attribute names round-trip *)

Lemma strip_prefix_app p s : strip_prefix p (p +:+ s) = Some s.
Proof. induction p as [|a p IH]; simpl; [by destruct s|]. by rewrite Ascii.eqb_refl. Qed.

Lemma parse_qualified_name a : base_name a ≠ "" -> parse_qualified_attr (PStr (qualified_name a)) = Some a.
Proof.
  destruct a as [[] base]; simpl; intros Hb.
  - unfold qualified_name. simpl. by destruct base.
  - unfold qualified_name. simpl. by destruct base.
Qed.

(** ** Concrete USD, for the witnesses

    A path is its string: the absolute paths of one element. *)
Definition demo_import (s : string) : result (option unit) :=
  if bool_decide (s = "") then Err ErrorException else Ok (Some ()).
Lemma demo_import_raises s e : demo_import s = Err e -> e = ErrorException.
Proof. unfold demo_import. case_bool_decide; [by intros [= <-]|done]. Qed.

#[local] Instance demo_sdf : Sdf := {
  path := string; to_path s := s;
  IsValidPathString s := negb (bool_decide (s = ""));
  IsAbsolutePath s := String.prefix "/" s;
  IsPrimPath s := String.prefix "/" s;
  IsPropertyPath _ := false; IsPrimPropertyPath _ := false; IsPrimVariantSelectionPath _ := false;
  ContainsPrimVariantSelection _ := false; has_selection _ := false;
  is_root s := bool_decide (s = "/"); owner_prim s := s;
  IsValidIdentifier s := negb (bool_decide (s = ""));
  IsValidNamespacedIdentifier s := negb (bool_decide (s = ""));
  ValueTypeNames_Find _ := true;
  layer := unit; ImportFromString := demo_import;
  GetObjectAtPath _ _ := None; has_sublayers _ := false; portable_asset _ := true; import_raises := demo_import_raises }.

Definition demo_vec (z : Z) : pyval := PList [PInt z; PInt z; PFloat (Fin (Q2Qc (QArith_base.Qmake 1 2)))].
Definition demo_move (fs : list (string * pyval)) : event :=
  list_to_map (("k", PStr K_SET_XFORM_TRS) :: ("prim", PStr "/A") :: ("fields", PList (map (fun f => PStr f.1) fs)) :: fs).
Definition demo_valid_pending : list event := [demo_move [("s", demo_vec 1); ("t", demo_vec 2)]].
Definition demo_valid_incoming : list event :=
  [demo_move [("t", demo_vec 3)];
   {["k" := PStr K_SET_VISIBILITY; "prim" := PStr "/A"; "visible" := PBool false]};
   demo_move [("t", demo_vec 4)]].

Lemma coalesced_batch_is_accepted_witness :
  length (merge_latest_transform_events demo_valid_pending demo_valid_incoming) = 3%nat /\
  validate_events None (merge_latest_transform_events demo_valid_pending demo_valid_incoming) = Ok ().
Proof.
  split; [by vm_compute|].
  apply (coalesced_batch_is_accepted None demo_valid_pending demo_valid_incoming (mk_demo (fun _ _ => PNone) [])).
  by vm_compute.
Defined.

Lemma validate_event_answers_witness :
  let ev : event := {["k" := PStr K_SET_REFERENCE; "prim" := PStr "/A"; "refs" := PList [PDict
    [("asset_path", PStr "a.usd"); ("layer_offset", PInt 3); ("custom_data_fragment", PStr "")]]]} in
  validate_event ev = Ok false /\ validate_event (demo_move [("t", demo_vec 3)]) = Ok true.
Proof.
  split.
  - rewrite validate_event_answers; [by vm_compute|]. apply (bool_decide_unpack _). by vm_compute.
  - rewrite validate_event_answers; [by vm_compute|]. apply (bool_decide_unpack _). by vm_compute.
Defined.

Lemma oversized_integer_escapes_witness :
  float_fits (10 ^ 400) = false /\
  validate_event {["k" := PStr K_SET_VISIBILITY; "prim" := PStr "/A"; "visible" := PBool true;
                   "time" := PInt (10 ^ 400)]} = Err OverflowError.
Proof.
  split; [by vm_compute|].
  apply (oversized_integer_escapes (10 ^ 400) (PStr "/A") []); by vm_compute.
Defined.
