(* ===== verification/Codec.v ===== *)
(** * Codec: events as FlatBuffers tables ([openusdconnect/codec.py])

    An event dictionary becomes a table of the schema
    ([schema/events.fbs]) and back.  A table is modelled as what its generated
    accessors return ([payload], one constructor per table of the
    [EventPayload] union): laying the fields out in bytes is the FlatBuffers
    library's.  A scalar with a default reads as the default when it was not
    written; a vector that was not written reads as an empty one; strings and
    scalars that may be missing are options.

    Narrowing to [float32], what numpy makes of list elements that are no
    numbers, parsing a float and JSON are the class [Wire].  Conversions of a
    value whose type the validators exclude raise [TypeError]; Python coerces
    some of them.

    Theorems: every well-formed table is the encoding of what it decodes to;
    an accepted event, once over the wire, no longer changes; the template
    encoder of transform broadcasts writes what the general encoder writes;
    a flat list that starts with an integer loses the fractions of its other
    elements; a finite double beyond the [float32] range is accepted by the
    producer's validation and refused by the server's. *)

From Stdlib Require Import QArith.Qcanon.
From S2P Require Import Prelude Constants Coalescing Validation.
#[local] Set Default Proof Using "Type".

(** ** Numbers and JSON *)

Definition of_Z (z : Z) : Qc := Q2Qc (QArith_base.inject_Z z).

Class Wire := {
  f64 : Z -> Qc;                          (* the double nearest to an integer *)
  f32 : pyfloat -> pyfloat;               (* the float32 nearest to a double *)
  float_of_str : string -> result pyfloat;
  np_other : pyval -> result pyfloat;     (* what numpy makes of a non-number *)
  np_other_int : pyval -> result Z;
  json : Type;                            (* JSON text *)
  dumps : pyval -> json;
  loads : json -> result pyval;
  (** the float behind index [i] of a vector, past its end *)
  stray : list pyfloat -> nat -> result pyfloat;
  f32_idem x : f32 (f32 x) = f32 x;
  f32_overflow q : (of_Z (2 ^ 128) <= q)%Qc -> f32 (Fin q) = Inf false;
  loads_dumps v : loads (dumps v) = Ok v;
}.

Section codec.
Context `{Wire}.

(** ** Tables *)

Inductive attr_value : Type :=
  | AScalarFloat (f : pyfloat)
  | AScalarInt (z : Z)
  | AScalarBool (b : bool)
  | AScalarString (s : string)
  | AFloatArray (l : list pyfloat) (stride : nat)
  | AIntArray (l : list Z)   (* stride 1: only numpy arrays have wider integer rows *)
  | ANestedList (j : json).

Record arc_entry := mk_arc {
  arc_asset_path : option string; arc_prim_path : option string; arc_list_position : Z;
  arc_layer_offset : pyfloat; arc_layer_scale : pyfloat; arc_custom_data : option string }.

Inductive input_value : Type :=
  | CScalarFloat (f : pyfloat)
  | CScalarInt (z : Z)
  | CScalarBool (b : bool)
  | CScalarString (s : string)
  | CFloatArray (l : list pyfloat)
  | CIntArray (l : list Z)
  | CStringArray (l : list string).

(** [value_type] [None] is the absent value. *)
Record connectable_input := mk_input { in_name : string; in_type : string; in_value : option input_value }.

Record connection := mk_connection { local_attr : string; source_prim : string; source_attr : string }.

Record primvar_meta := mk_pvm { pv_name : string; pv_type : string; pv_interpolation : option string }.

Record sublayer_entry := mk_sub { sl_path : string; sl_offset : pyfloat; sl_scale : pyfloat; sl_key : option string }.

Record stage_metadata := mk_stage {
  sm_numeric : list (string * pyfloat);   (* the authored numeric fields, in schema order *)
  sm_upAxis : option string }.

Inductive pi_array : Type := PIInts (l : list Z) | PIFloats (l : list pyfloat).

Inductive payload : Type :=
  | EnsurePrim (prim type_name : string) (api_schemas : list string)
  | EnsureXformOps (prim : string)
  | SetXformTrs (prim : string) (fields : Z) (t r s : option (list pyfloat)) (time : option pyfloat)
  | DeletePrim (prim : string)
  | DeactivatePrim (prim : string) (active : bool)
  | RenamePrim (prim new_name : string)
  | SetVisibility (prim : string) (visible : bool) (time : option pyfloat)
  | SetGprimAttrs (prim : string) (attrs : list (string * attr_value)) (meta : list primvar_meta)
      (interp : list (string * string)) (time : option pyfloat)
  | SetReference (prim : string) (refs : list arc_entry) (list_op_authored list_op_explicit : bool)
  | SetPayload (prim : string) (payloads : list arc_entry) (list_op_authored list_op_explicit : bool)
  | LoadPayload (prim : string)
  | UnloadPayload (prim : string)
  | SetVariantSelections (prim : string) (selections : list (string * string))
  | SetMaterialBinding (prim material_path : string) (material_purpose : option string)
  | SetConnectableInput (prim info_id : string) (inputs : list connectable_input) (time : option pyfloat)
  | SetConnectableConnection (prim : string) (connections : list connection) (disconnections : list string)
  | SetStageMetadata (meta : stage_metadata)
  | SetInstanceable (prim : string) (instanceable : bool)
  | SetPointInstancer (prim : string) (fields : Z) (prototypes : list string)
      (arrays : list (string * pi_array)) (time : option pyfloat)
  | SetSdfSpecFields (prim spec_path : string) (spec_kind : Z) (fields : list string) (fragment : string)
      (removed : bool)
  | ReplaceSdfLayerContent (prim fragment : string)
  | SetSublayers (prim generation : string) (revision : Z) (sublayers : list sublayer_entry)
  | EraseTimeSamples (prim spec_path : string) (times : list pyfloat).

(** The kind registered for the table's tag. *)
Definition kind_of_payload (t : payload) : string :=
  match t with
  | EnsurePrim _ _ _ => K_ENSURE_PRIM | EnsureXformOps _ => K_ENSURE_XFORM_OPS
  | SetXformTrs _ _ _ _ _ _ => K_SET_XFORM_TRS | DeletePrim _ => K_DELETE_PRIM
  | DeactivatePrim _ _ => K_DEACTIVATE_PRIM | RenamePrim _ _ => K_RENAME_PRIM
  | SetVisibility _ _ _ => K_SET_VISIBILITY | SetGprimAttrs _ _ _ _ _ => K_SET_GPRIM_ATTRS
  | SetReference _ _ _ _ => K_SET_REFERENCE | SetPayload _ _ _ _ => K_SET_PAYLOAD
  | LoadPayload _ => K_LOAD_PAYLOAD | UnloadPayload _ => K_UNLOAD_PAYLOAD
  | SetVariantSelections _ _ => K_SET_VARIANT_SELECTIONS | SetMaterialBinding _ _ _ => K_SET_MATERIAL_BINDING
  | SetConnectableInput _ _ _ _ => K_SET_CONNECTABLE_INPUT
  | SetConnectableConnection _ _ _ => K_SET_CONNECTABLE_CONNECTION
  | SetStageMetadata _ => K_SET_STAGE_METADATA | SetInstanceable _ _ => K_SET_INSTANCEABLE
  | SetPointInstancer _ _ _ _ _ => K_SET_POINT_INSTANCER | SetSdfSpecFields _ _ _ _ _ _ => K_SET_SDF_SPEC_FIELDS
  | ReplaceSdfLayerContent _ _ => K_REPLACE_SDF_LAYER_CONTENT | SetSublayers _ _ _ _ => K_SET_SUBLAYERS
  | EraseTimeSamples _ _ _ => K_ERASE_TIME_SAMPLES
  end.

(** ** Mapping tables *)

Definition ARC_POSITION_TO_FB : list (string * Z) :=
  [("explicit", 0); ("added", 1); ("prepended", 2); ("appended", 3); ("deleted", 4); ("ordered", 5)]%Z.
Definition SDF_SPEC_KIND_TO_FB : list (string * Z) :=
  [("layer", 0); ("prim", 1); ("attribute", 2); ("relationship", 3); ("variant_set", 4); ("variant", 5);
   ("property", 6)]%Z.

(** [d[k]] of a mapping table, and of its inverse *)
Definition to_fb (d : list (string * Z)) (k : string) : result Z :=
  match dict_get k d with Some z => Ok z | None => Err (KeyError k) end.
Definition from_fb (d : list (string * Z)) (z : Z) : result string :=
  match dict_get z (map (fun kv => (kv.2, kv.1)) d) with Some k => Ok k | None => Err (KeyError "") end.

Definition STAGE_META_NUMERIC : list string :=
  ["timeCodesPerSecond"; "framesPerSecond"; "startTimeCode"; "endTimeCode"; "metersPerUnit"].

Definition TRS_BITS : list (string * Z) := [("t", 1); ("r", 2); ("s", 4)]%Z.
Definition PI_BITS : list (string * Z) :=
  imap (fun i name => (name, Z.shiftl 1 (Z.of_nat i))) POINT_INSTANCER_FIELDS.

(** Name, element width ([None] for a flat vector) and element type *)
Inductive pi_dtype : Type := Int32 | Int64 | Float32.
Definition PI_ARRAYS : list (string * (option nat * pi_dtype)) := [
  ("proto_indices", (None, Int32)); ("positions", (Some 3, Float32)); ("orientations", (Some 4, Float32));
  ("scales", (Some 3, Float32)); ("velocities", (Some 3, Float32)); ("accelerations", (Some 3, Float32));
  ("angular_velocities", (Some 3, Float32)); ("ids", (None, Int64)); ("invisible_ids", (None, Int64));
  ("inactive_ids", (None, Int64))].

Definition FLOAT_WIRE_TYPES : list string :=
  ["float"; "double"; "color3f"; "float3"; "normal3f"; "point3f"; "vector3f"; "color3d"; "double3"; "normal3d";
   "point3d"; "vector3d"; "float2"; "texCoord2f"; "double2"; "float4"; "color4f"; "double4"; "matrix2d"; "matrix3d";
   "matrix4d"; "float[]"].

(** ** Conversions *)

Definition as_string (v : pyval) : result string := match v with PStr s => Ok s | _ => Err TypeError end.
Definition as_bool (v : pyval) : result bool := match v with PBool b => Ok b | _ => Err TypeError end.
Definition as_seq (v : pyval) : result (list pyval) := match v with PList l => Ok l | _ => Err TypeError end.
Definition as_mapping (v : pyval) : result (list (string * pyval)) :=
  match v with PDict d => Ok d | _ => Err TypeError end.

(** [b.CreateString(ev[k])] *)
Definition string_item (ev : event) (k : string) : result string := v ← py_item ev k; as_string v.

(** [float(v)] *)
Definition py_float (v : pyval) : result pyfloat :=
  match v with
  | PInt z => _ ← to_float z; Ok (Fin (f64 z))
  | PFloat f => Ok f
  | PBool b => Ok (Fin (of_Z (if b then 1 else 0)))
  | PStr s => float_of_str s
  | _ => Err TypeError
  end.

(** [float(ev["time"])] when it is given *)
Definition time_of (ev : event) : result (option pyfloat) :=
  match py_get ev "time" with PNone => Ok None | v => f ← py_float v; Ok (Some f) end.

(** A scalar float slot is packed by [struct], which raises on overflow. *)
Definition pack_f32 (x : pyfloat) : result pyfloat :=
  match x, f32 x with
  | Fin _, Inf _ => Err OverflowError
  | _, y => Ok y
  end.

(** A scalar integer slot of the given range *)
Definition enforce (lo hi z : Z) : result Z := raise_if (negb ((lo <=? z) && (z <? hi))%Z) TypeError ≫= fun _ => Ok z.
Definition int32 : Z -> result Z := enforce (- 2 ^ 31) (2 ^ 31).

(** An element of [np.asarray(l, dtype=np.float32)] *)
Definition np_f32 (v : pyval) : result pyfloat :=
  match v with
  | PInt z => _ ← to_float z; Ok (f32 (Fin (f64 z)))
  | PFloat f => Ok (f32 f)
  | PBool b => Ok (f32 (Fin (of_Z (if b then 1 else 0))))
  | _ => f ← np_other v; Ok (f32 f)
  end.

(** An element of [np.asarray(l, dtype=...)] for an integer type: floats are
    truncated. *)
Definition np_range (bits z : Z) : result Z :=
  _ ← raise_if (negb ((- 2 ^ (bits - 1) <=? z) && (z <? 2 ^ (bits - 1)))%Z) OverflowError; Ok z.
Definition np_int (bits : Z) (v : pyval) : result Z :=
  match v with
  | PInt z => np_range bits z
  | PFloat (Fin q) => np_range bits (Z.quot (QArith_base.Qnum q) (Zpos (QArith_base.Qden q)))
  | PFloat (Inf _) => Err OverflowError
  | PFloat NaN => Err ValueError
  | PBool b => Ok (if b then 1 else 0)%Z
  | _ => z ← np_other_int v; np_range bits z
  end.

(** ** Attribute values *)

(** [_encode_attr_value_list] takes the JSON fallback *)
Definition nested_numbers (first : pyval) : option nat :=
  match first with
  | PList (((PInt _ | PFloat _ | PBool _) :: _) as row) => Some (length row)
  | _ => None
  end.

(** the elements of a row, converted one by one *)
Definition flatten_row (v : pyval) : result (list pyfloat) := row ← as_seq v; mapR py_float row.

Definition encode_attr_value_list (value : list pyval) : result attr_value :=
  match value with
  | [] => Ok (ANestedList (dumps (PList [])))
  | PFloat _ :: _ => l ← mapR np_f32 value; Ok (AFloatArray l 1)
  | PInt _ :: _ => l ← mapR (np_int 32) value; Ok (AIntArray l)
  | first :: _ =>
      match nested_numbers first with
      | Some stride =>
          rows ← mapR flatten_row value;
          _ ← raise_if (255 <? stride)%nat TypeError;
          Ok (AFloatArray (map f32 (concat rows)) stride)
      | None => Ok (ANestedList (dumps (PList value)))
      end
  end.

Definition encode_attr_value (value : pyval) : result attr_value :=
  match value with
  | PBool b => Ok (AScalarBool b)
  | PInt z => z ← int32 z; Ok (AScalarInt z)
  | PFloat f => f ← pack_f32 f; Ok (AScalarFloat f)
  | PStr s => Ok (AScalarString s)
  | PList l => encode_attr_value_list l
  | _ => Ok (ANestedList (dumps value))
  end.

(** [[get_value(i + j) for j in range(stride)] for i in range(0, length, stride)] *)
Fixpoint read_rows (fuel i stride : nat) (l : list pyfloat) : result (list pyval) :=
  match fuel with
  | O => Ok []
  | S fuel =>
      if (i <? length l)%nat then
        row ← mapR (fun j => match l !! (i + j) with Some f => Ok f | None => stray l (i + j) end) (seq 0 stride);
        rows ← read_rows fuel (i + stride) stride l;
        Ok (PList (map PFloat row) :: rows)
      else Ok []
  end.

Definition attr_value_to_python (av : attr_value) : result pyval :=
  match av with
  | AScalarFloat f => Ok (PFloat f)
  | AScalarInt z => Ok (PInt z)
  | AScalarBool b => Ok (PBool b)
  | AScalarString s => Ok (PStr s)
  | AFloatArray l stride =>
      if (stride <=? 1)%nat then Ok (PList (map PFloat l))
      else rows ← read_rows (length l) 0 stride l; Ok (PList rows)
  | AIntArray l => Ok (PList (map PInt l))
  | ANestedList j => loads j
  end.

(** ** Encoders, one per kind *)

(** [b.CreateString(d[k]) if d.get(k) else None] *)
Definition opt_string (v : pyval) : result (option string) :=
  if truthy v then s ← as_string v; Ok (Some s) else Ok None.

Definition strings (v : pyval) : result (list string) := l ← as_seq v; mapR as_string l.

Definition encode_ensure_prim (ev : event) : result payload :=
  prim ← string_item ev "prim"; tn ← string_item ev "typeName";
  api ← (let v := py_get ev "api_schemas" in if truthy v then strings v else Ok []);
  Ok (EnsurePrim prim tn api).

Definition encode_ensure_xform_ops (ev : event) : result payload :=
  prim ← string_item ev "prim"; Ok (EnsureXformOps prim).

(** [bitmask |= bits.get(f, 0)] over the field names *)
Definition bitmask (bits : list (string * Z)) (fields : list string) : Z :=
  foldl (fun m f => Z.lor m (default 0%Z (dict_get f bits))) 0%Z fields.

(** [_create_float_vector(b, ev[f]) if f in fields else None] *)
Definition float_vector (ev : event) (fields : list string) (f : string) : result (option (list pyfloat)) :=
  if bool_decide (f ∈ fields) then v ← py_item ev f; l ← as_seq v; l ← mapR np_f32 l; Ok (Some l) else Ok None.

Definition encode_set_xform_trs (ev : event) : result payload :=
  prim ← string_item ev "prim";
  fields ← strings (get_or ev "fields" (PList []));
  t ← float_vector ev fields "t"; r ← float_vector ev fields "r"; s ← float_vector ev fields "s";
  time ← time_of ev;
  Ok (SetXformTrs prim (bitmask TRS_BITS fields) t r s time).

Definition encode_delete_prim (ev : event) : result payload := prim ← string_item ev "prim"; Ok (DeletePrim prim).
Definition encode_deactivate_prim (ev : event) : result payload :=
  prim ← string_item ev "prim"; active ← (v ← py_item ev "active"; as_bool v); Ok (DeactivatePrim prim active).
Definition encode_rename_prim (ev : event) : result payload :=
  prim ← string_item ev "prim"; new_name ← string_item ev "new_name"; Ok (RenamePrim prim new_name).
Definition encode_set_visibility (ev : event) : result payload :=
  prim ← string_item ev "prim"; visible ← (v ← py_item ev "visible"; as_bool v); time ← time_of ev;
  Ok (SetVisibility prim visible time).

Definition encode_primvar_meta (nm : string * pyval) : result primvar_meta :=
  meta ← as_mapping nm.2;
  tn ← as_string (item_get_or meta "typeName" (PStr ""));
  interp ← opt_string (item_get meta "interpolation");
  Ok (mk_pvm nm.1 tn interp).

Definition encode_set_gprim_attrs (ev : event) : result payload :=
  prim ← string_item ev "prim";
  attrs ← as_mapping (get_or ev "attrs" (PDict []));
  attrs ← mapR (fun nv : string * pyval => av ← encode_attr_value nv.2; Ok (nv.1, av)) attrs;
  meta ← as_mapping (get_or ev "primvar_meta" (PDict []));
  meta ← mapR encode_primvar_meta meta;
  interp ← as_mapping (get_or ev "attr_interp" (PDict []));
  interp ← mapR (fun nv : string * pyval => s ← as_string nv.2; Ok (nv.1, s)) interp;
  time ← time_of ev;
  Ok (SetGprimAttrs prim attrs meta interp time).

(** [float(entry[k])] when it is given, else the schema's default *)
Definition arc_float (entry : list (string * pyval)) (k : string) (d : pyfloat) : result pyfloat :=
  match item_get entry k with PNone => Ok d | v => py_float v end.

Definition encode_arc_entry (explicit : bool) (v : pyval) : result arc_entry :=
  entry ← as_mapping v;
  ap ← opt_string (item_get entry "asset_path");
  pp ← opt_string (item_get entry "prim_path");
  custom_data ← opt_string (item_get entry "custom_data_fragment");
  position ← as_string (item_get_or entry "list_position" (PStr (if explicit then "explicit" else "prepended")));
  position ← to_fb ARC_POSITION_TO_FB position;
  offset ← arc_float entry "layer_offset" (Fin 0%Qc);
  scale ← arc_float entry "layer_scale" (Fin 1%Qc);
  Ok (mk_arc ap pp position offset scale custom_data).

(** [_encode_set_reference] and [_encode_set_payload] *)
Definition encode_arcs (key : string) (mk : string -> list arc_entry -> bool -> bool -> payload) (ev : event) :
    result payload :=
  prim ← string_item ev "prim";
  let explicit := truthy (get_or ev "list_op_explicit" (PBool false)) in
  arcs ← (v ← py_item ev key; as_seq v);
  let authored := truthy (get_or ev "list_op_authored" (PBool (truthy (PList arcs) || explicit))) in
  entries ← mapR (encode_arc_entry explicit) arcs;
  Ok (mk prim entries authored explicit).
Definition encode_set_reference : event -> result payload := encode_arcs "refs" SetReference.
Definition encode_set_payload : event -> result payload := encode_arcs "payloads" SetPayload.

Definition encode_load_payload (ev : event) : result payload := prim ← string_item ev "prim"; Ok (LoadPayload prim).
Definition encode_unload_payload (ev : event) : result payload :=
  prim ← string_item ev "prim"; Ok (UnloadPayload prim).

Definition encode_set_variant_selections (ev : event) : result payload :=
  prim ← string_item ev "prim";
  selections ← (v ← py_item ev "selections"; as_mapping v);
  selections ← mapR (fun kv : string * pyval => s ← as_string kv.2; Ok (kv.1, s)) selections;
  Ok (SetVariantSelections prim selections).

Definition encode_set_material_binding (ev : event) : result payload :=
  prim ← string_item ev "prim"; mp ← string_item ev "material_path";
  purpose ← opt_string (get_or ev "material_purpose" (PStr ""));
  Ok (SetMaterialBinding prim mp purpose).

Definition encode_connectable_input_value (nv : string * pyval) (type_name : string) : result connectable_input :=
  let float_declared := bool_decide (type_name ∈ FLOAT_WIRE_TYPES) in
  value ← match nv.2 with
    | PBool b => Ok (Some (CScalarBool b))
    | PInt z => if float_declared then f ← py_float (PInt z); f ← pack_f32 f; Ok (Some (CScalarFloat f))
                else z ← int32 z; Ok (Some (CScalarInt z))
    | PFloat f => f ← pack_f32 f; Ok (Some (CScalarFloat f))
    | PStr s => Ok (Some (CScalarString s))
    | PList l =>
        if negb (bool_decide (l = [])) && forallb is_str l then ss ← mapR as_string l; Ok (Some (CStringArray ss))
        else if negb float_declared && forallb (fun v => match v with PInt _ => true | _ => false end) l
        then zs ← mapR (np_int 32) l; Ok (Some (CIntArray zs))
        else fs ← mapR (fun v => f ← py_float v; Ok (f32 f)) l; Ok (Some (CFloatArray fs))
    | _ => Ok None
    end;
  Ok (mk_input nv.1 type_name value).

Definition encode_set_connectable_input (ev : event) : result payload :=
  prim ← string_item ev "prim"; info_id ← string_item ev "info_id";
  input_types ← as_mapping (get_or ev "input_types" (PDict []));
  inputs ← as_mapping (get_or ev "inputs" (PDict []));
  inputs ← mapR (fun nv : string * pyval =>
    t ← as_string (item_get_or input_types nv.1 (PStr "")); encode_connectable_input_value nv t) inputs;
  time ← time_of ev;
  Ok (SetConnectableInput prim info_id inputs time).

Definition encode_connection (nc : string * pyval) : result connection :=
  conn ← as_mapping nc.2;
  sp ← as_string (item_get conn "source_prim"); sa ← as_string (item_get conn "source_attr");
  Ok (mk_connection nc.1 sp sa).

Definition encode_set_connectable_connection (ev : event) : result payload :=
  prim ← string_item ev "prim";
  connections ← as_mapping (get_or ev "connections" (PDict []));
  connections ← mapR encode_connection connections;
  disconnections ← strings (get_or ev "disconnections" (PList []));
  Ok (SetConnectableConnection prim connections disconnections).

(** [_encode_stage_metadata_table] of the event without its kind *)
Definition encode_set_stage_metadata (ev : event) : result payload :=
  up_axis ← opt_string (py_get ev "upAxis");
  numeric ← mapR (fun k => v ← py_item ev k; f ← py_float v; Ok (k, f)) (present_in ev STAGE_META_NUMERIC);
  Ok (SetStageMetadata (mk_stage numeric up_axis)).

Definition encode_set_instanceable (ev : event) : result payload :=
  prim ← string_item ev "prim"; v ← py_item ev "instanceable"; Ok (SetInstanceable prim (truthy v)).

(** [np.asarray(v).ravel()]: a list of scalars, or of rows of one length *)
Definition np_ravel (l : list pyval) : result (list pyval) :=
  match l with
  | PList row :: _ =>
      rows ← mapR as_seq l;
      _ ← raise_if (negb (forallb (fun r => (length r =? length row)%nat) rows)) ValueError;
      Ok (concat rows)
  | _ => Ok l
  end.

Definition encode_pi_array (ev : event) (a : string * (option nat * pi_dtype)) : result (string * pi_array) :=
  v ← py_item ev a.1; l ← as_seq v; flat ← np_ravel l;
  arr ← match a.2.2 with
        | Int32 => zs ← mapR (np_int 32) flat; Ok (PIInts zs)
        | Int64 => zs ← mapR (np_int 64) flat; Ok (PIInts zs)
        | Float32 => fs ← mapR np_f32 flat; Ok (PIFloats fs)
        end;
  Ok (a.1, arr).

Definition encode_set_point_instancer (ev : event) : result payload :=
  prim ← string_item ev "prim";
  fields ← strings (get_or ev "fields" (PList []));
  prototypes ← (if bool_decide ("prototypes" ∈ fields) then v ← py_item ev "prototypes"; strings v else Ok []);
  arrays ← mapR (encode_pi_array ev) (filter (fun a => a.1 ∈ fields) PI_ARRAYS);
  time ← time_of ev;
  Ok (SetPointInstancer prim (bitmask PI_BITS fields) prototypes arrays time).

Definition encode_erase_time_samples (ev : event) : result payload :=
  prim ← string_item ev "prim"; sp ← string_item ev "spec_path";
  times ← (v ← py_item ev "times"; as_seq v); times ← mapR py_float times;
  Ok (EraseTimeSamples prim sp times).

Definition encode_set_sdf_spec_fields (ev : event) : result payload :=
  prim ← string_item ev "prim"; sp ← string_item ev "spec_path";
  fragment ← as_string (get_or ev "fragment" (PStr ""));
  fields ← strings (get_or ev "fields" (PList []));
  kind ← string_item ev "spec_kind"; kind ← to_fb SDF_SPEC_KIND_TO_FB kind;
  Ok (SetSdfSpecFields prim sp kind fields fragment (truthy (get_or ev "removed" (PBool false)))).

Definition encode_replace_sdf_layer_content (ev : event) : result payload :=
  prim ← string_item ev "prim"; fragment ← string_item ev "fragment"; Ok (ReplaceSdfLayerContent prim fragment).

Definition encode_sublayer_entry (v : pyval) : result sublayer_entry :=
  entry ← as_mapping v;
  path ← as_string (item_get entry "authored_path");
  key ← opt_string (item_get entry "layer_key");
  offset ← py_float (item_get_or entry "offset" (PFloat (Fin 0%Qc)));
  scale ← py_float (item_get_or entry "scale" (PFloat (Fin 1%Qc)));
  Ok (mk_sub path offset scale key).

Definition encode_set_sublayers (ev : event) : result payload :=
  prim ← string_item ev "prim"; generation ← string_item ev "generation";
  entries ← as_seq (get_or ev "sublayers" (PList [])); entries ← mapR encode_sublayer_entry entries;
  revision ← match get_or ev "revision" (PInt 0) with PInt z => enforce 0 (2 ^ 64) z | _ => Err TypeError end;
  Ok (SetSublayers prim generation revision entries).

Definition encoders : list (string * (event -> result payload)) := [
  (K_ENSURE_PRIM, encode_ensure_prim); (K_ENSURE_XFORM_OPS, encode_ensure_xform_ops);
  (K_SET_XFORM_TRS, encode_set_xform_trs); (K_DELETE_PRIM, encode_delete_prim);
  (K_DEACTIVATE_PRIM, encode_deactivate_prim); (K_RENAME_PRIM, encode_rename_prim);
  (K_SET_VISIBILITY, encode_set_visibility); (K_SET_GPRIM_ATTRS, encode_set_gprim_attrs);
  (K_SET_REFERENCE, encode_set_reference); (K_SET_PAYLOAD, encode_set_payload);
  (K_LOAD_PAYLOAD, encode_load_payload); (K_UNLOAD_PAYLOAD, encode_unload_payload);
  (K_SET_VARIANT_SELECTIONS, encode_set_variant_selections); (K_SET_MATERIAL_BINDING, encode_set_material_binding);
  (K_SET_CONNECTABLE_INPUT, encode_set_connectable_input);
  (K_SET_CONNECTABLE_CONNECTION, encode_set_connectable_connection);
  (K_SET_STAGE_METADATA, encode_set_stage_metadata); (K_SET_INSTANCEABLE, encode_set_instanceable);
  (K_SET_POINT_INSTANCER, encode_set_point_instancer); (K_ERASE_TIME_SAMPLES, encode_erase_time_samples);
  (K_SET_SDF_SPEC_FIELDS, encode_set_sdf_spec_fields);
  (K_REPLACE_SDF_LAYER_CONTENT, encode_replace_sdf_layer_content); (K_SET_SUBLAYERS, encode_set_sublayers)].

(** [_encode_event_wrapper] *)
Definition encode_event (ev : event) : result payload :=
  kind ← string_item ev "k";
  match dict_get kind encoders with
  | Some encode => encode ev
  | None => Err (KeyError kind)
  end.

(** ** Decoders, one per table *)

(** [if v is not None: ev[k] = v] *)
Definition opt_item {A} (k : string) (f : A -> pyval) (o : option A) : list (string * pyval) :=
  match o with Some a => [(k, f a)] | None => [] end.

(** a string read with [_str] and kept only when it is not empty *)
Definition nonempty (o : option string) : option string :=
  match o with Some EmptyString => None | _ => o end.

(** [for k, v in l: d[k] = v] on an empty dictionary *)
Definition dict_of {A} (l : list (string * A)) : list (string * A) :=
  foldl (fun d kv => dict_set kv.1 (fun _ => kv.2) d) [] l.

Definition PStrs (l : list string) : pyval := PList (map PStr l).
Definition PFloats (l : list pyfloat) : pyval := PList (map PFloat l).

(** [.tolist()] of an accessor that returns [0] for a missing vector *)
Definition trs_items (fields : Z) (t r s : option (list pyfloat)) : result (list (string * pyval)) :=
  mapR (fun fv : string * option (list pyfloat) =>
          match fv.2 with Some l => Ok (fv.1, PFloats l) | None => Err (OtherException "AttributeError") end)
       (filter (fun fv => Z.land fields (default 0%Z (dict_get fv.1 TRS_BITS)) ≠ 0%Z) [("t", t); ("r", r); ("s", s)]).

Definition dict_arc_entry (explicit : bool) (arc : arc_entry) : result pyval :=
  position ← from_fb ARC_POSITION_TO_FB (arc_list_position arc);
  Ok (PDict (opt_item "asset_path" PStr (nonempty (arc_asset_path arc)) ++
             opt_item "prim_path" PStr (nonempty (arc_prim_path arc)) ++
             (if bool_decide (position = (if explicit then "explicit" else "prepended")) then []
              else [("list_position", PStr position)]) ++
             (if bool_decide (arc_layer_offset arc = Fin 0%Qc) then []
              else [("layer_offset", PFloat (arc_layer_offset arc))]) ++
             (if bool_decide (arc_layer_scale arc = Fin 1%Qc) then []
              else [("layer_scale", PFloat (arc_layer_scale arc))]) ++
             opt_item "custom_data_fragment" PStr (nonempty (arc_custom_data arc)))).

Definition dict_arcs (key prim : string) (arcs : list arc_entry) (authored explicit : bool) :
    result (list (string * pyval)) :=
  entries ← mapR (dict_arc_entry explicit) arcs;
  Ok [("prim", PStr prim); (key, PList entries); ("list_op_authored", PBool authored);
      ("list_op_explicit", PBool explicit)].

Definition dict_input_value (v : input_value) : pyval :=
  match v with
  | CScalarFloat f => PFloat f | CScalarInt z => PInt z | CScalarBool b => PBool b | CScalarString s => PStr s
  | CFloatArray l => PFloats l | CIntArray l => PList (map PInt l) | CStringArray l => PStrs l
  end.

(** [[flat[i : i + stride] for i in range(0, n, stride)]] *)
Fixpoint chunk {A} (fuel stride : nat) (l : list A) : list (list A) :=
  match fuel, l with
  | S fuel, _ :: _ => take stride l :: chunk fuel stride (drop stride l)
  | _, _ => []
  end.

Definition dict_pi_array (stride : option nat) (a : pi_array) : pyval :=
  let flat := match a with PIInts l => map PInt l | PIFloats l => map PFloat l end in
  match stride with
  | None => PList flat
  | Some n => PList (map PList (chunk (length flat) n flat))
  end.

(** the fields whose bit is set, the prototypes first *)
Definition pi_set (fields : Z) (name : string) : Prop := Z.land fields (default 0%Z (dict_get name PI_BITS)) ≠ 0%Z.
#[global] Instance pi_set_dec fields name : Decision (pi_set fields name) := _.

Definition dict_sublayer_entry (e : sublayer_entry) : pyval :=
  PDict ([("authored_path", PStr (sl_path e)); ("offset", PFloat (sl_offset e)); ("scale", PFloat (sl_scale e))] ++
         opt_item "layer_key" PStr (nonempty (sl_key e))).

Definition dict_ensure_prim (prim tn : string) (api : list string) : result (list (string * pyval)) :=
  Ok ([("prim", PStr prim); ("typeName", PStr tn)] ++
        (if bool_decide (api = []) then [] else [("api_schemas", PStrs api)])).

Definition dict_set_xform_trs (prim : string) (fields : Z) (t r s : option (list pyfloat)) (time : option pyfloat) :
    result (list (string * pyval)) :=
  vectors ← trs_items fields t r s;
  Ok ([("prim", PStr prim); ("fields", PStrs (map fst vectors))] ++ vectors ++ opt_item "time" PFloat time).

Definition dict_deactivate_prim (prim : string) (active : bool) : result (list (string * pyval)) :=
  Ok [("prim", PStr prim); ("active", PBool active)].

Definition dict_rename_prim (prim new_name : string) : result (list (string * pyval)) :=
  Ok [("prim", PStr prim); ("new_name", PStr new_name)].

Definition dict_set_visibility (prim : string) (visible : bool) (time : option pyfloat) :
    result (list (string * pyval)) :=
  Ok ([("prim", PStr prim); ("visible", PBool visible)] ++ opt_item "time" PFloat time).

Definition dict_set_gprim_attrs (prim : string) (attrs : list (string * attr_value)) (meta : list primvar_meta)
    (interp : list (string * string)) (time : option pyfloat) :
    result (list (string * pyval)) :=
  attrs ← mapR (fun na : string * attr_value => v ← attr_value_to_python na.2; Ok (na.1, v)) attrs;
  Ok ([("prim", PStr prim); ("attrs", PDict (dict_of attrs))] ++
      (if bool_decide (length meta = 0%nat) then [] else
         [("primvar_meta", PDict (dict_of (map (fun m => (pv_name m,
             PDict (("typeName", PStr (pv_type m)) ::
                    opt_item "interpolation" PStr (nonempty (pv_interpolation m))))) meta)))]) ++
      (if bool_decide (interp = []) then [] else
         [("attr_interp", PDict (dict_of (map (fun kv => (kv.1, PStr kv.2)) interp)))]) ++
      opt_item "time" PFloat time).

Definition dict_set_variant_selections (prim : string) (selections : list (string * string)) :
    result (list (string * pyval)) :=
  Ok [("prim", PStr prim); ("selections", PDict (dict_of (map (fun kv => (kv.1, PStr kv.2)) selections)))].

Definition dict_set_material_binding (prim path : string) (purpose : option string) :
    result (list (string * pyval)) :=
  Ok ([("prim", PStr prim); ("material_path", PStr path)] ++ opt_item "material_purpose" PStr (nonempty purpose)).

Definition dict_set_connectable_input (prim info_id : string) (inputs : list connectable_input) (time : option pyfloat) :
    result (list (string * pyval)) :=
  Ok ([("prim", PStr prim); ("info_id", PStr info_id);
         ("inputs", PDict (dict_of (omap (fun i => v ← in_value i; Some (in_name i, dict_input_value v)) inputs)));
         ("input_types", PDict (dict_of (map (fun i => (in_name i, PStr (in_type i))) inputs)))] ++
        opt_item "time" PFloat time).

Definition dict_set_connectable_connection (prim : string) (connections : list connection) (disconnections : list string) :
    result (list (string * pyval)) :=
  Ok ([("prim", PStr prim);
         ("connections", PDict (dict_of (map (fun c => (local_attr c,
            PDict [("source_prim", PStr (source_prim c)); ("source_attr", PStr (source_attr c))])) connections)))] ++
        (if bool_decide (disconnections = []) then [] else [("disconnections", PStrs disconnections)])).

Definition dict_set_stage_metadata (meta : stage_metadata) : result (list (string * pyval)) :=
  Ok (omap (fun k => f ← dict_get k (sm_numeric meta); Some (k, PFloat f)) STAGE_META_NUMERIC ++
        opt_item "upAxis" PStr (nonempty (sm_upAxis meta))).

Definition dict_set_instanceable (prim : string) (instanceable : bool) : result (list (string * pyval)) :=
  Ok [("prim", PStr prim); ("instanceable", PBool instanceable)].

Definition dict_set_point_instancer (prim : string) (fields : Z) (prototypes : list string)
    (arrays : list (string * pi_array)) (time : option pyfloat) :
    result (list (string * pyval)) :=
  let set := filter (fun a => pi_set fields a.1) PI_ARRAYS in
  let proto := bool_decide (pi_set fields "prototypes") in
  Ok ([("prim", PStr prim)] ++ (if proto then [("prototypes", PStrs prototypes)] else []) ++
      map (fun a => (a.1, dict_pi_array a.2.1 (default (PIInts []) (dict_get a.1 arrays)))) set ++
      [("fields", PStrs ((if proto then ["prototypes"] else []) ++ map fst set))] ++
      opt_item "time" PFloat time).

Definition dict_erase_time_samples (prim sp : string) (times : list pyfloat) : result (list (string * pyval)) :=
  Ok [("prim", PStr prim); ("spec_path", PStr sp); ("times", PFloats times)].

Definition dict_set_sdf_spec_fields (prim sp : string) (kind : Z) (fields : list string) (fragment : string) (removed : bool) :
    result (list (string * pyval)) :=
  kind ← from_fb SDF_SPEC_KIND_TO_FB kind;
  Ok [("prim", PStr prim); ("spec_path", PStr sp); ("spec_kind", PStr kind); ("fields", PStrs fields);
      ("fragment", PStr fragment); ("removed", PBool removed)].

Definition dict_replace_sdf_layer_content (prim fragment : string) : result (list (string * pyval)) :=
  Ok [("prim", PStr prim); ("fragment", PStr fragment)].

Definition dict_set_sublayers (prim generation : string) (revision : Z) (entries : list sublayer_entry) :
    result (list (string * pyval)) :=
  Ok [("prim", PStr prim); ("generation", PStr generation); ("revision", PInt revision);
        ("sublayers", PList (map dict_sublayer_entry entries))].

Definition dict_items (t : payload) : result (list (string * pyval)) :=
  match t with
  | EnsurePrim prim tn api => dict_ensure_prim prim tn api
  | EnsureXformOps prim | DeletePrim prim | LoadPayload prim | UnloadPayload prim => Ok [("prim", PStr prim)]
  | SetXformTrs prim fields t r s time => dict_set_xform_trs prim fields t r s time
  | DeactivatePrim prim active => dict_deactivate_prim prim active
  | RenamePrim prim new_name => dict_rename_prim prim new_name
  | SetVisibility prim visible time => dict_set_visibility prim visible time
  | SetGprimAttrs prim attrs meta interp time => dict_set_gprim_attrs prim attrs meta interp time
  | SetReference prim refs authored explicit => dict_arcs "refs" prim refs authored explicit
  | SetPayload prim payloads authored explicit => dict_arcs "payloads" prim payloads authored explicit
  | SetVariantSelections prim selections => dict_set_variant_selections prim selections
  | SetMaterialBinding prim path purpose => dict_set_material_binding prim path purpose
  | SetConnectableInput prim info_id inputs time => dict_set_connectable_input prim info_id inputs time
  | SetConnectableConnection prim connections disconnections => dict_set_connectable_connection prim connections disconnections
  | SetStageMetadata meta => dict_set_stage_metadata meta
  | SetInstanceable prim instanceable => dict_set_instanceable prim instanceable
  | SetPointInstancer prim fields prototypes arrays time => dict_set_point_instancer prim fields prototypes arrays time
  | EraseTimeSamples prim sp times => dict_erase_time_samples prim sp times
  | SetSdfSpecFields prim sp kind fields fragment removed => dict_set_sdf_spec_fields prim sp kind fields fragment removed
  | ReplaceSdfLayerContent prim fragment => dict_replace_sdf_layer_content prim fragment
  | SetSublayers prim generation revision entries => dict_set_sublayers prim generation revision entries
  end.

(** [event_to_dict] *)
Definition decode_event (t : payload) : result event :=
  items ← dict_items t; Ok (list_to_map (("k", PStr (kind_of_payload t)) :: items)).

(** ** Well-formed tables: what an encoder can have written *)

Definition f32_value (f : pyfloat) : Prop := f32 f = f.
Definition f32_scalar (f : pyfloat) : Prop := pack_f32 f = Ok f.
Definition int_value (bits z : Z) : Prop := np_int bits (PInt z) = Ok z.

(** rows of one positive width, flattened *)
Definition rows_of {A} (stride : nat) (l : list A) : Prop :=
  exists rows, l = concat rows /\ Forall (fun r => length r = stride) rows.

(** a value that only JSON can carry *)
Definition json_only (v : pyval) : bool :=
  match v with
  | PNone | PDict _ | PList [] => true
  | PList ((PFloat _ | PInt _) :: _) => false
  | PList (first :: _) => negb (bool_decide (is_Some (nested_numbers first)))
  | _ => false
  end.

Definition wf_attr (av : attr_value) : Prop :=
  match av with
  | AScalarFloat f => f32_scalar f
  | AScalarInt z => int32 z = Ok z
  | AScalarBool _ | AScalarString _ => True
  | AFloatArray l stride => l ≠ [] /\ Forall f32_value l /\ 1 ≤ stride ≤ 255 /\ rows_of stride l
  | AIntArray l => l ≠ [] /\ Forall (int_value 32) l
  | ANestedList j => exists v, j = dumps v /\ json_only v = true
  end.

(** an absent string, or one that is not empty *)
Definition wf_opt (o : option string) : Prop := nonempty o = o.

Definition wf_arc (arc : arc_entry) : Prop :=
  wf_opt (arc_asset_path arc) /\ wf_opt (arc_prim_path arc) /\ wf_opt (arc_custom_data arc) /\
  arc_list_position arc ∈ map snd ARC_POSITION_TO_FB.

Definition float_declared (type_name : string) : Prop := type_name ∈ FLOAT_WIRE_TYPES.

Definition wf_input (i : connectable_input) : Prop :=
  match in_value i with
  | Some (CScalarFloat f) => f32_scalar f
  | Some (CScalarInt z) => ¬ float_declared (in_type i) /\ int32 z = Ok z
  | Some (CScalarBool _ | CScalarString _) => True
  | Some (CFloatArray l) => Forall f32_value l /\ (l = [] -> float_declared (in_type i))
  | Some (CIntArray l) => ¬ float_declared (in_type i) /\ Forall (int_value 32) l
  | Some (CStringArray l) => l ≠ []
  | None => False
  end.

(** an array of the element type and width its name is declared with *)
Definition wf_pi (a : string * (option nat * pi_dtype)) (arr : pi_array) : Prop :=
  match a.2.2, arr with
  | Int32, PIInts l => Forall (int_value 32) l
  | Int64, PIInts l => Forall (int_value 64) l
  | Float32, PIFloats l => Forall f32_value l /\ match a.2.1 with Some n => rows_of n l | None => True end
  | _, _ => False
  end.

Definition present_names (t r s : option (list pyfloat)) : list string :=
  map fst (opt_item "t" PFloats t ++ opt_item "r" PFloats r ++ opt_item "s" PFloats s).

Definition wf_payload (t : payload) : Prop :=
  match t with
  | SetXformTrs _ fields t r s _ =>
      fields = bitmask TRS_BITS (present_names t r s)
      /\ Forall (fun o => Forall f32_value (default [] o)) [t; r; s]
  | SetGprimAttrs _ attrs meta interp _ =>
      NoDup (map fst attrs) /\ NoDup (map pv_name meta) /\ NoDup (map fst interp)
      /\ Forall (fun na => wf_attr na.2) attrs /\ Forall (fun m => wf_opt (pv_interpolation m)) meta
  | SetReference _ arcs _ _ | SetPayload _ arcs _ _ => Forall wf_arc arcs
  | SetVariantSelections _ selections => NoDup (map fst selections)
  | SetMaterialBinding _ _ purpose => wf_opt purpose
  | SetConnectableInput _ _ inputs _ => NoDup (map in_name inputs) /\ Forall wf_input inputs
  | SetConnectableConnection _ connections _ => NoDup (map local_attr connections)
  | SetStageMetadata meta =>
      wf_opt (sm_upAxis meta)
      /\ map fst (sm_numeric meta) = filter (fun k => k ∈ map fst (sm_numeric meta)) STAGE_META_NUMERIC
  | SetPointInstancer _ fields prototypes arrays _ =>
      (0 <= fields < 2 ^ 11)%Z /\ (¬ pi_set fields "prototypes" -> prototypes = [])
      /\ Forall2 (fun a na => na.1 = a.1 /\ wf_pi a na.2) (filter (fun a => pi_set fields a.1) PI_ARRAYS) arrays
  | SetSdfSpecFields _ _ kind _ _ _ => kind ∈ map snd SDF_SPEC_KIND_TO_FB
  | SetSublayers _ _ revision entries => enforce 0 (2 ^ 64) revision = Ok revision /\ Forall (fun e => wf_opt (sl_key e)) entries
  | _ => True
  end.

(** ** Helper lemmas *)

Lemma list_to_map_get (l : list (string * pyval)) k : (list_to_map l : event) !! k = dict_get k l.
Proof.
  induction l as [|[k' v] l IH]; simpl; [apply lookup_empty|].
  destruct (decide (k' = k)) as [->|Hne].
  - by rewrite lookup_insert_eq, bool_decide_eq_true_2.
  - by rewrite lookup_insert_ne, bool_decide_eq_false_2 by done.
Qed.

Lemma dict_get_eq {A} (k : string) (v : A) d : dict_get k ((k, v) :: d) = Some v.
Proof. simpl. by rewrite bool_decide_eq_true_2. Qed.
Lemma dict_get_ne {A} (k k' : string) (v : A) d : k' ≠ k -> dict_get k ((k', v) :: d) = dict_get k d.
Proof. intros. simpl. by rewrite bool_decide_eq_false_2. Qed.
Lemma dict_get_opt_eq {A} k (f : A -> pyval) o d :
  dict_get k d = None -> dict_get k (opt_item k f o ++ d) = f <$> o.
Proof. intros Hd. destruct o; simpl; [by rewrite bool_decide_eq_true_2|done]. Qed.
Lemma dict_get_opt_ne {A} k k' (f : A -> pyval) o d :
  k' ≠ k -> dict_get k (opt_item k' f o ++ d) = dict_get k d.
Proof. intros. destruct o; simpl; [by rewrite bool_decide_eq_false_2|done]. Qed.
Lemma dict_get_opt_last {A} k (f : A -> pyval) o : dict_get k (opt_item k f o) = f <$> o.
Proof. destruct o; simpl; [by rewrite bool_decide_eq_true_2|done]. Qed.
Lemma dict_get_opt_last_ne {A} k k' (f : A -> pyval) o : k' ≠ k -> dict_get k (opt_item k' f o) = None.
Proof. intros. destruct o; simpl; [by rewrite bool_decide_eq_false_2|done]. Qed.
Lemma dict_get_app {A} k (d e : list (string * A)) :
  dict_get k (d ++ e) = match dict_get k d with Some v => Some v | None => dict_get k e end.
Proof. induction d as [|[k' v] d IH]; simpl; [done|]. by case_bool_decide. Qed.

Lemma dict_of_NoDup {A} (l : list (string * A)) : NoDup (map fst l) -> dict_of l = l.
Proof.
  unfold dict_of. intros Hl.
  assert (forall d, NoDup (map fst (d ++ l)) ->
    foldl (fun d kv => dict_set kv.1 (fun _ => kv.2) d) d l = d ++ l) as Hgen; [|by apply (Hgen [])].
  clear Hl. induction l as [|[k v] l IH]; intros d Hd; simpl; [by rewrite app_nil_r|].
  assert (dict_set k (fun _ => v) d = d ++ [(k, v)]) as ->.
  { rewrite map_app in Hd. apply NoDup_app in Hd as (_ & Hni & _). clear IH.
    induction d as [|[k' v'] d IHd]; simpl; [done|]. rewrite bool_decide_eq_false_2.
    - f_equal. apply IHd. intros x Hx. apply Hni. simpl. by right.
    - intros ->. apply (Hni k); simpl; [by left|]. by left. }
  rewrite IH by (by rewrite <-app_assoc). by rewrite <-app_assoc.
Qed.

(** Two loops that undo each other element by element *)
Lemma mapR_map {A B} (f : B -> result A) (g : A -> B) l :
  (forall x, x ∈ l -> f (g x) = Ok x) -> mapR f (map g l) = Ok l.
Proof.
  induction l as [|x l IH]; intros Hl; simpl; [done|].
  rewrite (Hl x) by set_solver. simpl. by rewrite IH by set_solver.
Qed.
Lemma mapR_roundtrip {A B} (f : A -> result B) (g : B -> result A) l :
  (forall x, x ∈ l -> exists y, f x = Ok y /\ g y = Ok x) ->
  exists l', mapR f l = Ok l' /\ mapR g l' = Ok l /\ length l' = length l.
Proof.
  induction l as [|x l IH]; intros Hl; simpl; [by exists []|].
  destruct (Hl x ltac:(set_solver)) as (y & Hy & Hx). destruct IH as (l' & H1 & H2 & H3); [set_solver|].
  exists (y :: l'). rewrite Hy, H1. simpl. by rewrite Hx, H2, H3.
Qed.

Lemma chunk_concat {A} fuel stride (rows : list (list A)) :
  0 < stride -> Forall (fun r => length r = stride) rows -> length (concat rows) ≤ fuel ->
  chunk fuel stride (concat rows) = rows.
Proof.
  intros Hs. revert fuel. induction rows as [|r rows IH]; intros fuel Hr Hf; [by destruct fuel|].
  apply Forall_cons in Hr as [Hr Hrows]. destruct fuel as [|fuel].
  { simpl in Hf. rewrite length_app in Hf. lia. }
  simpl concat in *. rewrite length_app in Hf. destruct r as [|x r]; [simpl in Hr; lia|].
  cbn [app chunk]. change (x :: r ++ concat rows) with ((x :: r) ++ concat rows).
  rewrite take_app_length' by done. rewrite drop_app_length' by done. rewrite IH; [done..|].
  simpl in Hf, Hr. lia.
Qed.

(** ** Round trips *)

Lemma opt_string_nonempty o : wf_opt o -> opt_string (default PNone (PStr <$> nonempty o)) = Ok o.
Proof. unfold wf_opt. destruct o as [[|a s]|]; simpl; done. Qed.

Lemma strings_PStrs l : strings (PStrs l) = Ok l.
Proof. unfold strings, PStrs. simpl. by apply mapR_map. Qed.

Lemma floats_roundtrip l : Forall f32_value l -> mapR np_f32 (map PFloat l) = Ok l.
Proof. intros Hl. apply mapR_map. intros x Hx. rewrite Forall_forall in Hl. simpl. by rewrite (Hl x Hx). Qed.

Lemma ints_roundtrip bits l : Forall (int_value bits) l -> mapR (np_int bits) (map PInt l) = Ok l.
Proof. intros Hl. apply mapR_map. intros x Hx. rewrite Forall_forall in Hl. by apply Hl. Qed.

Lemma time_roundtrip (time : option pyfloat) (ev : event) :
  py_get ev "time" = default PNone (PFloat <$> time) -> time_of ev = Ok time.
Proof. intros Ht. unfold time_of. rewrite Ht. by destruct time. Qed.

Lemma to_fb_from_fb d z : NoDup (map snd d) -> NoDup (map fst d) -> z ∈ map snd d ->
  exists k, from_fb d z = Ok k /\ to_fb d k = Ok z.
Proof.
  intros Hs Hf ([k z'] & -> & Hin)%list_elem_of_fmap. exists k. unfold from_fb, to_fb. simpl.
  rewrite (elem_dict_get k d z') by done.
  rewrite (elem_dict_get z' _ k); [done| |].
  - by rewrite map_map.
  - apply list_elem_of_fmap. by exists (k, z').
Qed.

(** *** Attribute values *)

Lemma read_rows_concat stride rows : 0 < stride -> Forall (fun r => length r = stride) rows ->
  forall done_ fuel, length (concat rows) ≤ fuel ->
  read_rows fuel (length done_) stride (done_ ++ concat rows) = Ok (map PFloats rows).
Proof.
  intros Hs. induction rows as [|r rows IH]; intros Hr done_ fuel Hf.
  { simpl. rewrite app_nil_r. destruct fuel; [done|]. simpl. by rewrite Nat.ltb_irrefl. }
  apply Forall_cons in Hr as [Hr Hrows]. simpl concat in *. rewrite length_app in Hf.
  destruct fuel as [|fuel]; [lia|]. cbn [read_rows].
  rewrite (proj2 (Nat.ltb_lt _ _)) by (rewrite !length_app; lia).
  assert (mapR (fun j => match (done_ ++ r ++ concat rows) !! (length done_ + j) with Some f => Ok f
            | None => stray (done_ ++ r ++ concat rows) (length done_ + j) end) (seq 0 stride) = Ok r) as ->.
  { apply mapR_Ok, Forall2_same_length_lookup_2; [by rewrite length_seq|].
    intros i j f Hi Hj. apply lookup_seq in Hi as [-> Hlt]. rewrite Nat.add_0_l.
    rewrite lookup_app_r by lia. replace (length done_ + i - length done_) with i by lia.
    rewrite lookup_app_l by lia. by rewrite Hj. }
  simpl. replace (length done_ + stride) with (length (done_ ++ r)) by (rewrite length_app; lia).
  rewrite app_assoc, IH; [done..|lia].
Qed.

Lemma nested_numbers_floats (r : list pyfloat) : r ≠ [] -> nested_numbers (PFloats r) = Some (length r).
Proof. destruct r as [|x r]; [done|]. intros _. change (Some (length (map PFloat (x :: r))) = Some (length (x :: r))). by rewrite length_map. Qed.

Lemma flatten_rows rows : mapR flatten_row (map PFloats rows) = Ok rows.
Proof. apply mapR_map. intros r _. unfold flatten_row. simpl. by apply mapR_map. Qed.

Lemma attr_roundtrip av :
  wf_attr av -> exists v, attr_value_to_python av = Ok v /\ encode_attr_value v = Ok av.
Proof.
  destruct av as [f|z|b|s|l stride|l|j]; unfold wf_attr, f32_scalar; intros Hwf.
  - exists (PFloat f). split; [done|]. unfold encode_attr_value. by rewrite Hwf.
  - exists (PInt z). split; [done|]. unfold encode_attr_value. by rewrite Hwf.
  - by exists (PBool b).
  - by exists (PStr s).
  - destruct Hwf as (Hne & Hl & Hst & rows & -> & Hrows). destruct (stride <=? 1)%nat eqn:Hone.
    + apply Nat.leb_le in Hone. assert (stride = 1) as -> by lia. eexists; split; [done|].
      pose proof (floats_roundtrip _ Hl) as Hf. destruct (concat rows) as [|x l]; [done|].
      unfold encode_attr_value, encode_attr_value_list. simpl map in Hf |- *. rewrite Hf. done.
    + apply Nat.leb_gt in Hone. pose proof (read_rows_concat stride rows ltac:(lia) Hrows [] _ (le_n _)) as Hr.
      simpl in Hr. unfold attr_value_to_python. rewrite (proj2 (Nat.leb_gt _ _) Hone), Hr. eexists; split; [done|].
      destruct rows as [|r rows]; [done|]. pose proof Hrows as [Hr0 _]%Forall_cons.
      assert (r ≠ []) as Hrne by (intros ->; simpl in Hr0; lia).
      unfold encode_attr_value, encode_attr_value_list. cbn [map].
      rewrite (nested_numbers_floats r Hrne). change (PFloats r :: map PFloats rows) with (map PFloats (r :: rows)).
      rewrite flatten_rows. unfold PFloats at 1. simpl. rewrite Hr0. rewrite (proj2 (Nat.ltb_ge 255 stride)) by lia. simpl.
      do 2 f_equal. rewrite <-(map_id (r ++ concat rows)) at 2. apply map_ext_Forall.
      eapply Forall_impl; [exact Hl|]. done.
  - destruct Hwf as [Hne Hl]. eexists; split; [done|]. pose proof (ints_roundtrip _ _ Hl) as Hi.
    destruct l as [|z l]; [done|]. unfold encode_attr_value, encode_attr_value_list.
    simpl map in Hi |- *. by rewrite Hi.
  - destruct Hwf as (v & -> & Hv). exists v. split; [apply loads_dumps|].
    destruct v as [| | | | |l|]; try done. destruct l as [|first l]; [done|].
    unfold encode_attr_value, encode_attr_value_list. destruct first as [| | | | |row|]; try done.
    unfold json_only in Hv. apply negb_true_iff, bool_decide_eq_false in Hv.
    destruct (nested_numbers (PList row)); [|done]. exfalso. apply Hv. by eexists.
Qed.

(** Reading a key of a dictionary given by its items *)
Ltac get_simp :=
  rewrite ?list_to_map_get, <-?app_assoc; cbn [app];
  repeat first
    [ rewrite dict_get_eq
    | rewrite dict_get_ne by done
    | rewrite dict_get_opt_ne by done
    | rewrite dict_get_opt_last
    | rewrite dict_get_opt_last_ne by done
    | rewrite dict_get_opt_eq by (get_simp; done) ].

(** *** Arcs, inputs and arrays *)

Lemma arc_roundtrip explicit arc :
  wf_arc arc -> exists v, dict_arc_entry explicit arc = Ok v /\ encode_arc_entry explicit v = Ok arc.
Proof.
  destruct arc as [ap pp pos off sc cd]. unfold wf_arc. simpl. intros (Ha & Hp & Hc & Hpos).
  destruct (to_fb_from_fb ARC_POSITION_TO_FB pos) as (k & Hk & Hk'); [apply (bool_decide_unpack _); by vm_compute..|done|].
  unfold dict_arc_entry. simpl. rewrite Hk. eexists; split; [done|]. unfold encode_arc_entry. simpl.
  set (dp := if explicit then "explicit" else "prepended").
  set (items := opt_item "asset_path" PStr (nonempty ap) ++ _).
  assert (item_get items "asset_path" = default PNone (PStr <$> nonempty ap)) as ->.
  { unfold item_get, items. f_equal. apply dict_get_opt_eq. repeat case_bool_decide; cbn [app]; by get_simp. }
  assert (item_get items "prim_path" = default PNone (PStr <$> nonempty pp)) as ->.
  { unfold item_get, items. f_equal. get_simp. apply dict_get_opt_eq. repeat case_bool_decide; cbn [app]; by get_simp. }
  assert (item_get items "custom_data_fragment" = default PNone (PStr <$> nonempty cd)) as ->.
  { unfold item_get, items. f_equal. get_simp. repeat case_bool_decide; cbn [app]; by get_simp. }
  assert (item_get_or items "list_position" (PStr dp) = PStr k) as ->.
  { unfold item_get_or, items. get_simp. repeat case_bool_decide; cbn [app]; get_simp; simpl; congruence. }
  rewrite !opt_string_nonempty by done. simpl. rewrite Hk'. simpl.
  assert (arc_float items "layer_offset" (Fin 0%Qc) = Ok off) as ->.
  { unfold arc_float, item_get, items. get_simp. repeat case_bool_decide; cbn [app]; get_simp; simpl; congruence. }
  assert (arc_float items "layer_scale" (Fin 1%Qc) = Ok sc) as ->.
  { unfold arc_float, item_get, items. get_simp. repeat case_bool_decide; cbn [app]; get_simp; simpl; congruence. }
  done.
Qed.

Lemma input_roundtrip i : wf_input i -> exists v, in_value i = Some v /\
  encode_connectable_input_value (in_name i, dict_input_value v) (in_type i) = Ok i.
Proof.
  destruct i as [name type value]. unfold wf_input. simpl. destruct value as [v|]; [|done]. intros Hv. exists v.
  split; [done|]. unfold encode_connectable_input_value.
  destruct v as [f|z|b|s|l|l|l]; simpl; simpl in Hv.
  - by rewrite Hv.
  - destruct Hv as [Hd Hz]. rewrite bool_decide_eq_false_2 by done. by rewrite Hz.
  - done.
  - done.
  - destruct Hv as [Hl Hd].
    assert (mapR (fun v => f ← py_float v; Ok (f32 f)) (map PFloat l) = Ok l) as E.
    { apply mapR_map. intros x Hx. rewrite Forall_forall in Hl. simpl. by rewrite (Hl x Hx). }
    destruct l as [|x l].
    + simpl. rewrite (bool_decide_eq_true_2 (type ∈ _)) by (by apply Hd). done.
    + rewrite bool_decide_eq_false_2 by done. simpl forallb. cbn [andb negb]. rewrite andb_false_r.
      rewrite E. done.
  - destruct Hv as [Hd Hl]. rewrite (bool_decide_eq_false_2 (type ∈ _)) by done.
    assert (negb (bool_decide (map PInt l = [])) && forallb is_str (map PInt l) = false) as ->
      by (destruct l; [done|by rewrite bool_decide_eq_false_2]).
    assert (forallb (fun v => match v with PInt _ => true | _ => false end) (map PInt l) = true) as ->
      by (clear; induction l; done).
    simpl. by rewrite (ints_roundtrip 32 l Hl).
  - rewrite bool_decide_eq_false_2 by (by destruct l).
    assert (forallb is_str (map PStr l) = true) as -> by (clear; induction l; done).
    simpl. rewrite (mapR_map as_string PStr l) by done. done.
Qed.

(** the values an array is encoded from *)
Lemma np_ravel_flat (l : list pyval) : (forall r, PList r ∉ l) -> np_ravel l = Ok l.
Proof. destruct l as [|[] l]; try done. intros Hl. exfalso. apply (Hl l0). by left. Qed.

Lemma np_ravel_rows n (rows : list (list pyval)) :
  Forall (fun r => length r = n) rows -> np_ravel (map PList rows) = Ok (concat rows).
Proof.
  destruct rows as [|r rows]; [done|]. intros Hr. unfold np_ravel. simpl map.
  change (PList r :: map PList rows) with (map PList (r :: rows)). rewrite (mapR_map as_seq PList) by done.
  simpl mbind. pose proof Hr as [Hr0 _]%Forall_cons.
  assert (forallb (fun x => (length x =? length r)%nat) (r :: rows) = true) as Hall.
  { apply forallb_forall. intros x Hx%list_elem_of_In. rewrite Forall_forall in Hr.
    apply Nat.eqb_eq. by rewrite Hr0, (Hr x Hx). }
  simpl in Hall |- *. by rewrite Hall.
Qed.

Lemma pi_array_roundtrip (ev : event) a arr :
  a ∈ PI_ARRAYS -> wf_pi a arr -> ev !! a.1 = Some (dict_pi_array a.2.1 arr) -> encode_pi_array ev a = Ok (a.1, arr).
Proof.
  intros Ha Hwf Hev. unfold encode_pi_array, py_item. rewrite Hev.
  assert (match a.2.1 with Some n => 0 < n /\ a.2.2 = Float32 | None => a.2.2 ≠ Float32 end) as Hdecl.
  { repeat (apply elem_of_cons in Ha as [->|Ha]; [simpl; first [split; [lia|done]|done]|]).
    by apply not_elem_of_nil in Ha. }
  destruct a as [name [[n|] dtype]]; simpl in *.
  - destruct Hdecl as [Hn ->]. unfold wf_pi in Hwf. simpl in Hwf. destruct arr as [|l]; [done|].
    destruct Hwf as (Hl & rows & -> & Hrows). rewrite length_map, concat_map.
    rewrite chunk_concat; [|done| |by rewrite <-concat_map, length_map].
    2:{ rewrite Forall_map. eapply Forall_impl; [exact Hrows|]. intros r Hr. simpl. by rewrite length_map. }
    rewrite (np_ravel_rows n).
    2:{ rewrite Forall_map. eapply Forall_impl; [exact Hrows|]. intros r Hr. simpl. by rewrite length_map. }
    simpl. rewrite <-concat_map. by rewrite (floats_roundtrip _ Hl).
  - unfold wf_pi in Hwf. simpl in Hwf. destruct dtype; [..|done]; destruct arr as [l|]; try done.
    all: rewrite np_ravel_flat by (intros r Hr; apply list_elem_of_fmap in Hr as (? & ? & _); done).
    + simpl. by rewrite (ints_roundtrip 32 l Hwf).
    + simpl. by rewrite (ints_roundtrip 64 l Hwf).
Qed.

(** *** Field masks *)

Lemma trs_items_present t r s :
  trs_items (bitmask TRS_BITS (present_names t r s)) t r s =
  Ok (opt_item "t" PFloats t ++ opt_item "r" PFloats r ++ opt_item "s" PFloats s).
Proof. destruct t, r, s; reflexivity. Qed.

Definition pi_names (fields : Z) : list string :=
  (if bool_decide (pi_set fields "prototypes") then ["prototypes"] else []) ++
  map fst (filter (fun a => pi_set fields a.1) PI_ARRAYS).

Lemma pi_mask fields : (0 <= fields < 2 ^ 11)%Z -> bitmask PI_BITS (pi_names fields) = fields.
Proof.
  intros Hf.
  assert (forallb (fun n => (bitmask PI_BITS (pi_names (Z.of_nat n)) =? Z.of_nat n)%Z) (seq 0 2048) = true) as Hall
    by (by vm_compute).
  rewrite <-(Z2Nat.id fields) by lia. rewrite forallb_forall in Hall.
  apply Z.eqb_eq, (Hall (Z.to_nat fields)), in_seq. lia.
Qed.

Lemma elem_of_pi_names fields a : a ∈ PI_ARRAYS -> a.1 ∈ pi_names fields <-> pi_set fields a.1.
Proof.
  intros Ha. unfold pi_names. rewrite elem_of_app, list_elem_of_fmap. split.
  - intros [Hp|(b & -> & [Hb _]%list_elem_of_filter)]; [|done]. exfalso.
    assert (a.1 ≠ "prototypes") as Hne.
    { repeat (apply elem_of_cons in Ha as [->|Ha]; [done|]). by apply not_elem_of_nil in Ha. }
    case_bool_decide; [|by apply not_elem_of_nil in Hp]. by apply list_elem_of_singleton in Hp.
  - intros Hset. right. exists a. split; [done|]. by apply list_elem_of_filter.
Qed.

Lemma prototypes_in_pi_names fields : "prototypes" ∈ pi_names fields <-> pi_set fields "prototypes".
Proof.
  unfold pi_names. rewrite elem_of_app. split.
  - intros [Hp|Hp].
    + case_bool_decide; [done|by apply not_elem_of_nil in Hp].
    + apply list_elem_of_fmap in Hp as (a & Ha1 & [_ Ha]%list_elem_of_filter). exfalso.
      repeat (apply elem_of_cons in Ha as [->|Ha]; [done|]). by apply not_elem_of_nil in Ha.
  - intros Hset. left. rewrite bool_decide_eq_true_2 by done. by left.
Qed.

(** *** One lemma per table with loops *)

Definition event_of (t : payload) (items : list (string * pyval)) : event :=
  list_to_map (("k", PStr (kind_of_payload t)) :: items).

(** The kind of a decoded event selects the encoder of its table. *)
Lemma encode_event_of t items encode :
  dict_get (kind_of_payload t) encoders = Some encode -> encode_event (event_of t items) = encode (event_of t items).
Proof. intros He. unfold encode_event, string_item, py_item, event_of. get_simp.
  unfold mbind, result_bind. cbn [as_string]. by rewrite He. Qed.

Definition roundtrips (t : payload) : Prop := exists ev, decode_event t = Ok ev /\ encode_event ev = Ok t.

Lemma roundtrips_intro t items encode :
  dict_items t = Ok items -> dict_get (kind_of_payload t) encoders = Some encode ->
  encode (event_of t items) = Ok t -> roundtrips t.
Proof.
  intros Hi He Ht. exists (event_of t items). split; [unfold decode_event; by rewrite Hi|].
  by rewrite (encode_event_of t items encode He).
Qed.

(** Reading an item of the decoded event *)
Ltac read_items := unfold string_item, py_item, get_or, py_get, event_of; get_simp; cbn [mbind result_bind as_string as_bool as_seq as_mapping].

Lemma float_vector_opt (ev : event) fields f o :
  (f ∈ fields <-> is_Some o) -> ev !! f = (PFloats <$> o) -> Forall f32_value (default [] o) ->
  float_vector ev fields f = Ok o.
Proof.
  intros Hf He Hl. unfold float_vector, py_item. rewrite He. destruct o as [l|].
  - rewrite bool_decide_eq_true_2 by (apply Hf; by eexists). unfold PFloats. simpl. by rewrite (floats_roundtrip l Hl).
  - rewrite bool_decide_eq_false_2; [done|]. by intros [? ?]%Hf.
Qed.

Lemma elem_of_present_names t r s :
  ("t" ∈ present_names t r s <-> is_Some t) /\ ("r" ∈ present_names t r s <-> is_Some r)
  /\ ("s" ∈ present_names t r s <-> is_Some s).
Proof.
  assert (is_Some (None : option (list pyfloat)) <-> False) as Hn by (split; [by intros []|done]).
  assert (forall l : list pyfloat, is_Some (Some l) <-> True) as Hs by (intros; split; [done|by eexists]).
  destruct t, r, s; unfold present_names; simpl; rewrite ?Hn, ?Hs, ?elem_of_cons, ?elem_of_nil; naive_solver.
Qed.

Lemma xform_roundtrips prim fields t r s time :
  wf_payload (SetXformTrs prim fields t r s time) -> roundtrips (SetXformTrs prim fields t r s time).
Proof.
  cbn [wf_payload]. intros [-> Hl]. rewrite !Forall_cons in Hl. destruct Hl as (Ht & Hr & Hs & _).
  eapply roundtrips_intro; [unfold dict_items, dict_set_xform_trs; by rewrite trs_items_present|done|].
  fold (present_names t r s). unfold encode_set_xform_trs. set (ev := event_of _ _).
  assert (ev !! "t" = (PFloats <$> t) /\ ev !! "r" = (PFloats <$> r) /\ ev !! "s" = (PFloats <$> s)) as (Et & Er & Es).
  { unfold ev, event_of. split_and!; get_simp; done. }
  assert (py_get ev "time" = default PNone (PFloat <$> time)) as Htime by (unfold ev; by read_items).
  assert (string_item ev "prim" = Ok prim) as -> by (unfold ev; by read_items).
  assert (get_or ev "fields" (PList []) = PStrs (present_names t r s)) as -> by (unfold ev; by read_items).
  rewrite strings_PStrs. unfold mbind, result_bind.
  rewrite (float_vector_opt ev _ "t" t), (float_vector_opt ev _ "r" r), (float_vector_opt ev _ "s" s);
    [by rewrite (time_roundtrip time ev Htime)|..];
    try done; apply elem_of_present_names.
Qed.

(** One read at a time: an assertion on the decoded event, by computation. *)
Ltac reads lhs rhs := assert (lhs = rhs) as -> by (read_items; done).

Lemma arcs_roundtrip key mk prim arcs authored explicit items :
  key ≠ "k" -> key ≠ "prim" -> key ≠ "list_op_authored" -> key ≠ "list_op_explicit" ->
  Forall wf_arc arcs -> dict_arcs key prim arcs authored explicit = Ok items ->
  encode_arcs key mk (event_of (mk prim arcs authored explicit) items) = Ok (mk prim arcs authored explicit).
Proof.
  intros H1 H2 H3 H4 Hwf Hitems. unfold dict_arcs in Hitems. inv_bind Hitems. rename x into entries.
  injection Hitems as <-. set (ev := event_of _ _). unfold encode_arcs.
  assert (string_item ev "prim" = Ok prim) as -> by (unfold ev; read_items; done).
  assert (get_or ev "list_op_explicit" (PBool false) = PBool explicit) as -> by (unfold ev; read_items; done).
  assert (py_item ev key = Ok (PList entries)) as -> by (unfold ev; read_items; done).
  assert (forall d, get_or ev "list_op_authored" d = PBool authored) as Hauth by (intros; unfold ev; read_items; done).
  unfold mbind, result_bind. cbn [as_seq]. rewrite Hauth. cbn [truthy].
  destruct (mapR_roundtrip (dict_arc_entry explicit) (encode_arc_entry explicit) arcs) as (l & Hl & Hl' & _).
  { intros a Ha. rewrite Forall_forall in Hwf. by apply arc_roundtrip, Hwf. }
  rewrite Hl in Hitems0. injection Hitems0 as ->. by rewrite Hl'.
Qed.

Lemma set_reference_roundtrips prim arcs a e : Forall wf_arc arcs -> roundtrips (SetReference prim arcs a e).
Proof.
  intros Hwf. destruct (mapR_roundtrip (dict_arc_entry e) (encode_arc_entry e) arcs) as (l & Hl & _ & _).
  { intros x Hx. rewrite Forall_forall in Hwf. by apply arc_roundtrip, Hwf. }
  eapply roundtrips_intro; [cbn [dict_items]; unfold dict_arcs; by rewrite Hl|done|].
  apply (arcs_roundtrip "refs" SetReference); try done. unfold dict_arcs. by rewrite Hl.
Qed.

Lemma set_payload_roundtrips prim arcs a e : Forall wf_arc arcs -> roundtrips (SetPayload prim arcs a e).
Proof.
  intros Hwf. destruct (mapR_roundtrip (dict_arc_entry e) (encode_arc_entry e) arcs) as (l & Hl & _ & _).
  { intros x Hx. rewrite Forall_forall in Hwf. by apply arc_roundtrip, Hwf. }
  eapply roundtrips_intro; [cbn [dict_items]; unfold dict_arcs; by rewrite Hl|done|].
  apply (arcs_roundtrip "payloads" SetPayload); try done. unfold dict_arcs. by rewrite Hl.
Qed.

Lemma string_pairs_roundtrip (l : list (string * string)) : NoDup (map fst l) ->
  mapR (fun kv : string * pyval => s ← as_string kv.2; Ok (kv.1, s)) (dict_of (map (fun kv => (kv.1, PStr kv.2)) l))
  = Ok l.
Proof.
  intros Hl. rewrite dict_of_NoDup by (by rewrite map_map). apply mapR_map. by intros [k v] _.
Qed.

Lemma variants_roundtrips prim selections :
  NoDup (map fst selections) -> roundtrips (SetVariantSelections prim selections).
Proof.
  intros Hs. eapply roundtrips_intro; [done..|]. unfold encode_set_variant_selections. read_items.
  by rewrite (string_pairs_roundtrip selections Hs).
Qed.

Lemma connections_roundtrips prim connections disconnections :
  NoDup (map local_attr connections) -> roundtrips (SetConnectableConnection prim connections disconnections).
Proof.
  intros Hc. eapply roundtrips_intro; [done..|]. unfold encode_set_connectable_connection. set (ev := event_of _ _).
  assert (string_item ev "prim" = Ok prim) as -> by (unfold ev; read_items; done).
  set (f := fun c => (local_attr c, PDict [("source_prim", PStr (source_prim c)); ("source_attr", PStr (source_attr c))])).
  assert (get_or ev "connections" (PDict []) = PDict (map f connections)) as ->.
  { unfold ev. read_items. rewrite dict_of_NoDup; [done|]. by rewrite map_map. }
  assert (get_or ev "disconnections" (PList []) = PStrs disconnections) as ->.
  { unfold ev. read_items. case_bool_decide; [by subst|]. by get_simp. }
  rewrite strings_PStrs. unfold mbind, result_bind. cbn [as_mapping].
  rewrite (mapR_map encode_connection f); [done|]. by intros [] _.
Qed.

Lemma inputs_roundtrips prim info_id inputs time :
  NoDup (map in_name inputs) -> Forall wf_input inputs -> roundtrips (SetConnectableInput prim info_id inputs time).
Proof.
  intros Hn Hwf. eapply roundtrips_intro; [done..|]. unfold encode_set_connectable_input. set (ev := event_of _ _).
  assert (string_item ev "prim" = Ok prim) as -> by (unfold ev; read_items; done).
  assert (string_item ev "info_id" = Ok info_id) as -> by (unfold ev; read_items; done).
  assert (py_get ev "time" = default PNone (PFloat <$> time)) as Htime by (unfold ev; read_items; done).
  set (types := map (fun i => (in_name i, PStr (in_type i))) inputs).
  assert (NoDup (map fst types)) as Htn by (unfold types; by rewrite map_map).
  assert (get_or ev "input_types" (PDict []) = PDict types) as ->.
  { unfold ev. read_items. by rewrite dict_of_NoDup. }
  set (value := fun i => default PNone (dict_input_value <$> in_value i)).
  assert (omap (fun i => v ← in_value i; Some (in_name i, dict_input_value v)) inputs
          = map (fun i => (in_name i, value i)) inputs) as Hvalues.
  { clear -Hwf. induction Hwf as [|i l Hi _ IH]; [done|]. simpl. unfold wf_input, value in *.
    destruct (in_value i); [|done]. simpl. by f_equal. }
  assert (get_or ev "inputs" (PDict []) = PDict (map (fun i => (in_name i, value i)) inputs)) as ->.
  { unfold ev. read_items. cbn [default from_option]. rewrite Hvalues, dict_of_NoDup; [done|]. by rewrite map_map. }
  unfold mbind, result_bind. cbn [as_mapping].
  rewrite mapR_map; [by rewrite (time_roundtrip time ev Htime)|]. intros i Hi. cbn [fst snd].
  assert (item_get_or types (in_name i) (PStr "") = PStr (in_type i)) as ->.
  { unfold item_get_or. rewrite (elem_dict_get _ _ (PStr (in_type i))); [done..|].
    unfold types. apply list_elem_of_fmap. by exists i. }
  cbn [as_string]. rewrite Forall_forall in Hwf. destruct (input_roundtrip i (Hwf i Hi)) as (v & Hv & He).
  unfold value. by rewrite Hv.
Qed.

Lemma sublayers_roundtrips prim generation revision entries :
  enforce 0 (2 ^ 64) revision = Ok revision -> Forall (fun e => wf_opt (sl_key e)) entries ->
  roundtrips (SetSublayers prim generation revision entries).
Proof.
  intros Hr Hwf. eapply roundtrips_intro; [done..|]. unfold encode_set_sublayers. set (ev := event_of _ _).
  assert (string_item ev "prim" = Ok prim) as -> by (unfold ev; read_items; done).
  assert (string_item ev "generation" = Ok generation) as -> by (unfold ev; read_items; done).
  assert (get_or ev "revision" (PInt 0) = PInt revision) as -> by (unfold ev; read_items; done).
  assert (get_or ev "sublayers" (PList []) = PList (map dict_sublayer_entry entries)) as ->
    by (unfold ev; read_items; done).
  unfold mbind, result_bind. cbn [as_seq].
  rewrite mapR_map; [by rewrite Hr|]. intros [path off sc key] Hin. rewrite Forall_forall in Hwf.
  specialize (Hwf _ Hin). simpl in Hwf. unfold encode_sublayer_entry, dict_sublayer_entry, item_get, item_get_or.
  cbn [as_mapping mbind result_bind sl_path sl_offset sl_scale sl_key app]. unfold mbind, result_bind. get_simp.
  cbn [default from_option as_string py_float]. by rewrite (opt_string_nonempty key Hwf).
Qed.

Lemma gprim_roundtrips prim attrs meta interp time :
  wf_payload (SetGprimAttrs prim attrs meta interp time) -> roundtrips (SetGprimAttrs prim attrs meta interp time).
Proof.
  cbn [wf_payload]. intros (Hna & Hnm & Hni & Ha & Hm).
  destruct (mapR_roundtrip (fun na : string * attr_value => v ← attr_value_to_python na.2; Ok (na.1, v))
    (fun nv : string * pyval => av ← encode_attr_value nv.2; Ok (nv.1, av)) attrs) as (vs & Hvs & Hvs' & _).
  { intros [n av] Hin. rewrite Forall_forall in Ha. destruct (attr_roundtrip av (Ha _ Hin)) as (v & Hv & Hv').
    exists (n, v). simpl. by rewrite Hv, Hv'. }
  assert (map fst vs = map fst attrs) as Hkeys.
  { apply mapR_Ok in Hvs. clear -Hvs. induction Hvs as [|[n av] [n' v] ?? Hx _ IH]; [done|].
    simpl in Hx |- *. apply bind_Ok in Hx as (? & _ & [= <- _]). by f_equal. }
  eapply roundtrips_intro; [unfold dict_items, dict_set_gprim_attrs; by rewrite Hvs|done|].
  unfold encode_set_gprim_attrs. set (ev := event_of _ _).
  assert (string_item ev "prim" = Ok prim) as -> by (unfold ev; read_items; done).
  assert (get_or ev "attrs" (PDict []) = PDict vs) as ->.
  { unfold ev. read_items. by rewrite dict_of_NoDup by (by rewrite Hkeys). }
  set (f := fun m => (pv_name m, PDict (("typeName", PStr (pv_type m)) ::
                                        opt_item "interpolation" PStr (nonempty (pv_interpolation m))))).
  assert (get_or ev "primvar_meta" (PDict []) = PDict (map f meta)) as ->.
  { unfold ev. repeat case_bool_decide; read_items; destruct meta; try done;
      rewrite dict_of_NoDup by (by rewrite map_map); done. }
  assert (get_or ev "attr_interp" (PDict []) = PDict (dict_of (map (fun kv => (kv.1, PStr kv.2)) interp))) as ->.
  { unfold ev. repeat case_bool_decide; read_items; subst; done. }
  assert (py_get ev "time" = default PNone (PFloat <$> time)) as Htime
    by (unfold ev; repeat case_bool_decide; read_items; done).
  unfold mbind, result_bind in Hvs' |- *. cbn [as_mapping]. rewrite Hvs'.
  rewrite (mapR_map encode_primvar_meta f).
  - pose proof (string_pairs_roundtrip interp Hni) as Hi. unfold mbind, result_bind in Hi. rewrite Hi.
    by rewrite (time_roundtrip time ev Htime).
  - intros [name type i] Hin. rewrite Forall_forall in Hm. specialize (Hm _ Hin). simpl in Hm.
    unfold encode_primvar_meta, f, item_get, item_get_or. unfold mbind, result_bind.
    cbn [fst snd as_mapping pv_name pv_type pv_interpolation]. get_simp. cbn [default from_option as_string].
    by rewrite (opt_string_nonempty i Hm).
Qed.

Lemma omap_cons {A B} (h : A -> option B) x l :
  omap h (x :: l) = match h x with Some y => y :: omap h l | None => omap h l end.
Proof. done. Qed.

(** Reading the authored keys of a list of known ones, in its order *)
Lemma omap_dict_get {A B} (g : A -> B) (ks : list string) (l : list (string * A)) :
  NoDup (map fst l) -> map fst l = filter (fun k => k ∈ map fst l) ks ->
  omap (fun k => f ← dict_get k l; Some (k, g f)) ks = map (fun kv => (kv.1, g kv.2)) l.
Proof.
  intros Hnd Hks. set (h := fun k => f ← dict_get k l; Some (k, g f)).
  assert (omap h ks = omap h (filter (fun k => k ∈ map fst l) ks)) as ->.
  { clear Hks. induction ks as [|k ks IH]; [done|]. rewrite filter_cons, omap_cons. case_decide as Hk.
    - by rewrite omap_cons, IH.
    - unfold h at 1. apply dict_get_None in Hk. rewrite Hk. apply IH. }
  rewrite <-Hks. clear Hks.
  assert (forall l', (forall kv, kv ∈ l' -> kv ∈ l) -> omap h (map fst l') = map (fun kv => (kv.1, g kv.2)) l')
    as Hgen; [|by apply Hgen].
  induction l' as [|[k v] l' IH]; intros Hsub; [done|]. simpl map. rewrite omap_cons. unfold h at 1.
  rewrite (elem_dict_get k l v) by (try done; apply Hsub; by left). simpl. f_equal. apply IH. set_solver.
Qed.

Lemma dict_get_map {A B} (g : A -> B) (l : list (string * A)) k :
  dict_get k (map (fun kv => (kv.1, g kv.2)) l) = (g <$> dict_get k l).
Proof. induction l as [|[k' v] l IH]; simpl; [done|]. by case_bool_decide. Qed.

Lemma stage_roundtrips meta : wf_payload (SetStageMetadata meta) -> roundtrips (SetStageMetadata meta).
Proof.
  destruct meta as [numeric up]. cbn [wf_payload sm_numeric sm_upAxis]. intros [Hup Hkeys].
  assert (NoDup (map fst numeric)) as Hnd.
  { rewrite Hkeys. apply NoDup_filter. apply (bool_decide_unpack (NoDup STAGE_META_NUMERIC)). by vm_compute. }
  eapply roundtrips_intro; [unfold dict_items, dict_set_stage_metadata; cbn [sm_numeric sm_upAxis]; by rewrite (omap_dict_get PFloat) by done|done|].
  unfold encode_set_stage_metadata. set (ev := event_of _ _).
  assert (forall k, k ∈ STAGE_META_NUMERIC -> ev !! k = (PFloat <$> dict_get k numeric)) as Hev.
  { intros k Hk. unfold ev, event_of. rewrite list_to_map_get.
    assert ("k" ≠ k /\ "upAxis" ≠ k) as [H1 H2].
    { repeat (apply elem_of_cons in Hk as [->|Hk]; [done|]). by apply not_elem_of_nil in Hk. }
    rewrite dict_get_ne by done. rewrite dict_get_app, dict_get_map.
    destruct (dict_get k numeric); [done|]. simpl. by rewrite dict_get_opt_last_ne. }
  assert (py_get ev "upAxis" = default PNone (PStr <$> nonempty up)) as ->.
  { unfold py_get, ev, event_of. f_equal. rewrite list_to_map_get, dict_get_ne by done.
    rewrite dict_get_app, dict_get_map, (proj2 (dict_get_None "upAxis" numeric)); [by rewrite dict_get_opt_last|].
    rewrite Hkeys. intros [_ Hin]%list_elem_of_filter.
    repeat (apply elem_of_cons in Hin as [?|Hin]; [done|]). by apply not_elem_of_nil in Hin. }
  rewrite (opt_string_nonempty up Hup). unfold mbind, result_bind.
  assert (present_in ev STAGE_META_NUMERIC = map fst numeric) as ->.
  { rewrite Hkeys. unfold present_in. apply list_filter_iff'. intros k Hk. rewrite (Hev k Hk).
    rewrite fmap_is_Some. split.
    - intros [v Hv]. apply dict_get_elem in Hv. apply list_elem_of_fmap. by exists (k, v).
    - intros Hin. destruct (dict_get k numeric) eqn:E; [by eexists|]. by apply dict_get_None in E. }
  rewrite (mapR_map _ fst); [done|]. intros [k v] Hin. cbn [fst].
  assert (k ∈ STAGE_META_NUMERIC) as Hk.
  { assert (k ∈ map fst numeric) as Hk by (apply list_elem_of_fmap; by exists (k, v)).
    rewrite Hkeys in Hk. by apply list_elem_of_filter in Hk as [_ ?]. }
  unfold py_item. rewrite (Hev k Hk), (elem_dict_get k numeric v) by done. done.
Qed.

Lemma point_instancer_roundtrips prim fields prototypes arrays time :
  wf_payload (SetPointInstancer prim fields prototypes arrays time) ->
  roundtrips (SetPointInstancer prim fields prototypes arrays time).
Proof.
  cbn [wf_payload]. intros (Hf & Hp & Ha). set (set_ := filter (fun a => pi_set fields a.1) PI_ARRAYS) in *.
  eapply roundtrips_intro; [done..|]. fold set_. fold (pi_names fields).
  set (proto := bool_decide (pi_set fields "prototypes")).
  set (values := map (fun a => (a.1, dict_pi_array a.2.1 (default (PIInts []) (dict_get a.1 arrays)))) set_).
  assert ((if proto then ["prototypes"] else []) ++ map fst set_ = pi_names fields) as Hnames by done.
  rewrite Hnames. set (ev := event_of _ _). unfold encode_set_point_instancer.
  assert (NoDup (map fst PI_ARRAYS)) as HndA by (apply (bool_decide_unpack (NoDup (map fst PI_ARRAYS))); by vm_compute).
  assert (map fst values = map fst set_) as Hvk by (unfold values; by rewrite map_map).
  assert (forall k, k ∈ ["k"; "prim"; "prototypes"; "fields"; "time"] -> dict_get k values = None) as Hvnone.
  { intros k Hk. apply dict_get_None. rewrite Hvk. intros ([n a] & -> & [_ Hin]%list_elem_of_filter)%list_elem_of_fmap.
    repeat (apply elem_of_cons in Hin as [[= -> ->]|Hin]; [cbn in Hk; set_solver|]). by apply not_elem_of_nil in Hin. }
  assert (string_item ev "prim" = Ok prim) as -> by (unfold ev; read_items; done).
  assert (ev !! "fields" = Some (PStrs (pi_names fields))) as Efields.
  { unfold ev, event_of. destruct proto; get_simp; rewrite dict_get_app, Hvnone by set_solver; by get_simp. }
  assert (py_get ev "time" = default PNone (PFloat <$> time)) as Htime.
  { unfold py_get, ev, event_of. destruct proto; get_simp; rewrite dict_get_app, Hvnone by set_solver; by get_simp. }
  assert (get_or ev "fields" (PList []) = PStrs (pi_names fields)) as -> by (unfold get_or; by rewrite Efields).
  rewrite strings_PStrs. unfold mbind, result_bind.
  assert ((if bool_decide ("prototypes" ∈ pi_names fields)
           then match py_item ev "prototypes" with Ok v => strings v | Err e => Err e end else Ok []) = Ok prototypes) as ->.
  { destruct (decide (pi_set fields "prototypes")) as [Hset|Hset].
    - rewrite bool_decide_eq_true_2 by (by apply prototypes_in_pi_names).
      unfold py_item, ev, event_of, proto. rewrite (bool_decide_eq_true_2 (pi_set fields "prototypes")) by done.
      get_simp. by rewrite strings_PStrs.
    - rewrite bool_decide_eq_false_2 by (by rewrite prototypes_in_pi_names). by rewrite Hp. }
  assert (filter (fun a => a.1 ∈ pi_names fields) PI_ARRAYS = set_) as ->.
  { apply list_filter_iff'. intros a Hin. by apply elem_of_pi_names. }
  assert (mapR (encode_pi_array ev) set_ = Ok arrays) as ->.
  2:{ by rewrite (time_roundtrip time ev Htime), pi_mask. }
  assert (NoDup (map fst set_)) as Hsnd.
  { unfold set_. clear -HndA. induction PI_ARRAYS as [|a l IH]; [constructor|]. apply NoDup_cons in HndA as [Hn Hl].
    rewrite filter_cons. case_decide; [|by apply IH]. simpl. constructor; [|by apply IH].
    intros (b & Hb & [_ Hin]%list_elem_of_filter)%list_elem_of_fmap. apply Hn, list_elem_of_fmap. by exists b. }
  assert (map fst arrays = map fst set_) as Hak.
  { clear -Ha. induction Ha as [|? ? ? ? [? _] _ IH]; [done|]. simpl. by f_equal. }
  apply mapR_Ok, Forall2_same_length_lookup_2; [by rewrite <-(Forall2_length _ _ _ Ha)|].
  intros i a [n arr] Hia Hin. destruct (Forall2_lookup_lr _ _ _ _ _ _ Ha Hia Hin) as [Hn Hw]. simpl in Hn, Hw. subst n.
  assert (a ∈ set_) as Haset by (by eapply list_elem_of_lookup_2).
  assert (dict_get a.1 arrays = Some arr) as Hget.
  { apply elem_dict_get; [by rewrite Hak|]. by eapply list_elem_of_lookup_2. }
  apply pi_array_roundtrip; [by apply list_elem_of_filter in Haset as [_ ?]|done|].
  assert (dict_get a.1 values = Some (dict_pi_array a.2.1 arr)) as Hv.
  { apply elem_dict_get; [by rewrite Hvk|]. unfold values. apply list_elem_of_fmap. exists a.
    by rewrite Hget. }
  assert (forall k, k ∈ ["k"; "prim"; "prototypes"; "fields"; "time"] -> k ≠ a.1) as Hne.
  { intros k Hk ->. by rewrite (Hvnone _ Hk) in Hv. }
  unfold ev, event_of. rewrite list_to_map_get. cbn [app]. rewrite !dict_get_ne by (apply Hne; set_solver).
  rewrite !dict_get_app, Hv. destruct proto; [|done]. by rewrite dict_get_ne by (apply Hne; set_solver).
Qed.

(** *** Tables without loops *)

Lemma ensure_prim_roundtrips prim tn api : roundtrips (EnsurePrim prim tn api).
Proof.
  eapply roundtrips_intro; [done..|]. unfold encode_ensure_prim. set (ev := event_of _ _).
  assert (string_item ev "prim" = Ok prim) as -> by (unfold ev; read_items; done).
  assert (string_item ev "typeName" = Ok tn) as -> by (unfold ev; read_items; done).
  assert (py_get ev "api_schemas" = (if bool_decide (api = []) then PNone else PStrs api)) as ->
    by (unfold ev; case_bool_decide; read_items; done).
  case_bool_decide as Hapi; [by rewrite Hapi|]. unfold mbind, result_bind.
  assert (truthy (PStrs api) = true) as -> by (by destruct api). by rewrite strings_PStrs.
Qed.

Lemma visibility_roundtrips prim visible time : roundtrips (SetVisibility prim visible time).
Proof.
  eapply roundtrips_intro; [done..|]. unfold encode_set_visibility. set (ev := event_of _ _).
  assert (py_get ev "time" = default PNone (PFloat <$> time)) as Htime by (unfold ev; read_items; done).
  rewrite (time_roundtrip time ev Htime). unfold ev. by read_items.
Qed.

Lemma material_roundtrips prim path purpose : wf_opt purpose -> roundtrips (SetMaterialBinding prim path purpose).
Proof.
  intros Hp. eapply roundtrips_intro; [done..|]. unfold encode_set_material_binding. set (ev := event_of _ _).
  assert (opt_string (get_or ev "material_purpose" (PStr "")) = Ok purpose) as ->.
  { unfold ev. read_items. destruct purpose as [[|]|]; done. }
  unfold ev. by read_items.
Qed.

Lemma sdf_spec_roundtrips prim sp kind fields fragment removed :
  kind ∈ map snd SDF_SPEC_KIND_TO_FB -> roundtrips (SetSdfSpecFields prim sp kind fields fragment removed).
Proof.
  intros Hk. destruct (to_fb_from_fb SDF_SPEC_KIND_TO_FB kind) as (k & Hk1 & Hk2);
    [apply (bool_decide_unpack _); by vm_compute..|done|].
  eapply roundtrips_intro; [unfold dict_items, dict_set_sdf_spec_fields; by rewrite Hk1|done|].
  unfold encode_set_sdf_spec_fields. set (ev := event_of _ _).
  assert (strings (get_or ev "fields" (PList [])) = Ok fields) as ->.
  { unfold ev. read_items. simpl default. apply strings_PStrs. }
  assert (string_item ev "spec_kind" = Ok k) as -> by (unfold ev; read_items; done).
  unfold ev. read_items. unfold mbind, result_bind. by rewrite Hk2.
Qed.

Lemma erase_roundtrips prim sp times : roundtrips (EraseTimeSamples prim sp times).
Proof.
  eapply roundtrips_intro; [done..|]. unfold encode_erase_time_samples. set (ev := event_of _ _).
  assert (py_item ev "times" = Ok (PFloats times)) as -> by (unfold ev; read_items; done).
  unfold ev. read_items. unfold mbind, result_bind, PFloats. cbn [as_seq]. by rewrite mapR_map.
Qed.

(** Every well-formed table round-trips. *)
Lemma wf_payload_roundtrips t : wf_payload t -> roundtrips t.
Proof.
  intros Hwf. destruct t.
  all: try by (eapply roundtrips_intro; [done..|];
    unfold encode_ensure_xform_ops, encode_delete_prim, encode_deactivate_prim, encode_rename_prim,
      encode_load_payload, encode_unload_payload, encode_set_instanceable, encode_replace_sdf_layer_content;
    read_items).
  - apply ensure_prim_roundtrips.
  - by apply xform_roundtrips.
  - apply visibility_roundtrips.
  - by apply gprim_roundtrips.
  - by apply set_reference_roundtrips.
  - by apply set_payload_roundtrips.
  - by apply variants_roundtrips.
  - by apply material_roundtrips.
  - by apply inputs_roundtrips; destruct Hwf.
  - by apply connections_roundtrips.
  - by apply stage_roundtrips.
  - by apply point_instancer_roundtrips.
  - by apply sdf_spec_roundtrips.
  - by apply sublayers_roundtrips; destruct Hwf.
  - apply erase_roundtrips.
Qed.

(** ** What the encoders write is well-formed *)

(** A Python dictionary has each key once. *)
Definition dicts_ok (ev : event) : Prop :=
  map_Forall (fun _ v => match v with PDict d => NoDup (map fst d) | _ => True end) ev.

(** A list of lists of numbers has rows of one length. *)
Definition rectangular_value (v : pyval) : bool :=
  match v with
  | PList (first :: rows) =>
      match nested_numbers first with
      | Some n => forallb (fun r => match r with PList row => (length row =? n)%nat | _ => false end) (first :: rows)
      | None => true
      end
  | _ => true
  end.
Definition rectangular (ev : event) : Prop :=
  match ev !! "attrs" with Some (PDict d) => Forall (fun nv => rectangular_value nv.2 = true) d | _ => True end.

Lemma pack_f32_scalar x y : pack_f32 x = Ok y -> f32_scalar y.
Proof.
  intros Hy. assert (y = f32 x) as ->.
  { unfold pack_f32 in Hy. destruct x, (f32 _); congruence. }
  pose proof (f32_idem x) as Hid. unfold f32_scalar, pack_f32. destruct (f32 x); by rewrite Hid.
Qed.

Lemma np_f32_value v f : np_f32 v = Ok f -> f32_value f.
Proof.
  unfold f32_value. destruct v; simpl; rewrite ?bind_Ok; intros Hv.
  all: try (destruct Hv as (? & _ & Hv)). all: injection Hv as <-; apply f32_idem.
Qed.

Lemma np_f32_values l fs : mapR np_f32 l = Ok fs -> Forall f32_value fs.
Proof.
  intros Hl%mapR_Ok. induction Hl as [|v f ? ? Hv _ IH]; [done|]. constructor; [by eapply np_f32_value|done].
Qed.

Lemma np_range_value bits z0 z : np_range bits z0 = Ok z -> int_value bits z.
Proof.
  unfold int_value, np_int. intros Hz. pose proof Hz as Hz'. unfold np_range in Hz'.
  apply bind_Ok in Hz' as (_ & _ & [= ->]). done.
Qed.

Lemma np_int_value bits v z : np_int bits v = Ok z -> (1 < bits)%Z -> int_value bits z.
Proof.
  intros Hv Hb. destruct v as [|b|z'|[q|b|]|str|l|d]; unfold np_int in Hv; try done;
    try by eapply np_range_value.
  all: try by (apply bind_Ok in Hv as (? & _ & Hv); eapply np_range_value).
  injection Hv as <-. unfold int_value, np_int, np_range.
  assert (2 <= 2 ^ (bits - 1))%Z as H2.
  { change 2%Z with (2 ^ 1)%Z at 1. apply Z.pow_le_mono_r; lia. }
  rewrite (proj2 (raise_if_Ok _ _ ())); [done|]. apply negb_false_iff, andb_true_iff.
  rewrite Z.leb_le, Z.ltb_lt. destruct b; lia.
Qed.

Lemma np_int_values bits l zs : mapR (np_int bits) l = Ok zs -> (1 < bits)%Z -> Forall (int_value bits) zs.
Proof.
  intros Hl%mapR_Ok Hb. induction Hl as [|v f ? ? Hv _ IH]; [done|]. constructor; [by eapply np_int_value|done].
Qed.

Lemma opt_string_wf v o : opt_string v = Ok o -> wf_opt o.
Proof.
  unfold opt_string, wf_opt. destruct (truthy v) eqn:Ht; [|by intros [= <-]]. rewrite bind_Ok.
  intros (s & Hs & [= <-]). destruct v; try done. injection Hs as ->. by destruct s.
Qed.

Lemma mapR_Forall {A B} (f : A -> result B) (P : B -> Prop) l k :
  mapR f l = Ok k -> (forall x y, x ∈ l -> f x = Ok y -> P y) -> Forall P k.
Proof.
  intros Hl%mapR_Ok Hf. induction Hl as [|x y l k Hx _ IH]; [done|]. constructor; [by eapply Hf; [left|]|].
  apply IH. intros; eapply Hf; [by right|done].
Qed.

Lemma mapR_Forall2 {A B} (f : A -> result B) (Q : A -> B -> Prop) l k :
  mapR f l = Ok k -> (forall x y, x ∈ l -> f x = Ok y -> Q x y) -> Forall2 Q l k.
Proof.
  intros Hl%mapR_Ok Hf. induction Hl as [|x y l k Hx _ IH]; [done|]. constructor; [by eapply Hf; [left|]|].
  apply IH. intros; eapply Hf; [by right|done].
Qed.

Lemma mapR_keys {A B} (f : string * A -> result B) (key : B -> string) l k :
  mapR f l = Ok k -> (forall x y, f x = Ok y -> key y = x.1) -> map key k = map fst l.
Proof. intros Hl%mapR_Ok Hf. induction Hl as [|x y l k Hx _ IH]; [done|]. simpl. f_equal; [by apply Hf|done]. Qed.

Lemma dicts_ok_get (ev : event) k d : dicts_ok ev -> as_mapping (get_or ev k (PDict [])) = Ok d -> NoDup (map fst d).
Proof.
  intros Hev. unfold get_or. destruct (ev !! k) as [v|] eqn:E; simpl; [|intros [= <-]; constructor].
  specialize (Hev k v E). simpl in Hev. destruct v; try done. by intros [= <-].
Qed.

Lemma mapR_nonnil {A B} (f : A -> result B) l k : mapR f l = Ok k -> l ≠ [] -> k ≠ [].
Proof. intros Hl%mapR_length Hne ->. by destruct l. Qed.

Lemma rows_of_one {A} (l : list A) : rows_of 1 l.
Proof.
  exists (map (fun x => [x]) l). split; [by induction l as [|x l IH]; simpl; [|f_equal]|].
  rewrite Forall_map. by apply Forall_true.
Qed.

Lemma flatten_rows_width n l rows :
  forallb (fun r => match r with PList row => (length row =? n)%nat | _ => false end) l = true ->
  mapR flatten_row l = Ok rows -> Forall (fun r => length r = n) rows.
Proof.
  intros Hl Hr. eapply mapR_Forall; [exact Hr|]. intros v row Hv Hrow.
  apply list_elem_of_In in Hv. rewrite forallb_forall in Hl. specialize (Hl v Hv). destruct v as [| | | | |x|]; try done.
  apply Nat.eqb_eq in Hl. unfold flatten_row in Hrow. simpl in Hrow. apply mapR_length in Hrow. lia.
Qed.

Lemma nested_numbers_pos v n : nested_numbers v = Some n -> 1 ≤ n.
Proof. destruct v as [| | | | |[|[] row]|]; simpl; try done; intros [= <-]; simpl; lia. Qed.

Lemma encode_attr_list_wf l av :
  rectangular_value (PList l) = true -> encode_attr_value_list l = Ok av -> wf_attr av.
Proof.
  intros Hrect. destruct l as [|first l]; [intros [= <-]; by eexists|].
  assert (forall av', encode_attr_value_list (first :: l) = Ok av' -> (forall z, first ≠ PInt z) ->
    (forall f, first ≠ PFloat f) -> wf_attr av') as Hrest.
  { intros av' Hav Hi Hf.
    assert (match nested_numbers first with
            | Some stride => rows ← mapR flatten_row (first :: l); _ ← raise_if (255 <? stride)%nat TypeError;
                             Ok (AFloatArray (map f32 (concat rows)) stride)
            | None => Ok (ANestedList (dumps (PList (first :: l)))) end = Ok av') as Hav'.
    { destruct first; try done; naive_solver. }
    clear Hav. unfold rectangular_value in Hrect. destruct (nested_numbers first) as [n|] eqn:Hn.
    - apply bind_Ok in Hav' as (rows & Hrows & (_ & Hs%raise_if_Ok%Nat.ltb_ge & [= <-])%bind_Ok).
      pose proof (flatten_rows_width n _ _ Hrect Hrows) as Hw. pose proof (nested_numbers_pos _ _ Hn) as Hpos.
      apply mapR_nonnil in Hrows; [|done]. split_and!; [|by apply Forall_map, Forall_true; intros; apply f32_idem|done..|].
      + destruct rows as [|r rows]; [done|]. apply Forall_cons in Hw as [Hr _]. simpl. rewrite map_app.
        destruct r; [simpl in Hr; lia|done].
      + exists (map (map f32) rows). split; [by rewrite concat_map|]. rewrite Forall_map.
        eapply Forall_impl; [exact Hw|]. intros r Hr. by rewrite length_map.
    - injection Hav' as <-. exists (PList (first :: l)). split; [done|].
      assert (negb (bool_decide (is_Some (nested_numbers first))) = true) as Hj by (by rewrite Hn, bool_decide_eq_false_2 by (by intros [])).
      destruct first; try done; naive_solver. }
  destruct first as [| |z|f| | |]; try by (intros Hav; eapply Hrest).
  - unfold encode_attr_value_list. intros (k & Hk & [= <-])%bind_Ok. split; [by eapply mapR_nonnil|].
    by eapply np_int_values.
  - unfold encode_attr_value_list. intros (k & Hk & [= <-])%bind_Ok.
    split_and!; [by eapply mapR_nonnil|by eapply np_f32_values|done|lia|apply rows_of_one].
Qed.

Lemma encode_attr_wf v av : rectangular_value v = true -> encode_attr_value v = Ok av -> wf_attr av.
Proof.
  intros Hrect. destruct v as [|b|z|f|s|l|d]; unfold encode_attr_value.
  - intros [= <-]. by eexists.
  - by intros [= <-].
  - intros (z' & Hz & [= <-])%bind_Ok. pose proof Hz as Hz'. unfold int32, enforce in Hz'.
    apply bind_Ok in Hz' as (_ & _ & [= <-]). done.
  - intros (f' & Hf & [= <-])%bind_Ok. by eapply pack_f32_scalar.
  - by intros [= <-].
  - by apply encode_attr_list_wf.
  - intros [= <-]. by eexists.
Qed.

(** *** Masks of field names *)

Definition bit_of (bits : list (string * Z)) (f : string) : Z := default 0%Z (dict_get f bits).

Lemma bitmask_snoc bits fields f : bitmask bits (fields ++ [f]) = Z.lor (bitmask bits fields) (bit_of bits f).
Proof. unfold bitmask. by rewrite foldl_app. Qed.

Lemma testbit_bitmask bits fields i :
  Z.testbit (bitmask bits fields) i = true <-> exists f, f ∈ fields /\ Z.testbit (bit_of bits f) i = true.
Proof.
  induction fields as [|f fields IH] using rev_ind.
  { unfold bitmask. simpl. rewrite Z.testbit_0_l. set_solver. }
  rewrite bitmask_snoc, Z.lor_spec, orb_true_iff, IH. setoid_rewrite elem_of_app. setoid_rewrite elem_of_cons.
  split; [intros [(g & ? & ?)|?]; eauto 7|]. intros (g & [?|[->|?%not_elem_of_nil]] & ?); eauto.
Qed.

(** Only the known names count. *)
Lemma bitmask_ext bits fs fs' :
  (forall f, is_Some (dict_get f bits) -> f ∈ fs <-> f ∈ fs') -> bitmask bits fs = bitmask bits fs'.
Proof.
  intros Hf. apply Z.bits_inj. intros i. apply eq_true_iff_eq. rewrite !testbit_bitmask.
  assert (forall f, Z.testbit (bit_of bits f) i = true -> is_Some (dict_get f bits)) as Hk.
  { intros f. unfold bit_of. destruct (dict_get f bits); [by eexists|]. by rewrite Z.testbit_0_l. }
  split; intros (f & Hin & Ht); exists f; (split; [|done]); apply (Hf f (Hk f Ht)); done.
Qed.

Lemma bitmask_range bits n fields : (0 <= n)%Z ->
  Forall (fun b => 0 <= b.2 < 2 ^ n)%Z bits -> (0 <= bitmask bits fields < 2 ^ n)%Z.
Proof.
  intros Hn Hbits. assert (forall f, 0 <= bit_of bits f < 2 ^ n)%Z as Hb.
  { intros f. unfold bit_of. destruct (dict_get f bits) as [b|] eqn:E; [|simpl; pose proof (Z.pow_pos_nonneg 2 n); lia].
    apply dict_get_elem in E. rewrite Forall_forall in Hbits. by apply (Hbits (f, b)). }
  induction fields as [|f fields IH] using rev_ind; [unfold bitmask; simpl; pose proof (Z.pow_pos_nonneg 2 n); lia|].
  rewrite bitmask_snoc. specialize (Hb f). split; [apply Z.lor_nonneg; lia|].
  assert (0 < 2 ^ n)%Z as Hp by (apply Z.pow_pos_nonneg; lia).
  assert (forall x, 0 <= x -> x < 2 ^ n <-> Z.shiftr x n = 0)%Z as Hsh.
  { intros x Hx. rewrite Z.shiftr_div_pow2 by done. rewrite Z.div_small_iff by lia. lia. }
  apply Hsh; [apply Z.lor_nonneg; lia|]. rewrite Z.shiftr_lor.
  rewrite (proj1 (Hsh _ (proj1 IH)) (proj2 IH)), (proj1 (Hsh _ (proj1 Hb)) (proj2 Hb)). done.
Qed.

Lemma land_bitmask bits fields b :
  Z.land (bitmask bits fields) b ≠ 0%Z <-> exists f, f ∈ fields /\ Z.land (bit_of bits f) b ≠ 0%Z.
Proof.
  induction fields as [|f fields IH] using rev_ind.
  { unfold bitmask. simpl. split; [done|]. by intros (? & ?%not_elem_of_nil & _). }
  rewrite bitmask_snoc, Z.land_lor_distr_l, Z.lor_eq_0_iff. setoid_rewrite elem_of_app. setoid_rewrite elem_of_cons.
  split.
  - intros Hne. destruct (decide (Z.land (bitmask bits fields) b = 0%Z)) as [E|E].
    + exists f. split; [by right; left|]. tauto.
    + apply IH in E as (g & ? & ?). exists g. auto.
  - intros (g & [Hg|[->|?%not_elem_of_nil]] & Hne); [|tauto|done].
    assert (Z.land (bitmask bits fields) b ≠ 0%Z) by (apply IH; eauto). tauto.
Qed.

(** Distinct known names have disjoint bits. *)
Lemma pi_bits_disjoint f g : g ∈ POINT_INSTANCER_FIELDS -> Z.land (bit_of PI_BITS f) (bit_of PI_BITS g) ≠ 0%Z <-> f = g.
Proof.
  intros Hg. destruct (decide (f ∈ POINT_INSTANCER_FIELDS)) as [Hf|Hf].
  - assert (forallb (fun f => forallb (fun g => eqb (bool_decide (Z.land (bit_of PI_BITS f) (bit_of PI_BITS g) ≠ 0%Z))
      (bool_decide (f = g))) POINT_INSTANCER_FIELDS) POINT_INSTANCER_FIELDS = true) as Hall by (by vm_compute).
    rewrite forallb_forall in Hall. specialize (Hall f (proj1 (list_elem_of_In _ _) Hf)).
    rewrite forallb_forall in Hall. specialize (Hall g (proj1 (list_elem_of_In _ _) Hg)).
    apply eqb_prop in Hall. rewrite <-(bool_decide_eq_true (Z.land _ _ ≠ 0%Z)), Hall. apply bool_decide_eq_true.
  - unfold bit_of at 1. rewrite (proj2 (dict_get_None f PI_BITS)); [simpl; split; [done|by intros ->]|].
    assert (map fst PI_BITS = POINT_INSTANCER_FIELDS) as -> by done. done.
Qed.

Lemma pi_set_bitmask fields f : f ∈ POINT_INSTANCER_FIELDS -> pi_set (bitmask PI_BITS fields) f <-> f ∈ fields.
Proof.
  intros Hf. unfold pi_set. rewrite land_bitmask. fold (bit_of PI_BITS f). split.
  - intros (g & Hg & ->%pi_bits_disjoint); done.
  - intros Hin. exists f. split; [done|]. by apply pi_bits_disjoint.
Qed.

(** *** One lemma per encoder with conditions *)

Lemma float_vector_wf (ev : event) fields f o :
  float_vector ev fields f = Ok o -> Forall f32_value (default [] o) /\ (is_Some o <-> f ∈ fields).
Proof.
  unfold float_vector. case_bool_decide as Hf.
  - intros (v & _ & (l & _ & (fs & Hfs & [= <-])%bind_Ok)%bind_Ok)%bind_Ok.
    split; [by eapply np_f32_values|]. split; [done|by eexists].
  - intros [= <-]. split; [done|]. split; [by intros []|done].
Qed.

Lemma encode_xform_wf ev t : encode_set_xform_trs ev = Ok t -> wf_payload t.
Proof.
  intros (prim & _ & (fields & _ & (ot & Ht & (r & Hr & (s & Hs & (time & _ & [= <-])%bind_Ok)%bind_Ok)%bind_Ok)
    %bind_Ok)%bind_Ok)%bind_Ok. apply float_vector_wf in Ht as [Ht Ht'], Hr as [Hr Hr'], Hs as [Hs Hs'].
  cbn [wf_payload]. split; [|by repeat constructor].
  apply bitmask_ext. destruct (elem_of_present_names ot r s) as (P1 & P2 & P3).
  intros f Hf. assert (f ∈ map fst TRS_BITS) as Hin.
  { destruct (decide (f ∈ map fst TRS_BITS)) as [|Hni]; [done|]. apply dict_get_None in Hni. rewrite Hni in Hf. by destruct Hf. }
  repeat (apply elem_of_cons in Hin as [->|Hin]; [cbn; tauto|]). by apply not_elem_of_nil in Hin.
Qed.

Lemma to_fb_in d k z : to_fb d k = Ok z -> z ∈ map snd d.
Proof.
  unfold to_fb. destruct (dict_get k d) eqn:E; [|done]. intros [= ->]. apply dict_get_elem in E.
  apply list_elem_of_fmap. by exists (k, z).
Qed.

Lemma encode_arc_wf explicit v arc : encode_arc_entry explicit v = Ok arc -> wf_arc arc.
Proof.
  unfold encode_arc_entry. intros (entry & _ & (ap & Ha & (pp & Hp & (cd & Hc & (pos & _ & (z & Hz & (off & _ &
    (sc & _ & [= <-])%bind_Ok)%bind_Ok)%bind_Ok)%bind_Ok)%bind_Ok)%bind_Ok)%bind_Ok)%bind_Ok.
  split_and!; [by eapply opt_string_wf..|by eapply to_fb_in].
Qed.

Lemma encode_arcs_wf key mk ev t : encode_arcs key mk ev = Ok t ->
  exists prim arcs a e, t = mk prim arcs a e /\ Forall wf_arc arcs.
Proof.
  unfold encode_arcs. intros (prim & _ & (arcs & _ & (entries & He & [= <-])%bind_Ok)%bind_Ok)%bind_Ok.
  do 4 eexists; split; [done|]. eapply mapR_Forall; [exact He|]. intros x y _. by apply encode_arc_wf.
Qed.

Lemma encode_gprim_wf ev t :
  dicts_ok ev -> rectangular ev -> encode_set_gprim_attrs ev = Ok t -> wf_payload t.
Proof.
  intros Hd Hrect (prim & _ & (attrs & Ha & (vs & Hvs & (meta & Hm & (ms & Hms & (interp & Hi & (is_ & His &
    (time & _ & [= <-])%bind_Ok)%bind_Ok)%bind_Ok)%bind_Ok)%bind_Ok)%bind_Ok)%bind_Ok)%bind_Ok.
  cbn [wf_payload]. split_and!.
  - rewrite (mapR_keys _ fst _ _ Hvs); [by eapply dicts_ok_get|]. by intros x y (? & _ & [= <-])%bind_Ok.
  - rewrite (mapR_keys _ pv_name _ _ Hms); [by eapply dicts_ok_get|].
    by intros x y (? & _ & (? & _ & (? & _ & [= <-])%bind_Ok)%bind_Ok)%bind_Ok.
  - rewrite (mapR_keys _ fst _ _ His); [by eapply dicts_ok_get|]. by intros x y (? & _ & [= <-])%bind_Ok.
  - eapply mapR_Forall; [exact Hvs|]. intros [n v] y Hin (av & Hav & [= <-])%bind_Ok. simpl in *.
    eapply encode_attr_wf; [|exact Hav]. unfold rectangular, get_or in *. destruct (ev !! "attrs") as [[]|];
      simplify_eq/=; [|by apply not_elem_of_nil in Hin]. rewrite Forall_forall in Hrect. by apply (Hrect (n, v)).
  - eapply mapR_Forall; [exact Hms|]. intros x y _ (m & _ & (? & _ & (i & Hi' & [= <-])%bind_Ok)%bind_Ok)%bind_Ok.
    by eapply opt_string_wf.
Qed.

Lemma encode_input_wf nv type i :
  valid_connectable_value nv.2 = Ok true -> encode_connectable_input_value nv type = Ok i -> wf_input i.
Proof.
  destruct nv as [name v]. cbn [fst snd]. intros Hvalid (value & Hv & [= <-])%bind_Ok.
  unfold wf_input. cbn [in_value in_type fst snd] in *. destruct v as [|b|z|f|s|l|d]; try done; simplify_eq/=; try done.
  - case_bool_decide as Hd.
    + apply bind_Ok in Hv as (f & _ & (f' & Hf & [= <-])%bind_Ok). by eapply pack_f32_scalar.
    + apply bind_Ok in Hv as (z' & Hz & [= <-]). split; [done|]. pose proof Hz as Hz'. unfold int32, enforce in Hz'.
      by apply bind_Ok in Hz' as (_ & _ & [= <-]).
  - apply bind_Ok in Hv as (f' & Hf & [= <-]). by eapply pack_f32_scalar.
  - destruct (negb (bool_decide (l = [])) && forallb is_str l) eqn:Hs.
    + apply bind_Ok in Hv as (ss & Hss & [= <-]). eapply mapR_nonnil; [exact Hss|].
      apply andb_true_iff in Hs as [Hs%negb_true_iff%bool_decide_eq_false _]. done.
    + case_bool_decide as Hd; simpl in Hv.
      * apply bind_Ok in Hv as (fs & Hfs & [= <-]). split; [|done].
        eapply mapR_Forall; [exact Hfs|]. intros x y _ (f & _ & [= <-])%bind_Ok. apply f32_idem.
      * destruct (forallb (fun v => match v with PInt _ => true | _ => false end) l) eqn:Hall.
        -- apply bind_Ok in Hv as (zs & Hzs & [= <-]). split; [done|]. by eapply np_int_values.
        -- apply bind_Ok in Hv as (fs & Hfs & [= <-]). split.
           ++ eapply mapR_Forall; [exact Hfs|]. intros x y _ (f & _ & [= <-])%bind_Ok. apply f32_idem.
           ++ intros ->. apply mapR_length in Hfs. by destruct l.
Qed.

Lemma encode_stage_wf ev t : encode_set_stage_metadata ev = Ok t -> wf_payload t.
Proof.
  intros (up & Hu & (numeric & Hn & [= <-])%bind_Ok)%bind_Ok. cbn [wf_payload sm_upAxis sm_numeric].
  split; [by eapply opt_string_wf|].
  assert (map fst numeric = present_in ev STAGE_META_NUMERIC) as ->.
  { apply mapR_Ok in Hn. clear Hu. induction Hn as [|k [k' f] ?? Hx _ IH]; [done|]. simpl. f_equal; [|done].
    by apply bind_Ok in Hx as (? & _ & (? & _ & [= <- _])%bind_Ok). }
  unfold present_in. apply list_filter_iff'. intros k Hk.
  rewrite list_elem_of_filter. tauto.
Qed.

Lemma encode_sublayers_wf ev t : encode_set_sublayers ev = Ok t -> wf_payload t.
Proof.
  intros (prim & _ & (gen & _ & (l & _ & (entries & He & (rev & Hr & [= <-])%bind_Ok)%bind_Ok)%bind_Ok)%bind_Ok)%bind_Ok.
  cbn [wf_payload]. split.
  - destruct (get_or _ _ _) as [| |z| | | |]; try done. pose proof Hr as Hr'. unfold enforce in Hr'.
    by apply bind_Ok in Hr' as (_ & _ & [= ->]).
  - eapply mapR_Forall; [exact He|]. intros x y _. unfold encode_sublayer_entry.
    intros (entry & _ & (p & _ & (k & Hk & (o & _ & (sc & _ & [= <-])%bind_Ok)%bind_Ok)%bind_Ok)%bind_Ok)%bind_Ok.
    by eapply opt_string_wf.
Qed.

Lemma encode_variants_wf ev t : dicts_ok ev -> encode_set_variant_selections ev = Ok t -> wf_payload t.
Proof.
  intros Hd (prim & _ & (sel & Hs & (l & Hl & [= <-])%bind_Ok)%bind_Ok)%bind_Ok. cbn [wf_payload].
  rewrite (mapR_keys _ fst _ _ Hl); [|by intros x y (? & _ & [= <-])%bind_Ok].
  apply bind_Ok in Hs as (v & Hv & Hm). unfold py_item in Hv. destruct (ev !! "selections") as [x|] eqn:E; [|done].
  injection Hv as ->. specialize (Hd _ _ E). destruct v; try done. simpl in Hm. by injection Hm as <-.
Qed.

Lemma encode_connections_wf ev t : dicts_ok ev -> encode_set_connectable_connection ev = Ok t -> wf_payload t.
Proof.
  intros Hd (prim & _ & (cs & Hc & (l & Hl & (ds & _ & [= <-])%bind_Ok)%bind_Ok)%bind_Ok)%bind_Ok. cbn [wf_payload].
  rewrite (mapR_keys _ local_attr _ _ Hl); [by eapply dicts_ok_get|].
  by intros x y (c & _ & (? & _ & (? & _ & [= <-])%bind_Ok)%bind_Ok)%bind_Ok.
Qed.

Lemma encode_inputs_wf ev t :
  dicts_ok ev -> (forall d nv, as_dict (py_get ev "inputs") = Ok d -> nv ∈ d -> valid_connectable_value nv.2 = Ok true) ->
  encode_set_connectable_input ev = Ok t -> wf_payload t.
Proof.
  intros Hd Hvalid (prim & _ & (info & _ & (types & _ & (inputs & Hi & (l & Hl & (time & _ & [= <-])%bind_Ok)%bind_Ok)
    %bind_Ok)%bind_Ok)%bind_Ok)%bind_Ok. cbn [wf_payload]. split.
  - rewrite (mapR_keys _ in_name _ _ Hl); [by eapply dicts_ok_get|].
    by intros x y (ty & _ & (? & _ & [= <-])%bind_Ok)%bind_Ok.
  - eapply mapR_Forall; [exact Hl|]. intros nv i Hin (ty & _ & He)%bind_Ok. eapply encode_input_wf; [|exact He].
    unfold get_or in Hi. destruct (ev !! "inputs") as [v|] eqn:E; simpl in Hi; [|injection Hi as <-; by apply not_elem_of_nil in Hin].
    eapply (Hvalid inputs); [|done]. unfold py_get. rewrite E. by destruct v.
Qed.

(** Rows of the declared width, flattened *)
Lemma np_ravel_width n l flat :
  (forall v, v ∈ l -> exists r, v = PList r /\ length r = n) -> np_ravel l = Ok flat -> rows_of n flat.
Proof.
  intros Hl. destruct l as [|v l]; [intros [= <-]; by exists []|].
  destruct (Hl v) as (r0 & -> & Hr0); [by left|]. unfold np_ravel.
  intros (rows & Hrows & (_ & _ & [= <-])%bind_Ok)%bind_Ok. exists rows. split; [done|].
  eapply mapR_Forall; [exact Hrows|]. intros x y Hx Hy. destruct (Hl x Hx) as (r & -> & Hr). by injection Hy as <-.
Qed.

Lemma rows_of_mapR {A B} (f : A -> result B) n l k : rows_of n l -> mapR f l = Ok k -> rows_of n k.
Proof.
  intros (rows & -> & Hrows). revert k. induction Hrows as [|r rows Hr _ IH]; intros k Hk.
  - injection Hk as <-. by exists [].
  - simpl in Hk. apply mapR_Ok in Hk. apply Forall2_app_inv_l in Hk as (k1 & k2 & H1 & H2 & ->).
    destruct (IH k2) as (rows' & -> & Hrows'); [by apply mapR_Ok|]. exists (k1 :: rows').
    split; [done|]. constructor; [by rewrite <-(Forall2_length _ _ _ H1)|done].
Qed.

Lemma encode_point_instancer_wf ev t :
  (forall a n l, a ∈ PI_ARRAYS -> a.2.1 = Some n -> py_item ev a.1 = Ok (PList l) ->
     forall v, v ∈ l -> exists r, v = PList r /\ length r = n) ->
  encode_set_point_instancer ev = Ok t -> wf_payload t.
Proof.
  intros Hrows (prim & _ & (fields & _ & (protos & Hp & (arrays & Ha & (time & _ & [= <-])%bind_Ok)%bind_Ok)%bind_Ok)
    %bind_Ok)%bind_Ok. cbn [wf_payload].
  assert (map fst PI_BITS = POINT_INSTANCER_FIELDS) as Hnames by done.
  assert (Forall (fun b => 0 <= b.2 < 2 ^ 11)%Z PI_BITS) as Hbits by (apply (bool_decide_unpack _); by vm_compute).
  assert (forall a, a ∈ PI_ARRAYS -> a.1 ∈ POINT_INSTANCER_FIELDS) as Hin.
  { intros a Hin. repeat (apply elem_of_cons in Hin as [->|Hin]; [apply (bool_decide_unpack _); by vm_compute|]).
    by apply not_elem_of_nil in Hin. }
  split_and!.
  - by apply (bitmask_range PI_BITS 11).
  - by apply (bitmask_range PI_BITS 11).
  - rewrite pi_set_bitmask by (apply (bool_decide_unpack _); by vm_compute). intros Hni.
    rewrite bool_decide_eq_false_2 in Hp by done. by injection Hp as <-.
  - assert (filter (fun a => pi_set (bitmask PI_BITS fields) a.1) PI_ARRAYS = filter (fun a => a.1 ∈ fields) PI_ARRAYS) as ->.
    { apply list_filter_iff'. intros a HA. apply pi_set_bitmask. by apply Hin. }
    eapply mapR_Forall2; [exact Ha|]. intros a [n arr] [_ HA]%list_elem_of_filter He.
    apply bind_Ok in He as (v & Hv & (l & Hl & (flat & Hflat & (arr' & Harr & [= <- <-])%bind_Ok)%bind_Ok)%bind_Ok).
    split; [done|]. cbn [snd]. destruct v as [| | | | |l'|]; try done. injection Hl as ->. unfold wf_pi.
    destruct a.2.2.
    + apply bind_Ok in Harr as (zs & Hzs & [= <-]). by eapply np_int_values.
    + apply bind_Ok in Harr as (zs & Hzs & [= <-]). by eapply np_int_values.
    + apply bind_Ok in Harr as (fs & Hfs & [= <-]). split; [by eapply np_f32_values|].
      destruct a.2.1 as [w|] eqn:Hw; [|done]. eapply rows_of_mapR; [|exact Hfs].
      eapply np_ravel_width; [|exact Hflat]. by apply (Hrows a w l).
Qed.

(** ** Broadcasts, and the template encoder of transforms *)

Record broadcast_msg := mk_msg {
  m_seq : Z; m_event : event; m_origin : option string; m_client_id : option string; m_client : option string;
  m_layer_key : option string }.

(** The table [BroadcastEvent] *)
Record broadcast := mk_broadcast {
  b_seq : Z; b_event : payload; b_origin : option string; b_client_id : option string; b_client : option string;
  b_layer_key : option string }.

Definition encode_broadcast_event (msg : broadcast_msg) : result broadcast :=
  ev ← encode_event (m_event msg);
  seq ← int32 (m_seq msg);
  Ok (mk_broadcast seq ev (nonempty (m_origin msg)) (nonempty (m_client_id msg)) (nonempty (m_client msg))
                   (nonempty (m_layer_key msg))).

Definition struct_error : exn := OtherException "struct.error".

(** [struct] packs a number: ["<f"], ["<d"] and ["<i"] *)
Definition pack_double (v : pyval) : result pyfloat :=
  match v with PInt _ | PFloat _ | PBool _ => py_float v | _ => Err struct_error end.
Definition pack_float (v : pyval) : result pyfloat := f ← pack_double v; pack_f32 f.
Definition pack_int (z : Z) : result Z :=
  _ ← raise_if (negb ((- 2 ^ 31 <=? z) && (z <? 2 ^ 31))%Z) struct_error; Ok z.

(** [_XFORM_VECTOR_STRUCTS[f].pack_into(output, position, *event[f])] *)
Definition patch_vector (ev : event) (fields : list string) (f : string) (old : option (list pyfloat)) :
    result (option (list pyfloat)) :=
  if bool_decide (f ∈ fields) then
    v ← py_item ev f; l ← as_seq v;
    _ ← raise_if (negb (length l =? vector_size f)%nat) struct_error;
    l ← mapR pack_float l; Ok (Some l)
  else Ok old.

(** [_XformBroadcastTemplate.render]: the positions of the fields are given by
    their names. *)
Definition render (template : broadcast) (fields : list string) (has_time : bool) (msg : broadcast_msg) : result broadcast :=
  let ev := m_event msg in
  seq ← pack_int (m_seq msg);
  match b_event template with
  | SetXformTrs prim mask t r s time =>
      t ← patch_vector ev fields "t" t; r ← patch_vector ev fields "r" r; s ← patch_vector ev fields "s" s;
      time ← (if has_time then v ← py_item ev "time"; f ← pack_double v; Ok (Some f) else Ok time);
      Ok (mk_broadcast seq (SetXformTrs prim mask t r s time) (b_origin template) (b_client_id template)
                       (b_client template) (b_layer_key template))
  | _ => Err RuntimeError
  end.

(** [_build_template]: the general encoder on a message of ones *)
Definition mask_fields (mask : Z) : list string := filter (fun f => Z.land mask (bit_of TRS_BITS f) ≠ 0%Z) TRS_FIELDS.
Definition template_event (prim : string) (fields : list string) (has_time : bool) : event :=
  let one := PFloat (Fin 1%Qc) in
  list_to_map ([("k", PStr K_SET_XFORM_TRS); ("prim", PStr prim); ("fields", PStrs fields)] ++
               map (fun f => (f, PList (repeat one (vector_size f)))) fields ++
               (if has_time then [("time", one)] else [])).
Definition template_msg (prim : string) (mask : Z) (has_time : bool) (origin client_id client layer_key : option string) :
    broadcast_msg :=
  mk_msg 1 (template_event prim (mask_fields mask) has_time) origin client_id client layer_key.
Definition build_template prim mask has_time origin client_id client layer_key : result broadcast :=
  encode_broadcast_event (template_msg prim mask has_time origin client_id client layer_key).

(** [BroadcastEventEncoder.encode]; the cache of templates is transparent. *)
Definition encode (msg : broadcast_msg) : result broadcast :=
  let ev := m_event msg in
  if negb (is_trs ev) then encode_broadcast_event msg else
  fields ← strings (get_or ev "fields" (PList []));
  if bool_decide (fields = []) || negb (forallb (fun f => bool_decide (f ∈ TRS_FIELDS)) fields)
  then encode_broadcast_event msg else
  let mask := foldr (fun f m => bit_of TRS_BITS f + m)%Z 0%Z (filter (fun f => f ∈ fields) TRS_FIELDS) in
  let has_time := negb (is_none (py_get ev "time")) in
  prim ← string_item ev "prim";
  template ← build_template prim mask has_time (nonempty (m_origin msg)) (nonempty (m_client_id msg))
                            (nonempty (m_client msg)) (nonempty (m_layer_key msg));
  render template (mask_fields mask) has_time msg.

(** Every number of the vectors is in the range of [float32]. *)
Definition in_float32 (v : pyval) : Prop :=
  match v with
  | PInt z => float_fits z = true /\ pack_f32 (Fin (f64 z)) = Ok (f32 (Fin (f64 z)))
  | PFloat f => pack_f32 f = Ok (f32 f)
  | _ => False
  end.
Definition vectors_in_float32 (ev : event) (fields : list string) : Prop :=
  forall f l, f ∈ fields -> ev !! f = Some (PList l) -> Forall in_float32 l.

Lemma pack_float_np l : Forall in_float32 l -> exists fs, mapR pack_float l = Ok fs /\ mapR np_f32 l = Ok fs.
Proof.
  induction 1 as [|v l Hv _ (fs & H1 & H2)]; [by exists []|].
  assert (exists f, pack_float v = Ok f /\ np_f32 v = Ok f) as (f & Hp & Hn).
  { destruct v as [| |z|f| | |]; try done; unfold in_float32 in Hv.
    - destruct Hv as [Hz Hv]. exists (f32 (Fin (f64 z))).
      unfold pack_float, pack_double, py_float, np_f32, to_float. rewrite Hz. unfold mbind, result_bind. by split.
    - by exists (f32 f). }
  exists (f :: fs). cbn [mapR]. by rewrite Hp, Hn, H1, H2.
Qed.

Lemma mask_fields_spec (fields : list string) :
  mask_fields (foldr (fun f m => bit_of TRS_BITS f + m)%Z 0%Z (filter (fun f => f ∈ fields) TRS_FIELDS)) =
  filter (fun f => f ∈ fields) TRS_FIELDS.
Proof.
  unfold TRS_FIELDS. rewrite !filter_cons, !filter_nil.
  destruct (decide ("t" ∈ fields)), (decide ("r" ∈ fields)), (decide ("s" ∈ fields)); by vm_compute.
Qed.

(** What the template of a set of fields holds where nothing is patched *)
Lemma template_event_encodes prim (fields : list string) has_time :
  exists t r s time,
    encode_event (template_event prim (filter (fun f => f ∈ fields) TRS_FIELDS) has_time) =
      Ok (SetXformTrs prim (bitmask TRS_BITS (filter (fun f => f ∈ fields) TRS_FIELDS)) t r s time)
    /\ ("t" ∉ fields -> t = None) /\ ("r" ∉ fields -> r = None) /\ ("s" ∉ fields -> s = None)
    /\ (has_time = false -> time = None).
Proof.
  unfold TRS_FIELDS. rewrite !filter_cons, !filter_nil.
  destruct (decide ("t" ∈ fields)), (decide ("r" ∈ fields)), (decide ("s" ∈ fields)), has_time;
    (do 4 eexists; split; [reflexivity|split_and!; done]).
Qed.
(** C20: every well-formed table is what its decoded event is encoded to: the
    decoder loses nothing of a table, the encoder nothing of its event. *)
Theorem wire_roundtrip t : wf_payload t -> exists ev, decode_event t = Ok ev /\ encode_event ev = Ok t.
Proof. apply wf_payload_roundtrips. Qed.
End codec.

(** ** Validated events on the wire *)

Section validated.
Context `{Wire} `{Sdf}.

Lemma validate_as m ev kind validate :
  valid m ev -> string_item ev "k" = Ok kind -> dict_get kind validators = Some validate -> validate ev = Ok ().
Proof.
  unfold valid, validate_event_or_raise, string_item, py_item, py_get. intros Hv Hk Hval.
  destruct (ev !! "k") as [v|]; [|done]. apply bind_Ok in Hk as (v' & [= <-] & Hk). cbn [default from_option] in Hv.
  destruct v; try done. injection Hk as ->. apply bind_Ok in Hv as (kind' & [= <-] & Hv). rewrite Hval in Hv. destruct (dict_get kind EVENT_KIND_INFO); [|done].
  apply bind_Ok in Hv as (_ & _ & (_ & _ & Hv)%bind_Ok). by destruct (validate ev) as [[]|].
Qed.

Lemma allR_Ok {A} (p : A -> result bool) l : allR p l = Ok true -> forall x, x ∈ l -> p x = Ok true.
Proof.
  induction l as [|y l IH]; simpl; [by intros _ x ?%not_elem_of_nil|].
  destruct (p y) as [[]|] eqn:E; try done. intros Hl x [->|Hx]%elem_of_cons; auto.
Qed.

Lemma valid_inputs ev d nv :
  validate_connectable_input ev = Ok () -> as_dict (py_get ev "inputs") = Ok d -> nv ∈ d ->
  valid_connectable_value nv.2 = Ok true.
Proof.
  unfold validate_connectable_input. intros Hv Hd Hin. inv_bind Hv. inv_bind Hv. rewrite Hd in Hv1. injection Hv1 as <-.
  inv_bind Hv. destruct x0. rewrite eachR_Ok in Hv1. specialize (Hv1 nv Hin).
  apply bind_Ok in Hv1 as (_ & _ & (b & Hb & Hr%raise_if_Ok)%bind_Ok). by destruct b.
Qed.

Lemma valid_rows ev a n l :
  validate_point_instancer ev = Ok () -> a ∈ PI_ARRAYS -> a.2.1 = Some n -> py_item ev a.1 = Ok (PList l) ->
  forall v, v ∈ l -> exists r, v = PList r /\ length r = n.
Proof.
  unfold validate_point_instancer. intros Hv Ha Hn Hl v Hin. inv_bind Hv. inv_bind Hv. inv_bind Hv. inv_bind Hv.
  inv_bind Hv. inv_bind Hv. destruct x4. rewrite eachR_Ok in Hv5.
  assert ((a.1, n) ∈ [("positions", 3); ("orientations", 4); ("scales", 3); ("velocities", 3); ("accelerations", 3);
                      ("angular_velocities", 3)] /\ a.1 ∈ POINT_INSTANCER_FIELDS) as [Hf Hname].
  { repeat (apply elem_of_cons in Ha as [->|Ha]; [try done; injection Hn as <-;
      split; apply (bool_decide_unpack _); by vm_compute|]). by apply not_elem_of_nil in Ha. }
  specialize (Hv5 _ Hf). cbn [fst snd] in Hv5. unfold py_item in Hl. destruct (ev !! a.1) as [w|] eqn:E; [|done].
  injection Hl as ->. rewrite bool_decide_eq_true_2 in Hv5 by (apply elem_of_present; split; [done|by eexists]).
  unfold require_bulk_array, py_get in Hv5. rewrite E in Hv5. simpl in Hv5.
  apply bind_Ok in Hv5 as (b & Hb & Hr%raise_if_Ok). destruct b; [|done].
  pose proof (allR_Ok _ _ Hb v Hin) as Hrow. simpl in Hrow. destruct v as [| | | | |r|]; try done. exists r. split; [done|].
  destruct (length r =? n)%nat eqn:Hlen; [by apply Nat.eqb_eq|done].
Qed.

(** What the encoders write for an accepted event is well-formed. *)
Lemma encode_event_wf m ev t :
  valid m ev -> dicts_ok ev -> rectangular ev -> encode_event ev = Ok t -> wf_payload t.
Proof.
  intros Hv Hd Hrect He. unfold encode_event in He. apply bind_Ok in He as (kind & Hk & He).
  destruct (dict_get kind encoders) as [encode|] eqn:Henc; [|done]. apply dict_get_elem in Henc.
  repeat (apply elem_of_cons in Henc as [[= -> ->]|Henc]); [..|by apply not_elem_of_nil in Henc].
  all: try by (repeat (apply bind_Ok in He as (? & _ & He)); injection He as <-).
  - by eapply encode_xform_wf.
  - by eapply encode_gprim_wf.
  - by destruct (encode_arcs_wf _ _ _ _ He) as (? & ? & ? & ? & -> & ?).
  - by destruct (encode_arcs_wf _ _ _ _ He) as (? & ? & ? & ? & -> & ?).
  - by eapply encode_variants_wf.
  - apply bind_Ok in He as (? & _ & (? & _ & (p & Hp & [= <-])%bind_Ok)%bind_Ok). by eapply opt_string_wf.
  - eapply encode_inputs_wf; [done| |done]. intros d nv. eapply valid_inputs. by eapply validate_as.
  - by eapply encode_connections_wf.
  - by eapply encode_stage_wf.
  - eapply encode_point_instancer_wf; [|done]. intros a n l. eapply valid_rows. by eapply validate_as.
  - apply bind_Ok in He as (? & _ & (? & _ & (? & _ & (? & _ & (? & _ & (z & Hz & [= <-])%bind_Ok)%bind_Ok)%bind_Ok)
      %bind_Ok)%bind_Ok). by eapply to_fb_in.
  - by eapply encode_sublayers_wf.
Qed.

(** C21: an accepted event whose nested lists are rectangular, and whose
    dictionaries have each key once, changes at most on its first trip: whatever
    table it is encoded to, the event decoded from it is encoded to the same table
    again, so that relays, the log and its replays all carry one event. *)
Theorem accepted_event_is_stable m ev t :
  valid m ev -> dicts_ok ev -> rectangular ev -> encode_event ev = Ok t ->
  exists ev', decode_event t = Ok ev' /\ encode_event ev' = Ok t.
Proof. intros. by eapply wf_payload_roundtrips, encode_event_wf. Qed.

(** *** The template encoder *)

Lemma xform_vector_list ev fs f : xform_ok ev fs -> f ∈ fs ->
  exists l, ev !! f = Some (PList l) /\ length l = vector_size f.
Proof.
  intros Hx Hf. pose proof (xf_vector _ _ Hx f Hf) as Hv. pose proof (proj1 (xf_exact _ _ Hx f) Hf) as [_ [v Ev]].
  unfold py_get in Hv. rewrite Ev in Hv. simpl in Hv. destruct v as [| | | | |l|]; try done. exists l. split; [done|].
  apply bind_Ok in Hv as (_ & Hr%raise_if_Ok%negb_false_iff & _). by apply Nat.eqb_eq.
Qed.

(** Patching a vector and encoding it give the same numbers. *)
Lemma patch_vector_agrees ev fs f old :
  xform_ok ev fs -> vectors_in_float32 ev fs -> (f ∉ fs -> old = None) ->
  exists o, patch_vector ev (filter (fun f => f ∈ fs) TRS_FIELDS) f old = Ok o /\ float_vector ev fs f = Ok o.
Proof.
  intros Hx Hfl Hold. unfold patch_vector, float_vector. destruct (decide (f ∈ fs)) as [Hf|Hf].
  - rewrite (bool_decide_eq_true_2 (f ∈ fs)) by done.
    rewrite bool_decide_eq_true_2 by (apply list_elem_of_filter; split; [done|]; by apply (xf_exact _ _ Hx)).
    destruct (xform_vector_list ev fs f Hx Hf) as (l & El & Hl). unfold py_item. rewrite El.
    destruct (pack_float_np l (Hfl f l Hf El)) as (ns & H1 & H2). exists (Some ns).
    unfold mbind, result_bind. cbn [as_seq]. rewrite Hl, Nat.eqb_refl, H1, H2. done.
  - exists None. rewrite (bool_decide_eq_false_2 (f ∈ fs)) by done.
    rewrite bool_decide_eq_false_2 by (by intros [? _]%list_elem_of_filter). by rewrite Hold.
Qed.

Lemma time_agrees ev old :
  require_optional_time ev = Ok () -> (is_none (py_get ev "time") = true -> old = None) ->
  exists o, (if negb (is_none (py_get ev "time")) then v ← py_item ev "time"; f ← pack_double v; Ok (Some f) else Ok old)
            = Ok o /\ time_of ev = Ok o.
Proof.
  unfold require_optional_time, time_of, py_get, py_item. destruct (ev !! "time") as [v|] eqn:E; simpl.
  2:{ intros _ Hold. exists None. by rewrite Hold. }
  destruct v as [|b|z|f| | |]; simpl; try done.
  - intros _ Hold. exists None. by rewrite Hold.
  - unfold require_finite, is_finite_number, isfinite, to_float. destruct (float_fits z) eqn:Hz; [|done].
    intros _ _. by eexists.
  - intros _ _. by eexists.
Qed.

Lemma encode_xform_event ev fs prim t r s time :
  is_trs ev = true -> string_item ev "prim" = Ok prim -> get_or ev "fields" (PList []) = PStrs fs ->
  float_vector ev fs "t" = Ok t -> float_vector ev fs "r" = Ok r -> float_vector ev fs "s" = Ok s ->
  time_of ev = Ok time -> encode_event ev = Ok (SetXformTrs prim (bitmask TRS_BITS fs) t r s time).
Proof.
  intros Htrs Hp Hfields Gt Gr Gs Gtime. unfold encode_event.
  assert (string_item ev "k" = Ok K_SET_XFORM_TRS) as ->.
  { unfold string_item, py_item. apply bool_decide_eq_true in Htrs. by rewrite Htrs. }
  unfold mbind at 1, result_bind at 1.
  assert (dict_get K_SET_XFORM_TRS encoders = Some encode_set_xform_trs) as -> by done.
  unfold encode_set_xform_trs. rewrite Hp, Hfields, strings_PStrs. unfold mbind, result_bind.
  by rewrite Gt, Gr, Gs, Gtime.
Qed.

(** A template holds ones, which patching replaces. *)
Lemma build_template_ok prim (fs : list string) ht :
  let names := filter (fun f => f ∈ fs) TRS_FIELDS in
  let mask := foldr (fun f m => bit_of TRS_BITS f + m)%Z 0%Z names in
  exists t r s time, (forall a b c d, build_template prim mask ht a b c d =
    Ok (mk_broadcast 1 (SetXformTrs prim (bitmask TRS_BITS names) t r s time)
                     (nonempty a) (nonempty b) (nonempty c) (nonempty d)))
    /\ ("t" ∉ fs -> t = None) /\ ("r" ∉ fs -> r = None) /\ ("s" ∉ fs -> s = None) /\ (ht = false -> time = None).
Proof.
  intros names mask.
  destruct (template_event_encodes prim fs ht) as (t & r & s & time & Htpl & Ht & Hr & Hs & Htime). fold names in Htpl.
  exists t, r, s, time. split_and!; [|done..]. intros a b c d. unfold build_template, encode_broadcast_event, template_msg.
  cbn [m_event m_seq m_origin m_client_id m_client m_layer_key]. unfold mask, names. rewrite mask_fields_spec.
  fold names. by rewrite Htpl.
Qed.

(** C22: the template encoder, which patches sequence number, vectors and time
    into a cached message of ones, writes what the general encoder writes:
    for every accepted event whose vectors stay in the range of [float32] and
    every 32-bit sequence number. *)
Theorem template_encoder_agrees m msg :
  valid m (m_event msg) -> (- 2 ^ 31 <= m_seq msg < 2 ^ 31)%Z ->
  (forall fs, xform_ok (m_event msg) fs -> vectors_in_float32 (m_event msg) fs) ->
  encode msg = encode_broadcast_event msg.
Proof.
  destruct msg as [seq ev origin client_id client layer_key]. cbn [m_event m_seq]. intros Hv Hseq Hrange.
  unfold encode. cbn [m_event]. destruct (is_trs ev) eqn:Htrs; [|done]. simpl negb. cbv iota.
  apply (valid_trs m ev Htrs) in Hv as (_ & Hprim & fs & Hx). specialize (Hrange fs Hx).
  assert (get_or ev "fields" (PList []) = PStrs fs) as Hfields by (unfold get_or; by rewrite (xf_fields _ _ Hx)).
  assert (exists prim, string_item ev "prim" = Ok prim) as [prim Hp].
  { unfold string_item, py_item, py_get in *. destruct (ev !! "prim") as [[]|]; try done. by eexists. }
  rewrite Hfields, strings_PStrs. unfold mbind at 1, result_bind at 1.
  rewrite (bool_decide_eq_false_2 (fs = [])) by apply (xf_some _ _ Hx).
  assert (forallb (fun f => bool_decide (f ∈ TRS_FIELDS)) fs = true) as ->.
  { apply forallb_forall. intros f Hf%list_elem_of_In. apply bool_decide_eq_true. by apply (xf_exact _ _ Hx) in Hf as [? _]. }
  simpl negb. cbv iota zeta. rewrite Hp, mask_fields_spec. unfold mbind at 1, result_bind at 1.
  set (names := filter (fun f => f ∈ fs) TRS_FIELDS). set (ht := negb (is_none (py_get ev "time"))).
  set (mask := foldr _ _ names).
  destruct (build_template_ok prim fs ht) as (t & r & s & time & Htpl & Ht & Hr & Hs & Htime).
  fold names mask in Htpl. rewrite Htpl.
  destruct (patch_vector_agrees ev fs "t" t Hx Hrange Ht) as (t' & Pt & Gt).
  destruct (patch_vector_agrees ev fs "r" r Hx Hrange Hr) as (r' & Pr & Gr).
  destruct (patch_vector_agrees ev fs "s" s Hx Hrange Hs) as (s' & Ps & Gs).
  destruct (time_agrees ev time (xf_time _ _ Hx)) as (time' & Ptime & Gtime).
  { intros E. apply Htime. unfold ht. by rewrite E. }
  assert (((- 2 ^ 31 <=? seq) && (seq <? 2 ^ 31))%Z = true) as Hs32.
  { apply andb_true_iff. by rewrite Z.leb_le, Z.ltb_lt. }
  assert (render (mk_broadcast 1 (SetXformTrs prim (bitmask TRS_BITS names) t r s time)
      (nonempty (nonempty origin)) (nonempty (nonempty client_id)) (nonempty (nonempty client)) (nonempty (nonempty layer_key)))
      names ht (mk_msg seq ev origin client_id client layer_key)
    = Ok (mk_broadcast seq (SetXformTrs prim (bitmask TRS_BITS names) t' r' s' time')
            (nonempty origin) (nonempty client_id) (nonempty client) (nonempty layer_key))) as Hrender.
  { unfold render, pack_int. cbn [m_event m_seq b_event b_origin b_client_id b_client b_layer_key]. rewrite Hs32.
    unfold names, ht. rewrite Pt, Pr, Ps. unfold mbind, result_bind in Ptime |- *. cbn [negb raise_if]. rewrite Ptime.
    assert (forall o, nonempty (nonempty o) = nonempty o) as Hno by (by intros [[|]|]). by rewrite !Hno. }
  unfold mbind at 1, result_bind at 1. etransitivity; [exact Hrender|].
  assert (encode_event ev = Ok (SetXformTrs prim (bitmask TRS_BITS fs) t' r' s' time')) as Hgen
    by (by apply encode_xform_event).
  unfold encode_broadcast_event. cbn [m_event m_seq m_origin m_client_id m_client m_layer_key]. rewrite Hgen.
  unfold int32, enforce. rewrite Hs32. unfold mbind, result_bind. cbn [negb raise_if].
  rewrite (bitmask_ext TRS_BITS fs names); [done|]. intros f _. unfold names. rewrite list_elem_of_filter.
  split; [intros Hf; split; [done|]; by apply (xf_exact _ _ Hx)|tauto].
Qed.

(** *** What the wire loses *)

Definition move_event (prim : string) (values : list pyval) : event :=
  {["k" := PStr K_SET_XFORM_TRS; "prim" := PStr prim; "fields" := PList [PStr "t"]; "t" := PList values]}.

Lemma move_event_ok prim x y z : Forall (fun v => is_finite_number v = Ok true) [x; y; z] ->
  xform_ok (move_event prim [x; y; z]) ["t"].
Proof.
  intros Hf. rewrite !Forall_cons in Hf. destruct Hf as (Hx & Hy & Hz & _). split; try done.
  - apply NoDup_singleton.
  - intros f. rewrite list_elem_of_singleton. split; [intros ->; split; [by left|by eexists]|].
    intros [Hf Hs]. repeat (apply elem_of_cons in Hf as [->|Hf]; [first [done|by destruct Hs]|]). by apply not_elem_of_nil in Hf.
  - intros f ->%list_elem_of_singleton. change (py_get _ "t") with (PList [x; y; z]).
    unfold require_vector, mbind, result_bind. cbn [allR]. by rewrite Hx, Hy, Hz.
Qed.

(** C34: a translation beyond the range of [float32] is a finite number, so the
    producer's validation accepts the event; the encoder turns it into an
    infinity, and the validation of the server refuses what it decodes. *)
Theorem float32_overflow_is_refused m prim q :
  (of_Z (2 ^ 128) <= q)%Qc -> m ≠ Some SHARED_STAGE -> require_prim_path (PStr prim) = Ok () ->
  let ev := move_event prim [PFloat (Fin q); PFloat (Fin 0%Qc); PFloat (Fin 0%Qc)] in
  validate_events m [ev] = Ok () /\
  exists t ev', encode_event ev = Ok t /\ decode_event t = Ok ev' /\ validate_events m [ev'] ≠ Ok ().
Proof.
  intros Hq Hm Hp ev. assert (valid m ev) as Hv.
  { apply valid_trs; [done|]. split_and!; [done..|]. exists ["t"]. apply move_event_ok. by repeat constructor. }
  split.
  { apply validate_events_Ok. split_and!; [done|by repeat constructor|]. by intros _; split; vm_compute; lia. }
  set (zero := f32 (Fin 0%Qc)).
  exists (SetXformTrs prim 1 (Some [f32 (Fin q); zero; zero]) None None None),
    (move_event prim [PFloat (f32 (Fin q)); PFloat zero; PFloat zero]).
  split_and!; [reflexivity|reflexivity|].
  rewrite validate_events_Ok. intros (_ & [Hv' _]%Forall_cons & _).
  apply valid_trs in Hv' as (_ & _ & fs & Hx); [|done].
  assert ("t" ∈ fs) as Ht by (apply (xf_exact _ _ Hx); split; [by left|by eexists]).
  pose proof (xf_vector _ _ Hx "t" Ht) as Hvec. unfold py_get in Hvec. simpl in Hvec.
  rewrite (f32_overflow q Hq) in Hvec. done.
Qed.

(** the type of a flat list is taken from its first element: after an
    integer, the fractions of the other elements are cut off, although the
    validators accept the attribute as it is. *)
Theorem mixed_list_is_truncated m prim name z (q : Qc) :
  m ≠ Some SHARED_STAGE -> require_prim_path (PStr prim) = Ok () -> IsValidNamespacedIdentifier name = true ->
  let w := Z.quot (QArith_base.Qnum q) (Zpos (QArith_base.Qden q)) in
  int_value 32 z -> int_value 32 w ->
  let ev values : event :=
    {["k" := PStr K_SET_GPRIM_ATTRS; "prim" := PStr prim; "attrs" := PDict [(name, PList values)]]} in
  validate_events m [ev [PInt z; PFloat (Fin q)]] = Ok () /\
  exists t, encode_event (ev [PInt z; PFloat (Fin q)]) = Ok t /\ decode_event t = Ok (ev [PInt z; PInt w]).
Proof.
  intros Hm Hp Hname w Hz Hw ev. split.
  - apply validate_events_Ok. split_and!; [done| |by intros _; split; vm_compute; lia].
    constructor; [|done]. unfold valid, validate_event_or_raise.
    assert (dict_get K_SET_GPRIM_ATTRS validators = Some validate_gprim_attrs) as Hval by done.
    assert (exists i, dict_get K_SET_GPRIM_ATTRS EVENT_KIND_INFO = Some i /\ modes i = [MANAGED]) as (i & Hi & Hmodes)
      by by eexists.
    change (py_get _ "k") with (PStr K_SET_GPRIM_ATTRS). unfold mbind at 1, result_bind at 1.
    rewrite Hi, Hval, Hmodes. change (py_get _ "prim") with (PStr prim). rewrite Hp.
    rewrite (proj2 (raise_if_Ok _ _ ())) by (by destruct m as [[]|]).
    rewrite (bool_decide_eq_false_2 (K_SET_GPRIM_ATTRS ∈ no_prim_check)) by (apply (bool_decide_unpack (K_SET_GPRIM_ATTRS ∉ no_prim_check)); by vm_compute).
    unfold validate_gprim_attrs. change (py_get _ "attrs") with (PDict [(name, PList [PInt z; PFloat (Fin q)])]).
    unfold mbind, result_bind. cbn [as_dict eachR fst snd valid_attr_value]. unfold require_identifier. by rewrite Hname.
  - exists (SetGprimAttrs prim [(name, AIntArray [z; w])] [] [] None). split; [|reflexivity].
    assert (mapR (np_int 32) [PInt z; PFloat (Fin q)] = Ok [z; w]) as Hl.
    { unfold int_value in Hz, Hw. change (np_int 32 (PInt w)) with (np_int 32 (PFloat (Fin q))) in Hw.
      cbn [mapR]. unfold mbind, result_bind. by rewrite Hz, Hw. }
    assert (encode_attr_value (PList [PInt z; PFloat (Fin q)]) = Ok (AIntArray [z; w])) as Hv.
    { cbn [encode_attr_value encode_attr_value_list]. by rewrite Hl. }
    transitivity (encode_set_gprim_attrs (ev [PInt z; PFloat (Fin q)])); [reflexivity|].
    unfold encode_set_gprim_attrs.
    change (string_item _ "prim") with (Ok prim : result string).
    change (as_mapping (get_or _ "attrs" _)) with (Ok [(name, PList [PInt z; PFloat (Fin q)])] : result (list (string * pyval))).
    unfold mbind, result_bind. cbn [mapR snd fst]. unfold mbind, result_bind. by rewrite Hv.
Qed.
End validated.

(** ** Concrete numbers and JSON, for the witnesses

    A float keeps its value below [2 ^ 128] and overflows from there on; JSON
    text is its value. *)

#[local] Existing Instance demo_sdf.

Definition demo_f32 (x : pyfloat) : pyfloat :=
  match x with
  | Fin q => if QArith_base.Qle_bool (this (of_Z (2 ^ 128))) (this q) then Inf false else x
  | _ => x
  end.

Lemma demo_f32_fin q :
  QArith_base.Qle_bool (this (of_Z (2 ^ 128))) (this q) = false -> demo_f32 (Fin q) = Fin q.
Proof. unfold demo_f32. by intros ->. Qed.
Lemma demo_f32_idem x : demo_f32 (demo_f32 x) = demo_f32 x.
Proof. destruct x as [q| |]; try done. unfold demo_f32. destruct (QArith_base.Qle_bool _ _) eqn:E; [done|]. by rewrite E. Qed.
Lemma demo_f32_overflow q : (of_Z (2 ^ 128) <= q)%Qc -> demo_f32 (Fin q) = Inf false.
Proof. intros Hq%QArith_base.Qle_bool_iff. unfold demo_f32. by rewrite Hq. Qed.

#[local] Instance demo_wire : Wire := {
  f64 := of_Z; f32 := demo_f32; json := pyval; dumps v := v; loads j := Ok j;
  float_of_str _ := Err ValueError; np_other _ := Err TypeError; np_other_int _ := Err TypeError;
  stray _ _ := Err ValueError;
  f32_idem := demo_f32_idem; f32_overflow := demo_f32_overflow; loads_dumps _ := eq_refl }.

Definition demo_fin (z : Z) : pyfloat := Fin (of_Z z).
Definition demo_points : payload :=
  SetGprimAttrs "/A"
    [("points", AFloatArray (map demo_fin [0; 1; 2; 3; 4; 5]%Z) 3); ("counts", AIntArray [3; -1]%Z); ("id", AScalarInt 7)]
    [mk_pvm "points" "point3f[]" (Some "vertex")] [("points", "linear")] (Some (demo_fin 24)).

Lemma wire_roundtrip_witness : exists ev, decode_event demo_points = Ok ev /\ encode_event ev = Ok demo_points.
Proof.
  apply (wire_roundtrip demo_points). split_and!.
  - by vm_compute; repeat constructor; intros ?; decompose_list_elem_of.
  - by vm_compute; repeat constructor; intros ?; decompose_list_elem_of.
  - by vm_compute; repeat constructor; intros ?; decompose_list_elem_of.
  - repeat constructor; try done; try (by apply demo_f32_fin).
    exists [map demo_fin [0; 1; 2]%Z; map demo_fin [3; 4; 5]%Z]. split; [done|by repeat constructor].
  - by repeat constructor.
Defined.

Definition demo_half : Qc := Q2Qc (QArith_base.Qmake 5 2).
Definition demo_attrs : event :=
  {["k" := PStr K_SET_GPRIM_ATTRS; "prim" := PStr "/A";
    "attrs" := PDict [("w", PList [PInt 1; PFloat (Fin demo_half)])]]}.

Lemma accepted_event_is_stable_witness :
  encode_event demo_attrs = Ok (SetGprimAttrs "/A" [("w", AIntArray [1; 2]%Z)] [] [] None) /\
  exists ev', decode_event (SetGprimAttrs "/A" [("w", AIntArray [1; 2]%Z)] [] [] None) = Ok ev' /\
    encode_event ev' = Ok (SetGprimAttrs "/A" [("w", AIntArray [1; 2]%Z)] [] [] None).
Proof.
  split; [by vm_compute|]. apply (accepted_event_is_stable None demo_attrs); [by vm_compute| | |by vm_compute].
  - repeat (apply map_Forall_insert_2; [first [done|apply NoDup_singleton]|]). apply map_Forall_empty.
  - by repeat constructor.
Defined.

Definition demo_move_msg : broadcast_msg :=
  mk_msg 7 {["k" := PStr K_SET_XFORM_TRS; "prim" := PStr "/A"; "fields" := PList [PStr "s"; PStr "t"];
             "t" := PList [PInt 1; PInt 2; PFloat (Fin demo_half)]; "s" := PList [PInt 1; PInt 1; PInt 1];
             "time" := PInt 24]} (Some "A") None None None.

Lemma template_encoder_agrees_witness :
  encode demo_move_msg = encode_broadcast_event demo_move_msg /\
  encode demo_move_msg =
    Ok (mk_broadcast 7 (SetXformTrs "/A" 5 (Some [demo_fin 1; demo_fin 2; Fin demo_half]) None
          (Some (repeat (demo_fin 1) 3)) (Some (demo_fin 24))) (Some "A") None None None).
Proof.
  split; [|by vm_compute]. apply (template_encoder_agrees None demo_move_msg); [by vm_compute|done|].
  intros fs Hx f l Hf Hl. apply (xf_exact _ _ Hx) in Hf as [Hf _].
  repeat (apply elem_of_cons in Hf as [->|Hf]; [vm_compute in Hl; try done; injection Hl as <-; by repeat constructor|]).
  by apply not_elem_of_nil in Hf.
Defined.

Lemma float32_overflow_is_refused_witness :
  let ev := move_event "/A" [PFloat (Fin (of_Z (2 ^ 128))); PFloat (Fin 0%Qc); PFloat (Fin 0%Qc)] in
  validate_events None [ev] = Ok () /\
  exists t ev', encode_event ev = Ok t /\ decode_event t = Ok ev' /\ validate_events None [ev'] ≠ Ok ().
Proof. apply (float32_overflow_is_refused None "/A" (of_Z (2 ^ 128))); [done|done|by vm_compute]. Defined.

Lemma mixed_list_is_truncated_witness :
  let ev values : event :=
    {["k" := PStr K_SET_GPRIM_ATTRS; "prim" := PStr "/A"; "attrs" := PDict [("w", PList values)]]} in
  validate_events None [ev [PInt 1; PFloat (Fin demo_half)]] = Ok () /\
  exists t, encode_event (ev [PInt 1; PFloat (Fin demo_half)]) = Ok t /\ decode_event t = Ok (ev [PInt 1; PInt 2]).
Proof. by apply (mixed_list_is_truncated None "/A" "w" 1 demo_half). Defined.
