(* ===== verification/Emitter.v ===== *)
(** * Emitter: what has changed since the last emission
    ([openusdconnect/emitter.py])

    The notice emitter compares what it reads of the edit target with what it
    emitted before, and sends the difference.  Modelled are its caches and
    diffs: sample tables and generic attributes, kept as fingerprints (Python's
    [hash]); the channels, each one slice of a prim's state; and the batch that
    stays prepared until it is sent.  What the stage and its edit target show is
    an argument of the definitions: reading it is USD's, as is the exact
    transport of cleared fields, which the theorems take as given.

    Python defines the hash of a number (documented: the value modulo
    [2 ^ 61 - 1], and [-2] in place of [-1]); the hashes of strings, tuples,
    [None] and not-a-number are the class [Hashing].  Values are the Python
    values of the wire: arrays, which the code fingerprints by their bytes, are
    not modelled.

    Theorems: a receiver of the diffs shows the sample tables, the attributes
    and the channels' dictionaries as they are now, however they were edited,
    as long as the hashes of the values differ; [-1] and [-2] have one hash, and
    an edit from one to the other is never sent; a cleared visibility set again
    to its old value is not sent; no prepared event is lost or sent twice. *)

From Stdlib Require Import QArith.Qcanon Zpow_facts.
From S2P Require Import Prelude Constants Coalescing.

Lemma dict_get_filter_key {K V} `{EqDecision K} (P : K * V -> Prop) (Q : K -> Prop)
    `{!forall x, Decision (P x)} `{!forall x, Decision (Q x)} k (d : list (K * V)) :
  (forall kv, P kv <-> Q kv.1) -> dict_get k (filter P d) = if decide (Q k) then dict_get k d else None.
Proof.
  intros HPQ. induction d as [|[u v] d IH]; [by case_decide|]. rewrite filter_cons. specialize (HPQ (u, v)). cbn in HPQ.
  destruct (decide (P (u, v))) as [Hu|Hu]; cbn [dict_get]; rewrite IH; case_bool_decide as E; try done; subst u;
    by destruct (decide (Q k)); try tauto.
Qed.

(** ** Fingerprints *)

Definition hash_modulus : Z := 2 ^ 61 - 1.

(** [-1] is reserved for errors. *)
Definition fix_hash (h : Z) : Z := if (h =? -1)%Z then (-2)%Z else h.

Definition hash_int (z : Z) : Z := fix_hash (Z.rem z hash_modulus).

(** A float is hashed as the fraction it is. *)
Definition hash_fin (q : Qc) : Z :=
  let num := QArith_base.Qnum q in
  let den := Zpos (QArith_base.Qden q) in
  if (den mod hash_modulus =? 0)%Z then (Z.sgn num * 314159)%Z
  else fix_hash (Z.sgn num * ((Z.abs num * Zpow_mod den (hash_modulus - 2) hash_modulus) mod hash_modulus)).

Class Hashing := {
  hash_str : string -> Z;
  hash_tuple : list Z -> Z;     (* of the hashes of the elements *)
  hash_none : Z;
  hash_nan : Z;
}.

Definition hash_float `{Hashing} (f : pyfloat) : Z :=
  match f with
  | Fin q => hash_fin q
  | Inf negative => if negative then (-314159)%Z else 314159%Z
  | NaN => hash_nan
  end.

(** [_value_hash] *)
Fixpoint value_hash `{Hashing} (v : pyval) : Z :=
  match v with
  | PNone => hash_none
  | PBool b => if b then 1%Z else 0%Z
  | PInt z => hash_int z
  | PFloat f => hash_float f
  | PStr s => hash_str s
  | PList l => hash_tuple (map (fun v => hash_int (value_hash v)) l)
  | PDict d =>
      hash_tuple (map (fun kh => hash_tuple [hash_str kh.1; hash_int kh.2])
                      (merge_sort item_le (map (fun kv => (kv.1, value_hash kv.2)) d)))
  end.

(** ** Sample tables *)

Section samples.
Context `{Hashing}.

Definition Qcle' (x y : Qc) : Prop := (x <= y)%Qc.
#[local] Instance Qcle'_dec : RelDecision Qcle' := Qc_le_dec.
Definition sorted_times (l : list Qc) : list Qc := merge_sort Qcle' l.

(** The fingerprint of each time; a time whose value only the exact Sdf
    transport can carry has none. *)
Abbreviation sample_cache := (list (Qc * option Z)).

Definition fingerprint (v : pyval) : option Z := if bool_decide (v = PNone) then None else Some (value_hash v).

(** [_diff_time_samples]: [present] tells whether the attribute exists,
    [samples] is the table of the edit target. *)
Definition diff_time_samples (present : bool) (samples : list (Qc * pyval)) (cached : option sample_cache)
    (convert : pyval -> pyval) (collect_changes : bool) : sample_cache * list (Qc * pyval) * list Qc :=
  let keys := map fst (default [] cached) in
  if negb present || bool_decide (samples = []) then ([], [], sorted_times keys)
  else
    let times := sorted_times (map fst samples) in
    let removed := sorted_times (filter (fun t => t ∉ times) keys) in
    let read := map (fun t => (t, convert (default PNone (dict_get t samples)))) times in
    let new_cache := map (fun tv => (tv.1, fingerprint tv.2)) read in
    let dirty := filter (fun tv => tv.2 ≠ PNone /\ mjoin (dict_get tv.1 (default [] cached)) ≠ fingerprint tv.2) read in
    (new_cache, if collect_changes then dirty else [], removed).

(** An emitted erasure: of an attribute, at the given times. *)
Abbreviation erasure := (string * list Qc)%type.

(** [_collect_sample_changes]: the erasures, and the changed values, which the
    caller turns into events after them. *)
Definition collect_sample_changes (present : bool) (name : string) (target_name : option string)
    (samples : list (Qc * pyval)) (convert : pyval -> pyval) (ts_cache : list (string * sample_cache)) :
    list (string * sample_cache) * list erasure * list (Qc * pyval) :=
  if negb present then (ts_cache, [], []) else
  let cached := dict_get name ts_cache in
  if bool_decide (default [] cached = []) && bool_decide (samples = []) then (ts_cache, [], []) else
  let '(new_cache, dirty, removed) := diff_time_samples present samples cached convert true in
  let erasures :=
    if bool_decide (removed = []) then [] else
    (name, removed) :: match target_name with
                       | Some target => if bool_decide (target = name) then [] else [(target, removed)]
                       | None => []
                       end in
  (dict_set name (fun _ => new_cache) ts_cache, erasures, dirty).

(** What the receiver does with them. *)
Definition apply_samples (removed : list Qc) (dirty table : list (Qc * pyval)) : list (Qc * pyval) :=
  foldl (fun tbl tv => dict_set tv.1 (fun _ => tv.2) tbl) (filter (fun tv => tv.1 ∉ removed) table) dirty.

(** One emission of a table, and its arrival. *)
Definition emit_samples (convert : pyval -> pyval) (st : sample_cache * list (Qc * pyval)) (samples : list (Qc * pyval)) :
    sample_cache * list (Qc * pyval) :=
  let '(cached, table) := st in
  let '(new_cache, dirty, removed) := diff_time_samples true samples (Some cached) convert true in
  (new_cache, apply_samples removed dirty table).

(** The hashes of the given values tell them apart. *)
Definition told_apart (vs : list pyval) : Prop :=
  forall v w, v ∈ vs -> w ∈ vs -> value_hash v = value_hash w -> v = w.

(** *** Lemmas *)

Lemma dict_get_graph {V} (P : Qc * V -> Prop) `{!forall x, Decision (P x)} (f : Qc -> V) l t :
  dict_get t (filter P (map (fun t => (t, f t)) l)) = if decide (t ∈ l /\ P (t, f t)) then Some (f t) else None.
Proof.
  induction l as [|u l IH]; cbn [map]; [by rewrite decide_False by (intros [[]%not_elem_of_nil _])|].
  rewrite filter_cons. destruct (decide (u = t)) as [->|Hne].
  - destruct (decide (P (t, f t))) as [HP|HP].
    + cbn [dict_get]. rewrite bool_decide_true, decide_True by first [done|split; [by left|done]]. done.
    + rewrite IH. by rewrite !decide_False by tauto.
  - assert (t ∈ u :: l <-> t ∈ l) as Hiff by (rewrite elem_of_cons; naive_solver).
    transitivity (dict_get t (filter P (map (fun t => (t, f t)) l))).
    { destruct (decide (P (u, f u))); [|done]. cbn [dict_get]. by rewrite bool_decide_false. }
    rewrite IH. destruct (decide (t ∈ l /\ P (t, f t))); [by rewrite decide_True by (by rewrite Hiff)|].
    by rewrite decide_False by (by rewrite Hiff).
Qed.

Lemma dict_get_graph_all {V} (f : Qc -> V) l t :
  dict_get t (map (fun t => (t, f t)) l) = if decide (t ∈ l) then Some (f t) else None.
Proof.
  induction l as [|u l IH]; cbn [map dict_get]; [by rewrite decide_False by by intros []%not_elem_of_nil|].
  case_bool_decide as E; [subst u; by rewrite decide_True by by left|]. rewrite IH.
  destruct (decide (t ∈ l)); [by rewrite decide_True by by right|].
  by rewrite decide_False by (rewrite elem_of_cons; naive_solver).
Qed.

Lemma dict_get_foldl {V} (l : list (Qc * V)) d t : NoDup (map fst l) ->
  dict_get t (foldl (fun d tv => dict_set tv.1 (fun _ => tv.2) d) d l) =
  match dict_get t l with Some v => Some v | None => dict_get t d end.
Proof.
  revert d. induction l as [|[u v] l IH]; intros d; [done|]. cbn [map fst snd]. intros [Hu Hl]%NoDup_cons.
  cbn [foldl]. rewrite IH by done. cbn [dict_get fst snd]. rewrite dict_get_set. case_bool_decide as E.
  - subst u. rewrite (proj2 (dict_get_None t l)) by done. by rewrite decide_True.
  - destruct (dict_get t l); [done|]. by rewrite decide_False by congruence.
Qed.

Lemma dict_get_erase {V} (removed : list Qc) (table : list (Qc * V)) t :
  dict_get t (filter (fun tv => tv.1 ∉ removed) table) = if decide (t ∈ removed) then None else dict_get t table.
Proof.
  rewrite (dict_get_filter_key _ (fun t => t ∉ removed)) by done.
  destruct (decide (t ∈ removed)); [by rewrite decide_False by tauto|by rewrite decide_True].
Qed.

Lemma elem_of_sorted_times l t : t ∈ sorted_times l <-> t ∈ l.
Proof. unfold sorted_times. by rewrite merge_sort_Permutation. Qed.
Lemma sorted_times_NoDup l : NoDup l -> NoDup (sorted_times l).
Proof. unfold sorted_times. by rewrite merge_sort_Permutation. Qed.

Lemma filter_keys_NoDup {V} (P : Qc * V -> Prop) `{!forall x, Decision (P x)} (f : Qc -> V) l :
  NoDup l -> NoDup (map fst (filter P (map (fun t => (t, f t)) l))).
Proof. intros Hl. apply dict_filter_NoDup. rewrite map_map. cbn [fst]. by rewrite map_id. Qed.

(** The cache describes what the receiver shows. *)
Definition tracks (vs : list pyval) (cached : sample_cache) (table : list (Qc * pyval)) : Prop :=
  forall t, match dict_get t cached with
            | Some (Some h) => exists v, v ∈ vs /\ dict_get t table = Some v /\ value_hash v = h
            | Some None => True
            | None => dict_get t table = None
            end.

Variable convert : pyval -> pyval.

(** The receiver shows the table, as far as values can carry it. *)
Definition shows (table samples : list (Qc * pyval)) : Prop :=
  forall t, match dict_get t samples with
            | Some v => convert v ≠ PNone -> dict_get t table = Some (convert v)
            | None => dict_get t table = None
            end.

Definition values (samples : list (Qc * pyval)) : list pyval := map (fun tv => convert tv.2) samples.

(** One emission, time by time *)
Lemma emit_samples_lookup cached table samples t :
  NoDup (map fst samples) -> (dict_get t cached = None -> dict_get t table = None) ->
  let '(cached', table') := emit_samples convert (cached, table) samples in
  dict_get t cached' = (fun v => fingerprint (convert v)) <$> dict_get t samples /\
  dict_get t table' =
    match dict_get t samples with
    | Some v => if decide (convert v ≠ PNone /\ mjoin (dict_get t cached) ≠ fingerprint (convert v))
                then Some (convert v) else dict_get t table
    | None => None
    end.
Proof.
  intros Hnd Ht. unfold emit_samples, diff_time_samples. change (default [] (Some cached)) with cached. cbn [negb orb].
  case_bool_decide as Hnil.
  { subst samples. split; [done|]. unfold apply_samples. cbn [dict_get foldl]. rewrite dict_get_erase.
    case_decide as Hr; [done|]. rewrite elem_of_sorted_times, <-dict_get_None in Hr. by apply Ht. }
  set (times := sorted_times (map fst samples)).
  assert (NoDup times) as Htimes by by apply sorted_times_NoDup.
  assert (t ∉ times <-> dict_get t samples = None) as Hin by (unfold times; by rewrite elem_of_sorted_times, dict_get_None).
  split.
  - rewrite map_map. cbn [fst snd]. rewrite (dict_get_graph_all (fun t => fingerprint (convert (default PNone (dict_get t samples))))).
    destruct (dict_get t samples) as [v|] eqn:E; [|by rewrite decide_False by by apply Hin].
    rewrite decide_True; [done|]. destruct (decide (t ∈ times)); [done|naive_solver].
  - unfold apply_samples. rewrite dict_get_foldl by by apply filter_keys_NoDup.
    rewrite dict_get_graph, dict_get_erase. cbn [fst snd].
    destruct (dict_get t samples) as [v|] eqn:E.
    + assert (t ∈ times) as Hin' by (destruct (decide (t ∈ times)); [done|naive_solver]).
      cbn [default from_option]. unfold id.
      destruct (decide (convert v ≠ PNone /\ _)) as [Hd|Hd]; [by rewrite decide_True|]. rewrite decide_False by tauto.
      rewrite decide_False; [done|]. rewrite elem_of_sorted_times, list_elem_of_filter. tauto.
    + assert (t ∉ times) as Hout by by apply Hin. rewrite decide_False by tauto. case_decide as Hr; [done|].
      rewrite elem_of_sorted_times, list_elem_of_filter in Hr. apply Ht, dict_get_None. tauto.
Qed.

Lemma emit_samples_tracks vs cached table samples :
  told_apart vs -> NoDup (map fst samples) -> values samples ⊆ vs -> tracks vs cached table ->
  let '(cached', table') := emit_samples convert (cached, table) samples in
  tracks vs cached' table' /\ shows table' samples.
Proof.
  intros Hvs Hnd Hsub Ht.
  assert (forall t, let '(cached', table') := emit_samples convert (cached, table) samples in
            dict_get t cached' = (fun v => fingerprint (convert v)) <$> dict_get t samples /\
            match dict_get t samples with
            | Some v => convert v ≠ PNone -> convert v ∈ vs /\ dict_get t table' = Some (convert v)
            | None => dict_get t table' = None
            end) as Hlook.
  { intros t. specialize (Ht t). pose proof (emit_samples_lookup cached table samples t Hnd) as Hl.
    destruct (emit_samples convert (cached, table) samples) as [cached' table'].
    destruct Hl as [Hc Htab]; [by intros E; rewrite E in Ht|]. split; [done|].
    destruct (dict_get t samples) as [v|] eqn:Hv; [|done]. intros Hblock.
    assert (convert v ∈ vs) as Hin.
    { apply Hsub, list_elem_of_fmap. exists (t, v). split; [done|]. by apply dict_get_elem. }
    split; [done|]. rewrite Htab. case_decide as Hd; [done|].
    assert (mjoin (dict_get t cached) = fingerprint (convert v)) as Hsame
      by (destruct (decide (mjoin (dict_get t cached) = fingerprint (convert v))); [done|tauto]).
    unfold fingerprint in Hsame. rewrite bool_decide_false in Hsame by done.
    destruct (dict_get t cached) as [[h|]|]; cbn in Hsame; [|done..]. injection Hsame as ->.
    destruct Ht as (w & Hw & -> & Heq). f_equal. by apply Hvs. }
  destruct (emit_samples convert (cached, table) samples) as [cached' table']. split; intros t; destruct (Hlook t) as [Hc Hs].
  - rewrite Hc. destruct (dict_get t samples) as [v|]; [|done]. cbn. unfold fingerprint. case_bool_decide as Hb; [done|].
    destruct (Hs Hb) as [Hin Htab]. by exists (convert v).
  - destruct (dict_get t samples) as [v|]; [|done]. intros Hb. by apply Hs.
Qed.

Lemma emit_samples_loop vs edits st :
  told_apart vs -> Forall (fun samples => NoDup (map fst samples) /\ values samples ⊆ vs) edits ->
  tracks vs st.1 st.2 -> tracks vs (foldl (emit_samples convert) st edits).1 (foldl (emit_samples convert) st edits).2.
Proof.
  intros Hvs. revert st. induction edits as [|samples edits IH]; intros [cached table] He Ht; [done|].
  apply Forall_cons in He as [[Hnd Hsub] He]. cbn [foldl]. apply IH; [done|].
  pose proof (emit_samples_tracks vs cached table samples Hvs Hnd Hsub Ht) as Hstep.
  destruct (emit_samples convert (cached, table) samples). apply Hstep.
Qed.

(** C25: whatever sequence of sample tables the edit target went through, the
    receiver of the erasures and changed values shows the last one, provided
    the fingerprints tell the values apart. *)
Theorem samples_follow_edits edits samples :
  Forall (fun samples => NoDup (map fst samples)) (edits ++ [samples]) ->
  told_apart (concat (map values (edits ++ [samples]))) ->
  shows (foldl (emit_samples convert) ([], []) (edits ++ [samples])).2 samples.
Proof.
  intros Hnd Hvs.
  assert (Forall (fun l => NoDup (map fst l) /\
            values l ⊆ concat (map values (edits ++ [samples]))) (edits ++ [samples])) as He.
  { apply Forall_forall. intros l Hl. split; [by eapply (proj1 (Forall_forall _ _) Hnd)|]. intros v Hv.
    apply list_elem_of_In, in_concat. exists (values l). rewrite <-!list_elem_of_In. split; [|done].
    apply list_elem_of_fmap. exists l. split; [done|]. exact Hl. }
  set (vs := concat _) in *. clearbody vs. apply Forall_app in He as [He Hl]. apply Forall_singleton in Hl as [Hnd' Hsub].
  pose proof (emit_samples_loop vs edits ([], []) Hvs He) as Ht. rewrite foldl_app. cbn [foldl].
  destruct (foldl (emit_samples convert) ([], []) edits) as [cached table]. cbn [fst snd] in Ht.
  pose proof (emit_samples_tracks vs cached table samples Hvs Hnd' Hsub) as Hstep.
  destruct (emit_samples convert (cached, table) samples) as [cached' table'].
  by apply Hstep, Ht.
Qed.
End samples.

(** ** Default values of generic attributes *)

Section attributes.
Context `{Hashing}.

(** What the emitter reads of an attribute: it does not exist, its default is
    not authored in the edit target, its value is carried by exact Sdf fields,
    or the value for the wire ([PNone] when it has none). *)
Inductive attribute_read : Type :=
  | NoAttribute
  | NotAuthored
  | NeedsSdf
  | Authored (v : pyval).

Abbreviation fingerprints := (list (string * Z)).

(** One name of the loop of [_build_default_gprim_event]: the cache, whose
    entries are popped at once, and the changed values with their hashes. *)
Definition gprim_attribute (attr_filter : string -> bool) (owned : list string) (read : string -> attribute_read)
    (st : fingerprints * list (string * pyval) * fingerprints) (name : string) :
    fingerprints * list (string * pyval) * fingerprints :=
  let '(previous, changed, hashes) := st in
  if negb (attr_filter name) || bool_decide (name ∈ owned) then st else
  match read name with
  | NoAttribute | NeedsSdf => st
  | NotAuthored => (dict_pop name previous, changed, hashes)
  | Authored v =>
      let h := value_hash v in
      if bool_decide (v = PNone) then (dict_pop name previous, changed, hashes)
      else if bool_decide (dict_get name previous = Some h) then st
      else (previous, dict_set name (fun _ => v) changed, dict_set name (fun _ => h) hashes)
  end.

(** The names whose values are read *)
Definition names_to_read (noticed authored : list string) (full_scan : bool) (cached : fingerprints) : list string :=
  if full_scan || (bool_decide (noticed = []) && bool_decide (cached = []))
  then noticed ++ authored ++ map fst cached else noticed.

(** [_build_default_gprim_event]: the new cache and the attributes of the event,
    if there is one.  [noticed] are the names of the notices, [authored] the
    names with a local default. *)
Definition build_default_gprim_event (attr_filter : string -> bool) (owned noticed authored : list string) (full_scan : bool)
    (read : string -> attribute_read) (cached : fingerprints) : fingerprints * option (list (string * pyval)) :=
  let '(previous, changed, hashes) :=
    foldl (gprim_attribute attr_filter owned read) (cached, [], []) (names_to_read noticed authored full_scan cached) in
  if bool_decide (changed = []) then (previous, None)
  else (foldl (fun d nh => dict_set nh.1 (fun _ => nh.2) d) previous hashes, Some changed).
End attributes.

(** ** Channels *)

(** [changed = {name: ... if current.get(name, "") != cached.get(name, "")}] *)
Definition changed_items (current cached : list (string * string)) : list (string * string) :=
  let get d name := default "" (dict_get name d) in
  map (fun name => (name, get current name))
    (filter (fun name => get current name ≠ get cached name)
       (map fst current ++ filter (fun name => name ∉ map fst current) (map fst cached))).

(** A channel: the state it reads, the snapshot it keeps, the diff it emits. *)
Record channel := mk_channel {
  ch_state : Type; ch_snapshot : Type; ch_diff : Type;
  watched_attrs : list string;
  watched_prefixes : list string;
  reads_on_resync_only : bool;
  diff_and_snapshot : ch_state -> option ch_snapshot -> option ch_diff * ch_snapshot;
  update_snapshot : ch_snapshot -> ch_snapshot -> ch_snapshot;
  to_event : string -> ch_diff -> list event }.

(** [needs_read]: [None] asks for the full state. *)
Definition needs_read (c : channel) (dirty_attrs : option (list string)) : bool :=
  match dirty_attrs with
  | None | Some [] => true
  | Some names =>
      if reads_on_resync_only c then false
      else if bool_decide (watched_attrs c = []) && bool_decide (watched_prefixes c = []) then true
      else existsb (fun a => bool_decide (a ∈ watched_attrs c) || existsb (fun p => String.prefix p a) (watched_prefixes c)) names
  end.

(** [_emit_channel_events]: the events and the new cache slot. *)
Definition emit_channel_events (c : channel) (prim : string) (current : ch_state c) (cached : option (ch_snapshot c))
    (partial : bool) : list event * option (ch_snapshot c) :=
  let '(d, snapshot) := diff_and_snapshot c current cached in
  (match d with Some d => to_event c prim d | None => [] end,
   Some (match partial, cached with true, Some old => update_snapshot c old snapshot | _, _ => snapshot end)).

(** One channel's turn in [_build_prim_channel_events]: [scoped] is what
    [read_scoped] returns, [full] what [_read_channel] returns. *)
Definition channel_turn (c : channel) (prim : string) (dirty_attrs : option (list string))
    (scoped full : option (ch_state c)) (cached : option (ch_snapshot c)) : list event * option (ch_snapshot c) :=
  if negb (needs_read c dirty_attrs) then ([], cached) else
  let scoped := match dirty_attrs with None | Some [] => None | Some _ => scoped end in
  match scoped with
  | Some current => emit_channel_events c prim current cached true
  | None =>
      match full with
      | Some current => emit_channel_events c prim current cached false
      | None => ([], cached)
      end
  end.

(** A channel of a prim: whether it applies, what its reads return now, and its
    cache slot. *)
Record channel_slot := mk_slot {
  sl_channel : channel; sl_applies : bool;
  sl_scoped : option (ch_state sl_channel); sl_full : option (ch_state sl_channel);
  sl_cached : option (ch_snapshot sl_channel) }.

(** [_build_prim_channel_events]: the events, the attributes channels own, and
    the slots. *)
Fixpoint build_prim_channel_events (prim : string) (dirty_attrs : option (list string)) (slots : list channel_slot) :
    list event * list string * list channel_slot :=
  match slots with
  | [] => ([], [], [])
  | s :: slots =>
      let '(events, owned, slots) := build_prim_channel_events prim dirty_attrs slots in
      if negb (sl_applies s) then (events, owned, s :: slots) else
      let '(now, cached) := channel_turn (sl_channel s) prim dirty_attrs (sl_scoped s) (sl_full s) (sl_cached s) in
      (now ++ events, watched_attrs (sl_channel s) ++ owned,
       mk_slot (sl_channel s) true (sl_scoped s) (sl_full s) cached :: slots)
  end.

(** [PrimChannel.diff] and [cache_snapshot] *)
Definition default_diff {A} `{EqDecision A} (cache_default : option A) (current : A) (cached : option A) : option A * A :=
  let cached := match cached with Some c => Some c | None => cache_default end in
  (if bool_decide (cached = Some current) then None else Some current, current).

Definition items_diff (current : list (string * string)) (cached : option (list (string * string))) :
    option (list (string * string)) * list (string * string) :=
  let changed := changed_items current (default [] cached) in
  (if bool_decide (changed = []) then None else Some changed, current).

(** [old.update(new)] *)
Definition update_items {A} (old new : list (string * A)) : list (string * A) :=
  foldl (fun d kv => dict_set kv.1 (fun _ => kv.2) d) old new.

Definition str_items (d : list (string * string)) : pyval := PDict (map (fun kv => (kv.1, PStr kv.2)) d).

(** A channel whose state is a dictionary of strings; [""] stands for absence. *)
Definition items_channel (attrs prefixes : list string) (resync : bool)
    (events : string -> list (string * string) -> list event) : channel := {|
  watched_attrs := attrs; watched_prefixes := prefixes; reads_on_resync_only := resync;
  diff_and_snapshot := items_diff; update_snapshot := update_items; to_event := events |}.

Definition variant_events (prim : string) (d : list (string * string)) : list event :=
  [{["k" := PStr K_SET_VARIANT_SELECTIONS; "prim" := PStr prim; "selections" := str_items d]}].
Definition variant_selections_channel : channel := items_channel [] [] true variant_events.

Definition material_binding_event (prim : string) (b : string * string) : event :=
  let ev : event := {["k" := PStr K_SET_MATERIAL_BINDING; "prim" := PStr prim; "material_path" := PStr b.2]} in
  if bool_decide (b.1 = "") then ev else <["material_purpose" := PStr b.1]> ev.
Definition material_events (prim : string) (d : list (string * string)) : list event := map (material_binding_event prim) d.
Definition material_binding_channel : channel := items_channel [] ["material:binding"] false material_events.

Definition visibility_channel : channel := {|
  watched_attrs := ["visibility"]; watched_prefixes := []; reads_on_resync_only := false;
  diff_and_snapshot := default_diff None; update_snapshot _ new := new;
  to_event prim (d : string) :=
    [{["k" := PStr K_SET_VISIBILITY; "prim" := PStr prim; "visible" := PBool (negb (bool_decide (d = "invisible")))]}] |}.

Definition payload_load_state_channel : channel := {|
  watched_attrs := []; watched_prefixes := []; reads_on_resync_only := true;
  diff_and_snapshot := default_diff None; update_snapshot _ new := new;
  to_event prim (d : bool) := [{["k" := PStr (if d then K_LOAD_PAYLOAD else K_UNLOAD_PAYLOAD); "prim" := PStr prim]}] |}.

(** The dictionary [{"instanceable": b}], or the empty one. *)
Definition instanceable_channel : channel := {|
  watched_attrs := []; watched_prefixes := []; reads_on_resync_only := true;
  diff_and_snapshot := default_diff (Some None); update_snapshot old new := match new with Some b => Some b | None => old end;
  to_event prim (d : option bool) :=
    match d with
    | Some b => [{["k" := PStr K_SET_INSTANCEABLE; "prim" := PStr prim; "instanceable" := PBool b]}]
    | None => []
    end |}.

Record arc_state := mk_arc_state { as_entries : list pyval; as_authored : bool; as_explicit : bool }.
#[global] Instance arc_state_eq_dec : EqDecision arc_state.
Proof. solve_decision. Defined.

(** [ReferencesChannel] and [PayloadsChannel] *)
Definition arc_channel (kind key : string) : channel := {|
  watched_attrs := []; watched_prefixes := []; reads_on_resync_only := true;
  diff_and_snapshot := default_diff (Some (mk_arc_state [] false false)); update_snapshot _ new := new;
  to_event prim d := [{["k" := PStr kind; "prim" := PStr prim; key := PList (as_entries d);
    "list_op_authored" := PBool (as_authored d); "list_op_explicit" := PBool (as_explicit d)]}] |}.
Definition references_channel : channel := arc_channel K_SET_REFERENCE "refs".
Definition payloads_channel : channel := arc_channel K_SET_PAYLOAD "payloads".

(** *** Connectable inputs and connections *)

(** [values_equal]: [a == b] *)
Definition num_of (v : pyval) : option pyfloat :=
  match v with
  | PBool b => Some (Fin (Q2Qc (QArith_base.inject_Z (if b then 1 else 0))))
  | PInt z => Some (Fin (Q2Qc (QArith_base.inject_Z z)))
  | PFloat f => Some f
  | _ => None
  end.
Fixpoint values_equal (v w : pyval) : bool :=
  match v, w with
  | PNone, PNone => true
  | PStr s, PStr t => bool_decide (s = t)
  | PList l, PList k =>
      (fix go (l k : list pyval) : bool :=
         match l, k with
         | [], [] => true
         | x :: l, y :: k => values_equal x y && go l k
         | _, _ => false
         end) l k
  | PDict d, PDict e =>
      (length d =? length e)%nat &&
      forallb (fun kv => match dict_get kv.1 e with Some w => values_equal kv.2 w | None => false end) d
  | _, _ =>
      match num_of v, num_of w with
      | Some NaN, _ | _, Some NaN => false
      | Some x, Some y => bool_decide (x = y)
      | _, _ => false
      end
  end.

(** The source of a connection, [None] for a blocked one. *)
Abbreviation connections := (list (string * option (string * string))).
Record connectable := mk_connectable {
  cn_info_id : string; cn_inputs : list (string * pyval); cn_types : list (string * string); cn_connections : connections }.

Record connectable_diff := mk_connectable_diff {
  cd_info_id : string;
  cd_inputs : option (list (string * pyval) * list (string * string));
  cd_connections : option (list (string * (string * string)) * list string) }.

Definition connectable_changes (current : connectable) (cached : option connectable) : option connectable_diff :=
  let last_inputs := match cached with Some c => cn_inputs c | None => [] end in
  let last_conns := match cached with Some c => cn_connections c | None => [] end in
  let changed_inputs :=
    filter (fun nv => values_equal nv.2 (default PNone (dict_get nv.1 last_inputs)) = false) (cn_inputs current) in
  let info_id := cn_info_id current in
  let info_id_changed := negb (bool_decide (info_id = "")) && negb (bool_decide (Some info_id = cn_info_id <$> cached)) in
  let changed_conns := filter (fun nc => dict_get nc.1 last_conns ≠ Some nc.2) (cn_connections current) in
  let new_conns := omap (fun nc => source ← nc.2; Some (nc.1, source)) changed_conns in
  let removed_conns :=
    filter (fun name => name ∉ map fst (cn_connections current)) (map fst last_conns) ++
    map fst (filter (fun nc => nc.2 = None) changed_conns) in
  let inputs_emit := negb (bool_decide (changed_inputs = [])) || info_id_changed in
  let conns_emit := negb (bool_decide (new_conns = [])) || negb (bool_decide (removed_conns = [])) in
  if negb inputs_emit && negb conns_emit then None else
  Some (mk_connectable_diff info_id
    (if inputs_emit
     then Some (changed_inputs, map (fun nv => (nv.1, default "" (dict_get nv.1 (cn_types current)))) changed_inputs)
     else None)
    (if conns_emit then Some (new_conns, removed_conns) else None)).

Definition source_value (s : string * string) : pyval := PDict [("source_prim", PStr s.1); ("source_attr", PStr s.2)].

Definition connectable_events (prim : string) (d : connectable_diff) : list event :=
  match cd_inputs d with
  | Some (inputs, types) =>
      [{["k" := PStr K_SET_CONNECTABLE_INPUT; "prim" := PStr prim; "info_id" := PStr (cd_info_id d);
         "inputs" := PDict inputs; "input_types" := str_items types]}]
  | None => []
  end ++
  match cd_connections d with
  | Some (new_conns, removed_conns) =>
      let ev : event := {["k" := PStr K_SET_CONNECTABLE_CONNECTION; "prim" := PStr prim;
        "connections" := PDict (map (fun nc => (nc.1, source_value nc.2)) new_conns)]} in
      [if bool_decide (removed_conns = []) then ev else <["disconnections" := PList (map PStr removed_conns)]> ev]
  | None => []
  end.

Definition connectable_channel : channel := {|
  watched_attrs := ["info:id"]; watched_prefixes := ["inputs:"; "outputs:"]; reads_on_resync_only := false;
  diff_and_snapshot current cached := (connectable_changes current cached, current);
  update_snapshot _ new := new; to_event := connectable_events |}.

(** *** Point instancers, fingerprinted like samples *)

Definition point_instancer_changes `{Hashing} (current : list (string * pyval)) (cached : option (list (string * Z))) :
    option (list (string * pyval)) * list (string * Z) :=
  let snapshot := map (fun nv => (nv.1, value_hash nv.2)) current in
  let changed := filter (fun nv => dict_get nv.1 (default [] cached) ≠ Some (value_hash nv.2)) current in
  (if bool_decide (changed = []) then None else Some changed, snapshot).

Definition point_instancer_events (prim : string) (d : list (string * pyval)) : list event :=
  [foldl (fun ev nv => <[nv.1 := nv.2]> ev)
     ({["k" := PStr K_SET_POINT_INSTANCER; "prim" := PStr prim; "fields" := PList (map (fun nv => PStr nv.1) d)]} : event) d].

Definition point_instancer_channel `{Hashing} : channel := {|
  watched_attrs := ["protoIndices"; "positions"; "orientations"; "orientationsf"; "scales"; "velocities"; "accelerations";
    "angularVelocities"; "ids"; "invisibleIds"; "prototypes"; "inactiveIds"];
  watched_prefixes := []; reads_on_resync_only := false;
  diff_and_snapshot := point_instancer_changes; update_snapshot := update_items; to_event := point_instancer_events |}.

(** ** The prepared batch *)

(** The batch handed out, and the number of batches so far: a batch is
    recognised by its identity. *)
Record outbox := mk_outbox { prepared_events : option (nat * list event); batches : nat }.
Definition outbox_init : outbox := mk_outbox None 0.

(** [build_events_for_dirty]: [built] is what the pending notices amount to. *)
Definition build_events_for_dirty (built : list event) (s : outbox) : outbox * result (list event) :=
  match prepared_events s with
  | Some _ => (s, Err RuntimeError)
  | None => (s, Ok built)
  end.

(** [prepare_events_for_send]; nothing is built while a batch is prepared. *)
Definition prepare_events_for_send (built : list event) (s : outbox) : outbox * option (nat * list event) :=
  match prepared_events s with
  | Some batch => (s, Some batch)
  | None =>
      match built with
      | [] => (s, None)
      | _ => (mk_outbox (Some (batches s, built)) (S (batches s)), Some (batches s, built))
      end
  end.

(** [prepare_coalesced_transform_events_for_send] *)
Definition prepare_coalesced (built : list event) (s : outbox) : outbox * option (nat * list event) :=
  match prepared_events s with
  | None => prepare_events_for_send built s
  | Some (id, events) =>
      let events := match built with [] => events | _ => merge_latest_transform_events events built end in
      (mk_outbox (Some (id, events)) (batches s), Some (id, events))
  end.

(** [mark_prepared_events_sent] *)
Definition mark_prepared_events_sent (id : nat) (s : outbox) : result outbox :=
  match prepared_events s with
  | None => Err RuntimeError
  | Some (id', _) => if bool_decide (id = id') then Ok (mk_outbox None (batches s)) else Err ValueError
  end.

Definition discard_prepared_events (s : outbox) : outbox := mk_outbox None (batches s).

(** * Theorems *)

(** ** The dictionaries of the channels *)

Lemma dict_get_pop {V} (k k' : string) (d : list (string * V)) :
  dict_get k (dict_pop k' d) = if decide (k = k') then None else dict_get k d.
Proof.
  unfold dict_pop. rewrite (dict_get_filter_key _ (fun u => u ≠ k')) by done.
  destruct (decide (k = k')); [by rewrite decide_False by tauto|by rewrite decide_True].
Qed.

Lemma update_items_get {A} (d new : list (string * A)) k : NoDup (map fst new) ->
  dict_get k (update_items d new) = match dict_get k new with Some v => Some v | None => dict_get k d end.
Proof.
  unfold update_items. revert d. induction new as [|[u v] new IH]; intros d; [done|]. cbn [map fst snd].
  intros [Hu Hl]%NoDup_cons. cbn [foldl fst snd]. rewrite IH by done. cbn [dict_get]. rewrite dict_get_set. case_bool_decide as E.
  - subst u. rewrite (proj2 (dict_get_None k new)) by done. by rewrite decide_True.
  - destruct (dict_get k new); [done|]. by rewrite decide_False by congruence.
Qed.

Lemma items_graph_get (P : string -> Prop) `{!forall x, Decision (P x)} (f : string -> string) l k :
  dict_get k (map (fun k => (k, f k)) (filter P l)) = if decide (k ∈ l /\ P k) then Some (f k) else None.
Proof.
  induction l as [|u l IH]; [by rewrite decide_False by by intros [[]%not_elem_of_nil _]|].
  rewrite filter_cons. destruct (decide (u = k)) as [->|Hne].
  - destruct (decide (P k)) as [HP|HP].
    + cbn [map dict_get]. rewrite bool_decide_true, decide_True by first [done|split; [by left|done]]. done.
    + rewrite IH. by rewrite !decide_False by tauto.
  - transitivity (dict_get k (map (fun k => (k, f k)) (filter P l))).
    { destruct (decide (P u)); [|done]. cbn [map dict_get]. by rewrite bool_decide_false. }
    assert (k ∈ u :: l <-> k ∈ l) as Hiff by (rewrite elem_of_cons; naive_solver).
    rewrite IH. destruct (decide (k ∈ l /\ P k)); [by rewrite decide_True by (by rewrite Hiff)|].
    by rewrite decide_False by (by rewrite Hiff).
Qed.

Abbreviation item d k := (default "" (dict_get k d)).

Lemma changed_items_NoDup current cached :
  NoDup (map fst current) -> NoDup (map fst cached) -> NoDup (map fst (changed_items current cached)).
Proof.
  intros Hc Hd. unfold changed_items. rewrite map_map. cbn [fst]. rewrite map_id. apply NoDup_filter, NoDup_app.
  split_and!; [done| |by apply NoDup_filter]. intros k Hk. rewrite list_elem_of_filter. tauto.
Qed.

(** Adding the changed items to what showed the cached ones gives what shows
    the current ones. *)
Lemma changed_items_follow current cached shown k :
  NoDup (map fst current) -> NoDup (map fst cached) -> (forall k, item shown k = item cached k) ->
  item (update_items shown (changed_items current cached)) k = item current k.
Proof.
  intros Hc Hd Hs. rewrite update_items_get by by apply changed_items_NoDup.
  unfold changed_items. rewrite (items_graph_get _ (fun k => item current k)). case_decide as Hk; [done|].
  cbn [default from_option]. rewrite Hs. rewrite elem_of_app, list_elem_of_filter in Hk.
  destruct (decide (item current k = item cached k)) as [->|Hne]; [done|]. destruct Hk. split; [|done].
  destruct (decide (k ∈ map fst current)) as [|Hin]; [by left|]. right. split; [done|].
  destruct (decide (k ∈ map fst cached)) as [|Hin']; [done|]. destruct Hne.
  apply dict_get_None in Hin, Hin'. by rewrite Hin, Hin'.
Qed.

(** What a receiver reads in an event of these channels. *)
Definition items_of_event (ev : event) : list (string * string) :=
  if bool_decide (kind_of ev = K_SET_VARIANT_SELECTIONS)
  then match ev !! "selections" with
       | Some (PDict d) => omap (fun kv => match kv.2 with PStr s => Some (kv.1, s) | _ => None end) d
       | _ => []
       end
  else [(str_of ev "material_purpose", str_of ev "material_path")].

(** One emission of a channel, and its arrival. *)
Definition emit_items (c : channel) (view : list (string * string) -> ch_state c)
    (st : option (ch_snapshot c) * list (string * string)) (current : list (string * string)) :
    option (ch_snapshot c) * list (string * string) :=
  let '(events, slot) := channel_turn c "/A" None None (Some (view current)) st.1 in
  (slot, foldl (fun shown ev => update_items shown (items_of_event ev)) st.2 events).

Lemma items_of_variant_events prim d shown :
  foldl (fun shown ev => update_items shown (items_of_event ev)) shown (variant_events prim d) = update_items shown d.
Proof.
  cbn [foldl variant_events]. f_equal. unfold items_of_event. rewrite bool_decide_true by done.
  change (_ !! "selections") with (Some (str_items d)). unfold str_items.
  induction d as [|[k v] d IH]; [done|]. cbn [map omap list_omap fst snd]. f_equal. exact IH.
Qed.

Lemma items_of_material_events prim d shown :
  foldl (fun shown ev => update_items shown (items_of_event ev)) shown (material_events prim d) = update_items shown d.
Proof.
  revert shown. induction d as [|[k v] d IH]; intros shown; [done|]. cbn [material_events map foldl].
  transitivity (update_items (update_items shown [(k, v)]) d); [|done].
  rewrite <-IH. do 2 f_equal. unfold material_binding_event. cbn [fst snd]. case_bool_decide as E; [by subst k|done].
Qed.

Section items.
Variables (attrs prefixes : list string) (resync : bool) (events : string -> list (string * string) -> list event).
Hypothesis events_ok : forall prim d shown,
  foldl (fun shown ev => update_items shown (items_of_event ev)) shown (events prim d) = update_items shown d.

Lemma emit_items_eq slot shown current :
  emit_items (items_channel attrs prefixes resync events) id (slot, shown) current =
  (Some current, update_items shown (changed_items current (default [] slot))).
Proof using events_ok.
  transitivity (Some current, foldl (fun shown ev => update_items shown (items_of_event ev)) shown
    (match (items_diff current slot).1 with Some d => events "/A" d | None => [] end)); [reflexivity|].
  f_equal. unfold items_diff. case_bool_decide as E; cbn [fst]; [by rewrite E|apply events_ok].
Qed.

Lemma emit_items_follow reads last k : Forall (fun d => NoDup (map fst d)) (reads ++ [last]) ->
  let st := foldl (emit_items (items_channel attrs prefixes resync events) id) (None, []) (reads ++ [last]) in
  item st.2 k = item last k /\ st.1 = Some last.
Proof using events_ok.
  revert last k. induction reads as [|r reads IH] using rev_ind; intros last k Hnd; rewrite foldl_app; cbn [foldl].
  - rewrite app_nil_l, Forall_singleton in Hnd. rewrite emit_items_eq. split; [|done].
    apply changed_items_follow; [done|constructor|done].
  - apply Forall_app in Hnd as [Hnd Hl]. rewrite Forall_singleton in Hl. pose proof (fun k => IH r k Hnd) as IHr.
    apply Forall_app in Hnd as [_ Hr]. rewrite Forall_singleton in Hr.
    destruct (foldl _ _ (reads ++ [r])) as [slot shown]. cbn [fst snd] in IHr.
    destruct (IHr k) as [_ ->]. rewrite emit_items_eq. split; [|done].
    apply changed_items_follow; [done..|]. intros k'. by destruct (IHr k').
Qed.
End items.

(** whatever sequence of variant selections, or of material bindings, a
    prim went through, a receiver of the channel's events shows the last. *)
Theorem channel_items_follow_edits reads last k :
  Forall (fun d => NoDup (map fst d)) (reads ++ [last]) ->
  item (foldl (emit_items variant_selections_channel id) (None, []) (reads ++ [last])).2 k = item last k /\
  item (foldl (emit_items material_binding_channel id) (None, []) (reads ++ [last])).2 k = item last k.
Proof.
  intros Hnd. split.
  - by apply (emit_items_follow [] [] true variant_events items_of_variant_events).
  - by apply (emit_items_follow [] ["material:binding"] false material_events items_of_material_events).
Qed.

(** ** Generic attributes *)

Section attribute_edits.
Context `{Hashing}.
Variables (attr_filter : string -> bool) (owned : list string).

(** One build: the notices, whether it reads everything, and the attributes
    with a local default, with their values. *)
Record attr_edit := mk_attr_edit { ae_noticed : list string; ae_full : bool; ae_values : list (string * pyval) }.

Definition read_attr (values : list (string * pyval)) (name : string) : attribute_read :=
  match dict_get name values with Some v => Authored v | None => NotAuthored end.

(** The build, and its arrival; the exact transport of cleared defaults is
    given: the receiver has forgotten what is no longer authored. *)
Definition emit_attributes (st : list (string * Z) * list (string * pyval)) (e : attr_edit) :
    list (string * Z) * list (string * pyval) :=
  let '(cached, event) := build_default_gprim_event attr_filter owned (ae_noticed e) (map fst (ae_values e)) (ae_full e)
                            (read_attr (ae_values e)) st.1 in
  (cached, update_items (filter (fun kv => kv.1 ∈ map fst (ae_values e)) st.2) (default [] event)).

(** What changed between the builds was noticed, or everything is read. *)
Fixpoint noticed_ok (previous : list (string * pyval)) (edits : list attr_edit) : Prop :=
  match edits with
  | [] => True
  | e :: edits =>
      (ae_full e = true \/ forall n, dict_get n (ae_values e) ≠ dict_get n previous -> n ∈ ae_noticed e)
      /\ noticed_ok (ae_values e) edits
  end.

Definition generic (n : string) : Prop := attr_filter n = true /\ n ∉ owned.

Section loop.
Variables (values : list (string * pyval)) (cached : list (string * Z)).
Hypothesis no_none : Forall (fun nv => nv.2 ≠ PNone) values.

Definition to_send (n : string) : Prop :=
  generic n /\ is_Some (dict_get n values) /\ dict_get n cached ≠ value_hash <$> dict_get n values.

Definition loop_ok (names : list string) (st : list (string * Z) * list (string * pyval) * list (string * Z)) : Prop :=
  let '(previous, changed, hashes) := st in
  (forall n, dict_get n previous =
             if decide (n ∈ names /\ generic n /\ dict_get n values = None) then None else dict_get n cached)
  /\ (forall n, n ∈ names -> to_send n -> dict_get n changed = dict_get n values)
  /\ (forall n v, dict_get n changed = Some v -> to_send n /\ dict_get n values = Some v)
  /\ (forall n, dict_get n hashes = value_hash <$> dict_get n changed)
  /\ NoDup (map fst changed) /\ NoDup (map fst hashes).

Lemma gprim_loop_ok names :
  loop_ok names (foldl (gprim_attribute attr_filter owned (read_attr values)) (cached, [], []) names).
Proof using no_none.
  induction names as [|n names IH] using rev_ind.
  { split_and!; [| | |done|constructor|constructor].
    - intros n. by rewrite decide_False by by intros [[]%not_elem_of_nil _].
    - by intros n []%not_elem_of_nil.
    - done. }
  rewrite foldl_app. cbn [foldl]. destruct (foldl _ _ names) as [[previous changed] hashes].
  destruct IH as (Hp & Hc & Hk & Hh & Hnc & Hnh). unfold gprim_attribute.
  assert (forall m, m ∈ names ++ [n] <-> m ∈ names \/ m = n) as Hin by (intros m; by rewrite elem_of_app, list_elem_of_singleton).
  destruct (decide (generic n)) as [Hg|Hg].
  2:{ assert (negb (attr_filter n) || bool_decide (n ∈ owned) = true) as ->.
      { apply orb_true_iff. rewrite negb_true_iff, bool_decide_eq_true. unfold generic in Hg.
        destruct (attr_filter n); [right|by left]. destruct (decide (n ∈ owned)); [done|naive_solver]. }
      split_and!; [|..]; try done.
      - intros m. rewrite Hp. apply decide_ext. rewrite Hin. naive_solver.
      - intros m [Hm| ->]%Hin Hs; [by apply Hc|]. by destruct Hs. }
  assert (negb (attr_filter n) || bool_decide (n ∈ owned) = false) as ->.
  { destruct Hg as [-> Hg]. by rewrite bool_decide_false. }
  unfold read_attr. destruct (dict_get n values) as [v|] eqn:Hv.
  - assert (v ≠ PNone) as Hnone.
    { apply dict_get_elem in Hv. rewrite Forall_forall in no_none. by apply (no_none (n, v)). }
    assert (dict_get n previous = dict_get n cached) as Hpn by (rewrite Hp; by rewrite decide_False by naive_solver).
    assert (forall m, dict_get m previous =
              if decide (m ∈ names ++ [n] /\ generic m /\ dict_get m values = None) then None else dict_get m cached) as Hp'.
    { intros m. rewrite Hp. apply decide_ext. rewrite Hin. naive_solver. }
    rewrite (bool_decide_false (v = PNone)) by done.
    case_bool_decide as Hsame.
    + split_and!; try done. intros m [Hm| ->]%Hin Hs; [by apply Hc|]. destruct Hs as (_ & _ & Hs).
      rewrite Hv, <-Hpn in Hs. by destruct Hs.
    + assert (to_send n) as Hsn by (split_and!; [done|by rewrite Hv|by rewrite Hv, <-Hpn]).
      split_and!; [done|..].
      * intros m Hm Hs. rewrite dict_get_set. case_decide as E; [by subst m|]. apply Hin in Hm as [Hm|Hm]; [by apply Hc|done].
      * intros m w. rewrite dict_get_set. case_decide as E; [intros [= <-]; by subst m|apply Hk].
      * intros m. rewrite !dict_get_set. case_decide; [done|apply Hh].
      * by apply dict_set_NoDup.
      * by apply dict_set_NoDup.
  - split_and!; [|..]; try done.
    + intros m. rewrite dict_get_pop, Hp.
      destruct (decide (m = n)) as [->|Hne]; [rewrite decide_True; [done|by rewrite Hin; auto]|]. apply decide_ext. rewrite Hin. naive_solver.
    + intros m [Hm| ->]%Hin Hs; [by apply Hc|]. destruct Hs as (_ & [? Hs] & _). congruence.
Qed.
End loop.

Lemma dict_get_authored {A} (shown : list (string * A)) (values : list (string * pyval)) n :
  dict_get n (filter (fun kv => kv.1 ∈ map fst values) shown) =
  match dict_get n values with Some _ => dict_get n shown | None => None end.
Proof.
  rewrite (dict_get_filter_key _ (fun k => k ∈ map fst values)) by done. destruct (dict_get n values) as [v|] eqn:E.
  - rewrite decide_True; [done|]. apply dict_get_elem in E. apply list_elem_of_fmap. by exists (n, v).
  - rewrite decide_False; [done|]. by apply dict_get_None.
Qed.

(** The cache holds the fingerprints of what the receiver shows. *)
Definition in_step (values : list (string * pyval)) (st : list (string * Z) * list (string * pyval)) : Prop :=
  forall n, generic n -> dict_get n st.1 = value_hash <$> dict_get n values /\ dict_get n st.2 = dict_get n values.

Lemma emit_attributes_ok vs prev e st :
  told_apart vs -> Forall (fun nv => nv.2 ≠ PNone) (ae_values e) -> map snd (ae_values e) ⊆ vs -> map snd prev ⊆ vs ->
  (ae_full e = true \/ forall n, dict_get n (ae_values e) ≠ dict_get n prev -> n ∈ ae_noticed e) ->
  in_step prev st -> in_step (ae_values e) (emit_attributes st e).
Proof.
  intros Hvs Hnone Hsub Hsub' Hcov Hst. destruct st as [cached shown]. unfold in_step in Hst. cbn [fst snd] in Hst.
  unfold emit_attributes, build_default_gprim_event. cbn [fst snd]. set (names := names_to_read _ _ _ _).
  assert (forall n, generic n -> dict_get n (ae_values e) ≠ dict_get n prev -> n ∈ names) as Hnames.
  { intros n Hg Hn. assert (ae_full e = true \/ ae_noticed e = [] -> n ∈ ae_noticed e ++ map fst (ae_values e) ++ map fst cached) as Hall.
    { intros _. rewrite !elem_of_app. right. destruct (dict_get n (ae_values e)) as [v|] eqn:E.
      - left. apply dict_get_elem, (list_elem_of_fmap_2 fst) in E. exact E.
      - right. destruct (dict_get n prev) as [v|] eqn:E'; [|done]. destruct (Hst n Hg) as [Hc _]. rewrite E' in Hc.
        cbn in Hc. apply dict_get_elem in Hc. apply list_elem_of_fmap. by exists (n, value_hash v). }
    unfold names, names_to_read. case_match eqn:E; [|destruct Hcov as [Hf|Hcov]; [by rewrite Hf in E|by apply Hcov]].
    apply orb_true_iff in E as [E|E]; [by apply Hall; left|]. apply andb_true_iff in E as [E _].
    apply Hall. right. by apply bool_decide_eq_true in E. }
  pose proof (gprim_loop_ok (ae_values e) cached Hnone names) as Hloop. clearbody names.
  destruct (foldl _ _ names) as [[previous changed] hashes]. destruct Hloop as (Hp & Hc & Hk & Hh & Hnc & Hnh).
  (* a generic attribute that was not sent is what it was *)
  assert (forall n v, generic n -> dict_get n (ae_values e) = Some v -> dict_get n changed = None ->
            dict_get n prev = Some v) as Hkept.
  { intros n v Hg Hv Hn. destruct (Hst n Hg) as [Hcn _]. destruct (decide (dict_get n prev = Some v)) as [|Hne]; [done|].
    assert (n ∈ names) as Hin by (apply Hnames; [done|congruence]).
    destruct (decide (dict_get n cached = Some (value_hash v))) as [Hsame|Hdiff].
    - rewrite Hsame in Hcn. destruct (dict_get n prev) as [w|] eqn:Hw; [|done]. injection Hcn as Heq.
      f_equal. apply Hvs; [| |done].
      + apply Hsub'. apply dict_get_elem in Hw. apply list_elem_of_fmap. by exists (n, w).
      + apply Hsub. apply dict_get_elem in Hv. apply list_elem_of_fmap. by exists (n, v).
    - assert (to_send (ae_values e) cached n) as Hs by (split_and!; [done|by rewrite Hv|by rewrite Hv]).
      by rewrite Hc, Hv in Hn. }
  assert (forall n, generic n -> dict_get n (update_items previous hashes) = value_hash <$> dict_get n (ae_values e)) as H1.
  { intros n Hg. rewrite update_items_get by done. rewrite Hh. destruct (dict_get n changed) as [w|] eqn:Hw.
    - apply Hk in Hw as [_ ->]. done.
    - cbn. rewrite Hp. destruct (dict_get n (ae_values e)) as [v|] eqn:Hv.
      + rewrite decide_False by naive_solver. destruct (Hst n Hg) as [-> _]. by rewrite (Hkept n v).
      + case_decide as Hd; [done|]. destruct (Hst n Hg) as [-> _]. destruct (dict_get n prev) eqn:Hpv; [|done].
        destruct Hd. split_and!; [|done..]. apply Hnames; [done|congruence]. }
  intros n Hg. split.
  - case_bool_decide as Hnil; cbn [fst]; [|by apply H1]. rewrite <-H1, update_items_get by done.
    by rewrite Hh, Hnil.
  - transitivity (dict_get n (update_items (filter (fun kv => kv.1 ∈ map fst (ae_values e)) shown) changed));
      [case_bool_decide as Hnil; [by rewrite Hnil|done]|].
    rewrite update_items_get by done. destruct (dict_get n changed) as [w|] eqn:Hw; [by apply Hk in Hw as [_ ->]|].
    rewrite dict_get_authored. destruct (dict_get n (ae_values e)) as [v|] eqn:Hv; [|done].
    destruct (Hst n Hg) as [_ ->]. by apply Hkept.
Qed.

Lemma emit_attributes_loop vs edits e prev st :
  told_apart vs ->
  Forall (fun e => Forall (fun nv => nv.2 ≠ PNone) (ae_values e) /\ map snd (ae_values e) ⊆ vs) (edits ++ [e]) ->
  map snd prev ⊆ vs -> noticed_ok prev (edits ++ [e]) -> in_step prev st ->
  in_step (ae_values e) (foldl emit_attributes st (edits ++ [e])).
Proof.
  intros Hvs. revert prev st. induction edits as [|e' edits IH]; intros prev st He Hp Hn Hst;
    apply Forall_cons in He as [[Hnone Hsub] He]; destruct Hn as [Hcov Hn];
    pose proof (emit_attributes_ok vs prev _ st Hvs Hnone Hsub Hp Hcov Hst) as Hstep; [exact Hstep|].
  by apply (IH (ae_values e')).
Qed.

(** C26: after any sequence of builds, edits and clears of the generic attributes
    of a prim, a receiver that also gets the exact clears shows the values of the
    last build, a value set again after a clear included, provided that each build
    was told of every change or reads everything ([noticed_ok]), no value is [None],
    and the fingerprints tell the values apart ([told_apart]; -1 and -2 are not). *)
Theorem attributes_follow_edits edits e n :
  noticed_ok [] (edits ++ [e]) -> Forall (fun e => Forall (fun nv => nv.2 ≠ PNone) (ae_values e)) (edits ++ [e]) ->
  told_apart (concat (map (fun e => map snd (ae_values e)) (edits ++ [e]))) -> generic n ->
  dict_get n (foldl emit_attributes ([], []) (edits ++ [e])).2 = dict_get n (ae_values e).
Proof.
  intros Hn Hnone Hvs Hg. set (vs := concat _) in Hvs.
  assert (Forall (fun e => Forall (fun nv => nv.2 ≠ PNone) (ae_values e) /\ map snd (ae_values e) ⊆ vs) (edits ++ [e])) as He.
  { apply Forall_forall. intros x Hx. split; [by apply (proj1 (Forall_forall _ _) Hnone)|]. intros v Hv.
    apply list_elem_of_In, in_concat. exists (map snd (ae_values x)). rewrite <-!list_elem_of_In. split; [|done].
    apply list_elem_of_fmap. by exists x. }
  pose proof (emit_attributes_loop vs edits e [] ([], []) Hvs He (list_subseteq_nil _) Hn
                (fun n _ => conj eq_refl eq_refl) n Hg) as [_ Hs]. exact Hs.
Qed.
End attribute_edits.

(** ** What fingerprints do not tell apart *)

Definition minus_one : pyval := PFloat (Fin (Q2Qc (QArith_base.inject_Z (-1)))).
Definition minus_two : pyval := PFloat (Fin (Q2Qc (QArith_base.inject_Z (-2)))).

Lemma minus_hash `{Hashing} : value_hash minus_one = value_hash minus_two.
Proof. by vm_compute. Qed.

Lemma vector_hash `{Hashing} l k : value_hash (PList (l ++ minus_one :: k)) = value_hash (PList (l ++ minus_two :: k)).
Proof. cbn [value_hash]. by rewrite !map_app. Qed.

Lemma emit_one_attribute `{Hashing} attr_filter owned name x cached shown :
  generic attr_filter owned name -> x ≠ PNone ->
  emit_attributes attr_filter owned (cached, shown) (mk_attr_edit [name] false [(name, x)]) =
  let kept := filter (fun kv => kv.1 ∈ [name]) shown in
  if bool_decide (dict_get name cached = Some (value_hash x)) then (cached, kept)
  else (dict_set name (fun _ => value_hash x) cached, dict_set name (fun _ => x) kept).
Proof.
  intros [Hf Ho] Hx. unfold emit_attributes, build_default_gprim_event, names_to_read, gprim_attribute, read_attr.
  cbn [fst snd ae_noticed ae_full ae_values orb foldl map]. rewrite (bool_decide_false ([name] = [])) by done.
  cbn [andb foldl dict_get]. rewrite Hf, (bool_decide_false (name ∈ owned)) by done. cbn [negb orb].
  rewrite (bool_decide_true (name = name)), (bool_decide_false (x = PNone)) by done.
  by destruct (bool_decide (dict_get name cached = Some (value_hash x))).
Qed.

(** C35: an edit of a component from -1 to -2 is never sent, neither of a
    generic attribute nor of a sample: in Python the two numbers have one
    hash. *)
Theorem edit_from_minus_one_is_missed `{Hashing} attr_filter owned name t l k :
  generic attr_filter owned name ->
  let v := PList (l ++ minus_one :: k) in let w := PList (l ++ minus_two :: k) in
  (emit_attributes attr_filter owned (emit_attributes attr_filter owned ([], []) (mk_attr_edit [name] false [(name, v)]))
     (mk_attr_edit [name] false [(name, w)])).2 = [(name, v)] /\
  (emit_samples id (emit_samples id ([], []) [(t, v)]) [(t, w)]).2 = [(t, v)].
Proof.
  intros Hg v w. assert (value_hash w = value_hash v) as Hh by by rewrite (vector_hash l k).
  split.
  - assert (emit_attributes attr_filter owned ([], []) (mk_attr_edit [name] false [(name, v)]) = ([(name, value_hash v)], [(name, v)])) as ->
      by by rewrite emit_one_attribute.
    rewrite emit_one_attribute by done. cbn [dict_get].
    rewrite (bool_decide_true (name = name)), Hh, bool_decide_true by done. cbn [snd]. rewrite filter_cons_True; [done|by left].
  - assert (emit_samples id ([], []) [(t, v)] = ([(t, Some (value_hash v))], [(t, v)])) as ->.
    { unfold emit_samples, diff_time_samples, sorted_times, fingerprint. cbn -[value_hash]. rewrite (bool_decide_true (t = t)) by done.
      cbn [default from_option]. rewrite (bool_decide_false (v = PNone)) by done. by rewrite decide_True. }
    unfold emit_samples, diff_time_samples, sorted_times, fingerprint. cbn -[value_hash]. rewrite (bool_decide_true (t = t)) by done.
    unfold from_option, id. cbn [mjoin option_join]. rewrite (bool_decide_false (w = PNone)) by done. rewrite Hh.
    rewrite (decide_False (P := w ≠ PNone /\ _)) by tauto. cbn [foldl].
    rewrite (decide_False (P := t ∉ [t])) by (intros Ht; apply Ht; by left).
    by rewrite decide_True by apply not_elem_of_nil.
Qed.

(** ** What is not sent again *)

(** C36: once a visibility opinion was emitted, clearing it, which another event
    transports, leaves the cache as it is: the same value set again is not
    sent.  The same goes for an array of a point instancer whose notices name
    the changed arrays. *)
Theorem cleared_opinion_is_not_sent_again `{Hashing} prim (vis : string) usd_name (array : string) (v : pyval) :
  usd_name ∈ watched_attrs point_instancer_channel ->
  (let turn read slot := (channel_turn visibility_channel prim (Some ["visibility"]) None read slot) in
   exists ev, turn (Some vis) None = ([ev], Some vis) /\
              turn None (Some vis) = ([], Some vis) /\ turn (Some vis) (Some vis) = ([], Some vis)) /\
  (let turn read slot := (channel_turn point_instancer_channel prim (Some [usd_name]) (Some read) None slot) in
   exists ev slot, turn [(array, v)] None = ([ev], slot) /\
                   turn [] slot = ([], slot) /\ turn [(array, v)] slot = ([], slot)).
Proof.
  intros Ha. split.
  - eexists. split_and!; [reflexivity|reflexivity|]. unfold channel_turn, emit_channel_events. cbn.
    rewrite (bool_decide_true (Some vis = Some vis)) by done. reflexivity.
  - assert (needs_read point_instancer_channel (Some [usd_name]) = true) as Hn.
    { unfold needs_read. cbn [existsb reads_on_resync_only point_instancer_channel andb orb].
      rewrite (bool_decide_true (usd_name ∈ _)) by done. by case_match. }
    eexists _, (Some [(array, value_hash v)]). unfold channel_turn. rewrite Hn. cbn [negb].
    unfold emit_channel_events. cbn [diff_and_snapshot point_instancer_channel update_snapshot]. unfold point_instancer_changes.
    split_and!.
    + cbn -[value_hash]. rewrite decide_True by done. rewrite bool_decide_false by done. reflexivity.
    + reflexivity.
    + cbn -[value_hash]. rewrite (bool_decide_true (array = array)) by done. rewrite decide_False by tauto.
      by rewrite bool_decide_true by done.
Qed.

(** ** No prepared event is lost or sent twice *)

(** What a client may do: the events of [OPrepare], [OCoalesce] and [OBuild]
    are what the notices pending at that moment amount to; [OSent] reports that
    the batch of the given identity was sent. *)
Inductive outbox_op : Type :=
  | OPrepare (built : list event)
  | OCoalesce (built : list event)
  | OBuild (built : list event)
  | OSent (id : nat).

(** The outbox, the events sent and the events built, both in order. *)
Record publication := mk_publication { box : outbox; sent : list event; built_so_far : list event }.

Definition content (s : outbox) : list event := match prepared_events s with Some (_, events) => events | None => [] end.

Definition publish (p : publication) (op : outbox_op) : publication :=
  match op with
  | OPrepare built =>
      let consumed := match prepared_events (box p) with Some _ => [] | None => built end in
      mk_publication (prepare_events_for_send built (box p)).1 (sent p) (built_so_far p ++ consumed)
  | OCoalesce built => mk_publication (prepare_coalesced built (box p)).1 (sent p) (built_so_far p ++ built)
  | OBuild built =>
      match build_events_for_dirty built (box p) with
      | (s, Ok events) => mk_publication s (sent p ++ events) (built_so_far p ++ events)
      | (s, Err _) => mk_publication s (sent p) (built_so_far p)
      end
  | OSent id =>
      match mark_prepared_events_sent id (box p) with
      | Ok s => mk_publication s (sent p ++ content (box p)) (built_so_far p)
      | Err _ => p
      end
  end.
Definition publication_init : publication := mk_publication outbox_init [] [].

Section outbox.
Context {S : Type} `{TransformState S}.
#[local] Existing Instance run_proper.
#[local] Existing Instance state_equivalence.
#[local] Arguments run : simpl never.

Definition op_wf (op : outbox_op) : Prop :=
  match op with OPrepare built | OCoalesce built | OBuild built => Forall wf_trs built | OSent _ => True end.
Definition coalesces (op : outbox_op) : bool := match op with OCoalesce _ => true | _ => false end.

Lemma merge_wf pending incoming (s : S) :
  Forall wf_trs pending -> Forall wf_trs incoming -> Forall wf_trs (merge_latest_transform_events pending incoming).
Proof.
  intros Wp Wi. unfold merge_latest_transform_events.
  assert (cand_ok pending (scan_pending 0 [] pending)) as Hc by (apply (scan_pending_ok [] pending []), cand_ok_nil).
  revert Hc. generalize (scan_pending 0 [] pending). revert pending Wp.
  induction incoming as [|ev incoming IH]; intros pending Wp c Hc; [done|]. apply Forall_cons in Wi as [Wev Wi].
  cbn [foldl]. pose proof (merge_step_spec pending c ev s Wev Wp Hc) as Hstep.
  destruct (merge_step (pending, c) ev) as [pending' c']. destruct Hstep as (Wp' & Hc' & _). by apply IH.
Qed.

Definition nothing_lost (s : S) (p : publication) : Prop :=
  Forall wf_trs (content (box p)) /\ run (sent p ++ content (box p)) s ≡ run (built_so_far p) s.

Lemma publish_ok s p op : op_wf op -> nothing_lost s p -> nothing_lost s (publish p op).
Proof.
  intros Hop [Wc Hr]. destruct p as [[prepared n] sent built]. unfold nothing_lost, content in *.
  cbn [box prepared_events Emitter.sent built_so_far] in *. destruct op as [b|b|b|id]; cbn [op_wf] in Hop.
  - destruct prepared as [[id events]|]; cbn; [by rewrite app_nil_r|]. rewrite app_nil_r in Hr.
    destruct b as [|e b]; cbn; [by rewrite !app_nil_r|]. split; [done|]. by rewrite !run_app, Hr.
  - destruct prepared as [[id events]|]; cbn.
    + destruct b as [|e b]; [by rewrite app_nil_r|]. split; [by apply merge_wf|].
      rewrite run_app, merge_preserves_effect, <-run_app, app_assoc by done. by rewrite run_app, Hr, <-run_app.
    + rewrite app_nil_r in Hr. destruct b as [|e b]; cbn; [by rewrite !app_nil_r|]. split; [done|]. by rewrite !run_app, Hr.
  - destruct prepared as [[id events]|]; cbn; [done|]. rewrite app_nil_r in *. split; [done|]. by rewrite !run_app, Hr.
  - destruct prepared as [[id' events]|]; cbn; [|done]. case_bool_decide; cbn; [|done].
    rewrite app_nil_r. split; [constructor|done].
Qed.

(** C27: however a client prepares, coalesces, builds and sends, the events sent
    and those still prepared have the effect of all the events ever built, in
    order; without coalescing they are those events, each exactly once. *)
Theorem prepared_batches_lose_nothing ops (s : S) :
  Forall op_wf ops ->
  let p := foldl publish publication_init ops in
  run (sent p ++ content (box p)) s ≡ run (built_so_far p) s /\
  (forallb (fun op => negb (coalesces op)) ops = true -> sent p ++ content (box p) = built_so_far p).
Proof.
  intros Hops p. split.
  - assert (nothing_lost s p) as [_ Hr]; [|done]. subst p. assert (nothing_lost s publication_init) as Hinit by by split.
    revert Hinit. generalize publication_init. induction Hops as [|op ops Hop _ IH]; intros p Hp; [done|].
    by apply IH, publish_ok.
  - intros Hc. subst p. assert (sent publication_init ++ content (box publication_init) = built_so_far publication_init) as Hinit by done.
    revert Hinit. generalize publication_init. clear Hops. induction ops as [|op ops IH]; intros p Hp; [done|].
    cbn [forallb] in Hc. apply andb_true_iff in Hc as [Hop Hc]. apply (IH Hc). destruct p as [[prepared n] sent built].
    unfold content in *. cbn [box prepared_events Emitter.sent built_so_far] in *. destruct op as [b|b|b|id]; [|done|..].
    + destruct prepared as [[id events]|]; cbn; [by rewrite app_nil_r|]. rewrite app_nil_r in Hp. subst.
      by destruct b; cbn; rewrite ?app_nil_r.
    + destruct prepared as [[id events]|]; cbn; [done|]. rewrite app_nil_r in *. by subst.
    + destruct prepared as [[id' events]|]; cbn; [|done]. case_bool_decide; cbn; [|done]. by rewrite app_nil_r.
Qed.
End outbox.

(** ** Concrete hashes, for the witnesses *)

Definition check_told_apart `{Hashing} (vs : list pyval) : bool :=
  forallb (fun v => forallb (fun w => negb (value_hash v =? value_hash w)%Z || bool_decide (v = w)) vs) vs.

Lemma check_told_apart_ok `{Hashing} vs : check_told_apart vs = true -> told_apart vs.
Proof.
  unfold check_told_apart. rewrite forallb_forall. intros Hc v w Hv%list_elem_of_In Hw%list_elem_of_In Heq.
  specialize (Hc v Hv). rewrite forallb_forall in Hc. specialize (Hc w Hw).
  apply orb_true_iff in Hc as [Hc|Hc]; [|by apply bool_decide_eq_true in Hc]. by rewrite Heq, Z.eqb_refl in Hc.
Qed.

#[local] Instance demo_hashing : Hashing := {|
  hash_str s := Z.of_nat (String.length s); hash_tuple l := foldl (fun h x => (31 * h + x) mod hash_modulus)%Z 7%Z l;
  hash_none := 0; hash_nan := 0 |}.

Definition demo_time (z : Z) : Qc := Q2Qc (QArith_base.inject_Z z).
Definition demo_value (z : Z) : pyval := PList [PFloat (Fin (demo_time z)); PFloat (Fin (demo_time 0))].

Lemma samples_follow_edits_witness :
  shows id
    (foldl (emit_samples id) ([], [])
       ([[(demo_time 2, demo_value 2); (demo_time 1, demo_value 1)]; []] ++ [[(demo_time 1, demo_value 1); (demo_time 3, demo_value 4)]])).2
    [(demo_time 1, demo_value 1); (demo_time 3, demo_value 4)].
Proof.
  apply (samples_follow_edits id [[(demo_time 2, demo_value 2); (demo_time 1, demo_value 1)]; []]
           [(demo_time 1, demo_value 1); (demo_time 3, demo_value 4)]).
  - repeat (constructor; [apply (bool_decide_unpack _); by vm_compute|]). constructor.
  - apply check_told_apart_ok. by vm_compute.
Defined.

Lemma channel_items_follow_edits_witness :
  item (foldl (emit_items variant_selections_channel id) (None, []) ([[("look", "red")]] ++ [[("size", "big")]])).2 "look" = "" /\
  item (foldl (emit_items material_binding_channel id) (None, []) ([[("look", "red")]] ++ [[("size", "big")]])).2 "look" = "".
Proof.
  apply (channel_items_follow_edits [[("look", "red")]] [("size", "big")] "look").
  repeat (constructor; [apply NoDup_singleton|]). constructor.
Defined.

Definition demo_edits : list attr_edit :=
  [mk_attr_edit [] true [("radius", demo_value 1); ("height", demo_value 2)]; mk_attr_edit ["radius"] false [("height", demo_value 2)]].
Definition demo_last_edit : attr_edit := mk_attr_edit ["radius"] false [("height", demo_value 2); ("radius", demo_value 1)].

Lemma attributes_follow_edits_witness :
  dict_get "radius" (foldl (emit_attributes (fun _ => true) ["visibility"]) ([], []) (demo_edits ++ [demo_last_edit])).2
  = Some (demo_value 1).
Proof.
  apply (attributes_follow_edits (fun _ => true) ["visibility"] demo_edits demo_last_edit "radius").
  - cbn. split; [by left|]. split; [right|split; [right|done]]; intros n Hn.
    + rewrite list_elem_of_singleton. destruct (decide (n = "radius")) as [|Hne]; [done|]. destruct Hn. by repeat case_bool_decide; simplify_eq.
    + rewrite list_elem_of_singleton. destruct (decide (n = "radius")) as [|Hne]; [done|]. destruct Hn. by repeat case_bool_decide; simplify_eq.
  - by repeat constructor.
  - apply check_told_apart_ok. by vm_compute.
  - split; [done|]. apply (bool_decide_unpack _). by vm_compute.
Defined.

Lemma edit_from_minus_one_is_missed_witness :
  let v := PList ([] ++ minus_one :: []) in let w := PList ([] ++ minus_two :: []) in
  (emit_attributes (fun _ => true) [] (emit_attributes (fun _ => true) [] ([], []) (mk_attr_edit ["radius"] false [("radius", v)]))
     (mk_attr_edit ["radius"] false [("radius", w)])).2 = [("radius", v)] /\
  (emit_samples id (emit_samples id ([], []) [(demo_time 1, v)]) [(demo_time 1, w)]).2 = [(demo_time 1, v)].
Proof.
  apply (edit_from_minus_one_is_missed (fun _ => true) [] "radius" (demo_time 1) [] []).
  split; [done|]. by apply not_elem_of_nil.
Defined.

Lemma cleared_opinion_is_not_sent_again_witness :
  (let turn read slot := (channel_turn visibility_channel "/A" (Some ["visibility"]) None read slot) in
   exists ev, turn (Some "invisible") None = ([ev], Some "invisible") /\
     turn None (Some "invisible") = ([], Some "invisible") /\ turn (Some "invisible") (Some "invisible") = ([], Some "invisible")) /\
  (let turn read slot := (channel_turn point_instancer_channel "/A" (Some ["positions"]) (Some read) None slot) in
   exists ev slot, turn [("positions", demo_value 1)] None = ([ev], slot) /\
     turn [] slot = ([], slot) /\ turn [("positions", demo_value 1)] slot = ([], slot)).
Proof.
  apply (cleared_opinion_is_not_sent_again "/A" "invisible" "positions" "positions" (demo_value 1)).
  apply (bool_decide_unpack _). by vm_compute.
Defined.

Lemma prepared_batches_lose_nothing_witness :
  let ops := [OPrepare demo_pending; OCoalesce demo_incoming; OPrepare demo_incoming; OSent 0; OBuild demo_incoming] in
  let p := foldl publish publication_init ops in
  length (sent p) = 6%nat /\
  run (sent p ++ content (box p)) (mk_demo (fun _ _ => PNone) []) ≡ run (built_so_far p) (mk_demo (fun _ _ => PNone) []).
Proof.
  split; [by vm_compute|].
  apply (prepared_batches_lose_nothing
    [OPrepare demo_pending; OCoalesce demo_incoming; OPrepare demo_incoming; OSent 0; OBuild demo_incoming]
    (mk_demo (fun _ _ => PNone) [])).
  repeat (constructor; [first [apply demo_wf|done]|]). constructor.
Defined.
