(* ===== verification/PrimIndex.v ===== *)
(** * PrimIndex: the incremental prim trackers of the scene
    ([SceneState._track_prim_event], [_tracked_subtree], [update_prim_tracking],
    [rebuild_caches] of [openusdconnect/server/scene.py])

    The trackers are keyed by path text.  [_tracked_subtree] scans a sorted
    snapshot of the keys from [bisect_left] on; the snapshot may be stale in one
    direction only (deleted paths stay listed).

    Theorems: the scan yields the prim and exactly its tracked descendants; a
    deletion removes the subtree and nothing else; a rename moves the subtree;
    the snapshot invariant is kept by every event. *)

From S2P Require Import Prelude Constants.

Definition PRIM_COUNT_CHANGE_KINDS : gset string :=
  STRUCTURAL_EVENT_KINDS ∪ {[K_DELETE_PRIM; K_DEACTIVATE_PRIM; K_RENAME_PRIM]}.

(** ** Text *)

(** [s.startswith(p)] *)
Abbreviation startswith := String.prefix.

(** [s[len(p):]] *)
Fixpoint str_drop (n : nat) (s : string) : string :=
  match n, s with
  | O, _ => s
  | S n, "" => ""
  | S n, String _ s => str_drop n s
  end.

Definition slash : Ascii.ascii := Ascii.ascii_of_nat 47.

(** [s.rsplit("/", 1)[0]]: the text before the last slash, [s] without one. *)
Fixpoint before_last_slash (s : string) : option string :=
  match s with
  | "" => None
  | String c s =>
      match before_last_slash s with
      | Some p => Some (String c p)
      | None => if Ascii.eqb c slash then Some "" else None
      end
  end.
Definition rsplit_slash_0 (s : string) : string := default s (before_last_slash s).

(** [bisect_left(l, x)] on a sorted list: how many elements are below [x]. *)
Fixpoint bisect_left (l : list string) (x : string) : nat :=
  match l with
  | [] => 0
  | y :: l => if String.ltb y x then S (bisect_left l x) else 0
  end.

(** [while index < len(paths) and paths[index].startswith(prefix)] *)
Fixpoint take_prefixed (prefix : string) (l : list string) : list string :=
  match l with
  | y :: l => if startswith prefix y then y :: take_prefixed prefix l else []
  | [] => []
  end.

(** ** Trackers *)

Record trackers := mk_trackers {
  prim_paths : gmap string string;
  instanceable_paths : gset string;
  namespace_paths : option (list string);
  prim_count_dirty : bool }.

Definition all_tracked (t : trackers) : list string :=
  sorted_strings (elements (dom (prim_paths t) ∪ instanceable_paths t)).

(** The snapshot is built on first use. *)
Definition namespace_snapshot (t : trackers) : trackers * list string :=
  match namespace_paths t with
  | Some l => (t, l)
  | None =>
      let l := all_tracked t in
      (mk_trackers (prim_paths t) (instanceable_paths t) (Some l) (prim_count_dirty t), l)
  end.

(** [_tracked_subtree]: the whole generator; the index list it reads is fixed
    before the first yield. *)
Definition tracked_subtree (t : trackers) (prim : string) : trackers * list string :=
  let '(t, paths) := namespace_snapshot t in
  let prefix := prim +:+ "/" in
  (t, prim :: take_prefixed prefix (drop (bisect_left paths prefix) paths)).

(** One turn of the deletion or renaming loop. *)
Definition move_path (prim : string) (new_root : option string) (t : trackers) (path : string) : trackers :=
  let type_name := prim_paths t !! path in
  let was_instanceable := bool_decide (path ∈ instanceable_paths t) in
  let paths := delete path (prim_paths t) in
  let inst := instanceable_paths t ∖ {[path]} in
  match new_root with
  | None => mk_trackers paths inst (namespace_paths t) (prim_count_dirty t)
  | Some root =>
      let dest := root +:+ str_drop (String.length prim) path in
      mk_trackers
        (match type_name with Some ty => <[dest := ty]> paths | None => paths end)
        (if was_instanceable then {[dest]} ∪ inst else inst)
        (namespace_paths t) (prim_count_dirty t)
  end.

Definition track_prim_event (t : trackers) (ev : event) : trackers :=
  let k := kind_of ev in
  let prim := str_of ev "prim" in
  if bool_decide (k = K_ENSURE_PRIM) then
    mk_trackers (<[prim := str_of ev "typeName"]> (prim_paths t)) (instanceable_paths t) None
      (prim_count_dirty t)
  else if bool_decide (k = K_DELETE_PRIM \/ k = K_RENAME_PRIM) then
    let new_root := if bool_decide (k = K_RENAME_PRIM)
                    then Some ((rsplit_slash_0 prim +:+ "/") +:+ str_of ev "new_name") else None in
    let '(t, subtree) := tracked_subtree t prim in
    let t := foldl (move_path prim new_root) t subtree in
    match new_root with
    | None => t
    | Some root =>
        mk_trackers
          (match prim_paths t !! root with
           | Some _ => prim_paths t
           | None => <[root := "Xform"]> (prim_paths t)
           end) (instanceable_paths t) None (prim_count_dirty t)
    end
  else if bool_decide (k = K_SET_INSTANCEABLE) then
    if (match ev !! "instanceable" with Some v => truthy v | None => true end) then
      mk_trackers (prim_paths t) ({[prim]} ∪ instanceable_paths t) None (prim_count_dirty t)
    else mk_trackers (prim_paths t) (instanceable_paths t ∖ {[prim]}) (namespace_paths t) (prim_count_dirty t)
  else t.

Definition update_prim_tracking_one (t : trackers) (ev : event) : trackers :=
  let kind := kind_of ev in
  let t := if bool_decide (kind ∈ PRIM_COUNT_CHANGE_KINDS)
           then mk_trackers (prim_paths t) (instanceable_paths t) (namespace_paths t) true else t in
  if bool_decide (kind ∈ [K_ENSURE_PRIM; K_DELETE_PRIM; K_RENAME_PRIM; K_SET_INSTANCEABLE])
  then track_prim_event t ev else t.

Definition update_prim_tracking (events : list event) (t : trackers) : trackers :=
  foldl update_prim_tracking_one t events.

(** The tracker part of [rebuild_caches]. *)
Definition rebuild_trackers (events : list event) : trackers :=
  let t := foldl track_prim_event (mk_trackers ∅ ∅ None false) events in
  mk_trackers (prim_paths t) (instanceable_paths t) (namespace_paths t) true.

(** ** Text lemmas *)

Lemma startswith_refl_app p s : startswith p (p +:+ s) = true.
Proof.
  induction p as [|c p IH]; simpl; [by destruct s|].
  destruct (Ascii.ascii_dec c c); [done|congruence].
Qed.

Lemma startswith_spec p s : startswith p s = true <-> exists t, s = p +:+ t.
Proof.
  split.
  - revert s; induction p as [|c p IH]; intros s; [by exists s|].
    destruct s as [|d s]; [done|]. simpl. destruct (Ascii.ascii_dec c d) as [<-|]; [|done].
    intros (t & ->)%IH. by exists t.
  - intros [t ->]. apply startswith_refl_app.
Qed.

Lemma str_drop_app p s : str_drop (String.length p) (p +:+ s) = s.
Proof. induction p; simpl; [by destruct s|done]. Qed.

(** A text with the prefix is not below it. *)
Lemma startswith_not_below p y : startswith p y = true -> String.ltb y p = false.
Proof.
  intros [t ->]%startswith_spec. unfold String.ltb.
  induction p as [|c p IH]; [by destruct t|].
  change (String c p +:+ t) with (String c (p +:+ t)).
  rewrite string_compare_cons, ascii_compare_refl. apply IH.
Qed.

(** Above the prefix but without it: everything further up lacks it too. *)
Lemma beyond_prefix p y z :
  String.ltb y p = false -> startswith p y = false -> str_le y z -> startswith p z = false.
Proof.
  revert y z; induction p as [|c p IH]; intros y z Hy Hp Hle; [by destruct y|].
  destruct y as [|d y]; [done|]. destruct z as [|e z]; [done|].
  unfold str_le, String.leb, String.ltb in *. rewrite string_compare_cons in Hy, Hle. simpl in *.
  destruct (Ascii.ascii_dec c d) as [<-|Hcd].
  - rewrite ascii_compare_refl in Hy. destruct (Ascii.ascii_dec c e) as [<-|]; [|done].
    rewrite ascii_compare_refl in Hle. by apply (IH y).
  - destruct (Ascii.ascii_dec c e) as [<-|]; [|done]. exfalso.
    destruct (Ascii.compare d c) eqn:E; [apply Ascii.compare_eq_iff in E; congruence|done..].
Qed.

Lemma take_prefixed_elem prefix l x : x ∈ take_prefixed prefix l -> x ∈ l /\ startswith prefix x = true.
Proof.
  induction l as [|y l IH]; simpl; [by intros ?%not_elem_of_nil|].
  destruct (startswith prefix y) eqn:E; [|by intros ?%not_elem_of_nil].
  intros [->|Hx]%elem_of_cons; [split; [set_solver|done]|]. apply IH in Hx. set_solver.
Qed.

Lemma scan_complete prefix l x : StronglySorted str_le l ->
  x ∈ l -> startswith prefix x = true -> x ∈ take_prefixed prefix (drop (bisect_left l prefix) l).
Proof.
  intros Hs Hx Hp. induction Hs as [|y l Hs IH Hall]; [by apply not_elem_of_nil in Hx|].
  simpl. destruct (String.ltb y prefix) eqn:Hlt; simpl.
  - apply elem_of_cons in Hx as [->|Hx]; [|by apply IH].
    apply startswith_not_below in Hp. congruence.
  - clear IH. revert y Hlt Hs Hall Hx. induction l as [|z l IH]; intros y Hlt Hs Hall Hx.
    + apply list_elem_of_singleton in Hx as ->. simpl. rewrite Hp. set_solver.
    + change (take_prefixed prefix (y :: z :: l))
        with (if startswith prefix y then y :: take_prefixed prefix (z :: l) else []).
      destruct (startswith prefix y) eqn:Hy.
      * apply elem_of_cons in Hx as [->|Hx]; [set_solver|]. apply elem_of_cons. right.
        apply StronglySorted_cons in Hs as [Hz Hs]. apply Forall_cons in Hall as [Hyz Hall].
        apply IH; [|done|done|done].
        destruct (String.ltb z prefix) eqn:Hz'; [|done]. exfalso.
        (* y has the prefix and y <= z, so z is not below the prefix *)
        apply startswith_spec in Hy as [t ->]. clear -Hyz Hz'.
        unfold str_le, String.leb, String.ltb in *.
        revert z Hyz Hz'; induction prefix as [|c p IHp]; intros z H1 H2; [by destruct z|].
        destruct z as [|e z]; [by destruct t|].
        change (String c p +:+ t) with (String c (p +:+ t)) in H1.
        rewrite string_compare_cons in H1, H2. rewrite Ascii.compare_antisym in H2.
        destruct (Ascii.compare c e); simpl in H2; [|done|done]. by apply (IHp z).
      * exfalso. assert (startswith prefix x = false); [|congruence].
        apply elem_of_cons in Hx as [->|Hx]; [done|]. rewrite Forall_forall in Hall.
        apply (beyond_prefix prefix y); [done..|by apply Hall].
Qed.

(** ** Invariant and the subtree scan *)

Definition tracked (t : trackers) (p : string) : Prop :=
  is_Some (prim_paths t !! p) \/ p ∈ instanceable_paths t.

(** The prim itself or one of its namespace descendants. *)
Definition in_subtree (prim p : string) : Prop :=
  p = prim \/ startswith (prim +:+ "/") p = true.
#[global] Instance in_subtree_dec prim p : Decision (in_subtree prim p).
Proof. unfold in_subtree. apply _. Defined.

(** A present snapshot is sorted and lists at least every tracked path. *)
Definition trackers_ok (t : trackers) : Prop :=
  forall l, namespace_paths t = Some l -> StronglySorted str_le l /\ forall p, tracked t p -> p ∈ l.

Lemma namespace_snapshot_ok t : trackers_ok t ->
  let '(t', l) := namespace_snapshot t in
  prim_paths t' = prim_paths t /\ instanceable_paths t' = instanceable_paths t
  /\ prim_count_dirty t' = prim_count_dirty t /\ namespace_paths t' = Some l
  /\ StronglySorted str_le l /\ forall p, tracked t p -> p ∈ l.
Proof.
  intros Hok. unfold namespace_snapshot. destruct (namespace_paths t) as [l|] eqn:E.
  - split_and!; [done..| |]; by apply Hok.
  - split_and!; [done..| |].
    + apply StronglySorted_merge_sort; apply _.
    + intros p Hp. unfold all_tracked. apply elem_of_sorted_strings, elem_of_elements.
      unfold tracked in Hp. rewrite elem_of_union, elem_of_dom. done.
Qed.

Lemma tracked_subtree_spec t prim : trackers_ok t ->
  let '(t', sub) := tracked_subtree t prim in
  prim_paths t' = prim_paths t /\ instanceable_paths t' = instanceable_paths t
  /\ prim_count_dirty t' = prim_count_dirty t /\ trackers_ok t'
  /\ (forall p, p ∈ sub -> in_subtree prim p)
  /\ (forall p, tracked t p -> in_subtree prim p -> p ∈ sub).
Proof.
  intros Hok. unfold tracked_subtree. pose proof (namespace_snapshot_ok t Hok) as H.
  destruct (namespace_snapshot t) as [t' l]. destruct H as (Hp & Hi & Hd & Hn & Hs & Hall).
  split_and!; [done..| | |].
  - intros l' Hl'. rewrite Hn in Hl'. injection Hl' as <-. split; [done|].
    intros p. unfold tracked. rewrite Hp, Hi. apply Hall.
  - intros p [->|Hin]%elem_of_cons; [by left|]. right. by apply take_prefixed_elem in Hin as [_ ?].
  - intros p Ht [->|Hpre]; [set_solver|]. apply elem_of_cons. right. apply scan_complete; auto.
Qed.

(** ** Deletion *)

Lemma foldl_delete_paths sub prim t p :
  prim_paths (foldl (move_path prim None) t sub) !! p =
    (if decide (p ∈ sub) then None else prim_paths t !! p)
  /\ (p ∈ instanceable_paths (foldl (move_path prim None) t sub) <->
      p ∉ sub /\ p ∈ instanceable_paths t)
  /\ namespace_paths (foldl (move_path prim None) t sub) = namespace_paths t.
Proof.
  revert t; induction sub as [|x sub IH]; intros t.
  - rewrite decide_False by set_solver. set_solver.
  - cbn [foldl]. destruct (IH (move_path prim None t x)) as (-> & H2 & ->).
    split_and!; [|rewrite H2; simpl; set_solver|done].
    simpl. destruct (decide (p ∈ sub)).
    + rewrite decide_True by set_solver. done.
    + destruct (decide (p = x)) as [->|].
      * rewrite lookup_delete_eq, decide_True by set_solver. done.
      * rewrite lookup_delete_ne, decide_False by set_solver. done.
Qed.

Lemma delete_loop_ok sub prim t :
  trackers_ok t -> trackers_ok (foldl (move_path prim None) t sub).
Proof.
  intros Hok l Hl. destruct (foldl_delete_paths sub prim t "") as (_ & _ & Hn).
  rewrite Hn in Hl. apply Hok in Hl as [Hs Hall]. split; [done|].
  intros p Ht. apply Hall. destruct (foldl_delete_paths sub prim t p) as (H1 & H2 & _).
  unfold tracked in *. rewrite H1, H2 in Ht. destruct Ht as [Ht|Ht]; [|naive_solver].
  left. by case_decide; [destruct Ht|].
Qed.

(** a [delete_prim] event removes from the trackers the prim and exactly
    its namespace descendants (not siblings that share a text prefix), and the
    path snapshot stays usable. *)
Theorem track_delete_exact t ev :
  trackers_ok t -> kind_of ev = K_DELETE_PRIM ->
  let t' := track_prim_event t ev in
  trackers_ok t'
  /\ forall p, prim_paths t' !! p =
                 (if decide (in_subtree (str_of ev "prim") p) then None else prim_paths t !! p)
       /\ (p ∈ instanceable_paths t' <->
           ¬ in_subtree (str_of ev "prim") p /\ p ∈ instanceable_paths t).
Proof.
  intros Hok Hk. unfold track_prim_event. rewrite Hk.
  rewrite (bool_decide_false (_ = K_ENSURE_PRIM)), bool_decide_true, (bool_decide_false (_ = K_RENAME_PRIM))
    by (unfold K_DELETE_PRIM; auto || done).
  set (prim := str_of ev "prim"). simpl.
  pose proof (tracked_subtree_spec t prim Hok) as H.
  destruct (tracked_subtree t prim) as [t1 sub]. destruct H as (Hp & Hi & _ & Hok1 & Hin & Hcomp).
  split.
  - by apply delete_loop_ok.
  - intros p. destruct (foldl_delete_paths sub prim t1 p) as (-> & -> & _). rewrite Hp, Hi.
    destruct (decide (in_subtree prim p)) as [Hsub|Hsub].
    + split.
      * destruct (decide (p ∈ sub)) as [|Hno]; [done|].
        destruct (prim_paths t !! p) eqn:E; [|done]. exfalso. apply Hno, Hcomp; [left; eauto|done].
      * split; [|naive_solver]. intros [Hno Hinst]. exfalso. apply Hno, Hcomp; [by right|done].
    + rewrite decide_False by auto. split; [done|]. naive_solver.
Qed.

(** ** Renaming *)

Fixpoint no_slash (s : string) : bool :=
  match s with "" => true | String c s => negb (Ascii.eqb c slash) && no_slash s end.

Lemma slash_text : "/" = String slash "".
Proof. reflexivity. Qed.

Lemma str_app_assoc (a b c : string) : (a +:+ b) +:+ c = a +:+ (b +:+ c).
Proof. induction a as [|x a IH]; [done|]. exact (f_equal (String x) IH). Qed.

Lemma str_app_nil_r (a : string) : a +:+ "" = a.
Proof. induction a as [|x a IH]; [done|]. exact (f_equal (String x) IH). Qed.

Lemma str_app_inj_l (a b c : string) : a +:+ b = a +:+ c -> b = c.
Proof. induction a as [|x a IH]; [done|]. intros H. injection H as H. by apply IH. Qed.

Lemma before_last_slash_name par name : no_slash name = true ->
  before_last_slash ((par +:+ "/") +:+ name) = Some par.
Proof.
  intros Hn. assert (before_last_slash name = None) as Hnone.
  { induction name as [|c name IH]; simpl in *; [done|]. apply andb_true_iff in Hn as [Hc Hn].
    rewrite IH by done. by destruct (Ascii.eqb c slash). }
  induction par as [|c par IH].
  - change (("" +:+ "/") +:+ name) with (String slash name).
    simpl. rewrite Hnone. done.
  - change ((String c par +:+ "/") +:+ name) with (String c ((par +:+ "/") +:+ name)).
    cbn [before_last_slash]. by rewrite IH.
Qed.

(** A suffix that continues a path: nothing, or a slash and names. *)
Definition path_suffix (s : string) : Prop := s = "" \/ startswith "/" s = true.

Lemma path_suffix_head s : path_suffix s -> s = "" \/ exists t, s = String slash t.
Proof. intros [->|[t ->]%startswith_spec]; [by left|]. right. by exists t. Qed.

Lemma name_suffix_unique a b s t : no_slash a = true -> no_slash b = true ->
  path_suffix s -> path_suffix t -> a +:+ s = b +:+ t -> a = b /\ s = t.
Proof.
  intros Ha Hb Hs%path_suffix_head Ht%path_suffix_head.
  revert b Hb; induction a as [|x a IH]; intros [|y b] Hb Heq; simpl in *.
  - done.
  - destruct Hs as [->|[s' ->]]; [done|]. injection Heq as <- _. by rewrite Ascii.eqb_refl in Hb.
  - destruct Ht as [->|[t' ->]]; [done|]. injection Heq as -> _. by rewrite Ascii.eqb_refl in Ha.
  - injection Heq as <- Heq. apply andb_true_iff in Ha as [_ Ha], Hb as [_ Hb].
    destruct (IH Ha b Hb Heq) as [-> ->]. done.
Qed.

Lemma in_subtree_suffix prim p : in_subtree prim p <-> exists s, path_suffix s /\ p = prim +:+ s.
Proof.
  split.
  - intros [->|[t ->]%startswith_spec].
    + exists "". split; [by left|]. by rewrite str_app_nil_r.
    + exists ("/" +:+ t). split; [right; apply startswith_refl_app|]. by rewrite str_app_assoc.
  - intros (s & [->|[t ->]%startswith_spec] & ->).
    + left. by rewrite str_app_nil_r.
    + right. rewrite <-str_app_assoc. apply startswith_refl_app.
Qed.

Section rename.
Context (par old new : string).
Context (Hold : no_slash old = true) (Hnew : no_slash new = true) (Hne : old ≠ new).
Let prim : string := (par +:+ "/") +:+ old.
Let root : string := (par +:+ "/") +:+ new.

Definition dest (x : string) : string := root +:+ str_drop (String.length prim) x.

Lemma dest_suffix s : dest (prim +:+ s) = root +:+ s.
Proof. unfold dest. by rewrite str_drop_app. Qed.

Lemma root_not_in_subtree s : path_suffix s -> ¬ in_subtree prim (root +:+ s).
Proof.
  intros Hs (t & Ht & E)%in_subtree_suffix. unfold root, prim in E. rewrite !str_app_assoc in E.
  do 2 apply str_app_inj_l in E. apply name_suffix_unique in E as [? _]; auto.
Qed.

Lemma dest_not_in_subtree x : in_subtree prim x -> ¬ in_subtree prim (dest x).
Proof. intros (s & Hs & ->)%in_subtree_suffix. rewrite dest_suffix. by apply root_not_in_subtree. Qed.

Lemma dest_inj x y : in_subtree prim x -> in_subtree prim y -> dest x = dest y -> x = y.
Proof.
  intros (s & _ & ->)%in_subtree_suffix (t & _ & ->)%in_subtree_suffix.
  rewrite !dest_suffix. by intros ->%str_app_inj_l.
Qed.

Lemma move_path_lookup t x p : in_subtree prim x ->
  prim_paths (move_path prim (Some root) t x) !! p =
  if decide (p = dest x) then
    match prim_paths t !! x with Some ty => Some ty | None => prim_paths t !! p end
  else if decide (p = x) then None else prim_paths t !! p.
Proof.
  intros Hx. pose proof (dest_not_in_subtree x Hx) as Hd.
  assert (dest x ≠ x) by (intros E; apply Hd; by rewrite E).
  unfold move_path. fold (dest x). simpl.
  destruct (prim_paths t !! x) as [ty|]; repeat case_decide; subst; try done;
    rewrite ?lookup_insert_eq, ?lookup_insert_ne, ?lookup_delete_eq, ?lookup_delete_ne by done; done.
Qed.

Lemma move_loop_other sub t p :
  (forall x, x ∈ sub -> in_subtree prim x) -> p ∉ sub -> (forall x, x ∈ sub -> p ≠ dest x) ->
  prim_paths (foldl (move_path prim (Some root)) t sub) !! p = prim_paths t !! p.
Proof.
  revert t; induction sub as [|y sub IH]; intros t Hsub Hp Hd; [done|]. cbn [foldl].
  rewrite IH by set_solver. rewrite move_path_lookup by set_solver.
  rewrite !decide_False; [done|set_solver..].
Qed.

Lemma move_loop_source sub t p :
  (forall x, x ∈ sub -> in_subtree prim x) -> p ∈ sub ->
  prim_paths (foldl (move_path prim (Some root)) t sub) !! p = None.
Proof.
  revert t; induction sub as [|y sub IH]; intros t Hsub Hp; [by apply not_elem_of_nil in Hp|].
  cbn [foldl]. destruct (decide (p ∈ sub)); [apply IH; set_solver|].
  assert (p = y) as -> by set_solver.
  assert (forall x, in_subtree prim x -> y ≠ dest x) as Hy.
  { intros x Hx ->. apply (dest_not_in_subtree x Hx). set_solver. }
  rewrite move_loop_other; [|set_solver|done|intros x Hx; apply Hy; set_solver].
  rewrite move_path_lookup by set_solver.
  rewrite decide_False by (apply Hy; set_solver). by rewrite decide_True.
Qed.

Lemma move_loop_dest sub t x :
  (forall y, y ∈ sub -> in_subtree prim y) -> x ∈ sub ->
  prim_paths (foldl (move_path prim (Some root)) t sub) !! dest x =
  match prim_paths t !! x with Some ty => Some ty | None => prim_paths t !! dest x end.
Proof.
  revert t; induction sub as [|y sub IH]; intros t Hsub Hx; [by apply not_elem_of_nil in Hx|].
  cbn [foldl]. assert (in_subtree prim x) as Hsx by set_solver.
  assert (in_subtree prim y) as Hsy by set_solver.
  assert (forall z, in_subtree prim z -> z ≠ dest x) as Hz.
  { intros z Hz' ->. by apply (dest_not_in_subtree x). }
  assert (x ≠ dest y) as Hxy by (intros ->; by apply (dest_not_in_subtree y)).
  destruct (decide (x = y)) as [<-|Hxne].
  - destruct (decide (x ∈ sub)) as [Hin|Hin].
    + rewrite IH by set_solver. rewrite !move_path_lookup by done.
      rewrite (decide_False (P := x = dest x)) by done. rewrite !decide_True by done. done.
    + rewrite move_loop_other; [|set_solver|intros Hd; by apply (Hz (dest x)); [set_solver|]|].
      * rewrite move_path_lookup by done. by rewrite decide_True.
      * intros z Hzin E. apply dest_inj in E; [congruence|done|set_solver].
  - rewrite IH by set_solver. rewrite !move_path_lookup by done.
    rewrite (decide_False (P := x = dest y)), (decide_False (P := x = y)) by done.
    rewrite (decide_False (P := dest x = dest y)) by (intros E; apply dest_inj in E; done).
    rewrite (decide_False (P := dest x = y)); [done|]. intros E. by apply (Hz y).
Qed.

(** The whole loop, over a list holding every tracked path of the subtree. *)
Lemma move_loop_suffix sub t s :
  (forall y, y ∈ sub -> in_subtree prim y) ->
  (forall p, tracked t p -> in_subtree prim p -> p ∈ sub) -> path_suffix s ->
  prim_paths (foldl (move_path prim (Some root)) t sub) !! (prim +:+ s) = None
  /\ prim_paths (foldl (move_path prim (Some root)) t sub) !! (root +:+ s) =
     match prim_paths t !! (prim +:+ s) with
     | Some ty => Some ty
     | None => prim_paths t !! (root +:+ s)
     end.
Proof.
  intros Hsub Hall Hs. assert (in_subtree prim (prim +:+ s)) as Hin by (apply in_subtree_suffix; eauto).
  rewrite <-dest_suffix. destruct (decide ((prim +:+ s) ∈ sub)) as [Hi|Hi].
  - split; [by apply move_loop_source|by apply move_loop_dest].
  - assert (prim_paths t !! (prim +:+ s) = None) as Hnone.
    { destruct (prim_paths t !! (prim +:+ s)) eqn:E; [|done].
      exfalso. apply Hi, Hall; [left; eauto|done]. }
    rewrite !move_loop_other, Hnone; try done.
    + intros Hd. apply (dest_not_in_subtree _ Hin). by apply Hsub.
    + intros x Hx E. apply dest_inj in E; [congruence|done|by apply Hsub].
    + intros x Hx E. apply (dest_not_in_subtree x); [by apply Hsub|]. by rewrite <-E.
Qed.
End rename.

(** a [rename_prim] event moves every tracked path of the subtree to the
    new name with its type: the old subtree is no longer tracked, the path with
    the same suffix under the new root takes the moved type (or keeps what it
    had), the new root itself is always tracked ("Xform" when neither name was
    known), and paths outside both subtrees are untouched. *)
Theorem track_rename_moves t ev par old new :
  no_slash old = true -> no_slash new = true -> old ≠ new ->
  trackers_ok t -> kind_of ev = K_RENAME_PRIM ->
  str_of ev "prim" = (par +:+ "/") +:+ old -> str_of ev "new_name" = new ->
  let prim := (par +:+ "/") +:+ old in let root := (par +:+ "/") +:+ new in
  let t' := track_prim_event t ev in
  trackers_ok t'
  /\ (forall s, path_suffix s ->
        prim_paths t' !! (prim +:+ s) = None
        /\ prim_paths t' !! (root +:+ s) =
             match prim_paths t !! (prim +:+ s), prim_paths t !! (root +:+ s) with
             | Some ty, _ => Some ty
             | None, Some ty => Some ty
             | None, None => if decide (s = "") then Some "Xform" else None
             end)
  /\ (forall p, ¬ in_subtree prim p -> ¬ in_subtree root p -> prim_paths t' !! p = prim_paths t !! p).
Proof.
  intros Hold Hnew Hne Hok Hk Hp Hn prim root. unfold track_prim_event. rewrite Hk, Hp, Hn.
  rewrite (bool_decide_false (_ = K_ENSURE_PRIM)), !bool_decide_true by (unfold K_RENAME_PRIM; auto || done).
  unfold rsplit_slash_0. rewrite before_last_slash_name by done. cbn [default from_option id].
  fold prim. fold root. pose proof (tracked_subtree_spec t prim Hok) as H.
  destruct (tracked_subtree t prim) as [t1 sub]. destruct H as (Hp1 & Hi1 & _ & Hok1 & Hin & Hcomp).
  assert (forall p, tracked t1 p -> in_subtree prim p -> p ∈ sub) as Hcomp1.
  { intros p. unfold tracked. rewrite Hp1, Hi1. apply Hcomp. }
  pose proof (move_loop_suffix par old new Hold Hnew Hne sub t1) as Hloop.
  fold prim in Hloop. fold root in Hloop.
  split_and!; [by intros ? ?| |].
  - intros s Hs. destruct (Hloop s Hin Hcomp1 Hs) as [Hsrc Hdst].
    destruct (Hloop "" Hin Hcomp1 (or_introl eq_refl)) as [_ Hroot].
    rewrite !str_app_nil_r in Hroot. rewrite Hp1 in Hdst, Hroot.
    assert (prim +:+ s ≠ root) as Hpr.
    { intros E. apply (root_not_in_subtree par old new Hold Hnew Hne "" (or_introl eq_refl)).
      fold prim. fold root. rewrite str_app_nil_r, <-E. apply in_subtree_suffix. eauto. }
    cbn [prim_paths].
    destruct (decide (s = "")) as [->|Hse].
    + rewrite !str_app_nil_r in *. rewrite Hroot.
      destruct (prim_paths t !! prim) eqn:E1; [by rewrite Hroot|].
      destruct (prim_paths t !! root) eqn:E2; [by rewrite Hroot|].
      by rewrite lookup_insert_ne, lookup_insert_eq by done.
    + assert (root ≠ root +:+ s) as Hrs.
      { rewrite <-(str_app_nil_r root) at 1. intros E%str_app_inj_l. congruence. }
      destruct (prim_paths (foldl _ t1 sub) !! root);
        rewrite ?lookup_insert_ne by done; rewrite Hsrc, Hdst;
        (split; [done|]); destruct (prim_paths t !! (prim +:+ s)), (prim_paths t !! (root +:+ s)); done.
  - intros p Hp' Hr. cbn [prim_paths].
    assert (prim_paths (foldl (move_path prim (Some root)) t1 sub) !! p = prim_paths t !! p) as E.
    { rewrite <-Hp1. apply (move_loop_other par old new Hold Hnew Hne); [done| |].
      - intros Hi. by apply Hp', Hin.
      - intros x Hx ->. apply Hr. apply Hin, in_subtree_suffix in Hx as (s & Hs & ->).
        rewrite (dest_suffix par old new). apply in_subtree_suffix. eauto. }
    destruct (prim_paths (foldl _ t1 sub) !! root) eqn:E'; [done|].
    rewrite lookup_insert_ne; [done|]. intros <-. apply Hr. by left.
Qed.

(** ** The invariant, for every event *)

Lemma foldl_move_path_dirty prim root sub t :
  prim_count_dirty (foldl (move_path prim root) t sub) = prim_count_dirty t.
Proof.
  revert t; induction sub as [|x sub IH]; intros t; [done|]. cbn [foldl]. rewrite IH.
  by destruct root.
Qed.

Lemma track_prim_event_dirty t ev : prim_count_dirty (track_prim_event t ev) = prim_count_dirty t.
Proof.
  unfold track_prim_event, tracked_subtree, namespace_snapshot.
  repeat case_bool_decide; try done.
  - destruct (namespace_paths t); simpl; by rewrite foldl_move_path_dirty.
  - destruct (namespace_paths t); simpl; by rewrite foldl_move_path_dirty.
  - by destruct (match ev !! "instanceable" with Some v => truthy v | None => true end).
Qed.

Lemma track_prim_event_ok t ev : trackers_ok t -> trackers_ok (track_prim_event t ev).
Proof.
  intros Hok. unfold track_prim_event. repeat case_bool_decide; try done.
  - destruct (tracked_subtree _ _) as [t1 sub]. done.
  - pose proof (tracked_subtree_spec t (str_of ev "prim") Hok) as Hspec.
    destruct (tracked_subtree t (str_of ev "prim")) as [t1 sub]. destruct Hspec as (_ & _ & _ & Hok1 & _).
    by apply delete_loop_ok.
  - destruct (match ev !! "instanceable" with Some v => truthy v | None => true end); [done|].
    intros l Hl. apply Hok in Hl as [Hs Hall]. split; [done|]. intros p Ht. apply Hall.
    unfold tracked in *. simpl in Ht. set_solver.
Qed.

(** the path snapshot the subtree scans rely on stays sorted and complete
    whatever events are tracked, from the empty trackers of [rebuild_caches] on;
    and tracking marks the cached prim count stale exactly when an event can
    change it. *)
Theorem update_prim_tracking_ok t events :
  trackers_ok t ->
  trackers_ok (update_prim_tracking events t)
  /\ prim_count_dirty (update_prim_tracking events t) =
     prim_count_dirty t || existsb (fun ev => bool_decide (kind_of ev ∈ PRIM_COUNT_CHANGE_KINDS)) events.
Proof.
  unfold update_prim_tracking. revert t; induction events as [|ev events IH]; intros t Hok.
  - simpl. by rewrite orb_false_r.
  - cbn [foldl existsb]. destruct (IH (update_prim_tracking_one t ev)) as [H1 H2].
    + unfold update_prim_tracking_one. repeat case_bool_decide; try apply track_prim_event_ok; done.
    + split; [done|]. rewrite H2, orb_assoc. f_equal. unfold update_prim_tracking_one.

      assert (forall t, prim_count_dirty (track_prim_event t ev) = prim_count_dirty t) as Hd.
      { intros t0. apply track_prim_event_dirty. }
      repeat case_bool_decide; rewrite ?Hd; simpl; by rewrite ?orb_true_r, ?orb_false_r.
Qed.

(** ** Witnesses *)

Definition demo_trackers : trackers :=
  mk_trackers {["/A" := "Xform"; "/A/B" := "Mesh"; "/AB" := "Xform"]} {["/A/B"]} None false.

Lemma demo_trackers_ok : trackers_ok demo_trackers.
Proof. by intros l. Qed.

Definition demo_event (k : string) : event :=
  {["k" := PStr k; "prim" := PStr "/A"; "new_name" := PStr "Z"]}.

Lemma track_delete_exact_witness :
  prim_paths (track_prim_event demo_trackers (demo_event K_DELETE_PRIM)) !! "/A/B" = None
  /\ prim_paths (track_prim_event demo_trackers (demo_event K_DELETE_PRIM)) !! "/AB" = Some "Xform".
Proof.
  destruct (track_delete_exact demo_trackers (demo_event K_DELETE_PRIM) demo_trackers_ok
    ltac:(by vm_compute)) as [_ H].
  split; [rewrite (proj1 (H "/A/B"))|rewrite (proj1 (H "/AB"))]; by vm_compute.
Defined.

Lemma track_rename_moves_witness :
  prim_paths (track_prim_event demo_trackers (demo_event K_RENAME_PRIM)) !! "/Z/B" = Some "Mesh"
  /\ prim_paths (track_prim_event demo_trackers (demo_event K_RENAME_PRIM)) !! "/AB" = Some "Xform".
Proof.
  destruct (track_rename_moves demo_trackers (demo_event K_RENAME_PRIM) "" "A" "Z" eq_refl eq_refl
    ltac:(done) demo_trackers_ok ltac:(by vm_compute) ltac:(by vm_compute) ltac:(by vm_compute))
    as (_ & H1 & H2).
  split.
  - etransitivity; [exact (proj2 (H1 "/B" (or_intror eq_refl)))|by vm_compute].
  - rewrite (H2 "/AB"); [by vm_compute| |]; intros [?|?]; done.
Defined.

Lemma update_prim_tracking_ok_witness :
  prim_count_dirty (update_prim_tracking [demo_event K_DELETE_PRIM] demo_trackers) = true.
Proof.
  rewrite (proj2 (update_prim_tracking_ok demo_trackers [demo_event K_DELETE_PRIM] demo_trackers_ok)).
  by vm_compute.
Defined.
