(* ===== verification/Applying.v ===== *)
(** * Applying: the order in which events reach the stage
    ([apply_events], [_apply_segment], [apply_event], [_is_instance_proxy_target]
    of [openusdconnect/event_apply.py]; [is_sample_history_barrier] of
    [openusdconnect/time_sample_delta.py])

    What an applier does to the stage is an interface, [UsdApply] (the registry
    of [events.py] and the two xform routines that use the operation cache);
    which applier runs on which event, in which order and with which cache
    eviction is modelled.

    Theorems: [apply_events] runs the schedule of its input; the schedule is a
    permutation that keeps the barriers in place, creates prims first and
    ancestors before descendants, and is stable otherwise. *)

From S2P Require Import Prelude Constants.

(** ** Classification *)

(** [name in event.get("fields", ())] *)
Definition has_field (name : string) (ev : event) : bool :=
  match ev !! "fields" with
  | Some (PList l) => bool_decide (PStr name ∈ l)
  | _ => false
  end.

Definition is_sample_history_barrier (ev : event) : bool :=
  bool_decide (kind_of ev = K_ERASE_TIME_SAMPLES)
  || (bool_decide (kind_of ev = K_SET_SDF_SPEC_FIELDS)
      && (has_field "timeSamples" ev || truthy (py_get ev "removed"))).

(** The barrier test of [apply_events]. *)
Definition is_barrier (ev : event) : bool :=
  bool_decide (kind_of ev = K_DELETE_PRIM \/ kind_of ev = K_RENAME_PRIM)
  || is_sample_history_barrier ev.

Definition is_api_schema_over (ev : event) : bool :=
  bool_decide (kind_of ev = K_ENSURE_PRIM)
  && negb (truthy (py_get ev "typeName")) && truthy (py_get ev "api_schemas").

Definition creates_prim (ev : event) : bool :=
  bool_decide (kind_of ev ∈ CREATE_KINDS) && negb (is_api_schema_over ev).

Definition is_structural (ev : event) : bool := bool_decide (kind_of ev ∈ STRUCTURAL_EVENT_KINDS).

(** [event.get("prim", "").count("/")] *)
Fixpoint count_slash (s : string) : nat :=
  match s with
  | "" => 0
  | String c s => (if Ascii.eqb c (Ascii.ascii_of_nat 47) then 1 else 0) + count_slash s
  end.
Definition depth (ev : event) : nat := count_slash (str_of ev "prim").

(** [list.sort(key=...)] is stable: an insertion that goes before equal keys,
    applied from the right. *)
Fixpoint insert_by {A} (key : A -> nat) (x : A) (l : list A) : list A :=
  match l with
  | [] => [x]
  | y :: l => if (key x <=? key y)%nat then x :: y :: l else y :: insert_by key x l
  end.
Definition sort_by {A} (key : A -> nat) (l : list A) : list A := foldr (insert_by key) [] l.

(** ** Application *)

(** The stage [T] and the operation cache [C] as the appliers see them. *)
Class UsdApply (T C : Type) := {
  (** [bool(stage.GetPrototypes())] *)
  has_prototypes : T -> bool;
  (** [GetPrimAtPath(path)]: [IsInstance()] and [IsInstanceProxy()] of the prim found. *)
  prim_at : T -> string -> option (bool * bool);
  (** [Sdf.Path(path).GetParentPath()]; [None] at the absolute root. *)
  parent_path : string -> option string;
  (** [events.get(kind).apply] *)
  appliers : string -> option (event -> M T unit);
  ensure_canonical_ops : event -> M (T * C) unit;
  apply_set_xform_trs : event -> M (T * C) unit;
  cache_pop : string -> C -> C;
  cache_empty : C;
  validate_spec_events : list event -> result unit;
}.

Section applying.
Context {T C : Type} `{UsdApply T C}.

Abbreviation W := (T * C)%type.

(** The [while] walk to the nearest composed ancestor; a path has at most as
    many ancestors as characters. *)
Fixpoint instance_ancestor (fuel : nat) (stage : T) (path : string) : bool :=
  match fuel with
  | O => false
  | S fuel =>
      match parent_path path with
      | None => false
      | Some p =>
          match prim_at stage p with
          | Some (is_instance, is_proxy) => is_instance || is_proxy
          | None => instance_ancestor fuel stage p
          end
      end
  end.

Definition is_instance_proxy_target (stage : T) (ev : event) : bool :=
  let path := str_of ev "prim" in
  if bool_decide (path = "") then false
  else if negb (has_prototypes stage) then false
  else match prim_at stage path with
       | Some (_, is_proxy) => is_proxy
       | None => instance_ancestor (String.length path) stage path
       end.

Definition on_stage {A} (m : M T A) : M W A := zoom fst (fun t w => (t, w.2)) m.

Definition apply_event (ev : event) : M T unit := fun stage =>
  match appliers (kind_of ev) with
  | None => (stage, Err ValueError)
  | Some apply =>
      if is_instance_proxy_target stage ev then (stage, Ok ()) else apply ev stage
  end.

Definition apply_structural (ev : event) : M W unit := fun w =>
  if bool_decide (kind_of ev ≠ K_ENSURE_XFORM_OPS) then on_stage (apply_event ev) w
  else if is_instance_proxy_target w.1 ev then (w, Ok ())
  else ensure_canonical_ops ev w.

Definition apply_value (ev : event) : M W unit := fun w =>
  if bool_decide (kind_of ev = K_SET_XFORM_TRS) then
    if is_instance_proxy_target w.1 ev then (w, Ok ()) else apply_set_xform_trs ev w
  else on_stage (apply_event ev) w.

Definition segment_creates (events : list event) : list event :=
  sort_by depth (filter (fun ev => creates_prim ev = true)
                   (filter (fun ev => is_structural ev = true) events)).
Definition segment_modifies (events : list event) : list event :=
  filter (fun ev => creates_prim ev = false /\ is_api_schema_over ev = false)
    (filter (fun ev => is_structural ev = true) events).
Definition segment_overs (events : list event) : list event :=
  filter (fun ev => is_api_schema_over ev = true) (filter (fun ev => is_structural ev = true) events).
Definition segment_values (events : list event) : list event :=
  filter (fun ev => is_structural ev = false) events.

Definition apply_segment (events : list event) : M W unit :=
  _ ← iterM apply_structural (segment_creates events ++ segment_modifies events ++ segment_overs events);
  iterM apply_value (segment_values events).

Definition apply_barrier (ev : event) : M W unit :=
  _ ← modify (fun w => (w.1, cache_pop (str_of ev "prim") w.2));
  on_stage (apply_event ev).

Definition flush (segment : list event) : M W unit :=
  match segment with [] => mret () | _ => apply_segment segment end.

Fixpoint apply_loop (segment events : list event) : M W unit :=
  match events with
  | [] => flush segment
  | ev :: events =>
      if is_barrier ev then
        _ ← flush segment; _ ← apply_barrier ev; apply_loop [] events
      else apply_loop (segment ++ [ev]) events
  end.

Definition apply_events (events : list event) (prevalidated : bool) : M W unit :=
  _ ← (if prevalidated then mret () else lift (validate_spec_events events));
  apply_loop [] events.

(** ** The schedule: the abstract specification *)

Definition schedule_segment (l : list event) : list event :=
  segment_creates l ++ segment_modifies l ++ segment_overs l ++ segment_values l.

Fixpoint schedule_from (segment events : list event) : list event :=
  match events with
  | [] => schedule_segment segment
  | ev :: events =>
      if is_barrier ev then schedule_segment segment ++ ev :: schedule_from [] events
      else schedule_from (segment ++ [ev]) events
  end.
Definition schedule (events : list event) : list event := schedule_from [] events.

(** What one event does when its turn comes. *)
Definition execute (ev : event) : M W unit :=
  if is_barrier ev then apply_barrier ev
  else if is_structural ev then apply_structural ev else apply_value ev.

(** ** Sorting *)

Lemma insert_by_perm {A} (key : A -> nat) x l : insert_by key x l ≡ₚ x :: l.
Proof.
  induction l as [|y l IH]; [done|]. simpl. destruct (key x <=? key y)%nat; [done|].
  rewrite IH. by rewrite Permutation_swap.
Qed.

Lemma sort_by_perm {A} (key : A -> nat) l : sort_by key l ≡ₚ l.
Proof. induction l as [|x l IH]; [done|]. unfold sort_by in *. simpl. by rewrite insert_by_perm, IH. Qed.

Lemma sort_by_sorted {A} (key : A -> nat) l :
  StronglySorted (fun x y => key x ≤ key y) (sort_by key l).
Proof.
  induction l as [|x l IH]; [constructor|]. unfold sort_by in *. simpl.
  generalize dependent (foldr (insert_by key) [] l). clear l. intros l Hl.
  induction Hl as [|y l Hl IHl Hy]; simpl; [repeat constructor|].
  destruct (key x <=? key y)%nat eqn:E.
  - apply Nat.leb_le in E. constructor; [by constructor|]. constructor; [done|].
    eapply Forall_impl; [exact Hy|]. simpl. lia.
  - apply Nat.leb_gt in E. constructor; [done|]. rewrite insert_by_perm. constructor; [lia|done].
Qed.

(** Equal keys keep their order. *)
Lemma sort_by_stable {A} (key : A -> nat) n l :
  filter (fun x => key x = n) (sort_by key l) = filter (fun x => key x = n) l.
Proof.
  induction l as [|x l IH]; [done|]. unfold sort_by in *. simpl.
  rewrite filter_cons, <-IH. pose proof (sort_by_sorted key l) as Hs. unfold sort_by in Hs.
  generalize dependent (foldr (insert_by key) [] l). intros k _ Hs.
  induction Hs as [|y k Hk IHk Hy]; simpl; [done|].
  destruct (key x <=? key y)%nat eqn:E; [by rewrite filter_cons|].
  apply Nat.leb_gt in E. rewrite !filter_cons, IHk.
  destruct (decide (key x = n)), (decide (key y = n)); [lia|done..].
Qed.

(** ** The segments *)

Definition barrier_free (l : list event) : Prop := forall ev, ev ∈ l -> is_barrier ev = false.

Lemma elem_of_structural_part l ev :
  ev ∈ segment_creates l ++ segment_modifies l ++ segment_overs l -> ev ∈ l /\ is_structural ev = true.
Proof.
  unfold segment_creates, segment_modifies, segment_overs.
  rewrite !elem_of_app, sort_by_perm, !list_elem_of_filter. tauto.
Qed.

Lemma structural_classes (st : list event) :
  filter (fun ev => creates_prim ev = true) st
  ++ filter (fun ev => creates_prim ev = false /\ is_api_schema_over ev = false) st
  ++ filter (fun ev => is_api_schema_over ev = true) st ≡ₚ st.
Proof.
  rewrite (Permutation_app_comm (filter (fun ev => _ /\ _) st)).
  etransitivity; [|apply (filter_split creates_prim)]. f_equiv.
  etransitivity; [|apply (filter_split is_api_schema_over)]. rewrite !list_filter_filter.
  apply Permutation_app; apply reflexive_eq, list_filter_iff'; intros ev _; [|tauto].
  unfold creates_prim. destruct (is_api_schema_over ev); [rewrite andb_false_r|]; naive_solver.
Qed.

Lemma schedule_segment_perm l : schedule_segment l ≡ₚ l.
Proof.
  unfold schedule_segment, segment_creates, segment_modifies, segment_overs, segment_values.
  rewrite sort_by_perm, (app_assoc (filter (fun ev => _ /\ _) _)), app_assoc, structural_classes.
  apply (filter_split is_structural).
Qed.

Lemma apply_segment_execute l w : barrier_free l -> apply_segment l w = iterM execute (schedule_segment l) w.
Proof.
  intros Hl. unfold apply_segment, schedule_segment.
  rewrite (app_assoc (segment_modifies l)), (app_assoc (segment_creates l) (_ ++ _)), iterM_app.
  unfold mbind, M_bind.
  rewrite (iterM_ext execute apply_structural).
  - destruct (iterM apply_structural _ w) as [w' [[]|e]]; [|done].
    apply iterM_ext. intros ev w2 [Hv Hin]%list_elem_of_filter. unfold execute. by rewrite (Hl ev Hin), Hv.
  - intros ev w2 [Hin Hs]%elem_of_structural_part. unfold execute. by rewrite (Hl ev Hin), Hs.
Qed.

Lemma flush_execute l w : barrier_free l -> flush l w = iterM execute (schedule_segment l) w.
Proof. intros Hl. destruct l as [|ev l]; [done|]. by apply apply_segment_execute. Qed.

Lemma barrier_free_snoc l ev : barrier_free l -> is_barrier ev = false -> barrier_free (l ++ [ev]).
Proof. intros Hl He x [?| ->%list_elem_of_singleton]%elem_of_app; auto. Qed.

Lemma apply_loop_execute seg events w : barrier_free seg ->
  apply_loop seg events w = iterM execute (schedule_from seg events) w.
Proof.
  revert seg w; induction events as [|ev events IH]; intros seg w Hseg; simpl; [by apply flush_execute|].
  destruct (is_barrier ev) eqn:Eb; [|by apply IH, barrier_free_snoc].
  rewrite iterM_app. unfold mbind, M_bind. rewrite flush_execute by done.
  destruct (iterM execute (schedule_segment seg) w) as [w1 [[]|e]]; [|done]. simpl.
  unfold mbind, M_bind. replace (execute ev w1) with (apply_barrier ev w1) by (unfold execute; by rewrite Eb).
  destruct (apply_barrier ev w1) as [w2 [[]|e]]; [|done]. apply IH. by intros ? ?%not_elem_of_nil.
Qed.

Lemma schedule_from_perm seg events : schedule_from seg events ≡ₚ seg ++ events.
Proof.
  revert seg; induction events as [|ev events IH]; intros seg; simpl.
  - by rewrite app_nil_r, schedule_segment_perm.
  - destruct (is_barrier ev); [by rewrite schedule_segment_perm, IH|].
    rewrite IH. by rewrite <-app_assoc.
Qed.

Lemma schedule_from_barrier seg a b c : is_barrier b = true ->
  schedule_from seg (a ++ b :: c) = schedule_from seg a ++ b :: schedule c.
Proof.
  intros Hb. revert seg; induction a as [|ev a IH]; intros seg; simpl; [by rewrite Hb|].
  destruct (is_barrier ev); [|apply IH]. rewrite IH, <-app_assoc. done.
Qed.

Lemma schedule_from_barrier_free seg l : barrier_free l -> schedule_from seg l = schedule_segment (seg ++ l).
Proof.
  revert seg; induction l as [|ev l IH]; intros seg Hl; simpl; [by rewrite app_nil_r|].
  rewrite Hl by set_solver. rewrite IH, <-app_assoc by (intros ? ?; apply Hl; set_solver). done.
Qed.

(** [apply_events] carries out the schedule of its events, each exactly
    once, stopping at the first applier that raises; invalid exact Sdf events
    are refused before anything is applied.  In the schedule the barriers
    (deletes, renames, exact sample edits) keep their place; between two barriers
    prim creation comes first, ancestors before descendants (stable in depth),
    then the other structural events, the API-schema overs and the values, each
    class in input order. *)
Theorem apply_events_runs_schedule events prevalidated w :
  apply_events events prevalidated w =
    (if prevalidated then iterM execute (schedule events) w
     else match validate_spec_events events with
          | Ok _ => iterM execute (schedule events) w
          | Err e => (w, Err e)
          end)
  /\ schedule events ≡ₚ events
  /\ (forall a b c, events = a ++ b :: c -> is_barrier b = true ->
        schedule events = schedule a ++ b :: schedule c)
  /\ (barrier_free events ->
        exists creates,
          schedule events = creates ++ segment_modifies events ++ segment_overs events ++ segment_values events
          /\ StronglySorted (fun x y => depth x ≤ depth y) creates
          /\ forall n, filter (fun ev => depth ev = n) creates =
               filter (fun ev => depth ev = n)
                 (filter (fun ev => creates_prim ev = true)
                   (filter (fun ev => is_structural ev = true) events))).
Proof.
  split_and!.
  - unfold apply_events, schedule. unfold mbind, M_bind.
    destruct prevalidated; [|unfold lift; destruct (validate_spec_events events); [|done]];
      apply apply_loop_execute; by intros ? ?%not_elem_of_nil.
  - apply (schedule_from_perm []).
  - intros a b c -> Hb. by apply schedule_from_barrier.
  - intros Hl. exists (segment_creates events). split_and!.
    + unfold schedule. by rewrite schedule_from_barrier_free.
    + apply sort_by_sorted.
    + intros n. apply sort_by_stable.
Qed.
End applying.

(** ** Witness: a stage that records what was applied *)

Definition demo_event (k prim : string) : event :=
  <["k" := PStr k]> (<["typeName" := PStr "Xform"]> {["prim" := PStr prim]}).

Definition demo_applier (k : string) : option (event -> M (list string) unit) :=
  Some (fun ev log => (log ++ [k +:+ " " +:+ str_of ev "prim"], Ok ())).

Definition demo_cached (ev : event) : M (list string * gset string) unit := fun w =>
  ((w.1 ++ [kind_of ev +:+ " " +:+ str_of ev "prim"], {[str_of ev "prim"]} ∪ w.2), Ok ()).

Definition demo_events : list event :=
  [demo_event K_SET_XFORM_TRS "/A/B"; demo_event K_ENSURE_PRIM "/A/B"; demo_event K_ENSURE_PRIM "/A";
   demo_event K_DELETE_PRIM "/A"; demo_event K_SET_VISIBILITY "/C"; demo_event K_ENSURE_PRIM "/C"].

#[export] Instance demo_usd : UsdApply (list string) (gset string) := {
  has_prototypes _ := false;
  prim_at _ _ := None;
  parent_path _ := None;
  appliers := demo_applier;
  ensure_canonical_ops := demo_cached;
  apply_set_xform_trs := demo_cached;
  cache_pop p c := c ∖ {[p]};
  cache_empty := ∅;
  validate_spec_events _ := Ok ();
}.

Lemma apply_events_runs_schedule_witness :
  (apply_events demo_events true ([], ∅)).1.1
  = ["ensure_prim /A"; "ensure_prim /A/B"; "set_xform_trs /A/B"; "delete_prim /A";
     "ensure_prim /C"; "set_visibility /C"].
Proof.
  destruct (apply_events_runs_schedule demo_events true ([], ∅)) as (H & _ & Hb & _).
  rewrite H.
  rewrite (Hb (take 3 demo_events) (demo_event K_DELETE_PRIM "/A") (drop 4 demo_events) eq_refl ltac:(by vm_compute)).
  by vm_compute.
Defined.
