(* ===== verification/LayerStack.v ===== *)
(** * LayerStack: the managed collaboration layers
    ([openusdconnect/server/layer_stack.py], [openusdconnect/_managed_sublayers.py])

    [CollaborationLayerStack] together with the two parts of the stage it owns:
    the sublayers of the session layer (path and offset) and the muted layers.
    A layer is its identifier; the identifier of a new anonymous layer is an
    argument, assumed unused.

    Theorems: the invariant (bidirectional maps, complete duplicate-free order
    with the default last, session block in that order with unrelated sublayers
    kept behind it) is preserved by every operation; a revision names one state. *)

From S2P Require Import Prelude.

Section layer_stack.
(** [Sdf.LayerOffset] and the identity offset [Sdf.LayerOffset()]. *)
Context {Offset : Type} `{EqDecision Offset} (identity : Offset).

Abbreviation sublayers := (list (string * Offset)).

(** [replace_managed_sublayers] *)
Definition replace_managed_sublayers (session : sublayers) (managed_paths : list string)
    (managed_identifiers : gset string) : sublayers :=
  let preserved := filter (fun s => s.1 ∉ managed_identifiers) session in
  let new_paths := managed_paths ++ map fst preserved in
  if bool_decide (new_paths = map fst session)
     && forallb (fun s => bool_decide (s.2 = identity)) (take (length managed_paths) session)
  then session
  else map (fun p => (p, identity)) managed_paths ++ preserved.

Record stack := mk_stack {
  default_key : string;
  layers : gmap string string;
  keys_by_identifier : gmap string string;
  labels : gmap string string;
  order : list string;
  generation : string;
  revision : Z;
  (** the stage *)
  session : sublayers;
  muted : gset string }.

Definition set_session_muted (se : sublayers) (mu : gset string) (s : stack) : stack :=
  mk_stack (default_key s) (layers s) (keys_by_identifier s) (labels s) (order s) (generation s)
    (revision s) se mu.

(** [self._layers[layer_key].identifier for layer_key in self._order] *)
Definition managed_paths (s : stack) : list string := omap (fun k => layers s !! k) (order s).

Definition update_session_sublayers (detach_identifiers : gset string) (s : stack) : stack :=
  set_session_muted
    (replace_managed_sublayers (session s) (managed_paths s)
       (dom (keys_by_identifier s) ∪ detach_identifiers)) (muted s) s.

(** [__init__] over a stage with the given session sublayers and muted layers. *)
Definition stack_init (default_layer default_key default_label generation : string)
    (se : sublayers) (mu : gset string) : result stack :=
  _ ← raise_if (bool_decide (default_key = "")) ValueError;
  Ok (update_session_sublayers ∅
    (mk_stack default_key {[default_key := default_layer]} {[default_layer := default_key]}
       {[default_key := default_label]} [default_key] generation 1 se mu)).

Definition has_layer (s : stack) (layer_key : string) : bool := bool_decide (is_Some (layers s !! layer_key)).

Definition label_for (layer_key : string) : M stack string := fun s =>
  (s, match labels s !! layer_key with Some l => Ok l | None => Err (KeyError layer_key) end).

Definition layer_for (layer_key : string) : M stack string := fun s =>
  (s, match layers s !! layer_key with Some l => Ok l | None => Err (KeyError layer_key) end).

Definition key_for_layer (s : stack) (layer : string) : option string := keys_by_identifier s !! layer.

(** [new_layer] is what [Sdf.Layer.CreateAnonymous] returns. *)
Definition ensure_layer (layer_key : string) (label : option string) (new_layer : string) :
    M stack (string * bool) := fun s =>
  if bool_decide (layer_key = "") then (s, Err ValueError) else
  match layers s !! layer_key with
  | Some existing => (s, Ok (existing, false))
  | None =>
      let display_label := match label with Some "" => layer_key | Some l => l | None => layer_key end in
      (update_session_sublayers ∅
         (mk_stack (default_key s) (<[layer_key := new_layer]> (layers s))
            (<[new_layer := layer_key]> (keys_by_identifier s)) (<[layer_key := display_label]> (labels s))
            (removelast (order s) ++ [layer_key; default_key s]) (generation s) (revision s + 1)
            (session s) (muted s)),
       Ok (new_layer, true))
  end.

Definition set_order (ordered_keys : list string) : M stack bool := fun s =>
  let order_set : gset string := list_to_set ordered_keys in
  if bool_decide (length ordered_keys ≠ size order_set) then (s, Err ValueError)
  else if bool_decide (order_set ≠ dom (layers s)) then (s, Err ValueError)
  else if bool_decide (last ordered_keys ≠ Some (default_key s)) then (s, Err ValueError)
  else if bool_decide (ordered_keys = order s) then (s, Ok false)
  else (update_session_sublayers ∅
          (mk_stack (default_key s) (layers s) (keys_by_identifier s) (labels s) ordered_keys
             (generation s) (revision s + 1) (session s) (muted s)), Ok true).

Definition set_muted (layer_key : string) (mute : bool) : M stack bool := fun s =>
  match layers s !! layer_key with
  | None => (s, Err (KeyError layer_key))
  | Some layer =>
      let currently_muted := bool_decide (layer ∈ muted s) in
      if bool_decide (currently_muted = mute) then (s, Ok false)
      else
        let mu := if mute then {[layer]} ∪ muted s else muted s ∖ {[layer]} in
        (mk_stack (default_key s) (layers s) (keys_by_identifier s) (labels s) (order s) (generation s)
           (revision s + 1) (session s) mu, Ok true)
  end.

Definition remove_layer (layer_key : string) : M stack string := fun s =>
  if bool_decide (layer_key = default_key s) then (s, Err ValueError) else
  match layers s !! layer_key with
  | None => (s, Err (KeyError layer_key))
  | Some layer =>
      (update_session_sublayers {[layer]}
         (mk_stack (default_key s) (delete layer_key (layers s)) (delete layer (keys_by_identifier s))
            (delete layer_key (labels s)) (filter (fun k => k ≠ layer_key) (order s)) (generation s)
            (revision s + 1) (session s) (muted s ∖ {[layer]})), Ok layer)
  end.

(** [state()]: the portable strongest-to-weakest stack. *)
Record layer_state := mk_layer_state { ls_key : string; ls_label : string; ls_muted : bool }.
Record stack_state := mk_stack_state {
  ss_generation : string; ss_revision : Z; ss_layers : list layer_state }.

Definition state (s : stack) : stack_state :=
  mk_stack_state (generation s) (revision s)
    (map (fun k => mk_layer_state k (default "" (labels s !! k))
                     (match layers s !! k with Some l => bool_decide (l ∈ muted s) | None => false end))
       (order s)).

(** ** Invariant *)

(** The part of the session the stack does not manage. *)
Definition unrelated (ids : gset string) (se : sublayers) : sublayers := filter (fun x => x.1 ∉ ids) se.

Record maps_ok (s : stack) : Prop := {
  order_last : last (order s) = Some (default_key s);
  order_nodup : NoDup (order s);
  order_complete k : k ∈ order s <-> is_Some (layers s !! k);
  labels_complete k : is_Some (labels s !! k) <-> is_Some (layers s !! k);
  maps_inverse k i : layers s !! k = Some i <-> keys_by_identifier s !! i = Some k;
}.

Definition session_ok (s : stack) : Prop :=
  session s = map (fun p => (p, identity)) (managed_paths s)
              ++ unrelated (dom (keys_by_identifier s)) (session s).

Record stack_ok (s : stack) : Prop := { ok_maps : maps_ok s; ok_session : session_ok s }.

(** ** Session block *)

Lemma filter_all {A} (P : A -> Prop) `{!∀ x, Decision (P x)} (l : list A) :
  (forall x, x ∈ l -> P x) -> filter P l = l.
Proof.
  induction l as [|x l IH]; intros Hl; [done|]. rewrite filter_cons_True by (apply Hl; set_solver).
  f_equal. apply IH. set_solver.
Qed.

Lemma identity_offsets (l : sublayers) :
  forallb (fun s => bool_decide (s.2 = identity)) l = true -> l = map (fun p => (p, identity)) (map fst l).
Proof.
  induction l as [|[p o] l IH]; [done|]. simpl.
  intros [->%bool_decide_eq_true Hl]%andb_true_iff. f_equal. by apply IH.
Qed.

Lemma replace_spec se mp ids :
  (forall p, p ∈ mp -> p ∈ ids) ->
  replace_managed_sublayers se mp ids = map (fun p => (p, identity)) mp ++ unrelated ids se.
Proof.
  intros Hin. unfold replace_managed_sublayers, unrelated. case_bool_decide as Hp; [|done].
  simpl. destruct (forallb _ _) eqn:Hf; [|done].
  assert (map fst (filter (fun s => s.1 ∉ ids) se) = map fst (drop (length mp) se)) as Hdrop.
  { apply (f_equal (drop (length mp))) in Hp. rewrite drop_app_length in Hp. by rewrite Hp, skipn_map. }
  assert (take (length mp) se = map (fun p => (p, identity)) mp) as Htake.
  { apply (f_equal (take (length mp))) in Hp. rewrite take_app_length, firstn_map in Hp.
    rewrite (identity_offsets _ Hf) at 1. by rewrite <-Hp. }
  rewrite <-(take_drop (length mp) se) at 1. rewrite Htake. f_equal.
  rewrite <-(take_drop (length mp) se) at 2. rewrite Htake, filter_app.
  rewrite list_filter_none.
  - simpl. symmetry. apply filter_all. intros [p o] Hpo.
    assert (p ∈ map fst (filter (fun s => s.1 ∉ ids) se)) as Hpin.
    { rewrite Hdrop. apply list_elem_of_fmap. by exists (p, o). }
    apply list_elem_of_fmap in Hpin as ([p' o'] & -> & [Hn _]%list_elem_of_filter). done.
  - intros [p o] (p' & [= -> ->] & Hp')%list_elem_of_fmap Hn. by apply Hn, Hin.
Qed.

Lemma managed_paths_elem s p : maps_ok s -> p ∈ managed_paths s -> p ∈ dom (keys_by_identifier s).
Proof.
  intros Hs (k & Hk & Hl)%list_elem_of_omap. apply elem_of_dom. exists k. by apply (maps_inverse _ Hs).
Qed.

Lemma unrelated_app ids l k : unrelated ids (l ++ k) = unrelated ids l ++ unrelated ids k.
Proof. apply filter_app. Qed.

Lemma unrelated_managed ids mp : (forall p, p ∈ mp -> p ∈ ids) ->
  unrelated ids (map (fun p => (p, identity)) mp) = [].
Proof.
  intros Hin. apply list_filter_none. intros [p o] (p' & [= -> ->] & Hp')%list_elem_of_fmap Hn.
  by apply Hn, Hin.
Qed.

Lemma unrelated_twice ids l : unrelated ids (unrelated ids l) = unrelated ids l.
Proof. apply filter_all. by intros x [? _]%list_elem_of_filter. Qed.

(** Rewriting the session block gives a correct one, whatever it was before. *)
Lemma update_session_ok d s :
  maps_ok s -> (forall p, p ∈ dom (keys_by_identifier s) -> p ∉ d) ->
  stack_ok (update_session_sublayers d s)
  /\ session (update_session_sublayers d s) =
     map (fun p => (p, identity)) (managed_paths s)
     ++ unrelated (dom (keys_by_identifier s) ∪ d) (session s).
Proof.
  intros Hs Hd. assert (session (update_session_sublayers d s) =
     map (fun p => (p, identity)) (managed_paths s)
     ++ unrelated (dom (keys_by_identifier s) ∪ d) (session s)) as Hse.
  { unfold update_session_sublayers. simpl. apply replace_spec.
    intros p Hp. apply (managed_paths_elem s) in Hp; [set_solver|done]. }
  split; [|done]. split; [by destruct Hs; split|].
  unfold session_ok. rewrite Hse. f_equal.
  change (keys_by_identifier (update_session_sublayers d s)) with (keys_by_identifier s).
  rewrite unrelated_app, unrelated_managed by (intros p; by apply managed_paths_elem). simpl.
  symmetry. apply filter_all. intros [p o] [Hp _]%list_elem_of_filter. set_solver.
Qed.

(** ** Operations *)

Lemma maps_order_split s : maps_ok s -> order s = removelast (order s) ++ [default_key s].
Proof.
  intros Hs. pose proof (order_last _ Hs) as Hl. apply last_Some in Hl as [l Hl].
  rewrite Hl. by rewrite removelast_last.
Qed.

Lemma ensure_maps s key new lab :
  maps_ok s -> layers s !! key = None -> keys_by_identifier s !! new = None ->
  maps_ok (mk_stack (default_key s) (<[key := new]> (layers s)) (<[new := key]> (keys_by_identifier s))
             (<[key := lab]> (labels s)) (removelast (order s) ++ [key; default_key s]) (generation s)
             (revision s + 1) (session s) (muted s)).
Proof.
  intros Hs Hk Hn. pose proof (maps_order_split s Hs) as Ho.
  assert (order s ++ [key] ≡ₚ removelast (order s) ++ [key; default_key s]) as Hperm.
  { rewrite Ho at 1. rewrite <-app_assoc. apply Permutation_app_head. simpl. apply Permutation_swap. }
  split; simpl.
  - by rewrite last_app.
  - rewrite <-Hperm. apply NoDup_app. split_and!; [apply Hs| |by apply NoDup_singleton].
    intros k Hin ->%list_elem_of_singleton. apply (order_complete _ Hs) in Hin. rewrite Hk in Hin. by destruct Hin.
  - intros k. rewrite <-Hperm, elem_of_app, list_elem_of_singleton, (order_complete _ Hs), lookup_insert_is_Some'.
    naive_solver.
  - intros k. rewrite !lookup_insert_is_Some', (labels_complete _ Hs). done.
  - intros k i. rewrite !lookup_insert_Some, (maps_inverse _ Hs).
    pose proof (maps_inverse _ Hs k new). pose proof (maps_inverse _ Hs key i). naive_solver.
Qed.

Lemma remove_maps s key layer :
  maps_ok s -> key ≠ default_key s -> layers s !! key = Some layer ->
  maps_ok (mk_stack (default_key s) (delete key (layers s)) (delete layer (keys_by_identifier s))
             (delete key (labels s)) (filter (fun k => k ≠ key) (order s)) (generation s)
             (revision s + 1) (session s) (muted s ∖ {[layer]})).
Proof.
  intros Hs Hd Hl. split; simpl.
  - rewrite (maps_order_split s Hs), filter_app, (filter_cons_True _ (default_key s)) by done. by rewrite last_app.
  - apply NoDup_filter, Hs.
  - intros k. rewrite list_elem_of_filter, (order_complete _ Hs), lookup_delete_is_Some. naive_solver.
  - intros k. rewrite !lookup_delete_is_Some, (labels_complete _ Hs). done.
  - intros k i. rewrite !lookup_delete_Some, <-(maps_inverse _ Hs).
    pose proof (maps_inverse _ Hs k layer). pose proof (maps_inverse _ Hs key i).
    pose proof (maps_inverse _ Hs key layer). naive_solver.
Qed.

(** The operations as one command type. *)
Inductive stack_op : Type :=
  | EnsureLayer (layer_key : string) (label : option string) (new_layer : string)
  | SetOrder (ordered_keys : list string)
  | SetMuted (layer_key : string) (muted : bool)
  | RemoveLayer (layer_key : string).

Definition run_op (o : stack_op) : M stack unit :=
  match o with
  | EnsureLayer k l n => _ ← ensure_layer k l n; mret ()
  | SetOrder ks => _ ← set_order ks; mret ()
  | SetMuted k b => _ ← set_muted k b; mret ()
  | RemoveLayer k => _ ← remove_layer k; mret ()
  end.

(** Anonymous layers get identifiers no managed layer has. *)
Definition op_fresh (s : stack) (o : stack_op) : Prop :=
  match o with EnsureLayer _ _ n => keys_by_identifier s !! n = None | _ => True end.

(** The sublayers that neither stack manages, with their offsets, in order. *)
Definition foreign (s s' : stack) (x : stack) : sublayers :=
  unrelated (dom (keys_by_identifier s) ∪ dom (keys_by_identifier s')) (session x).

Lemma foreign_updated s0 s d :
  maps_ok s -> (forall p, p ∈ d -> p ∈ dom (keys_by_identifier s0)) ->
  (forall p, p ∈ dom (keys_by_identifier s) -> p ∉ d) -> session s0 = session s ->
  unrelated (dom (keys_by_identifier s0) ∪ dom (keys_by_identifier s)) (session (update_session_sublayers d s))
  = unrelated (dom (keys_by_identifier s0) ∪ dom (keys_by_identifier s)) (session s0).
Proof.
  intros Hs Hd Hd' Hse. destruct (update_session_ok d s Hs Hd') as [_ ->].
  rewrite unrelated_app, unrelated_managed.
  - simpl. rewrite Hse. unfold unrelated. rewrite list_filter_filter. apply list_filter_iff'.
    intros x _. set_solver.
  - intros p Hp. apply (managed_paths_elem s) in Hp; [set_solver|done].
Qed.

Definition step_ok (s s' : stack) : Prop :=
  s' = s \/ (stack_ok s' /\ revision s' = (revision s + 1)%Z /\ generation s' = generation s
             /\ default_key s' = default_key s /\ foreign s s' s' = foreign s s' s).

Lemma run_op_step o s : stack_ok s -> op_fresh s o ->
  step_ok s (run_op o s).1 /\ (forall e, (run_op o s).2 = Err e -> (run_op o s).1 = s).
Proof.
  intros [Hm Hse] Hf. unfold run_op, mbind, M_bind. destruct o as [k l n|ks|k b|k]; simpl.
  - unfold ensure_layer. case_bool_decide; [by split; [left|]|].
    destruct (layers s !! k) eqn:Hk; [by split; [left|]|]. split; [right|done].
    set (s1 := mk_stack _ _ _ _ _ _ _ _ _). simpl.
    assert (maps_ok s1) as Hm1 by (by apply ensure_maps).
    destruct (update_session_ok ∅ s1 Hm1) as [Hok _]; [set_solver|]. split_and!; [done..|].
    unfold foreign. by apply (foreign_updated s s1 ∅); [|set_solver..|].
  - unfold set_order. repeat (case_bool_decide; [by split; [left|]|]). split; [right|done].
    set (s1 := mk_stack _ _ _ _ _ _ _ _ _). simpl.
    assert (maps_ok s1) as Hm1.
    { split; simpl; [| | |apply Hm|apply Hm].
      - done.
      - by apply NoDup_size_list_to_set.
      - intros k. rewrite <-elem_of_dom. replace (dom (layers s)) with (list_to_set ks : gset string) by done. by rewrite elem_of_list_to_set. }
    destruct (update_session_ok ∅ s1 Hm1) as [Hok _]; [set_solver|]. split_and!; [done..|].
    unfold foreign. by apply (foreign_updated s s1 ∅); [|set_solver..|].
  - unfold set_muted. destruct (layers s !! k) eqn:Hk; [|by split; [left|]].
    case_bool_decide; [by split; [left|]|]. split; [right|done]. split_and!; [|done..].
    split; [by destruct Hm; split|]. unfold session_ok in *. simpl. by rewrite Hse at 1.
  - unfold remove_layer. case_bool_decide; [by split; [left|]|].
    destruct (layers s !! k) as [layer|] eqn:Hk; [|by split; [left|]]. split; [right|done].
    set (s1 := mk_stack _ _ _ _ _ _ _ _ _). simpl.
    assert (maps_ok s1) as Hm1 by (by apply remove_maps).
    assert (forall p, p ∈ dom (keys_by_identifier s1) -> p ∉ ({[layer]} : gset string)).
    { intros p. simpl. set_solver. }
    destruct (update_session_ok {[layer]} s1 Hm1) as [Hok _]; [done|]. split_and!; [done..|].
    unfold foreign. apply (foreign_updated s s1 {[layer]}); [done| |done|done].
    intros p ->%elem_of_singleton. apply elem_of_dom. exists k. by apply (maps_inverse _ Hm).
Qed.

(** One serialized operation of the server on the stack. *)
Definition stack_step (s s' : stack) : Prop := exists o, op_fresh s o /\ s' = (run_op o s).1.

(** whatever operations run, in any order and whether or not they raise,
    the stack stays well formed: both maps agree, the order lists every key once
    with the default last, and the session sublayers are the managed layers in
    that order with identity offsets, followed by the unrelated sublayers.  The
    generation never changes, the revision never decreases, and equal revisions
    mean the same published state. *)
Lemma stack_run_ok s0 s :
  stack_ok s0 -> rtc stack_step s0 s ->
  stack_ok s /\ default_key s = default_key s0 /\ generation s = generation s0
  /\ (revision s0 ≤ revision s)%Z /\ (revision s = revision s0 -> state s = state s0).
Proof.
  intros Hok Hrun. revert Hok. induction Hrun as [s|s s1 s2 (o & Hf & ->) _ IH]; intros Hok.
  - split_and!; [done..|lia|done].
  - destruct (run_op_step o s Hok Hf) as [[E|(Hok1 & Hr & Hg & Hd & _)] _].
    { rewrite E in IH. by apply IH. }
    destruct (IH Hok1) as (? & -> & -> & Hle & _). rewrite Hr in Hle.
    split_and!; [done..|lia|]. intros E. lia.
Qed.

(** an operation leaves the session sublayers it does not manage (neither
    before nor after) in place: same paths, same offsets, same order; and an
    operation that raises changes nothing. *)
Theorem stack_step_frame o s :
  stack_ok s -> op_fresh s o ->
  foreign s (run_op o s).1 (run_op o s).1 = foreign s (run_op o s).1 s
  /\ (forall e, (run_op o s).2 = Err e -> (run_op o s).1 = s).
Proof.
  intros Hok Hf. destruct (run_op_step o s Hok Hf) as [[E|(_ & _ & _ & _ & Hfo)] Herr].
  - split; [by rewrite E|done].
  - done.
Qed.

(** [set_order] accepts exactly the rearrangements of the current order
    that keep the default last; an accepted order becomes the order, and the
    call reports whether it changed anything. *)
Theorem set_order_accepts s ks :
  stack_ok s ->
  match set_order ks s with
  | (s', Ok changed) =>
      ks ≡ₚ order s /\ last ks = Some (default_key s) /\ order s' = ks
      /\ (changed = true <-> ks ≠ order s) /\ layers s' = layers s
  | (s', Err e) => e = ValueError /\ s' = s /\ ¬ (ks ≡ₚ order s /\ last ks = Some (default_key s))
  end.
Proof.
  intros [Hm _].
  assert (list_to_set ks = dom (layers s) <-> forall k, k ∈ ks <-> k ∈ order s) as Hset.
  { rewrite set_eq. apply forall_proper. intros k.
    by rewrite elem_of_list_to_set, elem_of_dom, (order_complete _ Hm). }
  assert (ks ≡ₚ order s -> length ks = size (list_to_set ks : gset string)) as Hsize.
  { intros Hp. rewrite size_list_to_set; [done|]. rewrite Hp. apply Hm. }
  assert (ks ≡ₚ order s -> forall k, k ∈ ks <-> k ∈ order s) as Hel by (intros Hp k; by rewrite Hp).
  unfold set_order. case_bool_decide as H1; [naive_solver|]. case_bool_decide as H2; [naive_solver|].
  case_bool_decide as H3; [naive_solver|].
  assert (ks ≡ₚ order s) as Hp.
  { apply NoDup_Permutation; [by apply NoDup_size_list_to_set|apply Hm|]. by apply Hset. }
  case_bool_decide as H4; split_and!; naive_solver.
Qed.

(** What each operation returns and does to the layers. *)
Lemma ensure_layer_spec k l n s s' r : stack_ok s -> keys_by_identifier s !! n = None -> ensure_layer k l n s = (s', r) ->
  stack_ok s' /\ default_key s' = default_key s /\
  match r with
  | Ok (i, added) => layers s' = <[k := i]> (layers s) /\ added = negb (has_layer s k) /\ (added = false -> s' = s)
  | Err e => k = "" /\ s' = s
  end.
Proof.
  intros Hok Hn E1. destruct (run_op_step (EnsureLayer k l n) s Hok Hn) as [Hstep _].
  assert ((run_op (EnsureLayer k l n) s).1 = s') as E2.
  { cbn. unfold mbind, M_bind. rewrite E1. by destruct r. }
  rewrite E2 in Hstep. split_and!.
  - by destruct Hstep as [->|(? & _)].
  - by destruct Hstep as [->|(_ & _ & _ & ? & _)].
  - unfold ensure_layer in E1. case_bool_decide as Hk; [by injection E1 as <- <-|]. destruct (layers s !! k) as [i|] eqn:Ek; injection E1 as <- <-.
    + rewrite insert_id by done. split_and!; [done| |done]. unfold has_layer. by rewrite Ek.
    + split_and!; [done| |done]. unfold has_layer. by rewrite Ek.
Qed.

Lemma set_order_spec s ks : stack_ok s -> ks ≡ₚ order s -> last ks = Some (default_key s) ->
  exists s', set_order ks s = (s', Ok (bool_decide (ks ≠ order s))) /\ stack_ok s' /\ default_key s' = default_key s
    /\ order s' = ks /\ layers s' = layers s /\ (ks = order s -> s' = s).
Proof.
  intros Hok Hp Hl. pose proof (set_order_accepts s ks Hok) as Ha. destruct (run_op_step (SetOrder ks) s Hok I) as [Hstep _].
  unfold run_op, mbind, M_bind, mret, M_ret in Hstep. destruct (set_order ks s) as [s' [changed|e]] eqn:E1; [|naive_solver].
  destruct Ha as (_ & _ & Ho & Hc & Hla). cbn in Hstep. exists s'. split_and!; [|by destruct Hstep as [->|(? & _)]|by destruct Hstep as [->|(_ & _ & _ & ? & _)]|done|done|].
  - repeat f_equal. symmetry. case_bool_decide; destruct changed; naive_solver.
  - intros E2. unfold set_order in E1. rewrite (bool_decide_true (ks = order s)) in E1 by done. repeat case_bool_decide; by simplify_eq.
Qed.

Lemma remove_layer_spec k s s' r : stack_ok s -> remove_layer k s = (s', r) ->
  stack_ok s' /\ default_key s' = default_key s /\
  match r with
  | Ok i => layers s !! k = Some i /\ k ≠ default_key s /\ layers s' = delete k (layers s)
  | Err e => s' = s /\ (k = default_key s \/ layers s !! k = None)
  end.
Proof.
  intros Hok E1. destruct (run_op_step (RemoveLayer k) s Hok I) as [Hstep _].
  unfold run_op, mbind, M_bind, mret, M_ret in Hstep. rewrite E1 in Hstep.
  split_and!.
  - destruct r; simpl in Hstep; by destruct Hstep as [->|(? & _)].
  - destruct r; simpl in Hstep; by destruct Hstep as [->|(_ & _ & _ & ? & _)].
  - unfold remove_layer in E1. case_bool_decide; [injection E1 as <- <-; auto|].
    destruct (layers s !! k) as [i|] eqn:Ek; injection E1 as <- <-; auto.
Qed.

Lemma set_muted_spec k b s s' r : stack_ok s -> set_muted k b s = (s', r) ->
  stack_ok s' /\ default_key s' = default_key s /\ layers s' = layers s /\ order s' = order s.
Proof.
  intros Hok E1. destruct (run_op_step (SetMuted k b) s Hok I) as [Hstep _].
  unfold run_op, mbind, M_bind, mret, M_ret in Hstep. rewrite E1 in Hstep. unfold set_muted in E1.
  destruct r; simpl in Hstep; (split_and!; [by destruct Hstep as [->|(? & _)]|by destruct Hstep as [->|(_ & _ & _ & ? & _)]|..]);
    by destruct (layers s !! k); repeat case_bool_decide; simplify_eq.
Qed.

Lemma stack_init_ok dl dk dlab g se mu s :
  stack_init dl dk dlab g se mu = Ok s -> stack_ok s /\ order s = [dk].
Proof.
  unfold stack_init. intros H. inv_bind H. injection H as <-. split; [|done].
  apply update_session_ok; [|set_solver]. split; simpl.
  - done.
  - apply NoDup_singleton.
  - intros k. rewrite list_elem_of_singleton, lookup_singleton_is_Some. naive_solver.
  - intros k. by rewrite !lookup_singleton_is_Some.
  - intros k i. rewrite !lookup_singleton_Some. naive_solver.
Qed.
End layer_stack.

(** ** Witnesses: departments "anim" and "light" over a foreign sublayer *)

Definition demo_init : result (stack (Offset := Z)) :=
  stack_init 0%Z "anon:1" "default" "Default" "g" [("user.usda", 5%Z)] ∅.
Definition demo_stack : stack (Offset := Z) :=
  match demo_init with Ok s => s | Err _ => mk_stack "" ∅ ∅ ∅ [] "" 0 [] ∅ end.

Definition demo_ensure : stack_op := EnsureLayer "department:anim" (Some "anim") "anon:2".

Lemma demo_stack_ok : stack_ok 0%Z demo_stack.
Proof. apply (stack_init_ok 0%Z "anon:1" "default" "Default" "g" [("user.usda", 5%Z)] ∅). by vm_compute. Qed.

Lemma demo_fresh : op_fresh demo_stack demo_ensure.
Proof. by vm_compute. Qed.

Lemma stack_run_ok_demo :
  stack_ok 0%Z (run_op 0%Z demo_ensure demo_stack).1
  /\ session (run_op 0%Z demo_ensure demo_stack).1 = [("anon:2", 0%Z); ("anon:1", 0%Z); ("user.usda", 5%Z)].
Proof.
  split; [|by vm_compute].
  apply (stack_run_ok 0%Z demo_stack); [apply demo_stack_ok|].
  apply rtc_once. exists demo_ensure. split; [apply demo_fresh|done].
Defined.

Lemma stack_step_frame_witness :
  foreign demo_stack (run_op 0%Z demo_ensure demo_stack).1 (run_op 0%Z demo_ensure demo_stack).1
  = [("user.usda", 5%Z)].
Proof.
  rewrite (proj1 (stack_step_frame 0%Z demo_ensure demo_stack demo_stack_ok demo_fresh)). by vm_compute.
Defined.

Lemma set_order_accepts_witness :
  is_ok (set_order 0%Z ["default"; "default"] demo_stack).2 = false.
Proof.
  pose proof (set_order_accepts 0%Z demo_stack ["default"; "default"] demo_stack_ok) as H.
  destruct (set_order 0%Z ["default"; "default"] demo_stack) as [s' [b|e]] eqn:E; [|done].
  exfalso. vm_compute in E. done.
Defined.
