(* ===== verification/Scene.v ===== *)
(** * Scene: the authoritative stage and its edit scopes
    ([openusdconnect/server/scene.py])

    [SceneState]: layer contents, edit target, managed stack (with the muted
    layers), operation cache and prim trackers.  The scene lock serialises the
    operations, so each is one step on the state.  [apply_with_deletion_fields]
    rewrites the ["fields"] of the event objects it is given: a function that
    mutates the events returns them ([mutator]), also when it raises.

    Theorems: [atomic_edit] restores every layer it was told about, the edit
    target and the cache after a failure; applying keeps the mute state and puts
    every event on its layer; the single-layer fast path is the routed path. *)

From S2P Require Import Prelude Constants LayerStack Rollback PrimIndex Applying.

Section scene.
(** Layer contents, opaque runtime state (payload load rules), offsets. *)
Context {V L R Offset : Type} `{SdfLayer V L} `{EqDecision Offset} (identity : Offset).

(** The stage. *)
Record stage := mk_stage {
  contents : gmap string L;
  edit_target : string;
  stk : stack (Offset := Offset);
  runtime : R }.

Context {C : Type} `{UsdApply stage C}.
(** [layer.GetObjectAtPath(path)]: the field names [ListInfoKeys()] of the spec found. *)
Context (list_info_keys : L -> string -> option (list string)).

Record scene := mk_scene {
  stg : stage;
  edit_layer : string;
  session_layer : string;
  op_cache : C;
  op_cache_layer : option string;
  trk : trackers }.

(** ** Small state updates *)

Definition layer_content (s : stage) (layer : string) : L := default anonymous (contents s !! layer).

Definition set_layer_content (layer : string) (l : L) (s : stage) : stage :=
  mk_stage (<[layer := l]> (contents s)) (edit_target s) (stk s) (runtime s).

Definition set_stage_target (layer : string) (s : stage) : stage :=
  mk_stage (contents s) layer (stk s) (runtime s).

Definition set_stage_muted (mu : gset string) (s : stage) : stage :=
  mk_stage (contents s) (edit_target s) (set_session_muted (session (stk s)) mu (stk s)) (runtime s).

Definition set_stg (t : stage) (s : scene) : scene :=
  mk_scene t (edit_layer s) (session_layer s) (op_cache s) (op_cache_layer s) (trk s).

Definition set_cache (c : C) (owner : option string) (s : scene) : scene :=
  mk_scene (stg s) (edit_layer s) (session_layer s) c owner (trk s).

Definition set_trk (t : trackers) (s : scene) : scene :=
  mk_scene (stg s) (edit_layer s) (session_layer s) (op_cache s) (op_cache_layer s) t.

(** [stage.SetEditTarget(Usd.EditTarget(layer))] *)
Definition set_edit_target (layer : string) (s : scene) : scene := set_stg (set_stage_target layer (stg s)) s.

Definition is_muted (s : scene) (layer : string) : bool := bool_decide (layer ∈ muted (stk (stg s))).
Definition mute_layer (layer : string) (s : scene) : scene :=
  set_stg (set_stage_muted ({[layer]} ∪ muted (stk (stg s))) (stg s)) s.
Definition unmute_layer (layer : string) (s : scene) : scene :=
  set_stg (set_stage_muted (muted (stk (stg s)) ∖ {[layer]}) (stg s)) s.

Definition scene_layer (layer : string) (s : scene) : L := layer_content (stg s) layer.
Definition set_scene_layer (layer : string) (l : L) (s : scene) : scene :=
  set_stg (set_layer_content layer l (stg s)) s.

(** ** Caches *)

Definition clear_op_cache (s : scene) : scene := set_cache cache_empty None s.

(** [_op_cache_for] *)
Definition op_cache_for (layer : string) (s : scene) : scene :=
  if bool_decide (op_cache_layer s ≠ Some layer) then set_cache cache_empty (Some layer) s else s.

Definition scene_update_prim_tracking (events : list event) (s : scene) : scene :=
  set_trk (update_prim_tracking events (trk s)) s.

Definition invalidate_prim_count (s : scene) : scene :=
  set_trk (mk_trackers (prim_paths (trk s)) (instanceable_paths (trk s)) (namespace_paths (trk s)) true) s.

Definition rebuild_caches (events : list event) (s : scene) : scene :=
  set_trk (rebuild_trackers events) (clear_op_cache s).

(** ** Applying *)

(** [apply_events(stage, events, op_cache=...)] with the scene's cache. *)
Definition scene_apply (events : list event) (prevalidated : bool) : M scene unit :=
  zoom (fun s => (stg s, op_cache s))
       (fun w s => set_cache w.2 (op_cache_layer s) (set_stg w.1 s))
       (apply_events events prevalidated).

(** A call that may rewrite the event objects it was given. *)
Definition mutator : Type := list event -> scene -> scene * list event * result unit.

Definition is_deletion (ev : event) : bool :=
  bool_decide (kind_of ev = K_SET_SDF_SPEC_FIELDS) && truthy (py_get ev "removed").

Definition field_names (ev : event) : list string :=
  match ev !! "fields" with
  | Some (PList l) => omap (fun v => match v with PStr f => Some f | _ => None end) l
  | _ => []
  end.

(** [event["fields"] = sorted(set(event["fields"]) | {str(key) for key in spec.ListInfoKeys()})] *)
Definition complete_fields (l : L) (ev : event) : event :=
  match list_info_keys l (str_of ev "spec_path") with
  | None => ev
  | Some keys =>
      let names : gset string := list_to_set (field_names ev) ∪ list_to_set keys in
      <["fields" := PList (map PStr (sorted_strings (elements names)))]> ev
  end.

(** [if ...: apply_events(stage, pending, ...)]: an empty slice is not applied. *)
Definition apply_pending (pending : list event) : M scene unit :=
  match pending with [] => mret () | _ => scene_apply pending true end.

(** The loop of [apply_with_deletion_fields]; [pending] is [events[start:index]]. *)
Fixpoint deletion_loop (layer : string) (pending events : list event) (s : scene) :
    scene * list event * result unit :=
  match events with
  | [] => let '(s, r) := apply_pending pending s in (s, pending, r)
  | ev :: rest =>
      if negb (is_deletion ev) then deletion_loop layer (pending ++ [ev]) rest s
      else
        match apply_pending pending s with
        | (s, Err e) => (s, pending ++ ev :: rest, Err e)
        | (s, Ok _) =>
            let ev := complete_fields (scene_layer layer s) ev in
            match scene_apply [ev] true s with
            | (s, Err e) => (s, pending ++ ev :: rest, Err e)
            | (s, Ok _) =>
                let '(s, rest, r) := deletion_loop layer [] rest s in (s, pending ++ ev :: rest, r)
            end
        end
  end.

(** The cache passed in is the scene's, prepared by [_op_cache_for]. *)
Definition apply_with_deletion_fields (layer : string) : mutator := deletion_loop layer [].

(** [itertools.groupby(events, key)]: maximal runs of equal keys. *)
Fixpoint groupby (key : event -> bool) (events : list event) : list (bool * list event) :=
  match events with
  | [] => []
  | ev :: events =>
      match groupby key events with
      | (b, run) :: runs => if eqb b (key ev) then (b, ev :: run) :: runs else (key ev, [ev]) :: (b, run) :: runs
      | [] => [(key ev, [ev])]
      end
  end.

(** One run of [_apply_routed_runs]. *)
Definition apply_run (target : string) (session_events : bool) : mutator := fun run s =>
  let run_layer := if session_events then session_layer s else target in
  let s := set_edit_target run_layer s in
  apply_with_deletion_fields run_layer run (op_cache_for run_layer s).

Fixpoint apply_runs (target : string) (runs : list (bool * list event)) (s : scene) :
    scene * list event * result unit :=
  match runs with
  | [] => (s, [], Ok ())
  | (session_events, run) :: runs =>
      match apply_run target session_events run s with
      | (s, run, Err e) => (s, run ++ concat (map snd runs), Err e)
      | (s, run, Ok _) => let '(s, rest, r) := apply_runs target runs s in (s, run ++ rest, r)
      end
  end.

(** [_apply_routed_runs] *)
Definition apply_routed_runs (target : string) : mutator := fun events s =>
  apply_runs target (groupby non_collaboration events) s.

(** [apply_validated] *)
Definition apply_validated (layer : option string) (update_tracking : bool) : mutator := fun events s =>
  let target := default (edit_layer s) layer in
  let target_was_muted := is_muted s target in
  let needs_unmute := target_was_muted && existsb (fun ev => negb (non_collaboration ev)) events in
  let post_apply_target := if target_was_muted then session_layer s else target in
  let s := if needs_unmute then unmute_layer target s else s in
  let '(s, events, r) :=
    if existsb non_collaboration events then apply_routed_runs target events s
    else apply_with_deletion_fields target events (op_cache_for target (set_edit_target target s)) in
  let s := set_edit_target post_apply_target s in
  let s := if needs_unmute then mute_layer target s else s in
  match r with
  | Ok _ => ((if update_tracking then scene_update_prim_tracking events s else s), events, Ok ())
  | Err e => (s, events, Err e)
  end.

(** ** atomic_edit

    The scope runs around a body acting on a larger state [S] that contains
    the scene. *)
Section atomic_edit.
Context {S : Type} (view : S -> scene) (set : scene -> S -> S).

Definition view_layer (layer : string) (s : S) : L := scene_layer layer (view s).
Definition set_layer (layer : string) (l : L) (s : S) : S := set (set_scene_layer layer l (view s)) s.

(** [ExitStack] entering one scope per layer, the innermost last. *)
Fixpoint with_layers {A} (layer_paths : list (string * list path)) (body : M S A) : M S A :=
  match layer_paths with
  | [] => body
  | (layer, paths) :: rest =>
      atomic_apply_layer (view_layer layer) (set_layer layer) (Some paths) (with_layers rest body)
  end.

Definition atomic_edit {A} (layer_paths : list (string * list path)) (include_session : bool)
    (body : M S A) : M S A := fun st =>
  let original_target := edit_target (stg (view st)) in
  let session := session_layer (view st) in
  let '(st, r) := with_layers layer_paths
    (if include_session
     then atomic_apply_layer (view_layer session) (set_layer session) None body
     else body) st in
  let st := match r with
            | Err e => if is_exception e then set (clear_op_cache (view st)) st else st
            | Ok _ => st
            end in
  (set (set_edit_target original_target (view st)) st, r).
End atomic_edit.

(** [replay_events]: adjacent events of one layer are applied together, with
    the tracker update after each run. *)
Fixpoint groupby_layer (routed : list (string * event)) : list (string * list event) :=
  match routed with
  | [] => []
  | (layer, ev) :: routed =>
      match groupby_layer routed with
      | (l, run) :: runs =>
          if bool_decide (l = layer) then (l, ev :: run) :: runs else (layer, [ev]) :: (l, run) :: runs
      | [] => [(layer, [ev])]
      end
  end.

(** [with Usd.EditContext(stage, target): body] *)
Definition with_edit_context (layer : string) (body : M scene unit) : M scene unit := fun s =>
  let original := edit_target (stg s) in
  let '(s, r) := body (set_edit_target layer s) in
  (set_edit_target original s, r).

Definition replay_events (routed_events : list (string * event)) : M scene unit := fun s =>
  let '(s, r) := iterM (fun run =>
      _ ← with_edit_context run.1 (_ ← modify (op_cache_for run.1); scene_apply run.2 false);
      modify (scene_update_prim_tracking run.2)) (groupby_layer routed_events) s in
  let s := match r with
           | Err e => if is_exception e then clear_op_cache s else s
           | Ok _ => s
           end in
  (invalidate_prim_count s, r).

(** ** Runs *)

Lemma groupby_concat key events : concat (map snd (groupby key events)) = events.
Proof.
  induction events as [|ev events IH]; [done|]. simpl.
  destruct (groupby key events) as [|[b run] runs]; simpl in *; [by rewrite <-IH|].
  destruct (eqb b (key ev)); simpl; by rewrite IH.
Qed.

Lemma groupby_run_keys key events b run ev :
  (b, run) ∈ groupby key events -> ev ∈ run -> key ev = b.
Proof.
  revert b run; induction events as [|x events IH]; intros b run; simpl; [by intros ?%not_elem_of_nil|].
  destruct (groupby key events) as [|[b' run'] runs].
  - intros [= -> ->]%list_elem_of_singleton. by intros ->%list_elem_of_singleton.
  - destruct (eqb b' (key x)) eqn:E.
    + apply eqb_prop in E as ->. intros [[= -> ->]|Hin]%elem_of_cons.
      * intros [->|Hev]%elem_of_cons; [done|]. apply (IH (key x) run'); [set_solver|done].
      * intros Hev. apply (IH b run); [set_solver|done].
    + intros [[= -> ->]|Hin]%elem_of_cons; [by intros ->%list_elem_of_singleton|]. by apply IH.
Qed.

Lemma groupby_single key b events :
  events ≠ [] -> (forall ev, ev ∈ events -> key ev = b) -> groupby key events = [(b, events)].
Proof.
  induction events as [|ev events IH]; intros Hne Hk; [done|]. simpl.
  destruct (decide (events = [])) as [->|Hne']; [simpl; by rewrite Hk by set_solver|].
  rewrite IH by (done || set_solver). by rewrite Hk, eqb_reflx by set_solver.
Qed.

(** the single-layer fast path of [apply_validated] computes what the
    routed path computes: for a non-empty request without session events,
    [_apply_routed_runs] makes one run on the target layer, with the same
    resulting scene, event objects and outcome. *)
Theorem fast_path_is_routed_path target events s :
  events ≠ [] -> existsb non_collaboration events = false ->
  apply_routed_runs target events s
  = apply_with_deletion_fields target events (op_cache_for target (set_edit_target target s)).
Proof.
  intros Hne Hnone. unfold apply_routed_runs. rewrite (groupby_single _ false).
  - simpl. unfold apply_run. destruct (apply_with_deletion_fields _ _ _) as [[s1 evs] [[]|e]];
      by rewrite app_nil_r.
  - done.
  - intros ev Hin. apply not_true_iff_false. intros Ht. apply not_true_iff_false in Hnone. apply Hnone.
    apply existsb_exists. exists ev. by rewrite <-list_elem_of_In.
Qed.

(** ** Event objects: only the fields of deletions are completed *)

Definition completed (before after : event) : Prop :=
  after = before
  \/ (is_deletion before = true /\ delete "fields" after = delete "fields" before
      /\ forall f, f ∈ field_names before -> f ∈ field_names after).

Lemma complete_fields_completed l ev : is_deletion ev = true -> completed ev (complete_fields l ev).
Proof.
  intros Hd. unfold complete_fields. destruct (list_info_keys l (str_of ev "spec_path")); [|by left].
  right. split_and!; [done|by rewrite delete_insert_eq|].
  intros f Hf. unfold field_names. rewrite lookup_insert_eq.
  apply list_elem_of_omap. exists (PStr f). split; [|done].
  apply list_elem_of_fmap. exists f. split; [done|].
  apply elem_of_sorted_strings, elem_of_elements. set_solver.
Qed.

Lemma completed_refl ev : completed ev ev.
Proof. by left. Qed.

Lemma Forall2_completed_refl l : Forall2 completed l l.
Proof. induction l; constructor; [apply completed_refl|done]. Qed.

Lemma deletion_loop_completed layer pending events s s' events' r :
  deletion_loop layer pending events s = (s', events', r) -> Forall2 completed (pending ++ events) events'.
Proof.
  revert pending s events'; induction events as [|ev events IH]; intros pending s events' Hr; simpl in Hr.
  - destruct (apply_pending pending s). injection Hr as <- <- <-. rewrite app_nil_r. apply Forall2_completed_refl.
  - destruct (is_deletion ev) eqn:Hd; simpl in Hr.
    + destruct (apply_pending pending s) as [s1 [u|e]]; [|injection Hr as <- <- <-; apply Forall2_completed_refl].
      assert (completed ev (complete_fields (scene_layer layer s1) ev)) by (by apply complete_fields_completed).
      destruct (scene_apply _ true s1) as [s2 [u2|e]].
      * destruct (deletion_loop layer [] events s2) as [[s3 rest] r3] eqn:E. injection Hr as <- <- <-.
        apply IH in E. apply Forall2_app; [apply Forall2_completed_refl|]. by constructor.
      * injection Hr as <- <- <-. apply Forall2_app; [apply Forall2_completed_refl|].
        constructor; [done|apply Forall2_completed_refl].
    + apply IH in Hr. by rewrite <-app_assoc in Hr.
Qed.

Lemma apply_runs_completed target runs s s' events' r :
  apply_runs target runs s = (s', events', r) -> Forall2 completed (concat (map snd runs)) events'.
Proof.
  revert s events'; induction runs as [|[b run] runs IH]; intros s events' Hr; simpl in *.
  - injection Hr as <- <- <-. constructor.
  - destruct (apply_run target b run s) as [[s1 run1] r1] eqn:E1.
    apply (deletion_loop_completed _ []) in E1. destruct r1 as [[]|e].
    + destruct (apply_runs target runs s1) as [[s2 rest] r2] eqn:E2. injection Hr as <- <- <-.
      apply Forall2_app; [done|]. by eapply IH.
    + injection Hr as <- <- <-. apply Forall2_app; [done|apply Forall2_completed_refl].
Qed.

Lemma apply_validated_completed layer upd events s s' events' r :
  apply_validated layer upd events s = (s', events', r) -> Forall2 completed events events'.
Proof.
  unfold apply_validated. intros Hr.
  set (s0 := if is_muted s _ && _ then _ else s) in Hr.
  destruct (existsb non_collaboration events).
  - destruct (apply_routed_runs _ events s0) as [[s1 ev1] r1] eqn:E.
    apply apply_runs_completed in E. rewrite groupby_concat in E. destruct r1; by injection Hr as _ <- _.
  - destruct (apply_with_deletion_fields _ events _) as [[s1 ev1] r1] eqn:E.
    apply (deletion_loop_completed _ []) in E. destruct r1; by injection Hr as _ <- _.
Qed.

(** ** What applying leaves alone *)

(** Appliers author opinions and runtime state; none mutes a layer, edits the
    managed stack or moves the edit target. *)
Definition appliers_frame : Prop := forall events pre (w : stage * C),
  stk (apply_events events pre w).1.1 = stk w.1
  /\ edit_target (apply_events events pre w).1.1 = edit_target w.1.

(** The parts of a scene that applying does not touch, edit target aside. *)
Definition same_frame (s s' : scene) : Prop :=
  stk (stg s') = stk (stg s) /\ edit_layer s' = edit_layer s
  /\ session_layer s' = session_layer s /\ trk s' = trk s.

#[local] Instance same_frame_trans : Transitive same_frame.
Proof. unfold same_frame. intros a b c (? & ? & ? & ?) (? & ? & ? & ?). split_and!; congruence. Qed.
#[local] Instance same_frame_refl : Reflexive same_frame.
Proof. done. Qed.

Section frame.
Context (Hframe : appliers_frame).

Lemma scene_apply_frame events pre s : same_frame s (scene_apply events pre s).1.
Proof using Hframe.
  unfold scene_apply, zoom. pose proof (Hframe events pre (stg s, op_cache s)) as [Hs _].
  destruct (apply_events events pre _) as [[t c] r]. done.
Qed.

Lemma apply_pending_frame pending s : same_frame s (apply_pending pending s).1.
Proof using Hframe. destruct pending; [done|]. apply scene_apply_frame. Qed.

Lemma deletion_loop_frame layer pending events s : same_frame s (deletion_loop layer pending events s).1.1.
Proof using Hframe.
  revert pending s; induction events as [|ev events IH]; intros pending s; simpl.
  - pose proof (apply_pending_frame pending s) as Hp. by destruct (apply_pending pending s).
  - destruct (is_deletion ev); simpl; [|apply IH].
    pose proof (apply_pending_frame pending s) as Hp.
    destruct (apply_pending pending s) as [s1 [u|e]]; [|done].
    pose proof (scene_apply_frame [complete_fields (scene_layer layer s1) ev] true s1) as Ha.
    destruct (scene_apply _ true s1) as [s2 [u2|e]]; simpl in *; [|by etrans].
    pose proof (IH [] s2) as Hi. destruct (deletion_loop layer [] events s2) as [[s3 rest] r3]. simpl in *.
    etrans; [done|]. by etrans.
Qed.

Lemma op_cache_for_frame layer s : same_frame s (op_cache_for layer s).
Proof. unfold op_cache_for. by case_bool_decide. Qed.

Lemma apply_run_frame target b run s : same_frame s (apply_run target b run s).1.1.
Proof using Hframe.
  unfold apply_run, apply_with_deletion_fields.
  etrans; [|apply deletion_loop_frame]. etrans; [|apply op_cache_for_frame]. done.
Qed.

Lemma apply_runs_frame target runs s : same_frame s (apply_runs target runs s).1.1.
Proof using Hframe.
  revert s; induction runs as [|[b run] runs IH]; intros s; simpl; [done|].
  pose proof (apply_run_frame target b run s) as Hr.
  destruct (apply_run target b run s) as [[s1 run1] [u|e]]; simpl in *; [|done].
  pose proof (IH s1) as Hi. destruct (apply_runs target runs s1) as [[s2 rest] r]. by etrans.
Qed.
End frame.

Lemma apply_validated_stage layer upd events s :
  appliers_frame ->
  let target := default (edit_layer s) layer in
  let '(s', events', r) := apply_validated layer upd events s in
  stk (stg s') = stk (stg s)
  /\ edit_target (stg s') = (if is_muted s target then session_layer s else target)
  /\ Forall2 completed events events'
  /\ trk s' = (if upd && is_ok r then update_prim_tracking events' (trk s) else trk s).
Proof.
  intros Hframe target.
  destruct (apply_validated layer upd events s) as [[s' events'] r] eqn:E.
  assert (Forall2 completed events events') as Hc by (by eapply apply_validated_completed).
  revert E. unfold apply_validated. fold target.
  set (needs := is_muted s target && existsb (fun ev => negb (non_collaboration ev)) events).
  set (s0 := if needs then unmute_layer target s else s).
  assert (exists s1 ev1 r1,
    (if existsb non_collaboration events then apply_routed_runs target events s0
     else apply_with_deletion_fields target events (op_cache_for target (set_edit_target target s0)))
    = (s1, ev1, r1) /\ same_frame s0 s1) as (s1 & ev1 & r1 & Hrun & Hf).
  { destruct (existsb non_collaboration events).
    - pose proof (apply_runs_frame Hframe target (groupby non_collaboration events) s0) as Hf.
      unfold apply_routed_runs. destruct (apply_runs _ _ s0) as [[s1 ev1] r1]. by exists s1, ev1, r1.
    - pose proof (deletion_loop_frame Hframe target [] events (op_cache_for target (set_edit_target target s0))) as Hf.
      unfold apply_with_deletion_fields. destruct (deletion_loop _ _ _ _) as [[s1 ev1] r1].
      exists s1, ev1, r1. split; [done|]. etrans; [|exact Hf]. etrans; [|apply op_cache_for_frame]. done. }
  rewrite Hrun. destruct Hf as (Hs & _ & _ & Ht).
  assert (stk (stg (if needs then mute_layer target s1 else s1)) = stk (stg s)) as Hstk.
  { unfold s0 in Hs. destruct needs eqn:En; [|done].
    unfold mute_layer, set_stage_muted, unmute_layer, set_stage_muted in *. simpl in *. rewrite Hs.
    apply andb_true_iff in En as [Hm _]. apply bool_decide_eq_true in Hm.
    destruct (stk (stg s)); simpl in *. unfold set_session_muted; simpl. f_equal.
    apply set_eq. intros x. destruct (decide (x = target)); set_solver. }
  assert (trk s1 = trk s) as Htrk by (rewrite Ht; unfold s0; by destruct needs).
  destruct r1 as [[]|e]; intros [= <- <- <-].
  - split_and!; [| |done|].
    + destruct upd; simpl; by destruct needs.
    + destruct upd; simpl; by destruct needs.
    + rewrite andb_true_r. destruct upd; simpl; destruct needs; simpl; by rewrite Htrk.
  - split_and!; [| |done|rewrite andb_false_r]; by destruct needs.
Qed.

(** [apply_validated] leaves the mute state of the stage as it found it,
    success or exception, even though it unmutes a muted target while applying;
    it leaves the edit target on the target layer, or on the session layer when
    the target is muted; without [update_tracking], and after an exception, the
    trackers are unchanged. *)
Theorem apply_validated_restores_stage layer upd events s :
  appliers_frame ->
  let target := default (edit_layer s) layer in
  let '(s', events', r) := apply_validated layer upd events s in
  stk (stg s') = stk (stg s)
  /\ edit_target (stg s') = (if is_muted s target then session_layer s else target)
  /\ Forall2 completed events events'
  /\ trk s' = (if upd && is_ok r then update_prim_tracking events' (trk s) else trk s).
Proof. apply apply_validated_stage. Qed.

(** ** atomic_edit restores *)
Section atomic_edit_properties.
Context {S : Type} (view : S -> scene) (set : scene -> S -> S).
Context (view_set : forall sc st, view (set sc st) = sc).
Context (set_set : forall sc sc' st, set sc (set sc' st) = set sc st).
Context (set_view : forall st, set (view st) st = st).

Abbreviation lay := (view_layer view).
Abbreviation set_lay := (set_layer view set).

(** Only layer contents differ. *)
Definition set_contents (c : gmap string L) (sc : scene) : scene :=
  set_stg (mk_stage c (edit_target (stg sc)) (stk (stg sc)) (runtime (stg sc))) sc.
Definition same_but_contents (st st' : S) : Prop := exists c, st' = set (set_contents c (view st)) st.

Lemma same_but_contents_refl st : same_but_contents st st.
Proof using set_view. exists (contents (stg (view st))). rewrite <-(set_view st) at 1. f_equal. by destruct (view st) as [[]]. Qed.

Lemma set_lay_contents layer l st st' : same_but_contents st st' -> same_but_contents st (set_lay layer l st').
Proof using view_set set_set.
  intros [c ->]. unfold set_layer. rewrite view_set, set_set.
  exists (<[layer := l]> c). f_equal.
Qed.

Lemma lay_set_eq layer l st : lay layer (set_lay layer l st) = l.
Proof using view_set.
  unfold view_layer, set_layer, scene_layer, layer_content. rewrite view_set. simpl. by rewrite lookup_insert_eq.
Qed.

Lemma lay_set_ne layer layer' l st : layer ≠ layer' -> lay layer (set_lay layer' l st) = lay layer st.
Proof using view_set.
  intros Hne. unfold view_layer, set_layer, scene_layer, layer_content. rewrite view_set. simpl.
  by rewrite lookup_insert_ne.
Qed.

(** What the scoped rollback needs of one declared layer. *)
Record scope_ok (st st' : S) (layer : string) (paths : list path) : Prop := {
  scope_tree : tree (lay layer st);
  scope_tree' : tree (lay layer st');
  scope_paths : Forall (fun p => p ≠ []) paths;
  scope_order : ancestors_first paths;
  scope_writes : writes_within (lay layer st) (lay layer st') paths }.

Lemma atomic_layer_restores {A} layer paths (body : M S A) st st' e :
  body st = (st', Err e) -> scope_ok st st' layer paths ->
  exists l, atomic_apply_layer (lay layer) (set_lay layer) (Some paths) body st = (set_lay layer l st', Err e)
    /\ forall q, spec_at l q = spec_at (lay layer st) q.
Proof using view_set.
  intros Hb [Ht Ht' Hp Ho Hw]. unfold atomic_apply_layer.
  replace (existsb (fun p => bool_decide (p = [])) paths) with false.
  - apply (with_scoped_restores (lay layer) (set_lay layer) paths body st st' e); try done.
    intros l s. apply lay_set_eq.
  - symmetry. apply not_true_iff_false. intros (p & Hp' & E%bool_decide_eq_true)%existsb_exists.
    rewrite Forall_forall in Hp. apply (Hp p); [by apply list_elem_of_In|done].
Qed.

Lemma with_layers_restores {A} layer_paths (body : M S A) st st' e :
  NoDup layer_paths.*1 -> body st = (st', Err e) ->
  (forall layer paths, (layer, paths) ∈ layer_paths -> scope_ok st st' layer paths) ->
  exists st'', with_layers view set layer_paths body st = (st'', Err e)
    /\ same_but_contents st' st''
    /\ (forall layer, layer ∈ layer_paths.*1 -> forall q, spec_at (lay layer st'') q = spec_at (lay layer st) q)
    /\ (forall layer, layer ∉ layer_paths.*1 -> lay layer st'' = lay layer st').
Proof using view_set set_set set_view.
  clear list_info_keys. intros Hnd Hb. revert Hnd; induction layer_paths as [|[layer paths] rest IH]; intros Hnd Hok; simpl.
  - exists st'. split_and!; [done|apply same_but_contents_refl|by intros ? ?%not_elem_of_nil|done].
  - simpl in Hnd. apply NoDup_cons in Hnd as [Hni Hnd].
    destruct (IH Hnd) as (st1 & Hrun & Hsame & Hin & Hout); [intros ???; apply Hok; set_solver|].
    destruct (Hok layer paths) as [Ht Ht' Hp Ho Hw]; [set_solver|].
    destruct (atomic_layer_restores layer paths _ st st1 e Hrun) as (l & Hrun1 & Hl).
    { rewrite <-(Hout layer Hni) in Ht', Hw. by split. }
    exists (set_lay layer l st1). split_and!; [done|by apply set_lay_contents| |].
    + intros layer' Hin' q. destruct (decide (layer' = layer)) as [->|Hne].
      * rewrite lay_set_eq. apply Hl.
      * rewrite lay_set_ne by done. apply Hin. set_solver.
    + intros layer' Hni'. rewrite lay_set_ne by set_solver. apply Hout. set_solver.
Qed.

(** Every layer the body touched is declared: with its paths, or the session
    layer as a whole. *)
Record edit_scope_ok (layer_paths : list (string * list path)) (include_session : bool) (st st' : S) : Prop := {
  scopes_distinct : NoDup layer_paths.*1;
  session_apart : session_layer (view st) ∉ layer_paths.*1;
  scopes_ok layer paths : (layer, paths) ∈ layer_paths -> scope_ok st st' layer paths;
  others_untouched layer : layer ∉ layer_paths.*1 ->
    (include_session = true -> layer ≠ session_layer (view st)) ->
    forall q, spec_at (lay layer st') q = spec_at (lay layer st) q }.

Lemma atomic_edit_failure {A} layer_paths include_session (body : M S A) st st' e :
  body st = (st', Err e) -> edit_scope_ok layer_paths include_session st st' ->
  exists c,
    atomic_edit view set layer_paths include_session body st
    = (set (set_edit_target (edit_target (stg (view st)))
              (if is_exception e then clear_op_cache (set_contents c (view st')) else set_contents c (view st'))) st',
       Err e)
    /\ forall layer q, spec_at (default anonymous (c !! layer)) q = spec_at (lay layer st) q.
Proof using view_set set_set set_view.
  clear list_info_keys. intros Hb [Hnd Hsess Hok Hrest]. set (se := session_layer (view st)) in *.
  set (st1 := if include_session then set_lay se (lay se st) st' else st').
  assert ((if include_session then atomic_apply_layer (lay se) (set_lay se) None body else body) st = (st1, Err e)) as Hb1.
  { unfold st1. destruct include_session; [|done]. simpl. unfold with_full. by rewrite Hb. }
  assert (forall layer, layer ≠ se -> lay layer st1 = lay layer st') as Hne.
  { intros layer Hl. unfold st1. destruct include_session; [|done]. by rewrite lay_set_ne. }
  destruct (with_layers_restores layer_paths _ st st1 e Hnd Hb1) as (st2 & Hrun & [c ->] & Hin & Hout).
  { intros layer paths Hl. assert (layer ≠ se) as Hlse.
    { intros ->. apply Hsess. apply list_elem_of_fmap. by exists (se, paths). }
    destruct (Hok layer paths Hl) as [Ht Ht' Hp Ho Hw]. split; try done; by rewrite Hne. }
  exists c. split.
  - unfold atomic_edit. fold se. rewrite Hrun. unfold st1.
    destruct (is_exception e); rewrite !view_set, !set_set; f_equal;
      (destruct include_session; [|done]); unfold set_layer; by rewrite ?set_set, ?view_set.
  - assert (forall layer, default anonymous (c !! layer) = lay layer (set (set_contents c (view st1)) st1)) as Hc.
    { intros layer. unfold view_layer, scene_layer, layer_content. by rewrite view_set. }
    intros layer q. rewrite Hc. destruct (decide (layer ∈ layer_paths.*1)) as [Hl|Hl]; [by apply Hin|].
    rewrite Hout by done. unfold st1. destruct include_session.
    + destruct (decide (layer = se)) as [->|Hlse]; [by rewrite lay_set_eq|].
      rewrite lay_set_ne by done. by apply Hrest.
    + by apply Hrest.
Qed.

(** Entering succeeds and a body that returns is left alone. *)
Lemma with_layers_success {A} layer_paths (body : M S A) st st' a :
  body st = (st', Ok a) ->
  (forall layer paths, (layer, paths) ∈ layer_paths ->
     tree (lay layer st) /\ Forall (fun p => p ≠ []) paths) ->
  with_layers view set layer_paths body st = (st', Ok a).
Proof.
  clear list_info_keys. intros Hb Hok.
  induction layer_paths as [|[layer paths] rest IH]; [done|]. cbn [with_layers].
  destruct (Hok layer paths) as [Ht Hp]; [set_solver|].
  assert (with_layers view set rest body st = (st', Ok a)) as Hr by (apply IH; intros; apply Hok; set_solver).
  unfold atomic_apply_layer. destruct (existsb _ paths); [unfold with_full; by rewrite Hr|].
  unfold with_scoped, scoped_enter.
  destruct (enter_loop_ok (lay layer st) Ht _ paths Hp (empty_snapshot_ok (lay layer st))) as (s & -> & _).
  by rewrite Hr.
Qed.

Lemma atomic_edit_success {A} layer_paths include_session (body : M S A) st st' a :
  body st = (st', Ok a) ->
  (forall layer paths, (layer, paths) ∈ layer_paths ->
     tree (lay layer st) /\ Forall (fun p => p ≠ []) paths) ->
  exists st'', atomic_edit view set layer_paths include_session body st = (st'', Ok a).
Proof.
  clear list_info_keys. intros Hb Hok. unfold atomic_edit.
  rewrite (with_layers_success layer_paths _ st st' a); [by eexists| |done].
  destruct include_session; [|done]. simpl. unfold with_full. by rewrite Hb.
Qed.
End atomic_edit_properties.

(** when the body of [atomic_edit] raises an exception having written only
    what the scope declares, every spec of every layer is the one of before,
    the edit target is restored, the cached handles are dropped, the same
    exception propagates, and nothing else of the body's state is changed. *)
Theorem atomic_edit_restores {A} layer_paths include_session (body : M scene A) s s' e :
  body s = (s', Err e) -> is_exception e = true ->
  edit_scope_ok id layer_paths include_session s s' ->
  let '(s'', r) := atomic_edit id (fun sc _ => sc) layer_paths include_session body s in
  r = Err e
  /\ (forall layer q, spec_at (scene_layer layer s'') q = spec_at (scene_layer layer s) q)
  /\ edit_target (stg s'') = edit_target (stg s)
  /\ op_cache s'' = cache_empty /\ op_cache_layer s'' = None
  /\ stk (stg s'') = stk (stg s') /\ trk s'' = trk s'.
Proof.
  intros Hb He Hok.
  destruct (atomic_edit_failure id (fun sc _ => sc) (fun _ _ => eq_refl) (fun _ _ _ => eq_refl)
              (fun _ => eq_refl) layer_paths include_session body s s' e Hb Hok) as (c & -> & Hc).
  rewrite He. done.
Qed.
End scene.

(** ** Witnesses: a scene over finite-map layers whose only applier defines
    the named root prim on the edit target *)

Abbreviation demo_L := (gmap path string).
Abbreviation demo_stage := (stage (L := demo_L) (R := unit) (Offset := Z)).

Definition demo_define (ev : event) : M demo_stage unit :=
  modify (fun s =>
    set_layer_content (edit_target s)
      (<[[str_drop 1 (str_of ev "prim")] := str_of ev "typeName"]> (layer_content s (edit_target s))) s).

#[export] Instance demo_scene_usd : UsdApply demo_stage (gset string) := {
  has_prototypes _ := false;
  prim_at _ _ := None;
  parent_path _ := None;
  appliers k := if bool_decide (k = K_ENSURE_PRIM \/ k = K_SET_STAGE_METADATA) then Some demo_define else None;
  ensure_canonical_ops _ := mret ();
  apply_set_xform_trs _ := mret ();
  cache_pop p c := c ∖ {[p]};
  cache_empty := ∅;
  validate_spec_events _ := Ok ();
}.

Abbreviation demo_state := (scene (L := demo_L) (R := unit) (Offset := Z) (C := gset string)).

Definition demo_scene : demo_state :=
  mk_scene (mk_stage ∅ "anon:1" demo_stack tt) "anon:1" "session" (∅ : gset string) None
    (mk_trackers ∅ ∅ None false).

Definition demo_keys (_ : demo_L) (_ : string) : option (list string) := None.

Lemma demo_iter_frame {A} (f : A -> M (demo_stage * gset string) unit) l w :
  (forall x w, stk (f x w).1.1 = stk w.1 /\ edit_target (f x w).1.1 = edit_target w.1) ->
  stk (iterM f l w).1.1 = stk w.1 /\ edit_target (iterM f l w).1.1 = edit_target w.1.
Proof.
  intros Hf. revert w; induction l as [|x l IH]; intros w; [done|]. simpl. unfold mbind, M_bind.
  destruct (Hf x w) as [H1 H2]. destruct (f x w) as [w1 [u|e]]; simpl in *; [|done].
  destruct (IH w1) as [-> ->]. done.
Qed.

Lemma demo_appliers_frame : appliers_frame (L := demo_L) (R := unit) (Offset := Z) (C := gset string).
Proof.
  assert (forall ev w, stk (on_stage (C := gset string) (apply_event (C := gset string) ev) w).1.1 = stk w.1
            /\ edit_target (on_stage (C := gset string) (apply_event (C := gset string) ev) w).1.1 = edit_target w.1) as Hev.
  { intros ev [t c]. unfold on_stage, zoom, apply_event. simpl. case_bool_decide; simpl; [|done].
    unfold is_instance_proxy_target. simpl. by case_bool_decide. }
  intros events pre w. unfold apply_events, lift. unfold mbind, M_bind. simpl.
  assert (stk (apply_loop (C := gset string) [] events w).1.1 = stk w.1
          /\ edit_target (apply_loop (C := gset string) [] events w).1.1 = edit_target w.1) as Hl.
  { rewrite apply_loop_execute by (by intros ? ?%not_elem_of_nil). apply demo_iter_frame.
    intros ev w'. unfold execute, apply_barrier, apply_structural, apply_value, modify. unfold mbind, M_bind.
    repeat case_match; try done; try apply Hev.
    all: apply (Hev ev (w'.1, _)). }
  destruct pre; exact Hl.
Qed.

Definition demo_ensure_event (prim : string) : event :=
  <["k" := PStr K_ENSURE_PRIM]> (<["typeName" := PStr "Xform"]> {["prim" := PStr prim]}).
Definition demo_metadata_event : event :=
  <["k" := PStr K_SET_STAGE_METADATA]> {["prim" := PStr "/"]}.

Lemma fast_path_is_routed_path_witness :
  apply_routed_runs demo_keys "anon:1" [demo_ensure_event "/A"] demo_scene
  = apply_with_deletion_fields demo_keys "anon:1" [demo_ensure_event "/A"]
      (op_cache_for "anon:1" (set_edit_target "anon:1" demo_scene)).
Proof. apply fast_path_is_routed_path; by vm_compute. Defined.

(** A muted target and a request that mixes a session event with a layer edit. *)
Lemma apply_validated_restores_stage_witness :
  let s := mute_layer "anon:1" demo_scene in
  let s' := (apply_validated demo_keys None false [demo_metadata_event; demo_ensure_event "/A"] s).1.1 in
  muted (stk (stg s')) = {["anon:1"]} /\ edit_target (stg s') = "session".
Proof.
  intros s. pose proof (apply_validated_restores_stage demo_keys None false
    [demo_metadata_event; demo_ensure_event "/A"] s demo_appliers_frame) as H.
  destruct (apply_validated demo_keys None false _ s) as [[s' ev'] r].
  destruct H as (H1 & H2 & _). simpl. rewrite H1, H2. by vm_compute.
Defined.

(** Define a prim on the default layer and one on the session layer, then fail. *)
Definition demo_failing : M demo_state unit :=
  _ ← modify (fun s => set_scene_layer "anon:1" (<[["A"] := "Xform"]> (scene_layer "anon:1" s)) s);
  _ ← modify (fun s => set_scene_layer "session" (<[["M"] := ""]> (scene_layer "session" s)) s);
  raise OSError.

Lemma demo_singleton_ancestors (p : path) : ancestors_first [p].
Proof. intros [|i] [|j] p1 p2 H1 H2; simpl in *; simplify_eq; done. Qed.

Lemma demo_scope_ok :
  edit_scope_ok id [("anon:1", [["A"]])] true demo_scene (demo_failing demo_scene).1.
Proof.
  split.
  - by apply (NoDup_singleton "anon:1").
  - by intros ?%list_elem_of_singleton.
  - intros layer paths [= -> ->]%list_elem_of_singleton. split.
    + apply demo_tree. by vm_compute.
    + apply demo_tree. by vm_compute.
    + repeat constructor; done.
    + apply demo_singleton_ancestors.
    + intros q Hq. destruct (Hq ["A"]) as [HA _]; [set_solver|].
      destruct (decide (q = [])) as [->|Hne]; [done|].
      change (map_spec_at (<[["A"] := "Xform"]> ∅) q = map_spec_at ∅ q).
      rewrite !map_spec_at_ne by done. rewrite lookup_insert_ne; [done|]. by intros <-.
  - intros layer Hl Hs. assert (layer ≠ "anon:1") as H1 by set_solver.
    specialize (Hs eq_refl). unfold view_layer, scene_layer, layer_content. simpl in *.
    by rewrite !lookup_insert_ne by done.
Qed.

Lemma atomic_edit_restores_witness :
  let '(s, r) := atomic_edit id (fun sc _ => sc) [("anon:1", [["A"]])] true demo_failing demo_scene in
  r = Err OSError /\ spec_at (scene_layer "anon:1" s) ["A"] = None
  /\ spec_at (scene_layer "session" s) ["M"] = None.
Proof.
  pose proof (atomic_edit_restores [("anon:1", [["A"]])] true demo_failing demo_scene _ OSError
    eq_refl eq_refl demo_scope_ok) as H.
  destruct (atomic_edit id _ _ true demo_failing demo_scene) as [s r].
  destruct H as (-> & H & _). rewrite !H. by vm_compute.
Defined.
