(* ===== verification/SceneLayers.v ===== *)
(** Whole-layer operations of [SceneState] ([server/scene.py]): merging a layer
    into the root layer and clearing the collaboration layers.

    The merge walks the prim specs of the source through [rootPrims] and
    [nameChildren]; a layer's specs as that walk sees them are a forest, which the
    USD library provides ([SdfTraversal]).

    Theorems: the walk visits every leaf prim once, in order, and ends; opinions
    of a prim that has children are not merged. *)

From S2P Require Import Prelude Constants Rollback LayerStack PrimIndex Applying Scene.

(** A prim spec: its path, its property names and its [nameChildren]. *)
Inductive prim_spec : Type := PrimSpec (p : path) (properties : list string) (name_children : list prim_spec).

Definition spec_path (t : prim_spec) : path := let '(PrimSpec p _ _) := t in p.

Fixpoint spec_size (t : prim_spec) : nat :=
  let '(PrimSpec _ _ cs) := t in S (sum_list (map spec_size cs)).
Definition forest_size (ts : list prim_spec) : nat := sum_list (map spec_size ts).

(** The specs without [nameChildren], in the order of a depth-first walk. *)
Fixpoint leaves (t : prim_spec) : list (path * list string) :=
  let '(PrimSpec p props cs) := t in
  match cs with [] => [(p, props)] | _ => concat (map leaves cs) end.

Class SdfTraversal (V L : Type) `{SdfLayer V L} := {
  root_prims : L -> list prim_spec;
  (** [Sdf.CopySpec] of a property path *)
  copy_property : L -> path -> string -> L -> result L;
  (** [layer.Clear()] *)
  clear_layer : L -> L;

  leaf_alone l p props q : (p, props) ∈ concat (map leaves (root_prims l)) -> p ≠ [] /\ is_Some (spec_at l p) /\ (p `prefix_of` q -> q ≠ p -> spec_at l q = None);
  copy_property_local src p name dst dst' q : copy_property src p name dst = Ok dst' -> q ≠ p -> spec_at dst' q = spec_at dst q;
  cleared l p : p ≠ [] -> spec_at (clear_layer l) p = None;
}.

Section merge.
Context {V L : Type} `{SdfTraversal V L}.
Implicit Types (l src root : L) (p q : path).

(** A call of the library that returns the new root layer or raises. *)
Definition on_root (f : L -> result L) : M L unit := fun root =>
  match f root with Ok root' => (root', Ok ()) | Err e => (root, Err e) end.

(** The body of the loop for a leaf. *)
Definition ensure_parent (p : path) (root : L) : L :=
  if negb (bool_decide (parent p = [])) && negb (has_prim root (parent p)) then create_prim_in_layer root (parent p) else root.
Definition merge_leaf (src : L) (p : path) (props : list string) : M L unit :=
  _ ← modify (ensure_parent p);
  present ← gets (fun root => has_prim root p);
  if (present : bool) then iterM (fun name => on_root (copy_property src p name)) props else on_root (copy_spec src p).

(** [while pending]: the stack, its top first; [fuel] bounds the turns and
    [None] is its exhaustion, which [merge_layer_total] excludes. *)
Fixpoint merge_loop (src : L) (fuel : nat) (pending : list prim_spec) (root : L) : option (L * result unit) :=
  match pending with
  | [] => Some (root, Ok ())
  | PrimSpec p props cs :: pending =>
      match fuel with
      | O => None
      | S fuel =>
          match cs with
          | [] => match merge_leaf src p props root with
                  | (root, Ok _) => merge_loop src fuel pending root
                  | (root, Err e) => Some (root, Err e)
                  end
          | _ => merge_loop src fuel (cs ++ pending) root
          end
      end
  end.

(** The copy [merge_layer_into_root] makes into the root layer. *)
Definition merge_layer_into_root (src : L) : M L unit := fun root =>
  default (root, Err RuntimeError) (merge_loop src (forest_size (root_prims src)) (root_prims src) root).

(** ** The walk *)

Lemma forest_size_app ts us : forest_size (ts ++ us) = forest_size ts + forest_size us.
Proof. unfold forest_size. rewrite map_app. induction (map spec_size ts) as [|n l IH]; simpl; [done|]. rewrite IH. lia. Qed.

(** The walk is the merge of every leaf, in order. *)
Lemma merge_loop_leaves src fuel pending root : forest_size pending ≤ fuel ->
  merge_loop src fuel pending root
  = Some (iterM (fun x => merge_leaf src x.1 x.2) (concat (map leaves pending)) root).
Proof.
  revert pending root. induction fuel as [|fuel IH]; intros [|[p props cs] pending] root Hf; try done.
  - unfold forest_size in Hf. simpl in Hf. lia.
  - cbn [merge_loop]. change (S (forest_size cs) + forest_size pending ≤ S fuel) in Hf.
    destruct cs as [|c cs].
    + cbn [map concat leaves app iterM]. unfold mbind, M_bind. cbn [fst snd].
      destruct (merge_leaf src p props root) as [root' [[]|e]]; [|done]. apply IH.
      change (forest_size []) with 0 in Hf. lia.
    + rewrite IH.
      * rewrite map_app, concat_app. done.
      * rewrite forest_size_app. lia.
Qed.

Lemma merge_layer_spec src root : merge_layer_into_root src root
  = iterM (fun x => merge_leaf src x.1 x.2) (concat (map leaves (root_prims src))) root.
Proof. unfold merge_layer_into_root. by rewrite merge_loop_leaves. Qed.

Lemma merge_parent p root : is_Some (spec_at (ensure_parent p root) (parent p)).
Proof.
  unfold ensure_parent, has_prim. case_bool_decide as H1; [rewrite H1; apply pseudo_root|]. simpl. case_bool_decide as H2; [done|].
  simpl. by apply create_creates.
Qed.

(** A leaf's merge leaves alone every other spec that the root layer has and
    that the source has too. *)
Lemma merge_leaf_frame src p props root root' r q : p ≠ [] -> is_Some (spec_at src p) -> (p `prefix_of` q -> spec_at src q = None) ->
  is_Some (spec_at src q) -> q ≠ p -> is_Some (spec_at root q) ->
  merge_leaf src p props root = (root', r) -> spec_at root' q = spec_at root q.
Proof.
  intros Hp Hsp Hleaf Hsrc Hne Hroot. unfold merge_leaf, modify, gets, mbind, M_bind. cbn. pose proof (merge_parent p root) as Hpar.
  set (root1 := ensure_parent p root) in *.
  assert (spec_at root1 q = spec_at root q) as H1.
  { unfold root1, ensure_parent. destruct (negb _ && negb _); [|done]. apply create_keeps. by right. }
  rewrite <-H1. clearbody root1. clear Hroot H1. destruct (has_prim root1 p).
  - clear Hpar. revert root1. induction props as [|name props IH]; intros root1; [by intros [= <- _]|]. cbn. unfold mbind, M_bind, on_root.
    destruct (copy_property src p name root1) as [root2|e] eqn:E1; [|by intros [= <- _]]. intros Hr.
    rewrite <-(copy_property_local _ _ _ _ _ q E1 Hne). by apply IH.
  - unfold on_root. destruct (copy_spec_ok src p root1 Hp Hsp Hpar) as (root2 & -> & Hc). intros [= <- _]. rewrite Hc, decide_False; [done|].
    intros Hpq. destruct Hsrc as [x Hx]. by rewrite (Hleaf Hpq) in Hx.
Qed.

Lemma merge_leaves_frame src ls q : (forall p props, (p, props) ∈ ls -> p ≠ [] /\ is_Some (spec_at src p) /\ (p `prefix_of` q -> spec_at src q = None)) ->
  is_Some (spec_at src q) -> (forall p props, (p, props) ∈ ls -> q ≠ p) ->
  forall root root' r, is_Some (spec_at root q) -> iterM (fun x => merge_leaf src x.1 x.2) ls root = (root', r) -> spec_at root' q = spec_at root q.
Proof.
  intros Hls Hsrc Hne. induction ls as [|[p props] ls IH]; intros root root' r Hroot Hr; [by injection Hr as <- _|].
  cbn in Hr. unfold mbind, M_bind in Hr. destruct (merge_leaf src p props root) as [root1 r1] eqn:E1.
  destruct (Hls p props ltac:(by left)) as (Hp & Hsp & Hl).
  pose proof (merge_leaf_frame src p props root root1 r1 q Hp Hsp Hl Hsrc (Hne p props ltac:(by left)) Hroot E1) as Hq.
  destruct r1 as [[]|e]; [|by injection Hr as <- _]. rewrite <-Hq. eapply IH; [| | |exact Hr].
  - intros p' props' Hin. apply (Hls p' props'). by right.
  - intros p' props' Hin. apply (Hne p' props'). by right.
  - by rewrite Hq.
Qed.

(** merging a layer into the root layer visits every prim without children,
    once, in the order of a depth-first walk, and ends; and it merges only those:
    whatever the layer says of a prim that has children (its type, its
    attributes, its arcs) does not reach a root layer that knows the prim, so
    releasing the layer afterwards loses those opinions. *)
Theorem merge_keeps_only_leaves src root root' r : merge_layer_into_root src root = (root', r) ->
  (root', r) = iterM (fun x => merge_leaf src x.1 x.2) (concat (map leaves (root_prims src))) root
  /\ forall q, is_Some (spec_at src q) -> (forall props, (q, props) ∉ concat (map leaves (root_prims src))) ->
       is_Some (spec_at root q) -> spec_at root' q = spec_at root q.
Proof.
  intros Hm. rewrite merge_layer_spec in Hm. split; [done|]. intros q Hq Hnl Hroot.
  eapply (merge_leaves_frame src); [|done| |done|exact Hm].
  - intros p props Hin. destruct (leaf_alone src p props q Hin) as (? & ? & Hl). split_and!; [done..|]. intros Hpq. apply Hl; [done|].
    intros ->. by apply (Hnl props).
  - intros p props Hin ->. by apply (Hnl props).
Qed.
End merge.

(** ** On the scene *)
Section scene_layers.
Context {V L R Offset C : Type} `{SdfTraversal V L}.
Context `{UsdApply (stage (L := L) (R := R) (Offset := Offset)) C}.
Local Abbreviation scene := (scene (L := L) (R := R) (Offset := Offset) (C := C)).

(** [SceneState.merge_layer_into_root]; [root_layer] is [stage.GetRootLayer()]. *)
Definition scene_merge_layer (root_layer layer : string) : M scene unit :=
  src ← gets (scene_layer layer);
  _ ← zoom (scene_layer root_layer) (set_scene_layer root_layer) (merge_layer_into_root src);
  modify invalidate_prim_count.

(** [CollaborationLayerStack.clear]: [self._layers.values()] as identifiers. *)
Definition clear_layers (ids : list string) (s : scene) : scene :=
  foldl (fun s i => set_scene_layer i (clear_layer (scene_layer i s)) s) s ids.

(** [SceneState.clear_collaboration_layers] *)
Definition clear_collaboration_layers (s : scene) : scene :=
  rebuild_caches [] (clear_layers (elements (dom (keys_by_identifier (stk (stg s))))) s).
End scene_layers.

(** ** A layer of prim specs without properties *)

Definition map_is_leaf (l : gmap path string) (p : path) : bool :=
  negb (bool_decide (p = [])) && forallb (fun kv => bool_decide (¬ p `prefix_of` kv.1 \/ kv.1 = p)) (map_to_list l).
Definition map_leaves (l : gmap path string) : list prim_spec :=
  map (fun kv => PrimSpec kv.1 [] []) (filter (fun kv => map_is_leaf l kv.1 = true) (map_to_list l)).

Lemma map_leaves_elem l p props : (p, props) ∈ concat (map leaves (map_leaves l)) -> map_is_leaf l p = true /\ is_Some (l !! p).
Proof.
  unfold map_leaves. rewrite map_map. intros Hin.
  assert (exists v, (p, v) ∈ filter (fun kv => map_is_leaf l kv.1 = true) (map_to_list l)) as [v Hv].
  { induction (filter (fun kv => map_is_leaf l kv.1 = true) (map_to_list l)) as [|[k v] ls IH]; simpl in Hin; [by apply elem_of_nil in Hin|].
    apply elem_of_cons in Hin as [[= -> _]|Hin]; [exists v; by left|]. destruct (IH Hin) as [w ?]. exists w. by right. }
  apply list_elem_of_filter in Hv as [Hl Hv%elem_of_map_to_list]. split; [exact Hl|by exists v].
Qed.

#[export] Program Instance map_traversal : SdfTraversal string (gmap path string) := {
  root_prims := map_leaves;
  copy_property _ _ _ dst := Ok dst;
  clear_layer _ := ∅;
}.
Next Obligation.
  intros l p props q [Hl [v Hv]]%map_leaves_elem. unfold map_is_leaf in Hl. apply andb_true_iff in Hl as [Hp%negb_true_iff%bool_decide_eq_false Hall].
  split_and!; [done|by rewrite map_spec_at_ne; [exists v|]|]. intros Hpq Hne. rewrite map_spec_at_ne by (intros ->; by apply prefix_nil_inv in Hpq).
  destruct (l !! q) as [w|] eqn:Eq; [|done]. rewrite forallb_forall in Hall. apply elem_of_map_to_list, list_elem_of_In in Eq.
  specialize (Hall _ Eq). apply bool_decide_eq_true in Hall. by destruct Hall.
Qed.
Next Obligation. by intros src p name dst dst' q [= <-] _. Qed.
Next Obligation. intros l p Hp. by rewrite map_spec_at_ne, lookup_empty. Qed.

(** A department layer that says /World is an "Xform" and has a child loses the
    former: the root layer's /World stays what it was. *)
Definition demo_department : gmap path string := {[ ["World"] := "Xform"; ["World"; "Cube"] := "Cube" ]}.
Definition demo_root : gmap path string := {[ ["World"] := "over" ]}.

Lemma merge_keeps_only_leaves_witness :
  let root' := (merge_layer_into_root (V := string) demo_department demo_root).1 in
  spec_at root' ["World"; "Cube"] = Some "Cube" /\ spec_at root' ["World"] = spec_at demo_root ["World"].
Proof.
  split; [vm_compute; reflexivity|].
  destruct (merge_layer_into_root (V := string) demo_department demo_root) as [root' r] eqn:E1.
  apply (proj2 (merge_keeps_only_leaves demo_department demo_root root' r E1) ["World"]).
  - vm_compute. by eexists.
  - intros props [Hl _]%map_leaves_elem. vm_compute in Hl. discriminate.
  - vm_compute. by eexists.
Defined.
