(* ===== verification/Collaboration.v ===== *)
(** * Collaboration: department assignments and replay admission
    ([openusdconnect/server/collaboration.py], the admission flag of a
    [ConnectionHandler] in [server/connection.py], and the layer part of
    [_replay_log_into_stage] in [server/state.py])

    [CollaborationPolicy] over the scene: who edits which layer, in which order
    the layers compose, and how many receivers mirror a single flat layer.  Every
    method holds the scene lock, so it is one step.  The two callbacks run after
    the lock is released; they are recorded, in order, as notices.

    Theorems: the policy stays well formed under any operations by any clients;
    while a flat receiver is admitted the published stack cannot change; ordering
    by department never fails and is what it is meant to be; releasing a client
    keeps the layer exactly as long as another client uses it. *)

From S2P Require Import Prelude Constants LayerStack Rollback PrimIndex Applying Scene SceneLayers.

(** ** Layer keys *)

Definition DEFAULT_LAYER_KEY : string := "default".
Definition DEPARTMENT_LAYER_KEY_PREFIX : string := "department:".

(** [if department:] *)
Definition named (department : option string) : option string :=
  match department with Some "" => None | d => d end.

Definition layer_key_for_department (department : option string) : string :=
  match named department with
  | None => DEFAULT_LAYER_KEY
  | Some d => DEPARTMENT_LAYER_KEY_PREFIX +:+ d
  end.

Definition department_for_layer_key (layer_key : string) : option string :=
  if bool_decide (layer_key = DEFAULT_LAYER_KEY) then None
  else if String.prefix DEPARTMENT_LAYER_KEY_PREFIX layer_key then
    let n := String.length DEPARTMENT_LAYER_KEY_PREFIX in
    named (Some (String.substring n (String.length layer_key - n) layer_key))
  else None.

Definition label_for_layer_key (layer_key : string) : string :=
  match department_for_layer_key layer_key with
  | Some department => department
  | None => if bool_decide (layer_key = DEFAULT_LAYER_KEY) then "Default" else layer_key
  end.

Lemma substring_prefix p s : String.substring (String.length p) (String.length (p +:+ s) - String.length p) (p +:+ s) = s.
Proof.
  induction p as [|a p IH]; [|exact IH].
  change (String.substring 0 (String.length s - 0) s = s). rewrite Nat.sub_0_r. induction s as [|a s IH]; simpl; [done|by rewrite IH].
Qed.

Lemma prefix_app_true p s : String.prefix p (p +:+ s) = true.
Proof. induction p as [|a p IH]; simpl; [by destruct s|]. by destruct (Ascii.ascii_dec a a). Qed.

Lemma department_key_roundtrip department : department_for_layer_key (layer_key_for_department department) = named department.
Proof.
  unfold layer_key_for_department. destruct (named department) as [d|] eqn:E1; [|done].
  unfold department_for_layer_key. rewrite bool_decide_false by done.
  rewrite prefix_app_true. cbn zeta. rewrite substring_prefix. unfold named in *. by destruct department as [[]|]; simplify_eq/=.
Qed.

Lemma department_key_inj d d' : d ≠ "" -> d' ≠ "" -> layer_key_for_department (Some d) = layer_key_for_department (Some d') -> d = d'.
Proof.
  intros H1 H2 E%(f_equal department_for_layer_key). rewrite !department_key_roundtrip in E.
  unfold named in E. destruct d, d'; congruence.
Qed.

Lemma department_key_not_default d : d ≠ "" -> layer_key_for_department (Some d) ≠ DEFAULT_LAYER_KEY.
Proof. intros Hd E%(f_equal department_for_layer_key). rewrite department_key_roundtrip in E. by destruct d. Qed.

(** ** The policy *)

(** What the callbacks were asked: [bump_snapshot_epoch(reason)] and
    [broadcast_layer_stack_state()]. *)
Inductive notice : Type := BumpSnapshotEpoch (reason : string) | BroadcastLayerStack.

(** A row of [get_layer_stack_info]. *)
Record layer_info := mk_layer_info {
  li_key : string;
  li_label : string;
  li_department : option string;
  li_clients : list string;
  li_identifier : string;
  li_muted : bool;
  li_shared : bool }.

(** A lemma takes the section variables of its statement and no others. *)
#[local] Set Default Proof Using "Type".
#[local] Set Proof Using Clear Unused.

Section collaboration.
Context {V L R Offset C : Type} `{SdfTraversal V L} `{EqDecision Offset} (identity : Offset).
Context `{UsdApply (stage (L := L) (R := R) (Offset := Offset)) C}.
(** [stage.GetRootLayer()]; [layer.empty] *)
Context (root_layer : string) (layer_empty : L -> bool).
Local Abbreviation scene := (scene (L := L) (R := R) (Offset := Offset) (C := C)).
Local Abbreviation stack := (stack (Offset := Offset)).

Record policy := mk_policy {
  sc : scene;
  (** [_client_layer_keys], an insertion-ordered dictionary *)
  client_layer_keys : list (string * string);
  department_priority : list string;
  flat_receiver_count : Z;
  notices : list notice }.

Definition pol_stack (p : policy) : stack := stk (stg (sc p)).
Definition set_sc (s : scene) (p : policy) : policy :=
  mk_policy s (client_layer_keys p) (department_priority p) (flat_receiver_count p) (notices p).
Definition set_pol_stack (k : stack) (p : policy) : policy :=
  let t := stg (sc p) in set_sc (set_stg (mk_stage (contents t) (edit_target t) k (runtime t)) (sc p)) p.
Definition set_clients (d : list (string * string)) (p : policy) : policy :=
  mk_policy (sc p) d (department_priority p) (flat_receiver_count p) (notices p).
Definition set_priority (ds : list string) (p : policy) : policy :=
  mk_policy (sc p) (client_layer_keys p) ds (flat_receiver_count p) (notices p).
Definition set_count (n : Z) (p : policy) : policy :=
  mk_policy (sc p) (client_layer_keys p) (department_priority p) n (notices p).
Definition notify (n : notice) : M policy unit := modify (fun p =>
  mk_policy (sc p) (client_layer_keys p) (department_priority p) (flat_receiver_count p) (notices p ++ [n])).

Definition on_stack {A} (m : M stack A) : M policy A := zoom pol_stack set_pol_stack m.
Definition on_scene {A} (m : M scene A) : M policy A := zoom sc set_sc m.

(** [_validate_priority] *)
Definition validate_priority (departments : list string) : result (list string) :=
  _ ← raise_if (existsb (fun d => bool_decide (d = "")) departments) ValueError;
  _ ← raise_if (bool_decide (size (list_to_set departments : gset string) ≠ length departments)) ValueError;
  Ok departments.

(** [__init__] *)
Definition policy_init (s : scene) (priority : list string) : result policy :=
  ds ← validate_priority priority; Ok (mk_policy s [] ds 0 []).

Definition restore_assignment (client_id layer_key : string) : M policy unit :=
  modify (fun p => set_clients (dict_set client_id (fun _ => layer_key) (client_layer_keys p)) p).

(** [client_layers] *)
Definition client_layers : M policy (list (string * string)) :=
  clients ← gets client_layer_keys;
  mapM' (fun c => l ← on_stack (layer_for c.2); mret (c.1, l)) clients.

(** [_reject_layer_stack_change_for_flat_receivers] *)
Definition reject_layer_stack_change : M policy unit :=
  n ← gets flat_receiver_count;
  if negb (n =? 0)%Z then raise ReplayModeConflictError else mret ().

(** [_apply_department_order_locked] *)
Definition priority_keys (p : policy) : list string :=
  filter (fun k => has_layer (pol_stack p) k = true) (map (fun d => layer_key_for_department (Some d)) (department_priority p)).
Definition unlisted_keys (p : policy) : list string :=
  filter (fun k => k ≠ DEFAULT_LAYER_KEY /\ k ∉ priority_keys p) (order (pol_stack p)).
Definition department_order (p : policy) : list string := priority_keys p ++ unlisted_keys p ++ [DEFAULT_LAYER_KEY].
Definition apply_department_order : M policy bool :=
  ks ← gets department_order; on_stack (set_order identity ks).

(** [get_or_create_client_layer]; [new_layer] is the identifier of the layer
    that [ensure_layer] would create. *)
Definition get_or_create_client_layer (client_id : string) (department : option string) (new_layer : string) : M policy string :=
  let layer_key := layer_key_for_department department in
  '(layer, added) ← match named department with
    | Some d =>
        present ← gets (fun p => has_layer (pol_stack p) layer_key);
        _ ← (if (present : bool) then mret () else reject_layer_stack_change);
        '(layer, added) ← on_stack (ensure_layer identity layer_key (Some d) new_layer);
        _ ← (if (added : bool) then _ ← apply_department_order; mret () else mret ());
        mret (layer, added)
    | None => layer ← gets (fun p => edit_layer (sc p)); mret (layer, false)
    end;
  _ ← restore_assignment client_id layer_key;
  _ ← (if (added : bool) then
         _ ← notify (BumpSnapshotEpoch ("create_department_layer:" +:+ default "" department)); notify BroadcastLayerStack
       else mret ());
  mret layer.

(** [_flat_replay_rejection_reason_locked] *)
Definition flat_replay_rejection_reason : M policy string :=
  p ← gets id;
  match department_priority p with
  | _ :: _ => mret "department collaboration requires layered replay"
  | [] =>
      match order (pol_stack p) with
      | [layer_key] =>
          layer ← on_stack (layer_for layer_key);
          mret (if is_muted (sc p) layer then "muted collaboration layers require layered replay" else "")
      | _ => mret "multiple collaboration layers require layered replay"
      end
  end.

Definition reserve_receiver_replay_mode (layered : bool) : M policy (bool * string) :=
  if layered then mret (true, "") else
    reason ← flat_replay_rejection_reason;
    if bool_decide (reason ≠ "") then mret (false, reason)
    else _ ← modify (fun p => set_count (flat_receiver_count p + 1) p); mret (true, "").

Definition release_receiver_replay_mode (layered : bool) : M policy unit :=
  if layered then mret () else
    n ← gets flat_receiver_count;
    if (n <=? 0)%Z then raise RuntimeError else modify (fun p => set_count (flat_receiver_count p - 1) p).

(** [resolve_layer_key] *)
Definition resolve_layer_key (key : string) (p : policy) : option string :=
  match named (dict_get key (client_layer_keys p)) with
  | Some client_key => Some client_key
  | None =>
      let department_key := layer_key_for_department (Some key) in
      if has_layer (pol_stack p) department_key then Some department_key
      else if has_layer (pol_stack p) key then Some key
      else None
  end.

Definition resolve_layer (key : string) : M policy (option string) :=
  layer_key ← gets (resolve_layer_key key);
  match named layer_key with
  | Some k => l ← on_stack (layer_for k); mret (Some l)
  | None => mret None
  end.

Definition department_for_layer (layer : string) (p : policy) : option string :=
  match key_for_layer (pol_stack p) layer with Some k => department_for_layer_key k | None => None end.

(** [release_client_assignment], once the opinions are merged *)
Definition finish_release (client_id layer_key : string) (merge_into_root : bool) : M policy bool :=
  clients ← gets (fun p => dict_pop client_id (client_layer_keys p));
  _ ← modify (set_clients clients);
  let removed := bool_decide (layer_key ∉ map snd clients) in
  _ ← (if removed then _ ← on_stack (remove_layer identity layer_key); mret () else mret ());
  _ ← notify (BumpSnapshotEpoch ((if merge_into_root then "merge_layer" else "delete_layer") +:+ ":" +:+ client_id));
  _ ← (if removed then notify BroadcastLayerStack else mret ());
  mret true.

(** [release_client_assignment] *)
Definition release_client_assignment (client_id : string) (merge_into_root : bool) : M policy bool :=
  clients ← gets client_layer_keys;
  match named (dict_get client_id clients) with
  | None => mret false
  | Some layer_key =>
      if bool_decide (layer_key = DEFAULT_LAYER_KEY) then mret false else
      _ ← (if merge_into_root then layer ← on_stack (layer_for layer_key); on_scene (scene_merge_layer root_layer layer) else mret ());
      finish_release client_id layer_key merge_into_root
  end.

(** [set_department_priority] *)
Definition set_department_priority (ordered_departments : list string) : M policy unit :=
  ds ← lift (validate_priority ordered_departments);
  old ← gets department_priority;
  let policy_changed := bool_decide (ds ≠ old) in
  _ ← (if policy_changed then reject_layer_stack_change else mret ());
  _ ← modify (set_priority ds);
  order_changed ← apply_department_order;
  if negb order_changed && negb policy_changed then mret () else
  _ ← notify (BumpSnapshotEpoch "set_department_priority");
  notify BroadcastLayerStack.

(** [get_layer_stack_info] *)
Definition layer_row (p : policy) (layer_key : string) : M policy (list layer_info) :=
  layer ← on_stack (layer_for layer_key);
  let clients := map fst (filter (fun c => c.2 = layer_key) (client_layer_keys p)) in
  if negb (bool_decide (clients = [])) || negb (layer_empty (scene_layer layer (sc p))) then
    label ← on_stack (label_for layer_key);
    mret [mk_layer_info layer_key label (department_for_layer_key layer_key) clients layer
            (is_muted (sc p) layer) (bool_decide (layer_key = DEFAULT_LAYER_KEY))]
  else mret [].
Definition get_layer_stack_info : M policy (list layer_info) :=
  p ← gets id;
  rows ← mapM' (layer_row p) (order (pol_stack p));
  mret (concat rows).

(** [set_muted] *)
Definition policy_set_muted (key : string) (mute : bool) : M policy bool :=
  found ← gets (resolve_layer_key key);
  match found with
  | None => mret false
  | Some layer_key =>
      layer ← on_stack (layer_for layer_key);
      now ← gets (fun p => is_muted (sc p) layer);
      if bool_decide (now = mute) then mret true else
      _ ← reject_layer_stack_change;
      _ ← on_stack (set_muted layer_key mute);
      _ ← notify (BumpSnapshotEpoch ((if mute then "mute_layer" else "unmute_layer") +:+ ":" +:+ key));
      _ ← notify BroadcastLayerStack;
      mret true
  end.
(** ** Startup: [_replay_log_into_stage] of a managed server *)

(** A decoded row. *)
Record log_record := mk_log_record { lr_event : event; lr_layer_key : option string; lr_client_id : option string }.

(** [decode] is [resolve_payload] and [decode_received_event]: it raises for a
    row that is no event.  [new_layer] names the anonymous layer of a key. *)
Context (decode : list Byte.byte -> result log_record) (new_layer : string -> string).

Definition restore_row (row : list Byte.byte) : M policy (string * event) :=
  record ← lift (decode row);
  let ev := lr_event record in
  if non_collaboration ev then layer ← gets (fun p => session_layer (sc p)); mret (layer, ev) else
  match named (lr_layer_key record) with
  | None => raise ValueError
  | Some layer_key =>
      '(layer, _) ← on_stack (ensure_layer identity layer_key (Some (label_for_layer_key layer_key)) (new_layer layer_key));
      _ ← match named (lr_client_id record) with Some client_id => restore_assignment client_id layer_key | None => mret () end;
      mret (layer, ev)
  end.

Definition replay_log_into_stage (rows : list (list Byte.byte)) : M policy unit :=
  match rows with
  | [] => mret ()
  | _ =>
      routed ← mapM' restore_row rows;
      _ ← apply_department_order;
      on_scene (replay_events routed)
  end.

(** ** Receivers: the reservation of a [ConnectionHandler] *)

Record receiver := mk_receiver { replay_reserved : bool; layered_replay : bool }.
Record collab := mk_collab { pol : policy; receivers : gmap nat receiver }.

Definition set_pol (p : policy) (s : collab) : collab := mk_collab p (receivers s).
Definition set_receiver (h : nat) (r : receiver) (s : collab) : collab := mk_collab (pol s) (<[h := r]> (receivers s)).
Definition on_policy {A} (m : M policy A) : M collab A := zoom pol set_pol m.

(** [setup] and the part of [handle] that admits a receiver *)
Definition admit_receiver (h : nat) (layered : bool) : M collab (bool * string) :=
  _ ← modify (set_receiver h (mk_receiver false layered));
  '(accepted, reason) ← on_policy (reserve_receiver_replay_mode layered);
  _ ← (if (accepted : bool) then modify (set_receiver h (mk_receiver true layered)) else mret ());
  mret (accepted, reason).

(** [release_receiver_replay_reservation] *)
Definition release_reservation (h : nat) : M collab unit :=
  rs ← gets receivers;
  match rs !! h with
  | Some (mk_receiver true layered) =>
      _ ← modify (set_receiver h (mk_receiver false layered));
      on_policy (release_receiver_replay_mode layered)
  | _ => mret ()
  end.

(** The operations as one command type. *)
Inductive collab_op : Type :=
  | GetOrCreate (client_id : string) (department : option string) (new_layer : string)
  | ReleaseClient (client_id : string) (merge_into_root : bool)
  | SetPriority (ordered_departments : list string)
  | SetMuted (key : string) (muted : bool)
  | AdmitReceiver (h : nat) (layered : bool)
  | ReleaseReservation (h : nat).

Definition run_collab (o : collab_op) : M collab unit :=
  match o with
  | GetOrCreate c d n => _ ← on_policy (get_or_create_client_layer c d n); mret ()
  | ReleaseClient c b => _ ← on_policy (release_client_assignment c b); mret ()
  | SetPriority ds => on_policy (set_department_priority ds)
  | SetMuted k b => _ ← on_policy (policy_set_muted k b); mret ()
  | AdmitReceiver h b => _ ← admit_receiver h b; mret ()
  | ReleaseReservation h => release_reservation h
  end.

(** New handlers are new, and so are the identifiers of anonymous layers. *)
Definition collab_fresh (s : collab) (o : collab_op) : Prop :=
  match o with
  | GetOrCreate _ _ n => keys_by_identifier (pol_stack (pol s)) !! n = None
  | AdmitReceiver h _ => receivers s !! h = None
  | _ => True
  end.

Definition collab_step (s s' : collab) : Prop := exists o, collab_fresh s o /\ s' = (run_collab o s).1.

(** ** Well-formedness *)

Record base_ok (p : policy) : Prop := {
  base_stack : stack_ok identity (pol_stack p);
  base_default : default_key (pol_stack p) = DEFAULT_LAYER_KEY;
  base_priority : NoDup (department_priority p) /\ "" ∉ department_priority p;
  base_clients : NoDup (map fst (client_layer_keys p));
  base_assigned c k : (c, k) ∈ client_layer_keys p -> is_Some (layers (pol_stack p) !! k);
}.

(** What a receiver without layered replay can mirror. *)
Definition flat_compatible (p : policy) : Prop :=
  department_priority p = [] /\ exists layer, order (pol_stack p) = [DEFAULT_LAYER_KEY]
    /\ layers (pol_stack p) !! DEFAULT_LAYER_KEY = Some layer /\ layer ∉ muted (pol_stack p).

Record policy_ok (p : policy) : Prop := {
  pol_base : base_ok p;
  pol_count : (0 ≤ flat_receiver_count p)%Z;
  pol_flat : (0 < flat_receiver_count p)%Z -> flat_compatible p;
}.

(** An operation that does not admit receivers keeps the policy well formed, and
    while flat receivers are connected it keeps the stack and the priority. *)
Record kept (p p' : policy) : Prop := {
  kept_base : base_ok p -> base_ok p';
  kept_count : flat_receiver_count p' = flat_receiver_count p;
  kept_flat : base_ok p -> flat_receiver_count p ≠ 0%Z -> flat_compatible p -> pol_stack p' = pol_stack p /\ department_priority p' = department_priority p;
}.

#[local] Instance kept_preorder : PreOrder kept.
Proof.
  split; [by split|]. intros p1 p2 p3 [K1 K2 K3] [K4 K5 K6]. split; [by auto|congruence|]. intros Hb Hc Hf.
  destruct (K3 Hb Hc Hf) as [E1 E2].
  assert (flat_compatible p2) as Hf2 by (unfold flat_compatible in *; by rewrite E1, E2).
  destruct (K6 (K1 Hb)) as [E3 E4]; [by rewrite K2|done|]. split; congruence.
Qed.

Lemma kept_ok p p' : kept p p' -> policy_ok p -> policy_ok p'.
Proof.
  intros [K1 K2 K3] [Hb Hc Hf]. split; [by apply K1|by rewrite K2|]. rewrite K2. intros Hpos.
  destruct (K3 Hb ltac:(lia) (Hf Hpos)) as [E1 E2]. destruct (Hf Hpos) as (E3 & layer & ?). split; [congruence|].
  exists layer. by rewrite E1.
Qed.

(** Running a piece of an operation. *)
Definition keeps {A} (m : M policy A) : Prop := forall p, policy_ok p -> kept p (m p).1.

Lemma keeps_bind {A B} (m : M policy A) (f : A -> M policy B) : keeps m -> (forall a, keeps (f a)) -> keeps (x ← m; f x).
Proof.
  intros Hm Hf p Hp. unfold mbind, M_bind. pose proof (Hm p Hp) as K1. destruct (m p) as [p1 [a|e]]; [|done].
  cbn in K1. etrans; [exact K1|]. apply Hf. by eapply kept_ok.
Qed.
Lemma keeps_ret {A} (a : A) : keeps (mret a).
Proof. by intros p _. Qed.
Lemma keeps_raise {A} (e : exn) : keeps (raise (A := A) e).
Proof. by intros p _. Qed.
Lemma keeps_gets {A} (f : policy -> A) : keeps (gets f).
Proof. by intros p _. Qed.
Lemma keeps_lift {A} (r : result A) : keeps (lift r).
Proof. by intros p _. Qed.
Lemma keeps_reject : keeps reject_layer_stack_change.
Proof. intros p _. unfold reject_layer_stack_change, gets, mbind, M_bind. cbn. by destruct (negb _). Qed.

Lemma kept_same_stack p p' : (base_ok p -> base_ok p') -> flat_receiver_count p' = flat_receiver_count p -> pol_stack p' = pol_stack p ->
  department_priority p' = department_priority p -> kept p p'.
Proof. by split. Qed.

Lemma keeps_notify n : keeps (notify n).
Proof. intros p _. apply kept_same_stack; [|done..]. intros [K1 K2 K3 K4 K5]. by split. Qed.

Lemma set_pol_stack_same p : set_pol_stack (pol_stack p) p = p.
Proof. by destruct p as [[[? ? ? ?] ? ? ? ? ?] ? ? ? ?]. Qed.

Lemma keeps_read {A} (m : M stack A) : (forall k, (m k).1 = k) -> keeps (on_stack m).
Proof.
  intros Hm p _. unfold on_stack, zoom. specialize (Hm (pol_stack p)). destruct (m (pol_stack p)) as [k r]. cbn in *. subst k.
  by rewrite set_pol_stack_same.
Qed.

Lemma keeps_scene {A} (m : M scene A) : (forall s, stk (stg (m s).1) = stk (stg s)) -> keeps (on_scene m).
Proof.
  intros Hm p _. unfold on_scene, zoom. specialize (Hm (sc p)). destruct (m (sc p)) as [s r]. cbn in *.
  assert (pol_stack (set_sc s p) = pol_stack p) as E1 by done.
  apply kept_same_stack; [|done..]. intros [K1 K2 K3 K4 K5]. by split; rewrite ?E1.
Qed.

(** While no flat receiver is connected an operation has only the shape to keep. *)
Lemma kept_free p p' : flat_receiver_count p = 0%Z -> flat_receiver_count p' = 0%Z -> (base_ok p -> base_ok p') -> kept p p'.
Proof. intros K1 K2 Hb. split; [done|congruence|]. done. Qed.
(** ** Department order *)

Lemma elem_priority_keys p k : k ∈ priority_keys p <->
  is_Some (layers (pol_stack p) !! k) /\ exists d, d ∈ department_priority p /\ k = layer_key_for_department (Some d).
Proof.
  unfold priority_keys, has_layer. rewrite list_elem_of_filter, bool_decide_eq_true. apply and_iff_compat_l.
  rewrite list_elem_of_fmap. naive_solver.
Qed.

Lemma priority_keys_NoDup p : base_ok p -> NoDup (priority_keys p).
Proof.
  intros [_ _ [Hnd Hne] _ _]. unfold priority_keys. apply NoDup_filter. revert Hne.
  induction Hnd as [|d ds Hd _ IH]; [constructor|]. intros Hne. cbn [map]. constructor; [|apply IH; set_solver].
  rewrite list_elem_of_fmap. intros (d' & E1 & Hin). apply department_key_inj in E1; [by subst| |]; intros ->; apply Hne; set_solver.
Qed.

Lemma priority_keys_not_default p : base_ok p -> DEFAULT_LAYER_KEY ∉ priority_keys p.
Proof.
  intros [_ _ [_ Hne] _ _] (_ & d & Hd & E1)%elem_priority_keys. symmetry in E1. revert E1. apply department_key_not_default. by intros ->.
Qed.

Lemma department_order_ok p : base_ok p ->
  department_order p ≡ₚ order (pol_stack p) /\ last (department_order p) = Some (default_key (pol_stack p)).
Proof.
  intros Hb. pose proof (priority_keys_NoDup p Hb) as Hn1. pose proof (priority_keys_not_default p Hb) as Hn2. destruct Hb as [[Hm _] Hd _ _ _].
  unfold department_order. split; [|by rewrite app_assoc, last_snoc, Hd].
  assert (forall k, k ∈ order (pol_stack p) <-> is_Some (layers (pol_stack p) !! k)) as Hin by apply (order_complete _ Hm).
  apply NoDup_Permutation; [|apply Hm|].
  - apply NoDup_app. split_and!; [done| |].
    + intros k Hk. rewrite elem_of_app, list_elem_of_singleton. unfold unlisted_keys. rewrite list_elem_of_filter. naive_solver.
    + apply NoDup_app. split_and!; [apply NoDup_filter, Hm| |apply NoDup_singleton].
      intros k [[? _] _]%list_elem_of_filter. by rewrite list_elem_of_singleton.
  - intros k. rewrite !elem_of_app, list_elem_of_singleton. unfold unlisted_keys. rewrite list_elem_of_filter. split.
    + intros [[? _]%elem_priority_keys|[[_ ?]| ->]]; [by apply Hin|done|]. rewrite <-Hd. apply last_Some_elem_of, Hm.
    + intros Hk. destruct (decide (k = DEFAULT_LAYER_KEY)) as [->|]; [by right; right|].
      destruct (decide (k ∈ priority_keys p)); [by left|]. right. by left.
Qed.

Lemma set_pol_stack_base k p : base_ok p -> stack_ok identity k -> default_key k = default_key (pol_stack p) ->
  (forall key, is_Some (layers (pol_stack p) !! key) -> is_Some (layers k !! key)) -> base_ok (set_pol_stack k p).
Proof.
  intros [K1 K2 K3 K4 K5] Hok Hd Hl. split; [done|by rewrite <-K2|done..|]. intros c key Hin. by apply Hl, (K5 c).
Qed.

(** Ordering always succeeds. *)
Lemma apply_department_order_run p : base_ok p -> exists k,
  apply_department_order p = (set_pol_stack k p, Ok (bool_decide (department_order p ≠ order (pol_stack p))))
  /\ base_ok (set_pol_stack k p) /\ order k = department_order p /\ layers k = layers (pol_stack p)
  /\ (department_order p = order (pol_stack p) -> k = pol_stack p).
Proof.
  intros Hb. destruct (department_order_ok p Hb) as [Hp Hl].
  destruct (set_order_spec identity (pol_stack p) (department_order p)) as (k & E1 & Hok & Hd & Ho & Hla & Hs); [apply Hb|done..|].
  exists k. split_and!; [|apply set_pol_stack_base; [done..|by rewrite Hla]|done..].
  unfold apply_department_order, gets, mbind, M_bind, on_stack, zoom. by rewrite E1.
Qed.

(** Ordering an ordered stack again. *)
Lemma unlisted_again (P o : list string) (D : string) :
  filter (fun k => k ≠ D /\ k ∉ P) (P ++ filter (fun k => k ≠ D /\ k ∉ P) o ++ [D]) = filter (fun k => k ≠ D /\ k ∉ P) o.
Proof.
  rewrite !filter_app, (list_filter_none _ P) by set_solver. rewrite list_filter_filter, (list_filter_none _ [D]) by set_solver.
  rewrite app_nil_r. apply list_filter_iff'. tauto.
Qed.

Lemma department_order_fixed p p' : order (pol_stack p') = department_order p -> priority_keys p' = priority_keys p ->
  department_order p' = order (pol_stack p').
Proof.
  intros Ho Hpk. unfold department_order at 1, unlisted_keys. rewrite Hpk, Ho. unfold department_order, unlisted_keys. by rewrite unlisted_again.
Qed.

Lemma priority_keys_layers p p' : layers (pol_stack p') = layers (pol_stack p) -> department_priority p' = department_priority p ->
  priority_keys p' = priority_keys p.
Proof. intros Hl Hd. unfold priority_keys, has_layer. by rewrite Hl, Hd. Qed.

Lemma flat_department_order p : base_ok p -> flat_compatible p -> department_order p = order (pol_stack p).
Proof.
  intros Hb (Hp & layer & Ho & _). unfold department_order, unlisted_keys. assert (priority_keys p = []) as -> by (unfold priority_keys; by rewrite Hp).
  rewrite Ho, list_filter_none; [done|]. set_solver.
Qed.

Lemma keeps_order : keeps apply_department_order.
Proof.
  intros p Hp. destruct (apply_department_order_run p (pol_base _ Hp)) as (k & E1 & Hb & Ho & Hl & Hs). rewrite E1. cbn [fst].
  destruct (decide (flat_receiver_count p = 0%Z)) as [Hc|Hc]; [by apply kept_free|].
  rewrite Hs; [by rewrite set_pol_stack_same|]. apply flat_department_order; [apply Hp|]. apply Hp. pose proof (pol_count _ Hp). lia.
Qed.
(** ** The operations *)

Lemma restore_assignment_base c key p : base_ok p -> is_Some (layers (pol_stack p) !! key) -> base_ok (restore_assignment c key p).1.
Proof.
  intros [K1 K2 K3 K4 K5] Hk. split; [done..|by apply dict_set_NoDup|].
  intros c' k' [[-> [o ->]]|Hin]%dict_set_elem; [done|by apply (K5 c')].
Qed.

Lemma restore_assignment_kept c key p : (base_ok p -> is_Some (layers (pol_stack p) !! key)) -> kept p (restore_assignment c key p).1.
Proof. intros Hk. apply kept_same_stack; [|done..]. intros Hb. apply restore_assignment_base; auto. Qed.

Lemma default_layer_present p : base_ok p -> is_Some (layers (pol_stack p) !! DEFAULT_LAYER_KEY).
Proof. intros [[Hm _] Hd _ _ _]. apply (order_complete _ Hm). rewrite <-Hd. apply last_Some_elem_of, Hm. Qed.

(** A department layer is there after [ensure_layer]. *)
Lemma ensure_department_run d new p : base_ok p -> d ≠ "" -> keys_by_identifier (pol_stack p) !! new = None ->
  let key := layer_key_for_department (Some d) in
  exists k layer, on_stack (ensure_layer identity key (Some d) new) p = (set_pol_stack k p, Ok (layer, negb (has_layer (pol_stack p) key)))
    /\ base_ok (set_pol_stack k p) /\ layers k !! key = Some layer /\ (has_layer (pol_stack p) key = true -> k = pol_stack p).
Proof.
  intros Hb Hd Hn key. unfold on_stack, zoom. destruct (ensure_layer identity key (Some d) new (pol_stack p)) as [k r] eqn:E1.
  destruct (ensure_layer_spec identity key (Some d) new (pol_stack p) k r) as (Hok & Hdef & Hr); [apply Hb|done..|].
  destruct r as [[layer added]|e].
  - destruct Hr as (Hl & -> & Hs). exists k, layer. split_and!; [done| | |].
    + apply set_pol_stack_base; [done..|]. intros key'. rewrite Hl, lookup_insert_is_Some'. auto.
    + by rewrite Hl, lookup_insert_eq.
    + intros Hh. apply Hs. by rewrite Hh.
  - destruct Hr as [Hr _]. exfalso. revert Hr. unfold key, layer_key_for_department, named. by destruct d.
Qed.

Lemma notices_base ns p : base_ok p -> base_ok (mk_policy (sc p) (client_layer_keys p) (department_priority p) (flat_receiver_count p) ns).
Proof. intros [K1 K2 K3 K4 K5]. by split. Qed.

Lemma get_or_create_kept c department new p : policy_ok p -> keys_by_identifier (pol_stack p) !! new = None ->
  kept p (get_or_create_client_layer c department new p).1.
Proof.
  intros Hp Hn. pose proof (pol_base _ Hp) as Hb. unfold get_or_create_client_layer. destruct (named department) as [d|] eqn:Ed.
  - assert (d ≠ "" /\ layer_key_for_department department = layer_key_for_department (Some d)) as [Hd ->].
    { unfold layer_key_for_department. rewrite Ed. unfold named in *. by destruct department as [[|? ?]|]; simplify_eq/=. }
    set (key := layer_key_for_department (Some d)).
    destruct (ensure_department_run d new p Hb Hd Hn) as (k & layer & E1 & Hb1 & Hl & Hs). fold key in E1, Hl, Hs.
    unfold mbind, M_bind, gets. cbn. destruct (has_layer (pol_stack p) key) eqn:Eh.
    + unfold mret, M_ret. cbn. rewrite E1. cbn. rewrite (Hs eq_refl), set_pol_stack_same. unfold restore_assignment, modify. cbn.
      apply (restore_assignment_kept c key). intros _. rewrite <-(Hs eq_refl). by eexists.
    + unfold reject_layer_stack_change, gets, mbind, M_bind. cbn. destruct (flat_receiver_count p =? 0)%Z eqn:Ec; [|done].
      apply Z.eqb_eq in Ec. cbn. rewrite E1. cbn. destruct (apply_department_order_run _ Hb1) as (k2 & E2 & Hb2 & _ & Hl2 & _). rewrite E2. cbn.
      apply kept_free; [done..|]. intros _. apply (notices_base _ (restore_assignment c key (set_pol_stack k2 (set_pol_stack k p))).1), restore_assignment_base; [done|].
      change (is_Some (layers k2 !! key)). rewrite Hl2. change (is_Some (layers k !! key)). rewrite Hl. by eexists.
  - unfold mbind, M_bind, gets, mret, M_ret. cbn. apply (restore_assignment_kept c). intros _.
    unfold layer_key_for_department. rewrite Ed. by apply default_layer_present.
Qed.

Lemma validate_priority_ok ds ds' : validate_priority ds = Ok ds' -> ds' = ds /\ NoDup ds /\ "" ∉ ds.
Proof.
  unfold validate_priority. intros E. inv_bind E. apply raise_if_Ok in E0. inv_bind E. apply raise_if_Ok, bool_decide_eq_false in E1. injection E as <-.
  split_and!; [done|apply NoDup_size_list_to_set; by destruct (decide (size (list_to_set ds : gset string) = length ds))|].
  intros Hin. assert (existsb (fun d => bool_decide (d = "")) ds = true); [|congruence].
  apply existsb_exists. exists "". split; [by apply list_elem_of_In|by rewrite bool_decide_true].
Qed.

Lemma set_priority_base ds p : base_ok p -> NoDup ds -> "" ∉ ds -> base_ok (set_priority ds p).
Proof. intros [K1 K2 K3 K4 K5] ? ?. by split. Qed.

Lemma set_department_priority_keeps ds : keeps (set_department_priority ds).
Proof.
  intros p Hp. unfold set_department_priority, lift, gets. unfold mbind at 1, M_bind at 1.
  destruct (validate_priority ds) as [ds'|e] eqn:Ev; [|done]. destruct (validate_priority_ok _ _ Ev) as (-> & Hnd & Hne).
  pose proof (pol_base _ Hp) as Hb. unfold mbind, M_bind, modify. cbn.
  pose proof (set_priority_base ds p Hb Hnd Hne) as Hb1.
  destruct (apply_department_order_run _ Hb1) as (k & E1 & Hb2 & _ & _ & Hs).
  assert (forall b : bool, flat_receiver_count p = 0%Z \/ ds = department_priority p ->
    kept p (if b then (set_pol_stack k (set_priority ds p), Ok ())
            else notify BroadcastLayerStack (notify (BumpSnapshotEpoch "set_department_priority") (set_pol_stack k (set_priority ds p))).1).1) as Hgoal.
  { intros b [Hc| ->].
    - apply kept_free; [done|by destruct b|]. intros _. destruct b; [done|]. by apply (notices_base _ (set_pol_stack k (set_priority ds p))).
    - assert (set_priority (department_priority p) p = p) as Ep by (by destruct p). rewrite Ep in *.
      assert (kept p (set_pol_stack k p)) as Hk.
      { pose proof (keeps_order p Hp) as Hk. by rewrite E1 in Hk. }
      destruct b; [done|]. etrans; [exact Hk|]. etrans; [apply (keeps_notify (BumpSnapshotEpoch "set_department_priority"))|apply (keeps_notify BroadcastLayerStack)];
        [|apply (kept_ok (set_pol_stack k p)); [apply keeps_notify|]]; by eapply kept_ok. }
  destruct (bool_decide (ds ≠ department_priority p)) eqn:Hch.
  - unfold reject_layer_stack_change, gets, mbind, M_bind. cbn. destruct (flat_receiver_count p =? 0)%Z eqn:Ec; [|done]. cbn.
    rewrite E1. apply Z.eqb_eq in Ec. rewrite andb_false_r. exact (Hgoal false (or_introl Ec)).
  - unfold mret, M_ret. cbn. rewrite E1, andb_true_r. apply bool_decide_eq_false, dec_stable in Hch.
    destruct (bool_decide _); [exact (Hgoal false (or_intror Hch))|exact (Hgoal true (or_intror Hch))].
Qed.
(** A change that flat receivers forbid. *)
Lemma keeps_guarded {A} (m : M policy A) :
  (forall p, base_ok p -> base_ok (m p).1) -> (forall p, flat_receiver_count (m p).1 = flat_receiver_count p) ->
  keeps (_ ← reject_layer_stack_change; m).
Proof.
  intros Hb Hc p Hp. unfold reject_layer_stack_change, gets, mbind, M_bind. cbn. destruct (flat_receiver_count p =? 0)%Z eqn:Ec; [|done].
  apply Z.eqb_eq in Ec. cbn. apply kept_free; [done|by rewrite Hc|apply Hb].
Qed.

Lemma keeps_set_muted key b : keeps (policy_set_muted key b).
Proof using EqDecision0.
  apply keeps_bind; [apply keeps_gets|]. intros [k|]; [|apply keeps_ret].
  apply keeps_bind; [apply keeps_read; intros x; unfold layer_for; by destruct (_ !! _)|]. intros layer. apply keeps_bind; [apply keeps_gets|]. intros now.
  destruct (bool_decide _); [apply keeps_ret|]. apply keeps_guarded.
  - intros p Hb. unfold on_stack, zoom, mbind, M_bind. destruct (set_muted k b (pol_stack p)) as [x r] eqn:E1.
    destruct (set_muted_spec identity k b (pol_stack p) x r) as (Hok & Hd & Hl & _); [apply Hb|done|].
    assert (base_ok (set_pol_stack x p)) by (apply set_pol_stack_base; [done..|by rewrite Hl]).
    destruct r; [|done]. cbn. by apply (notices_base _ (set_pol_stack x p)).
  - intros p. unfold on_stack, zoom, mbind, M_bind. by destruct (set_muted k b (pol_stack p)) as [x []].
Qed.

Lemma scene_merge_stack layer (s : scene) : stk (stg (scene_merge_layer root_layer layer s).1) = stk (stg s).
Proof.
  unfold scene_merge_layer, gets, zoom, modify, mbind, M_bind. cbn. by destruct (merge_layer_into_root _ _) as [l []].
Qed.

Lemma dict_pop_elem (c c' k : string) d : (c', k) ∈ dict_pop c d <-> c' ≠ c /\ (c', k) ∈ d.
Proof. unfold dict_pop. by rewrite list_elem_of_filter. Qed.

(** The policy after the assignment of [client_id] is gone, and its layer too
    if no other client is assigned to it. *)
Lemma drop_assignment_base c key p : base_ok p -> (key ∉ map snd (dict_pop c (client_layer_keys p)) -> key ≠ DEFAULT_LAYER_KEY) ->
  forall p', p' = (if bool_decide (key ∉ map snd (dict_pop c (client_layer_keys p)))
           then set_pol_stack (remove_layer identity key (pol_stack p)).1 (set_clients (dict_pop c (client_layer_keys p)) p)
           else set_clients (dict_pop c (client_layer_keys p)) p) -> base_ok p'.
Proof.
  intros Hb Hk p' ->.
  assert (base_ok (set_clients (dict_pop c (client_layer_keys p)) p)) as Hb1.
  { destruct Hb as [K1 K2 K3 K4 K5]. split; [done..|by apply dict_filter_NoDup|]. intros c' k' [_ Hin]%dict_pop_elem. by apply (K5 c'). }
  case_bool_decide as Hin; [|done]. destruct (remove_layer identity key (pol_stack p)) as [x r] eqn:E1. cbn [fst].
  destruct (remove_layer_spec identity key (pol_stack p) x r) as (Hok & Hd & Hr); [apply Hb|done|].
  destruct Hb1 as [K1 K2 K3 K4 K5]. split; [done|by rewrite <-K2|done..|]. intros c' k' Hck. destruct r as [layer|e].
  - destruct Hr as (_ & _ & Hl). change (is_Some (layers x !! k')). rewrite Hl. apply lookup_delete_is_Some. split; [|by apply (K5 c')].
    intros ->. apply Hin, list_elem_of_fmap. by exists (c', k').
  - destruct Hr as [-> _]. by apply (K5 c').
Qed.
Lemma flat_assigned_default p c key : base_ok p -> flat_compatible p -> (c, key) ∈ client_layer_keys p -> key = DEFAULT_LAYER_KEY.
Proof.
  intros Hb (_ & layer & Ho & _) Hin. apply (base_assigned _ Hb), (order_complete _ (ok_maps _ _ (base_stack _ Hb))) in Hin.
  rewrite Ho in Hin. by apply list_elem_of_singleton in Hin.
Qed.

Lemma keeps_merge layer : keeps (on_scene (scene_merge_layer root_layer layer)).
Proof. apply keeps_scene, scene_merge_stack. Qed.

Lemma keeps_layer_for key : keeps (on_stack (layer_for key)).
Proof. apply keeps_read. intros x. unfold layer_for. by destruct (_ !! _). Qed.

Lemma named_Some o key : named o = Some key -> o = Some key /\ key ≠ "".
Proof. unfold named. by destruct o as [[|? ?]|]; intros [= <-]. Qed.

Lemma release_rest_base c key merge p : base_ok p -> key ≠ DEFAULT_LAYER_KEY -> flat_receiver_count p = 0%Z ->
  base_ok (finish_release c key merge p).1 /\ flat_receiver_count (finish_release c key merge p).1 = 0%Z.
Proof.
  intros Hb Hk Hc. pose proof (drop_assignment_base c key p Hb (fun _ => Hk) _ eq_refl) as Hd. unfold finish_release, gets, modify, mbind, M_bind. cbn.
  destruct (bool_decide _).
  - unfold on_stack, zoom. cbn. change (pol_stack (set_clients _ p)) with (pol_stack p).
    destruct (remove_layer identity key (pol_stack p)) as [x [layer|e]]; cbn in *; [|done]. split; [|done].
    by apply (notices_base _ (set_pol_stack x (set_clients (dict_pop c (client_layer_keys p)) p))).
  - cbn. split; [|done]. by apply (notices_base _ (set_clients (dict_pop c (client_layer_keys p)) p)).
Qed.

Lemma keeps_release c merge : keeps (release_client_assignment c merge).
Proof.
  intros p Hp. pose proof (pol_base _ Hp) as Hb. unfold release_client_assignment, gets. unfold mbind at 1, M_bind at 1.
  destruct (named (dict_get c (client_layer_keys p))) as [key|] eqn:Ek; [|done].
  apply named_Some in Ek as [Ek Hne]. case_bool_decide as Hk; [done|].
  assert (flat_receiver_count p = 0%Z) as Hc.
  { destruct (decide (flat_receiver_count p = 0%Z)) as [|Hc]; [done|]. pose proof (pol_count _ Hp).
    exfalso. apply Hk, (flat_assigned_default p c); [done|apply Hp; lia|]. by apply dict_get_elem. }
  match goal with |- context [mbind _ ?m p] => set (pre := m) end. assert (keeps pre) as Hpre.
  { unfold pre. destruct merge; [|apply keeps_ret]. apply keeps_bind; [apply keeps_layer_for|]. intros layer. apply keeps_merge. }
  unfold mbind at 1, M_bind at 1. specialize (Hpre p Hp) as Hpre1.
  destruct (pre p) as [p1 [[]|e]]; [|done]. cbn [fst] in *.
  destruct (release_rest_base c key merge p1) as [K1 K2]; [by apply Hpre1|done|by rewrite (kept_count _ _ Hpre1)|]. by apply kept_free.
Qed.
(** ** Receivers *)

Definition flat_reserved (hr : nat * receiver) : bool := replay_reserved hr.2 && negb (layered_replay hr.2).
Definition flat_receivers (rs : gmap nat receiver) : gmap nat receiver := filter (fun hr => flat_reserved hr = true) rs.

Record collab_ok (s : collab) : Prop := {
  col_policy : policy_ok (pol s);
  (** the counter counts the reservations *)
  col_count : flat_receiver_count (pol s) = Z.of_nat (size (flat_receivers (receivers s)));
}.

Lemma flat_receivers_insert h r rs : rs !! h = None \/ (exists r0, rs !! h = Some r0 /\ flat_reserved (h, r0) = false) ->
  flat_receivers (<[h := r]> rs) = if flat_reserved (h, r) then <[h := r]> (flat_receivers rs) else flat_receivers rs.
Proof.
  intros Hh. unfold flat_receivers. destruct (flat_reserved (h, r)) eqn:Er; [by rewrite map_filter_insert_True|].
  rewrite map_filter_insert_False by (by rewrite Er). rewrite map_filter_delete, delete_id; [done|].
  apply map_lookup_filter_None. destruct Hh as [Hh|(r0 & Hr0 & Hf)]; [by left|right]. intros r' Hr'. rewrite Hr0 in Hr'. injection Hr' as <-. by rewrite Hf.
Qed.

Lemma not_flat_lookup h (rs : gmap nat receiver) : (forall r, rs !! h = Some r -> flat_reserved (h, r) = false) -> flat_receivers rs !! h = None.
Proof. intros Hh. apply map_lookup_filter_None. destruct (rs !! h) as [r|] eqn:E1; [|by left]. right. intros r' [= <-]. by rewrite Hh. Qed.

(** Only a stack a flat receiver can mirror gets the empty reason. *)
Lemma rejection_reason_run p : base_ok p -> exists reason, flat_replay_rejection_reason p = (p, Ok reason) /\ (reason = "" -> flat_compatible p).
Proof.
  intros Hb. unfold flat_replay_rejection_reason, gets, mbind, M_bind. cbn. destruct (department_priority p) as [|d ds] eqn:Ed; [|by eexists].
  pose proof (base_stack _ Hb) as [Hm _]. pose proof (order_last _ Hm) as Hl. rewrite (base_default _ Hb) in Hl.
  pose proof (order_complete _ Hm) as Hc. destruct (order (pol_stack p)) as [|k [|k' ks]] eqn:Eo; [done| |by eexists].
  injection Hl as ->. destruct (proj1 (Hc DEFAULT_LAYER_KEY)) as [layer Hla]; [set_solver|].
  unfold on_stack, zoom, layer_for. rewrite Hla. cbn. rewrite set_pol_stack_same. eexists. split; [done|].
  unfold is_muted. case_bool_decide as Hmu; [done|]. intros _. split; [done|]. by exists layer.
Qed.

Lemma reserve_run layered p : policy_ok p -> exists accepted reason p', reserve_receiver_replay_mode layered p = (p', Ok (accepted, reason))
  /\ policy_ok p' /\ flat_receiver_count p' = (flat_receiver_count p + Z.b2z (accepted && negb layered))%Z
  /\ pol_stack p' = pol_stack p /\ department_priority p' = department_priority p.
Proof.
  intros Hp. unfold reserve_receiver_replay_mode. destruct layered.
  - exists true, "", p. rewrite Z.add_0_r. done.
  - destruct (rejection_reason_run p (pol_base _ Hp)) as (reason & E1 & Hr). unfold mbind, M_bind. rewrite E1.
    case_bool_decide as Hne; [exists false, reason, p; rewrite Z.add_0_r; done|].
    exists true, "", (set_count (flat_receiver_count p + 1) p). split_and!; [done| |done..].
    destruct Hp as [[K1 K2 K3 K4 K5] Hc Hf]. split; [by split|cbn; lia|]. intros _. by apply Hr.
Qed.

Lemma admit_kept h layered s : collab_ok s -> receivers s !! h = None -> collab_ok (admit_receiver h layered s).1
  /\ pol_stack (pol (admit_receiver h layered s).1) = pol_stack (pol s) /\ department_priority (pol (admit_receiver h layered s).1) = department_priority (pol s)
  /\ exists r, (admit_receiver h layered s).2 = Ok r.
Proof.
  intros [Hp Hc] Hh. destruct (reserve_run layered (pol s) Hp) as (accepted & reason & p' & E1 & Hp' & Hc' & Hs & Hd).
  unfold admit_receiver, modify, on_policy, zoom, mbind, M_bind. cbn. rewrite E1. cbn.
  assert (flat_receivers (<[h := mk_receiver false layered]> (receivers s)) = flat_receivers (receivers s)) as Hf1.
  { rewrite flat_receivers_insert by (by left). done. }
  destruct accepted; cbn.
  - split_and!; [|done|done|by eexists]. split; [done|]. cbn. rewrite Hc', Hc, flat_receivers_insert.
    + unfold flat_reserved. cbn. rewrite Hf1. destruct layered; cbn; [lia|]. rewrite map_size_insert_None; [lia|].
      apply not_flat_lookup. intros r. by rewrite Hh.
    + right. exists (mk_receiver false layered). by rewrite lookup_insert_eq.
  - split_and!; [|done|done|by eexists]. split; [done|]. cbn. rewrite Hc', Hc, Hf1, andb_false_l. cbn [Z.b2z]. lia.
Qed.

Lemma release_kept h s : collab_ok s -> collab_ok (release_reservation h s).1
  /\ pol_stack (pol (release_reservation h s).1) = pol_stack (pol s) /\ department_priority (pol (release_reservation h s).1) = department_priority (pol s)
  /\ (release_reservation h s).2 = Ok ().
Proof.
  intros Hok. pose proof Hok as [Hp Hc].
  assert (release_reservation h s = match receivers s !! h with
    | Some (mk_receiver true layered) => on_policy (release_receiver_replay_mode layered) (set_receiver h (mk_receiver false layered) s)
    | _ => (s, Ok ()) end) as ->.
  { unfold release_reservation, gets, mbind, M_bind. by destruct (receivers s !! h) as [[[] ?]|]. }
  destruct (receivers s !! h) as [[[] layered]|] eqn:Eh; [|by split_and!|by split_and!].
  unfold on_policy, zoom, release_receiver_replay_mode. destruct layered; cbn.
  - split_and!; [|done..]. split; [done|]. cbn. rewrite Hc, flat_receivers_insert; [done|]. right. by eexists.
  - assert (flat_receivers (receivers s) !! h = Some (mk_receiver true false)) as Hf by (by apply map_lookup_filter_Some).
    assert (flat_receivers (<[h := mk_receiver false false]> (receivers s)) = delete h (flat_receivers (receivers s))) as Hf1.
    { unfold flat_receivers. rewrite map_filter_insert_False by done. by rewrite map_filter_delete. }
    pose proof (map_size_delete_Some h (flat_receivers (receivers s)) ltac:(by eexists)) as Hs. assert (size (flat_receivers (receivers s)) ≠ 0) as Hne.
    { intros E1%map_size_empty_inv. by rewrite E1, lookup_empty in Hf. }
    unfold gets, mbind, M_bind. cbn. rewrite (proj2 (Z.leb_gt _ _)) by (rewrite Hc; lia). cbn. split_and!; [|done..]. split; cbn.
    + destruct Hp as [[K1 K2 K3 K4 K5] Hcp Hfp]. split; [by split|cbn; lia|]. cbn. intros Hpos. apply Hfp. lia.
    + rewrite Hf1, Hs, Hc. lia.
Qed.
(** ** The system of clients and receivers *)

Lemma on_policy_kept {A} (m : M policy A) s : keeps m -> collab_ok s -> collab_ok (on_policy m s).1.
Proof.
  intros Hm [Hp Hc]. specialize (Hm _ Hp). unfold on_policy, zoom. destruct (m (pol s)) as [p' r]. cbn in *.
  split; [by eapply kept_ok|]. cbn. by rewrite (kept_count _ _ Hm).
Qed.

Definition op_keeps (o : collab_op) (s : collab) : Prop :=
  collab_ok (run_collab o s).1 /\ (flat_receiver_count (pol s) ≠ 0%Z ->
    pol_stack (pol (run_collab o s).1) = pol_stack (pol s) /\ department_priority (pol (run_collab o s).1) = department_priority (pol s)).

Lemma policy_op_keeps o s : collab_ok s -> kept (pol s) (pol (run_collab o s).1) -> receivers (run_collab o s).1 = receivers s -> op_keeps o s.
Proof.
  intros [Hp Hc] Hk Hr. split.
  - split; [by eapply kept_ok|]. by rewrite (kept_count _ _ Hk), Hr.
  - intros Hn. apply Hk; [apply Hp|done|]. apply Hp. pose proof (pol_count _ Hp). lia.
Qed.

Lemma run_collab_keeps o s : collab_ok s -> collab_fresh s o -> op_keeps o s.
Proof.
  intros Hok Hf. destruct o as [c d n|c b|ds|k b|h layered|h].
  - pose proof (get_or_create_kept c d n (pol s) (col_policy _ Hok) Hf) as Hk.
    apply policy_op_keeps; [done|..]; cbn; unfold on_policy, zoom, mbind, M_bind; destruct (get_or_create_client_layer c d n (pol s)) as [p' []]; done.
  - pose proof (keeps_release c b (pol s) (col_policy _ Hok)) as Hk.
    apply policy_op_keeps; [done|..]; cbn; unfold on_policy, zoom, mbind, M_bind; destruct (release_client_assignment c b (pol s)) as [p' []]; done.
  - pose proof (set_department_priority_keeps ds (pol s) (col_policy _ Hok)) as Hk.
    apply policy_op_keeps; [done|..]; cbn; unfold on_policy, zoom; destruct (set_department_priority ds (pol s)) as [p' r]; done.
  - pose proof (keeps_set_muted k b (pol s) (col_policy _ Hok)) as Hk.
    apply policy_op_keeps; [done|..]; cbn; unfold on_policy, zoom, mbind, M_bind; destruct (policy_set_muted k b (pol s)) as [p' []]; done.
  - destruct (admit_kept h layered s Hok Hf) as (K1 & K2 & K3 & r & K4). unfold op_keeps, run_collab, mbind, M_bind.
    destruct (admit_receiver h layered s) as [s' r']. cbn in *. subst r'. done.
  - destruct (release_kept h s Hok) as (K1 & K2 & K3 & _). done.
Qed.

Lemma collab_run_ok s0 s : collab_ok s0 -> rtc collab_step s0 s -> collab_ok s.
Proof.
  intros Hok Hrun. induction Hrun as [|s1 s2 s3 (o & Hf & ->) _ IH]; [done|]. apply IH. by apply run_collab_keeps.
Qed.

Lemma flat_receiver_counted h s : collab_ok s -> receivers s !! h = Some (mk_receiver true false) -> (0 < flat_receiver_count (pol s))%Z.
Proof.
  intros [_ Hc] Hh. rewrite Hc. assert (flat_receivers (receivers s) !! h = Some (mk_receiver true false)) as Hf by (by apply map_lookup_filter_Some).
  assert (size (flat_receivers (receivers s)) ≠ 0) as Hne; [|lia]. intros E1%map_size_empty_inv. by rewrite E1, lookup_empty in Hf.
Qed.

(** C23: whatever clients and receivers do, in any order and whether or not their
    calls raise, the collaboration policy stays well formed: every assigned layer
    exists, the priority names departments once, the counter counts the admitted
    flat receivers (so releasing a reservation, any number of times, never
    raises), and while one is admitted the server composes one unmuted layer
    without departments, which is all such a receiver can mirror. *)
Theorem collab_stays_ok s0 s : collab_ok s0 -> rtc collab_step s0 s ->
  collab_ok s
  /\ (forall h, (release_reservation h s).2 = Ok ())
  /\ (forall h, receivers s !! h = Some (mk_receiver true false) -> flat_compatible (pol s)).
Proof.
  intros Hok Hrun. pose proof (collab_run_ok _ _ Hok Hrun) as Hs. split_and!; [done| |].
  - intros h. by apply release_kept.
  - intros h Hh. apply (pol_flat _ (col_policy _ Hs)). by eapply flat_receiver_counted.
Qed.

(** a flat receiver freezes the stack: no operation of any client changes
    the layers, their order, their muting or the priority while one is admitted. *)
Theorem flat_receiver_freezes_stack o s h : collab_ok s -> collab_fresh s o -> receivers s !! h = Some (mk_receiver true false) ->
  pol_stack (pol (run_collab o s).1) = pol_stack (pol s)
  /\ department_priority (pol (run_collab o s).1) = department_priority (pol s).
Proof.
  intros Hok Hf Hh. apply (run_collab_keeps o s Hok Hf). pose proof (flat_receiver_counted h s Hok Hh). lia.
Qed.

(** ordering by department never fails on a well-formed policy: the layers
    of the listed departments come first, strongest first, the other department
    layers follow in the order they had, the default layer stays last; the layers
    are the same, and ordering again changes nothing. *)
Theorem department_order_total p : base_ok p ->
  exists p' changed, apply_department_order p = (p', Ok changed)
  /\ order (pol_stack p') = priority_keys p ++ filter (fun k => k ≠ DEFAULT_LAYER_KEY /\ k ∉ priority_keys p) (order (pol_stack p)) ++ [DEFAULT_LAYER_KEY]
  /\ order (pol_stack p') ≡ₚ order (pol_stack p) /\ layers (pol_stack p') = layers (pol_stack p)
  /\ apply_department_order p' = (p', Ok false).
Proof.
  intros Hb. destruct (apply_department_order_run p Hb) as (k & E1 & Hb1 & Ho & Hl & _). set (p' := set_pol_stack k p) in *.
  exists p', (bool_decide (department_order p ≠ order (pol_stack p))). change (pol_stack p') with k. split_and!; [done|exact Ho|rewrite Ho; by apply department_order_ok|done|].
  destruct (apply_department_order_run p' Hb1) as (k2 & E2 & _ & _ & _ & Hs).
  assert (department_order p' = order (pol_stack p')) as Hfix by (apply (department_order_fixed p); [exact Ho|by apply priority_keys_layers]).
  rewrite E2, Hs by done. rewrite set_pol_stack_same, bool_decide_false by (by intros []). done.
Qed.
(** ** Initial states *)

Lemma policy_init_ok s priority p : stack_ok identity (stk (stg s)) -> default_key (stk (stg s)) = DEFAULT_LAYER_KEY ->
  policy_init s priority = Ok p -> policy_ok p /\ flat_receiver_count p = 0%Z /\ collab_ok (mk_collab p ∅).
Proof.
  intros Hs Hd Hi. unfold policy_init in Hi. inv_bind Hi. apply validate_priority_ok in Hi0 as (-> & ? & ?). injection Hi as <-.
  assert (policy_ok (mk_policy s [] priority 0 [])) as Hp.
  { split; [|done|done]. split; [done..|constructor|]. intros c k Hin. by apply not_elem_of_nil in Hin. }
  by split_and!.
Qed.

Lemma finish_release_run c key merge p : base_ok p -> key ≠ DEFAULT_LAYER_KEY -> is_Some (layers (pol_stack p) !! key) ->
  exists p', finish_release c key merge p = (p', Ok true) /\ client_layer_keys p' = dict_pop c (client_layer_keys p)
  /\ (key ∈ map snd (dict_pop c (client_layer_keys p)) -> pol_stack p' = pol_stack p)
  /\ (key ∉ map snd (dict_pop c (client_layer_keys p)) -> layers (pol_stack p') = delete key (layers (pol_stack p))).
Proof.
  intros Hb Hk Hl. unfold finish_release, gets, modify, mbind, M_bind. cbn. case_bool_decide as Hin; [|by eexists].
  unfold on_stack, zoom. cbn. change (pol_stack (set_clients _ p)) with (pol_stack p).
  destruct (remove_layer identity key (pol_stack p)) as [x r] eqn:E1.
  destruct (remove_layer_spec identity key (pol_stack p) x r) as (_ & _ & Hr); [apply Hb|done|]. rewrite (base_default _ Hb) in Hr.
  destruct r as [layer|e]; [|destruct Hr as [_ [?|Hn]]; [done|]; rewrite Hn in Hl; by destruct Hl]. cbn. eexists. split_and!; [done|done|done|]. by intros _; apply Hr.
Qed.

(** releasing a client's department is exact: the client loses its
    assignment, the other clients keep theirs, and the department's layer goes
    away exactly when no other client is assigned to it; nothing happens to a
    client without a department; and if merging the opinions fails, the
    assignment and the layer stay. *)
Theorem release_client_exact c merge p : base_ok p ->
  match release_client_assignment c merge p with
  | (p', Ok false) => p' = p /\ (named (dict_get c (client_layer_keys p)) = None \/ dict_get c (client_layer_keys p) = Some DEFAULT_LAYER_KEY)
  | (p', Ok true) => exists key, dict_get c (client_layer_keys p) = Some key /\ key ≠ DEFAULT_LAYER_KEY
      /\ (forall c', dict_get c' (client_layer_keys p') = if decide (c' = c) then None else dict_get c' (client_layer_keys p))
      /\ ((exists c', c' ≠ c /\ dict_get c' (client_layer_keys p) = Some key) -> pol_stack p' = pol_stack p)
      /\ ((forall c', c' ≠ c -> dict_get c' (client_layer_keys p) ≠ Some key) -> layers (pol_stack p') = delete key (layers (pol_stack p)))
  | (p', Err e) => merge = true /\ client_layer_keys p' = client_layer_keys p /\ pol_stack p' = pol_stack p
  end.
Proof.
  intros Hb. unfold release_client_assignment, gets. unfold mbind at 1, M_bind at 1.
  destruct (named (dict_get c (client_layer_keys p))) as [key|] eqn:Ek; [|by split; [|left]].
  apply named_Some in Ek as [Ek Hne]. case_bool_decide as Hk; [subst; by split; [|right]|].
  assert (is_Some (layers (pol_stack p) !! key)) as Hl by (by eapply base_assigned, dict_get_elem).
  assert (forall c', dict_get c' (dict_pop c (client_layer_keys p)) = if decide (c' = c) then None else dict_get c' (client_layer_keys p)) as Hpop.
  { intros c'. unfold dict_pop. etrans; [exact (@dict_get_filter _ string _ (fun k : string => k ≠ c) (fun k => @not_dec (k = c) (decide_rel (=) k c)) c' (client_layer_keys p))|]. by repeat case_decide. }
  assert (forall p1, client_layer_keys p1 = client_layer_keys p -> pol_stack p1 = pol_stack p -> base_ok p1 ->
    match finish_release c key merge p1 with (p', Ok true) => exists key', dict_get c (client_layer_keys p) = Some key' /\ key' ≠ DEFAULT_LAYER_KEY
      /\ (forall c', dict_get c' (client_layer_keys p') = if decide (c' = c) then None else dict_get c' (client_layer_keys p))
      /\ ((exists c', c' ≠ c /\ dict_get c' (client_layer_keys p) = Some key') -> pol_stack p' = pol_stack p)
      /\ ((forall c', c' ≠ c -> dict_get c' (client_layer_keys p) ≠ Some key') -> layers (pol_stack p') = delete key' (layers (pol_stack p)))
    | _ => False end) as Hfin.
  { intros p1 Hc1 Hs1 Hb1. destruct (finish_release_run c key merge p1) as (p' & -> & Hc & Hin & Hout); [done..|by rewrite Hs1|].
    exists key. rewrite Hc1, Hs1 in *. split_and!; [done..|intros c'; by rewrite Hc| |].
    - intros (c' & Hne' & Hc'). apply Hin, list_elem_of_fmap. exists (c', key). split; [done|]. apply dict_pop_elem. by split; [|apply dict_get_elem].
    - intros Hno. apply Hout. intros ([c' k'] & -> & [? Hin']%dict_pop_elem)%list_elem_of_fmap. apply (Hno c'); [done|]. apply elem_dict_get; [apply Hb|done]. }
  destruct merge.
  - unfold mbind, M_bind, on_stack, zoom, layer_for at 1. cbn. destruct Hl as [layer Hl]. rewrite Hl. rewrite set_pol_stack_same.
    unfold on_scene, zoom. pose proof (scene_merge_stack layer (sc p)) as Hst. destruct (scene_merge_layer root_layer layer (sc p)) as [s1 [[]|e]]; [|done]. cbn in Hst.
    assert (pol_stack (set_sc s1 p) = pol_stack p) as E1 by exact Hst.
    specialize (Hfin (set_sc s1 p) eq_refl E1). destruct (finish_release c key true (set_sc s1 p)) as [p' [[]|]]; try (by destruct Hfin; destruct Hb as [K1 K2 K3 K4 K5]; split; rewrite ?E1).
    apply Hfin. destruct Hb as [K1 K2 K3 K4 K5]; by split; rewrite ?E1.
  - unfold mbind, M_bind. cbn. specialize (Hfin p eq_refl eq_refl Hb). by destruct (finish_release c key false p) as [p' [[]|]].
Qed.
(** ** Startup *)

(** The anonymous identifiers of layers that do not exist yet are unused. *)
Definition fresh_names (p : policy) : Prop := forall key, layers (pol_stack p) !! key = None -> keys_by_identifier (pol_stack p) !! new_layer key = None.

(** The assignment of [c] after a record. *)
Definition restored_key (c : string) (o : option string) (r : log_record) : option string :=
  if non_collaboration (lr_event r) then o
  else if bool_decide (named (lr_client_id r) = Some c) then named (lr_layer_key r) else o.

Definition opinion_of (r : log_record) (key : string) : Prop := non_collaboration (lr_event r) = false /\ named (lr_layer_key r) = Some key.
Definition record_ok (r : log_record) : Prop := non_collaboration (lr_event r) = false -> is_Some (named (lr_layer_key r)).

(** Where a record's event goes. *)
Definition routed_to (p : policy) (r : log_record) (x : string * event) : Prop :=
  x.2 = lr_event r /\ forall key, if non_collaboration (lr_event r) then x.1 = session_layer (sc p)
    else named (lr_layer_key r) = Some key -> layers (pol_stack p) !! key = Some x.1.

Lemma restore_row_run (Hinj : Inj (=) (=) new_layer) row r p : base_ok p -> fresh_names p -> decode row = Ok r -> record_ok r ->
  exists p' x, restore_row row p = (p', Ok x) /\ base_ok p' /\ fresh_names p' /\ routed_to p' r x
  /\ (forall key i, layers (pol_stack p) !! key = Some i -> layers (pol_stack p') !! key = Some i)
  /\ (forall key, is_Some (layers (pol_stack p') !! key) <-> is_Some (layers (pol_stack p) !! key) \/ opinion_of r key)
  /\ (forall c, dict_get c (client_layer_keys p') = restored_key c (dict_get c (client_layer_keys p)) r)
  /\ session_layer (sc p') = session_layer (sc p) /\ department_priority p' = department_priority p.
Proof.
  intros Hb Hf Hd Hr. unfold restore_row, lift, gets, mbind, M_bind. rewrite Hd. cbn. unfold restored_key, routed_to, opinion_of.
  destruct (non_collaboration (lr_event r)) eqn:Ek.
  - eexists p, _. split_and!; try done. intros key. naive_solver.
  - destruct (Hr Ek) as [key Hkey]. pose proof (proj2 (named_Some _ _ Hkey)) as Hkne. rewrite Hkey. cbn. unfold on_stack, zoom.
    destruct (ensure_layer identity key (Some (label_for_layer_key key)) (new_layer key) (pol_stack p)) as [k res] eqn:E1.
    assert (layers (pol_stack p) !! key = None -> keys_by_identifier (pol_stack p) !! new_layer key = None) as Hfk by apply Hf.
    assert (exists i, res = Ok (i, negb (has_layer (pol_stack p) key)) /\ stack_ok identity k /\ default_key k = default_key (pol_stack p)
      /\ layers k = <[key := i]> (layers (pol_stack p)) /\ (layers (pol_stack p) !! key = None -> i = new_layer key)
      /\ (forall i', layers (pol_stack p) !! key = Some i' -> i = i')) as (i & -> & Hok & Hdef & Hl & Hnew & Hold).
    { destruct (layers (pol_stack p) !! key) as [i0|] eqn:El.
      - unfold ensure_layer in E1. rewrite El, bool_decide_false in E1 by done.
        injection E1 as <- <-. exists i0. unfold has_layer. rewrite El. split_and!; [done|apply Hb|done|by rewrite insert_id|done|congruence].
      - destruct (ensure_layer_spec identity key (Some (label_for_layer_key key)) (new_layer key) (pol_stack p) k res) as (Hok & Hdef & Hres); [apply Hb|by apply Hfk|done|].
        destruct res as [[i added]|e]; [|by destruct Hres as [-> _]].
        destruct Hres as (Hl & -> & _). exists i. split_and!; [done..| |done]. intros _. unfold ensure_layer in E1. rewrite El in E1.
        by case_bool_decide; simplify_eq. }
    cbn. set (p1 := set_pol_stack k p).
    assert (base_ok p1) as Hb1 by (apply set_pol_stack_base; [done..|intros key'; rewrite Hl, lookup_insert_is_Some'; auto]).
    assert (layers (pol_stack p1) !! key = Some i) as Hki by (change (layers k !! key = Some i); by rewrite Hl, lookup_insert_eq).
    assert (fresh_names p1) as Hf1.
    { intros key' Hn. change (layers k !! key' = None) in Hn. change (keys_by_identifier k !! new_layer key' = None). rewrite Hl in Hn.
      apply lookup_insert_None in Hn as [Hn Hne]. destruct (keys_by_identifier k !! new_layer key') as [key2|] eqn:E2; [|done]. exfalso.
      apply (maps_inverse _ (ok_maps _ _ Hok)) in E2. rewrite Hl in E2. apply lookup_insert_Some in E2 as [[<- E2]|[Hne2 E2]].
      - destruct (layers (pol_stack p) !! key) as [i0|] eqn:El.
        + rewrite (Hold i0 eq_refl) in E2. subst i0. apply (maps_inverse _ (ok_maps _ _ (base_stack _ Hb))) in El. by rewrite (Hf key' Hn) in El.
        + rewrite (Hnew eq_refl) in E2. by apply Hne, Hinj.
      - apply (maps_inverse _ (ok_maps _ _ (base_stack _ Hb))) in E2. by rewrite (Hf key' Hn) in E2. }
    assert (forall key' i', layers (pol_stack p) !! key' = Some i' -> layers k !! key' = Some i') as Hkeep.
    { intros key' i' Hi'. rewrite Hl. destruct (decide (key' = key)) as [->|]; [|by rewrite lookup_insert_ne]. rewrite lookup_insert_eq. f_equal. by apply Hold. }
    assert (forall key', is_Some (layers k !! key') <-> is_Some (layers (pol_stack p) !! key') \/ false = false /\ Some key = Some key') as Hdom.
    { intros key'. rewrite Hl, lookup_insert_is_Some'. naive_solver. }
    destruct (named (lr_client_id r)) as [c|] eqn:Ec; cbn.
    + eexists (restore_assignment c key p1).1, _. split_and!; [done|by apply restore_assignment_base; [|eexists]|done|done|by intros key' [= <-]|exact Hkeep|exact Hdom| |done|done].
      intros c'. cbn. rewrite dict_get_set. case_decide as Hc; case_bool_decide; naive_solver.
    + eexists p1, _. split_and!; [done..|by intros key' [= <-]|exact Hkeep|exact Hdom| |done|done]. intros c'. by rewrite bool_decide_false.
Qed.
Lemma routed_to_mono p p' r x : (forall key i, layers (pol_stack p) !! key = Some i -> layers (pol_stack p') !! key = Some i) ->
  session_layer (sc p') = session_layer (sc p) -> routed_to p r x -> routed_to p' r x.
Proof.
  intros Hl Hs [K1 K2]. split; [done|]. intros key. specialize (K2 key). destruct (non_collaboration _); [congruence|]. auto.
Qed.

Lemma restore_rows_run (Hinj : Inj (=) (=) new_layer) rows records p : base_ok p -> fresh_names p -> mapR decode rows = Ok records -> Forall record_ok records ->
  exists p' routed, mapM' restore_row rows p = (p', Ok routed) /\ base_ok p' /\ Forall2 (routed_to p') records routed
  /\ (forall key i, layers (pol_stack p) !! key = Some i -> layers (pol_stack p') !! key = Some i)
  /\ (forall key, is_Some (layers (pol_stack p') !! key) <-> is_Some (layers (pol_stack p) !! key) \/ exists r, r ∈ records /\ opinion_of r key)
  /\ (forall c, dict_get c (client_layer_keys p') = foldl (restored_key c) (dict_get c (client_layer_keys p)) records)
  /\ session_layer (sc p') = session_layer (sc p) /\ department_priority p' = department_priority p.
Proof.
  intros Hb Hf Hm Hr. revert records p Hb Hf Hm Hr. induction rows as [|row rows IH]; intros records p Hb Hf Hm Hr; cbn in Hm.
  - injection Hm as <-. exists p, []. split_and!; try done. intros key. split; [by left|]. intros [?|(r & Hin & _)]; [done|by apply not_elem_of_nil in Hin].
  - inv_bind Hm. inv_bind Hm. injection Hm as <-. apply Forall_cons in Hr as [Hr1 Hr2].
    destruct (restore_row_run Hinj row x p Hb Hf Hm0 Hr1) as (p1 & y & E1 & Hb1 & Hf1 & Hy & Hl1 & Hd1 & Hc1 & Hs1 & Hp1).
    destruct (IH x0 p1 Hb1 Hf1 Hm1 Hr2) as (p2 & ys & E2 & Hb2 & Hys & Hl2 & Hd2 & Hc2 & Hs2 & Hp2).
    exists p2, (y :: ys). cbn [mapM']. unfold mbind, M_bind. rewrite E1. cbn. unfold mbind, M_bind in E2. rewrite E2. split_and!; [done|done| | | | |congruence|congruence].
    + constructor; [by eapply routed_to_mono|done].
    + auto.
    + intros key. rewrite Hd2, Hd1. split.
      * intros [[?|?]|(r & Hin & ?)]; [by left|right; exists x; by split; [left|]|right; exists r; by split; [right|]].
      * intros [?|(r & [->|Hin]%elem_of_cons & ?)]; [by left; left|by left; right|right; by exists r].
    + intros c. rewrite Hc2, Hc1. done.
Qed.

Lemma replay_events_frame (Hframe : appliers_frame (L := L) (R := R) (Offset := Offset) (C := C)) routed (s : scene) :
  stk (stg (replay_events routed s).1) = stk (stg s) /\ session_layer (replay_events routed s).1 = session_layer s.
Proof.
  unfold replay_events. set (step := fun run : string * list event => _). generalize (groupby_layer routed) as runs. intros runs.
  assert (forall x s, stk (stg (step x s).1) = stk (stg s) /\ session_layer (step x s).1 = session_layer s) as Hstep.
  { intros [layer run] s1. unfold step, with_edit_context, modify, mbind, M_bind. cbn.
    destruct (scene_apply_frame Hframe run false (op_cache_for layer (set_edit_target layer s1))) as (K1 & _ & K2 & _).
    destruct (scene_apply run false _) as [s2 [[]|e]]; cbn in *; (split; [rewrite K1|rewrite K2]); unfold op_cache_for; by case_bool_decide. }
  clearbody step. assert (stk (stg (iterM step runs s).1) = stk (stg s) /\ session_layer (iterM step runs s).1 = session_layer s) as Hit.
  { revert s. induction runs as [|x runs IH]; intros s; [done|]. cbn. unfold mbind, M_bind. destruct (Hstep x s) as [K1 K2].
    destruct (step x s) as [s1 [[]|e]]; cbn in *; [|done]. destruct (IH s1). split; congruence. }
  destruct (iterM step runs s) as [s1 [[]|e]]; cbn in *; [done|]. by destruct (is_exception e).
Qed.

(** C24: a restart restores the policy from the log: if every row decodes and
    every opinion names its layer, then the policy is well formed, the layers are
    those that existed and those the log names, each client is assigned to the
    layer of its last opinion, the layers stand in department order, and what is
    applied to the stage is the log's events in the log's order, each on the layer
    its row names (session events on the session layer). *)
Theorem restart_restores_policy (Hframe : appliers_frame (L := L) (R := R) (Offset := Offset) (C := C)) (Hinj : Inj (=) (=) new_layer) rows records p p' r :
  base_ok p -> fresh_names p -> rows ≠ [] -> mapR decode rows = Ok records -> Forall record_ok records ->
  replay_log_into_stage rows p = (p', r) ->
  base_ok p'
  /\ (forall key, is_Some (layers (pol_stack p') !! key) <-> is_Some (layers (pol_stack p) !! key) \/ exists r, r ∈ records /\ opinion_of r key)
  /\ (forall c, dict_get c (client_layer_keys p') = foldl (restored_key c) (dict_get c (client_layer_keys p)) records)
  /\ order (pol_stack p') = department_order p'
  /\ exists routed, Forall2 (routed_to p') records routed /\ exists p2, (p', r) = on_scene (replay_events routed) p2.
Proof.
  intros Hb Hf Hne Hm Hr Hrun. destruct (restore_rows_run Hinj rows records p Hb Hf Hm Hr) as (p1 & routed & E1 & Hb1 & Hys & _ & Hd1 & Hc1 & _).
  destruct (apply_department_order_run p1 Hb1) as (k & E2 & Hb2 & Ho & Hl & _). set (p2 := set_pol_stack k p1) in *.
  assert ((p', r) = on_scene (replay_events routed) p2) as Hrep.
  { unfold replay_log_into_stage in Hrun. destruct rows; [done|]. unfold mbind, M_bind in Hrun, E1. cbn in Hrun, E1. rewrite E1, E2 in Hrun. by rewrite Hrun. }
  pose proof Hrep as Hrep2. unfold on_scene, zoom in Hrep2. destruct (replay_events_frame Hframe routed (sc p2)) as [K1 K2].
  destruct (replay_events routed (sc p2)) as [s3 r3]. injection Hrep2 as -> ->. cbn in K1, K2. set (p3 := set_sc s3 p2) in *.
  assert (pol_stack p3 = k) as Hk by exact K1.
  split_and!.
  - destruct Hb2 as [B1 B2 B3 B4 B5]. by split; rewrite ?Hk.
  - intros key. rewrite Hk, Hl. apply Hd1.
  - exact Hc1.
  - symmetry. apply (department_order_fixed p1); [by rewrite Hk|]. apply priority_keys_layers; [by rewrite Hk|done].
  - exists routed. split; [|by exists p2]. eapply Forall2_impl; [exact Hys|]. intros x y. apply routed_to_mono; [|exact K2]. intros key i. by rewrite Hk, Hl.
Qed.
End collaboration.

(** ** Witnesses: one flat receiver, then the department "anim" *)

Abbreviation demo_policy_t := (policy (L := demo_L) (R := unit) (Offset := Z) (C := gset string)).
Abbreviation demo_collab_t := (collab (L := demo_L) (R := unit) (Offset := Z) (C := gset string)).
Definition demo_policy : demo_policy_t := mk_policy demo_scene [] [] 0 [].
Definition demo_collab : demo_collab_t := mk_collab demo_policy ∅.

Lemma demo_policy_ok : policy_ok 0%Z demo_policy /\ collab_ok 0%Z demo_collab.
Proof.
  destruct (policy_init_ok 0%Z demo_scene [] demo_policy demo_stack_ok eq_refl eq_refl) as (K1 & _ & K2). by split.
Qed.

Definition demo_run_collab (o : collab_op) (s : demo_collab_t) : demo_collab_t := (run_collab 0%Z "root" o s).1.
Definition demo_admitted : demo_collab_t := demo_run_collab (AdmitReceiver 1 false) demo_collab.
Definition demo_departments : demo_collab_t :=
  foldl (fun s o => demo_run_collab o s) demo_admitted
    [ReleaseReservation 1; SetPriority ["anim"]; GetOrCreate "alice" (Some "anim") "anon:2"; GetOrCreate "bob" (Some "anim") "anon:3"].

Lemma demo_step_ok o s : collab_fresh s o -> collab_ok 0%Z s -> collab_ok 0%Z (demo_run_collab o s).
Proof. intros Hf Hok. exact (proj1 (run_collab_keeps 0%Z "root" o s Hok Hf)). Qed.

Lemma demo_admitted_ok : collab_ok 0%Z demo_admitted.
Proof.
  apply demo_step_ok; [done|apply demo_policy_ok].
Qed.

Lemma demo_departments_ok : base_ok 0%Z (pol demo_departments).
Proof.
  apply pol_base, (col_policy 0%Z). unfold demo_departments. cbn [foldl].
  repeat (apply demo_step_ok; [by vm_compute|]). apply demo_policy_ok.
Qed.

(** An admitted flat receiver, and a call that is refused because of it. *)
Lemma collab_stays_ok_witness :
  flat_compatible (pol demo_admitted) /\ (release_reservation 7 demo_admitted).2 = Ok ().
Proof.
  destruct (collab_stays_ok 0%Z "root" demo_collab demo_admitted (proj2 demo_policy_ok)) as (_ & Hr & Hf).
  - apply rtc_once. by exists (AdmitReceiver 1 false).
  - split; [apply (Hf 1); by vm_compute|apply Hr].
Defined.

Lemma flat_receiver_freezes_stack_witness :
  let s' := run_collab 0%Z "root" (GetOrCreate "alice" (Some "anim") "anon:2") demo_admitted in
  s'.2 = Err ReplayModeConflictError /\ order (pol_stack (pol s'.1)) = ["default"].
Proof.
  split; [by vm_compute|].
  rewrite (proj1 (flat_receiver_freezes_stack 0%Z "root" (GetOrCreate "alice" (Some "anim") "anon:2") demo_admitted 1 demo_admitted_ok ltac:(by vm_compute) ltac:(by vm_compute))).
  by vm_compute.
Defined.

Lemma department_order_total_witness :
  exists p', apply_department_order 0%Z (set_priority ["anim"; "light"] (pol demo_departments)) = (p', Ok false).
Proof.
  assert (base_ok 0%Z (set_priority ["anim"; "light"] (pol demo_departments))) as Hb.
  { apply set_priority_base; [apply demo_departments_ok|repeat constructor; set_solver|set_solver]. }
  assert ((apply_department_order 0%Z (set_priority ["anim"; "light"] (pol demo_departments))).2 = Ok false) as E2 by (vm_compute; reflexivity).
  destruct (department_order_total 0%Z _ Hb) as (p' & b & E1 & _). exists p'. rewrite E1 in E2 |- *. cbn in E2. by injection E2 as ->.
Defined.

(** "alice" leaves, "bob" still uses the layer; then "bob" leaves too. *)
Lemma release_client_exact_witness :
  let p1 := (release_client_assignment 0%Z "root" "alice" false (pol demo_departments)).1 in
  client_layer_keys p1 = [("bob", "department:anim")] /\ pol_stack p1 = pol_stack (pol demo_departments).
Proof.
  pose proof (release_client_exact 0%Z "root" "alice" false (pol demo_departments) demo_departments_ok) as H.
  assert ((release_client_assignment 0%Z "root" "alice" false (pol demo_departments)).2 = Ok true) as E1 by (vm_compute; reflexivity).
  assert (client_layer_keys (release_client_assignment 0%Z "root" "alice" false (pol demo_departments)).1 = [("bob", "department:anim")]) as E2 by (vm_compute; reflexivity).
  destruct (release_client_assignment 0%Z "root" "alice" false (pol demo_departments)) as [p1 r]. cbn [fst snd] in *. subst r.
  split; [exact E2|]. destruct H as (key & Hk & _ & _ & Hin & _). apply Hin. exists "bob". split; [done|].
  rewrite <-Hk. vm_compute. reflexivity.
Defined.

Definition demo_row_event : event := demo_ensure_event "/A".
Definition demo_decode_row (row : list Byte.byte) : result log_record :=
  match row with
  | [Byte.x01] => Ok (mk_log_record demo_row_event (Some "department:anim") (Some "alice"))
  | [Byte.x02] => Ok (mk_log_record demo_row_event (Some "default") (Some "alice"))
  | _ => Err ValueError
  end.
Definition demo_new_layer (key : string) : string := "anon-" +:+ key.

Lemma restart_restores_policy_witness :
  let p' := (replay_log_into_stage 0%Z demo_decode_row demo_new_layer [[Byte.x01]; [Byte.x02]] demo_policy).1 in
  is_Some (layers (pol_stack p') !! "department:anim") /\ dict_get "alice" (client_layer_keys p') = Some "default".
Proof.
  destruct (replay_log_into_stage 0%Z demo_decode_row demo_new_layer [[Byte.x01]; [Byte.x02]] demo_policy) as [p' r] eqn:E1.
  destruct (restart_restores_policy 0%Z demo_decode_row demo_new_layer demo_appliers_frame ltac:(intros x y [= Hxy]; done) [[Byte.x01]; [Byte.x02]]
    [mk_log_record demo_row_event (Some "department:anim") (Some "alice"); mk_log_record demo_row_event (Some "default") (Some "alice")] demo_policy p' r)
    as (_ & Hl & Hc & _).
  - apply demo_policy_ok.
  - intros key _. cbn. apply lookup_singleton_None. intros [= ].
  - discriminate.
  - vm_compute. reflexivity.
  - repeat constructor; intros _; by eexists.
  - exact E1.
  - split.
    + apply Hl. right. exists (mk_log_record demo_row_event (Some "department:anim") (Some "alice")). split; [by left|].
      split; vm_compute; reflexivity.
    + rewrite Hc. by vm_compute.
Defined.
