(* ===== verification/Commit.v ===== *)
(** * Commit: atomic, durable transaction commits
    ([openusdconnect/server/commit.py], managed mode; the request types of
    [openusdconnect/server/transactions.py] and [openusdconnect/server/types.py])

    [TransactionCommitter] over the scene and the journal.  The request objects
    own their events, which applying may rewrite, so the events are part of the
    state: [w_events] holds them in the order of the requests.

    Theorems: the identity check; a commit or a group commit is all or nothing
    in the journal and in the layers; the group decides every request as the
    requests one by one would; over any history each producer's transactions are
    committed exactly once, in order, without a gap. *)

From S2P Require Import Prelude Constants Framing EventStore Journal LayerStack Rollback PrimIndex Applying Scene.

(** ** Requests and outcomes *)

(** [Transaction]; [progress] is the property: [None] for an internal edit. *)
Record Transaction := mk_transaction {
  client_id : option string;
  origin : option string;
  client_addr : option string;
  layer : option string;
  layer_key : string;
  progress : option ProducerProgress }.

Record TransactionRequest := mk_request {
  req_client_id : string;
  req_session_id : string;
  req_txn_id : Z;
  req_origin : option string;
  req_client_addr : option string;
  req_layer : option string;
  req_layer_key : string }.

Definition req_progress (r : TransactionRequest) : ProducerProgress :=
  mk_progress (req_client_id r) (req_session_id r) (req_txn_id r).

Definition req_producer (r : TransactionRequest) : producer := (req_client_id r, req_session_id r).

(** A request seen as its base class. *)
Definition transaction_of (r : TransactionRequest) : Transaction :=
  mk_transaction (Some (req_client_id r)) (req_origin r) (req_client_addr r) (req_layer r)
    (req_layer_key r) (Some (req_progress r)).

Inductive status : Type := committed | duplicate.

Record TransactionCommit := mk_commit {
  tc_status : status;
  tc_txn_id : Z;
  tc_records : list encoded_record;
  tc_checkpoint : option TransactionCheckpoint }.

(** [type TransactionOutcome = TransactionCommit | BaseException] *)
Inductive TransactionOutcome : Type :=
  | Done (c : TransactionCommit)
  | Failed (e : exn).

(** [_check_transaction_id] *)
Definition check_transaction_id (request : TransactionRequest) (committed_through : Z) :
    option TransactionOutcome :=
  if bool_decide (req_txn_id request ≤ committed_through)%Z
  then Some (Done (mk_commit duplicate committed_through [] None))
  else
    let expected := (committed_through + 1)%Z in
    if bool_decide (req_txn_id request ≠ expected)
    then Some (Failed (TransactionRejectedError "unexpected_id" expected))
    else None.

Section commit.
Context {V L R Offset C St : Type}.
Context `{SdfLayer V L} `{EqDecision Offset} `{UsdApply (stage (L := L) (R := R) (Offset := Offset)) C}.
Context `{EventStore St}.
Context (list_info_keys : L -> string -> option (list string)).
Context (encode : wire_record -> result bytes).
(** [Sdf.Path(text)], [str(path)] and the iteration order of a set of paths. *)
Context (path_of : string -> path) (text_of : path -> string).
Context (set_iter : gset string -> list string).

Abbreviation Scene := (scene (L := L) (R := R) (Offset := Offset) (C := C)).
Abbreviation J := (journal St).

Record world := mk_world { w_scene : Scene; w_journal : J; w_events : list (list event) }.

Definition set_w_scene (s : Scene) (w : world) : world := mk_world s (w_journal w) (w_events w).
Definition set_w_journal (j : J) (w : world) : world := mk_world (w_scene w) j (w_events w).

Definition on_journal {A} : M J A -> M world A := zoom w_journal set_w_journal.
Definition on_scene {A} : M Scene A -> M world A := zoom w_scene set_w_scene.

(** [request.events] of the request at a position. *)
Definition events_at (w : world) (i : nat) : list event := default [] (w_events w !! i).

(** Run a mutator on the events of one request. *)
Definition on_request (i : nat) (f : mutator) : M world unit := fun w =>
  let '(s, evs, r) := f (events_at w i) (w_scene w) in
  (mk_world s (w_journal w) (<[i := evs]> (w_events w)), r).

(** ** Preparation *)

Record PreparedTransaction := mk_prepared {
  pt_index : nat;
  pt_request : Transaction;
  target_layer : string;
  pt_layer_key : string;
  collaboration_paths : gset string;
  has_session_events : bool }.

(** [_prepare_managed_transaction] *)
Definition prepare_managed_transaction (i : nat) (request : Transaction) : M world PreparedTransaction := fun w =>
  (w,
   let events := events_at w i in
   _ ← raise_if (negb (bool_decide (layer_key request = ""))) ValueError;
   let target := default (edit_layer (w_scene w)) (layer request) in
   let key := key_for_layer (stk (stg (w_scene w))) target in
   _ ← raise_if (bool_decide (key = None) && existsb (fun ev => negb (non_collaboration ev)) events) ValueError;
   Ok (mk_prepared i request target (default "" key) (managed_rollback_paths path_of text_of events)
         (existsb non_collaboration events))).

(** [_encode_managed] *)
Definition encode_managed (t : PreparedTransaction) : M world EncodedEvents := fun w =>
  on_journal
    (assign_and_encode_events encode
       (map (fun ev => (if negb (non_collaboration ev) then pt_layer_key t else "", ev))
          (events_at w (pt_index t)))
       (client_id (pt_request t)) (origin (pt_request t)) (client_addr (pt_request t))) w.

(** ** The persistence and rollback boundary *)

(** The rollback paths by target layer, in order of first use. *)
Definition paths_by_layer (prepared : list PreparedTransaction) : list (string * gset string) :=
  foldl (fun d t =>
    if bool_decide (collaboration_paths t = ∅) then d
    else dict_set (target_layer t)
           (fun old => match old with Some p => p ∪ collaboration_paths t | None => collaboration_paths t end) d)
    [] prepared.

Definition progress_by_producer (prepared : list PreparedTransaction) : list (producer * ProducerProgress) :=
  foldl (fun d t =>
    match progress (pt_request t) with
    | Some p => dict_set (pp_producer p) (fun _ => p) d
    | None => d
    end) [] prepared.

(** The prim paths handed to [atomic_apply_layer]; empty texts are skipped. *)
Definition scope_paths (paths : gset string) : list path :=
  map path_of (filter (fun p => p ≠ "") (set_iter paths)).

Definition layer_scopes (prepared : list PreparedTransaction) : list (string * list path) :=
  match prepared with
  | [t] => if bool_decide (collaboration_paths t = ∅) then []
           else [(target_layer t, scope_paths (collaboration_paths t))]
  | _ => map (fun lp => (lp.1, scope_paths lp.2)) (paths_by_layer prepared)
  end.

Definition producer_progress (prepared : list PreparedTransaction) : list ProducerProgress :=
  match prepared with
  | [t] => match progress (pt_request t) with Some p => [p] | None => [] end
  | _ => map snd (progress_by_producer prepared)
  end.

Definition snapshot_session (prepared : list PreparedTransaction) : bool := existsb has_session_events prepared.

Definition needs_scene_fields (w : world) (prepared : list PreparedTransaction) : bool :=
  existsb (fun t => existsb is_deletion (events_at w (pt_index t))) prepared.

(** One turn of the loop in the edit scope. *)
Definition apply_prepared (needs : bool) (t : PreparedTransaction) : M world (list EncodedEvents) :=
  _ ← on_request (pt_index t) (apply_validated list_info_keys (Some (target_layer t)) false);
  if needs then enc ← encode_managed t; mret [enc] else mret [].

(** The body of [atomic_edit] in [_apply_and_persist_managed]. *)
Definition edit_body (prepared : list PreparedTransaction) (needs : bool) (encoded : list EncodedEvents) :
    M world (list EncodedEvents) :=
  more ← mapM' (apply_prepared needs) prepared;
  let encoded := encoded ++ concat more in
  _ ← on_journal (append_batch (concat (map store_rows encoded)) (producer_progress prepared) [] true);
  _ ← iterM (fun t w => (on_scene (modify (scene_update_prim_tracking (events_at w (pt_index t)))) w)) prepared;
  mret encoded.

(** [_apply_and_persist_managed] *)
Definition apply_and_persist_managed (prepared : list PreparedTransaction) : M world (list EncodedEvents) := fun w =>
  let needs := needs_scene_fields w prepared in
  (encoded ← (if needs then mret [] else mapM' encode_managed prepared);
   atomic_edit w_scene set_w_scene (layer_scopes prepared) (snapshot_session prepared)
     (edit_body prepared needs encoded)) w.

(** [with journal.reserve_sequences(): body] *)
Definition with_sequences {A} (body : M world A) : M world A := fun w =>
  let first_sequence := next_seq (w_journal w) in
  try_catch body (fun e w' =>
    ((if is_exception e then set_w_journal (set_next_seq first_sequence (w_journal w')) w' else w'), Err e)) w.

(** ** Commits *)

(** [commit_events], managed mode. *)
Definition commit_events (i : nat) (request : Transaction) : M world (list encoded_record) :=
  encs ← with_sequences
    (t ← prepare_managed_transaction i request; apply_and_persist_managed [t]);
  match encs with
  | [enc] => mret (records enc)
  | _ => raise ValueError
  end.

(** [commit] *)
Definition commit (i : nat) (request : TransactionRequest) : M world TransactionCommit :=
  through ← on_journal (committed_through (req_client_id request) (req_session_id request));
  match check_transaction_id request through with
  | Some (Failed e) => raise e
  | Some (Done c) => mret c
  | None =>
      recs ← commit_events i (transaction_of request);
      _ ← on_journal (remember_progress [(req_producer request, req_txn_id request)]);
      mret (mk_commit committed (req_txn_id request) recs None)
  end.

(** The admission loop of [commit_group]: accepted requests with their index,
    the outcomes already known, and [next_by_session]. *)
Record admission := mk_admission {
  accepted : list (nat * TransactionRequest);
  outcomes : gmap nat TransactionOutcome;
  next_by_session : gmap producer Z }.

Definition admit_one (a : admission) (index : nat) (request : TransactionRequest) : M J admission :=
  through ← match next_by_session a !! req_producer request with
            | Some n => mret n
            | None => committed_through (req_client_id request) (req_session_id request)
            end;
  match check_transaction_id request through with
  | Some o => mret (mk_admission (accepted a) (<[index := o]> (outcomes a)) (next_by_session a))
  | None => mret (mk_admission (accepted a ++ [(index, request)]) (outcomes a)
                   (<[req_producer request := req_txn_id request]> (next_by_session a)))
  end.

Fixpoint admit_all (a : admission) (index : nat) (requests : list TransactionRequest) : M J admission :=
  match requests with
  | [] => mret a
  | r :: requests => a ← admit_one a index r; admit_all a (S index) requests
  end.

(** [[outcomes[index] for index in range(len(requests))]] *)
Definition outcome_list (n : nat) (o : gmap nat TransactionOutcome) : list TransactionOutcome :=
  omap (fun i => o !! i) (seq 0 n).

Definition committed_outcomes (acc : list (nat * TransactionRequest)) (encs : list EncodedEvents) :
    list (nat * TransactionOutcome) :=
  zip_with (fun ir enc => (ir.1, Done (mk_commit committed (req_txn_id ir.2) (records enc) None))) acc encs.

(** The body of the reservation. *)
Definition group_body (acc : list (nat * TransactionRequest)) : M world (list EncodedEvents) :=
  prepared ← mapM' (fun ir => prepare_managed_transaction ir.1 (transaction_of ir.2)) acc;
  apply_and_persist_managed prepared.

(** [commit_group] *)
Definition commit_group (requests : list TransactionRequest) : M world (list TransactionOutcome) :=
  a ← on_journal (admit_all (mk_admission [] ∅ ∅) 0 requests);
  match accepted a with
  | [] => mret (outcome_list (length requests) (outcomes a))
  | _ =>
      encs ← with_sequences (group_body (accepted a));
      _ ← on_journal (remember_progress (map_to_list (next_by_session a)));
      (* zip(..., strict=True) *)
      if bool_decide (length (accepted a) = length encs)
      then mret (outcome_list (length requests)
                   (dict_update (outcomes a) (committed_outcomes (accepted a) encs)))
      else raise ValueError
  end.

(** ** The journal side *)

(** Only the sequence counter may have moved. *)
Definition counter_only (j j' : J) : Prop := exists n, (next_seq j ≤ n)%Z /\ j' = set_next_seq n j.

Lemma counter_only_refl j : counter_only j j.
Proof. exists (next_seq j). split; [lia|]. by rewrite set_next_seq_same. Qed.

Lemma counter_only_trans j1 j2 j3 : counter_only j1 j2 -> counter_only j2 j3 -> counter_only j1 j3.
Proof. intros (n & Hn & ->) (m & Hm & ->). exists m. simpl in *. split; [lia|done]. Qed.

Definition seqs_of (enc : EncodedEvents) : list Z := map (fun r => wr_seq r.1) (records enc).
Definition events_of_records (enc : EncodedEvents) : list event := map (fun r => wr_event r.1) (records enc).

(** Encoded transactions carry the given events under consecutive sequence
    numbers from [n] on, and their rows are those records. *)
Fixpoint encodes (n : Z) (evss : list (list event)) (encs : list EncodedEvents) : Prop :=
  match evss, encs with
  | [], [] => True
  | evs :: evss, enc :: encs =>
      events_of_records enc = evs /\ store_rows enc = map row_of (records enc)
      /\ consecutive n (seqs_of enc) /\ encodes (n + Z.of_nat (length evs)) evss encs
  | _, _ => False
  end.

Lemma encodes_length n evss encs : encodes n evss encs -> length encs = length evss.
Proof.
  revert n encs; induction evss as [|evs evss IH]; intros n [|enc encs]; simpl; try done.
  intros (_ & _ & _ & He). f_equal. by eapply IH.
Qed.

Lemma encodes_rows n evss encs : encodes n evss encs ->
  concat (map store_rows encs) = map row_of (concat (map records encs)).
Proof.
  revert n encs; induction evss as [|evs evss IH]; intros n [|enc encs]; simpl; try done.
  intros (_ & -> & _ & He). rewrite map_app. f_equal. by eapply IH.
Qed.

Lemma encodes_seqs n evss encs r : encodes n evss encs ->
  r ∈ concat (map store_rows encs) -> (row_seq r < n + Z.of_nat (length (concat evss)))%Z.
Proof.
  revert n encs; induction evss as [|evs evss IH]; intros n [|enc encs]; simpl; try done.
  - intros _ Hr. by apply not_elem_of_nil in Hr.
  - intros (Hev & Hrow & Hc & He) [Hr|Hr]%elem_of_app; rewrite length_app.
    + rewrite Hrow in Hr. apply list_elem_of_fmap in Hr as (x & -> & Hx).
      apply list_elem_of_lookup in Hx as [i Hi]. specialize (Hc i (wr_seq x.1)).
      unfold seqs_of in Hc. rewrite list_lookup_fmap, Hi in Hc. specialize (Hc eq_refl).
      apply lookup_lt_Some in Hi. rewrite <-Hev. unfold events_of_records. rewrite length_map. simpl. lia.
    + specialize (IH _ _ He Hr). lia.
Qed.

Lemma encode_managed_Ok t w w' enc :
  encode_managed t w = (w', Ok enc) ->
  w' = set_w_journal (set_next_seq (next_seq (w_journal w)
         + Z.of_nat (length (events_at w (pt_index t)))) (w_journal w)) w
  /\ encodes (next_seq (w_journal w)) [events_at w (pt_index t)] [enc]
  /\ Forall (fun r => wr_client_id r.1 = client_id (pt_request t)) (records enc).
Proof.
  unfold encode_managed, on_journal, zoom.
  destruct (assign_and_encode_events encode _ _ _ _ (w_journal w)) as [j r] eqn:E. intros [= <- ->].
  apply encode_routed_Ok in E as (new & -> & -> & Hev & Hseq & Hc). simpl.
  rewrite length_map. split_and!; try done.
  unfold events_of_records. simpl. rewrite Hev, map_map. simpl. apply map_id.
Qed.

Lemma encode_managed_any t w w' r :
  encode_managed t w = (w', r) ->
  counter_only (w_journal w) (w_journal w') /\ w_scene w' = w_scene w /\ w_events w' = w_events w.
Proof.
  unfold encode_managed, on_journal, zoom.
  destruct (assign_and_encode_events encode _ _ _ _ (w_journal w)) as [j r'] eqn:E. intros [= <- _].
  apply encode_routed_frame in E as [Hj Hle]. split_and!; [|done..]. by exists (next_seq j).
Qed.

Definition prepared_events (w : world) (prepared : list PreparedTransaction) : list (list event) :=
  map (fun t => events_at w (pt_index t)) prepared.

Definition total (evss : list (list event)) : Z := Z.of_nat (length (concat evss)).

Definition advance (n : Z) (w : world) : world :=
  set_w_journal (set_next_seq (next_seq (w_journal w) + n) (w_journal w)) w.

Lemma total_cons evs evss : total (evs :: evss) = (Z.of_nat (length evs) + total evss)%Z.
Proof. unfold total. simpl. rewrite length_app. lia. Qed.

Lemma advance_advance n m w : advance n (advance m w) = advance (m + n) w.
Proof. unfold advance, set_w_journal, set_next_seq. simpl. do 2 f_equal. lia. Qed.

Lemma advance_0 w : advance 0 w = w.
Proof. unfold advance. rewrite Z.add_0_r, set_next_seq_same. by destruct w. Qed.

Lemma encodes_cons n evs evss enc encs :
  encodes n [evs] [enc] -> encodes (n + Z.of_nat (length evs)) evss encs -> encodes n (evs :: evss) (enc :: encs).
Proof. simpl. naive_solver. Qed.

Lemma encode_all_Ok prepared w w' encs :
  mapM' encode_managed prepared w = (w', Ok encs) ->
  w' = advance (total (prepared_events w prepared)) w
  /\ encodes (next_seq (w_journal w)) (prepared_events w prepared) encs.
Proof.
  revert w encs; induction prepared as [|t prepared IH]; intros w encs Hr; simpl in Hr.
  - injection Hr as <- <-. rewrite advance_0. done.
  - inv_M Hr. apply encode_managed_Ok in Hr0 as (-> & He & _). inv_M Hr. injection Hr as -> <-.
    apply IH in Hr0 as [-> Hes]. split.
    + change (set_w_journal _ w) with (advance (Z.of_nat (length (events_at w (pt_index t)))) w).
      rewrite advance_advance. simpl. by rewrite total_cons.
    + by apply encodes_cons.
Qed.

Lemma encode_all_any prepared w w' r :
  mapM' encode_managed prepared w = (w', r) ->
  counter_only (w_journal w) (w_journal w') /\ w_scene w' = w_scene w /\ w_events w' = w_events w.
Proof.
  revert w w' r; induction prepared as [|t prepared IH]; intros w w' r Hr; simpl in Hr.
  - injection Hr as <- _. split_and!; [apply counter_only_refl|done..].
  - unfold mbind, M_bind in Hr. destruct (encode_managed t w) as [w1 [enc|e]] eqn:E.
    + apply encode_managed_any in E as (Hc & Hs & He).
      destruct (mapM' encode_managed prepared w1) as [w2 r2] eqn:E2. apply IH in E2 as (Hc2 & Hs2 & He2).
      destruct r2; injection Hr as <- _; rewrite Hs2, He2, Hs, He; split_and!; try done; by eapply counter_only_trans.
    + injection Hr as <- _. by apply encode_managed_any in E.
Qed.

(** *** Applying in the edit scope *)

Lemma on_request_frame i f w : w_journal (on_request i f w).1 = w_journal w
  /\ length (w_events (on_request i f w).1) = length (w_events w)
  /\ forall k, k ≠ i -> events_at (on_request i f w).1 k = events_at w k.
Proof.
  unfold on_request. destruct (f (events_at w i) (w_scene w)) as [[s evs] r]. simpl.
  split_and!; [done|by rewrite length_insert|].
  intros k Hk. unfold events_at. simpl. by rewrite list_lookup_insert_ne.
Qed.

Lemma on_request_events i f w : i < length (w_events w) ->
  events_at (on_request i f w).1 i = (f (events_at w i) (w_scene w)).1.2.
Proof.
  intros Hi. unfold on_request. destruct (f (events_at w i) (w_scene w)) as [[s evs] r].
  unfold events_at. simpl. by rewrite list_lookup_insert_eq.
Qed.

(** What applying and encoding one prepared transaction does outside the scene. *)
Lemma apply_prepared_Ok needs t w w' more : pt_index t < length (w_events w) ->
  apply_prepared needs t w = (w', Ok more) ->
  Forall2 completed (events_at w (pt_index t)) (events_at w' (pt_index t))
  /\ (forall k, k ≠ pt_index t -> events_at w' k = events_at w k)
  /\ length (w_events w') = length (w_events w)
  /\ (if needs then exists enc, more = [enc]
        /\ encodes (next_seq (w_journal w)) [events_at w' (pt_index t)] [enc]
        /\ w_journal w' = set_next_seq (next_seq (w_journal w)
             + Z.of_nat (length (events_at w' (pt_index t)))) (w_journal w)
      else more = [] /\ w_journal w' = w_journal w).
Proof.
  intros Hi Hr. unfold apply_prepared in Hr. inv_M Hr.
  pose proof (on_request_frame (pt_index t)
    (apply_validated list_info_keys (Some (target_layer t)) false) w) as (Hj & Hl & Ho).
  pose proof (on_request_events (pt_index t)
    (apply_validated list_info_keys (Some (target_layer t)) false) w Hi) as He.
  rewrite Hr0 in *. simpl in *.
  assert (Forall2 completed (events_at w (pt_index t)) (events_at s (pt_index t))) as Hc.
  { rewrite He. destruct (apply_validated _ _ _ _ (w_scene w)) as [[s1 evs] r1] eqn:E. simpl.
    by eapply apply_validated_completed. }
  destruct needs.
  - inv_M Hr. apply encode_managed_Ok in Hr1 as (-> & Henc & _). injection Hr as <- <-.
    split_and!; [exact Hc|exact Ho|exact Hl|]. exists x0. rewrite <-Hj. split; [done|]. by split.
  - injection Hr as <- <-. by split_and!.
Qed.

Lemma apply_prepared_any needs t w w' r :
  apply_prepared needs t w = (w', r) -> counter_only (w_journal w) (w_journal w').
Proof.
  unfold apply_prepared, mbind, M_bind. intros Hr.
  pose proof (on_request_frame (pt_index t)
    (apply_validated list_info_keys (Some (target_layer t)) false) w) as (Hj & _ & _).
  destruct (on_request _ _ w) as [s1 [u|e]]; simpl in *; rewrite <-Hj.
  - destruct needs; [|injection Hr as <- _; apply counter_only_refl].
    destruct (encode_managed t s1) as [w1 r1] eqn:E. apply encode_managed_any in E as (Hc & _ & _).
    destruct r1; by injection Hr as <- _.
  - injection Hr as <- _. apply counter_only_refl.
Qed.

Lemma apply_all_any needs prepared w w' r :
  mapM' (apply_prepared needs) prepared w = (w', r) -> counter_only (w_journal w) (w_journal w').
Proof.
  revert w w' r; induction prepared as [|t prepared IH]; intros w w' r Hr; simpl in Hr.
  - injection Hr as <- _. apply counter_only_refl.
  - unfold mbind, M_bind in Hr. destruct (apply_prepared needs t w) as [w1 [more|e]] eqn:E;
      apply apply_prepared_any in E; [|by injection Hr as <- _].
    destruct (mapM' (apply_prepared needs) prepared w1) as [w2 r2] eqn:E2. apply IH in E2.
    destruct r2; injection Hr as <- _; by eapply counter_only_trans.
Qed.

Definition indices_ok (w : world) (prepared : list PreparedTransaction) : Prop :=
  NoDup (map pt_index prepared) /\ forall t, t ∈ prepared -> pt_index t < length (w_events w).

Lemma apply_all_Ok needs prepared w w' more : indices_ok w prepared ->
  mapM' (apply_prepared needs) prepared w = (w', Ok more) ->
  Forall2 (Forall2 completed) (prepared_events w prepared) (prepared_events w' prepared)
  /\ (forall k, k ∉ map pt_index prepared -> events_at w' k = events_at w k)
  /\ (if needs then encodes (next_seq (w_journal w)) (prepared_events w' prepared) (concat more)
        /\ w_journal w' = set_next_seq (next_seq (w_journal w) + total (prepared_events w' prepared)) (w_journal w)
      else concat more = [] /\ w_journal w' = w_journal w).
Proof.
  revert w more; induction prepared as [|t prepared IH]; intros w more [Hnd Hlt] Hr; simpl in Hr.
  - injection Hr as <- <-. split_and!; [constructor|done|]. destruct needs; [|done].
    simpl. split; [done|]. unfold total. simpl. by rewrite Z.add_0_r, set_next_seq_same.
  - simpl in Hnd. apply NoDup_cons in Hnd as [Hni Hnd].
    inv_M Hr. apply apply_prepared_Ok in Hr0 as (Hc & Ho & Hlen & Hn); [|apply Hlt; set_solver].
    inv_M Hr. injection Hr as -> <-.
    apply IH in Hr0 as (Hc' & Ho' & Hn').
    2: { split; [done|]. intros t' Ht'. rewrite Hlen. apply Hlt. set_solver. }
    assert (events_at w' (pt_index t) = events_at s (pt_index t)) as Ht by (by apply Ho').
    assert (prepared_events s prepared = prepared_events w prepared) as Hp.
    { unfold prepared_events. apply map_ext_in. intros t' Ht'. apply Ho. intros E. apply Hni.
      rewrite <-E. apply list_elem_of_fmap. exists t'. by rewrite list_elem_of_In. }
    split_and!.
    + simpl. constructor; [by rewrite Ht|]. by rewrite <-Hp.
    + intros k Hk. simpl in Hk. rewrite Ho', Ho by set_solver. done.
    + destruct needs.
      * destruct Hn as (enc & -> & He & Hj). destruct Hn' as [He' Hj'].
        rewrite Hj in He', Hj'. simpl in He'. simpl. split.
        -- rewrite Ht. by apply encodes_cons.
        -- rewrite Hj'. rewrite total_cons, Ht. simpl. rewrite set_next_seq_twice. f_equal. lia.
      * destruct Hn as [-> Hj], Hn' as [Hm Hj']. simpl. split; [done|]. congruence.
Qed.

Lemma track_all prepared w : exists s,
  iterM (fun t w => on_scene (modify (scene_update_prim_tracking (events_at w (pt_index t)))) w) prepared w
  = (set_w_scene s w, Ok ()).
Proof.
  revert w; induction prepared as [|t prepared IH]; intros w; simpl.
  - exists (w_scene w). by destruct w.
  - unfold mbind, M_bind, on_scene, zoom, modify. simpl.
    destruct (IH (set_w_scene (scene_update_prim_tracking (events_at w (pt_index t)) (w_scene w)) w)) as [s Hs].
    unfold on_scene, zoom, modify in Hs. rewrite Hs. by exists s.
Qed.

Lemma edit_body_Ok prepared needs encoded w w' encs :
  indices_ok w prepared -> edit_body prepared needs encoded w = (w', Ok encs) ->
  exists more j1,
    encs = encoded ++ concat more
    /\ Forall2 (Forall2 completed) (prepared_events w prepared) (prepared_events w' prepared)
    /\ (if needs then encodes (next_seq (w_journal w)) (prepared_events w' prepared) (concat more)
          /\ j1 = set_next_seq (next_seq (w_journal w) + total (prepared_events w' prepared)) (w_journal w)
        else concat more = [] /\ j1 = w_journal w)
    /\ append_batch (concat (map store_rows encs)) (producer_progress prepared) [] true j1 = (w_journal w', Ok ()).
Proof.
  intros Hi Hr. unfold edit_body in Hr. inv_M Hr. apply apply_all_Ok in Hr0 as (Hc & _ & Hn); [|done].
  inv_M Hr. inv_M Hr. injection Hr as <- <-.
  destruct (track_all prepared s0) as [sc Hsc]. rewrite Hsc in Hr1. injection Hr1 as <- <-.
  unfold on_journal, zoom in Hr0. destruct (append_batch _ _ _ _ (w_journal s)) as [j r] eqn:E.
  injection Hr0 as <- ->. destruct x0. exists x, (w_journal s). split_and!; done.
Qed.

Lemma edit_body_Err prepared needs encoded w w' e :
  edit_body prepared needs encoded w = (w', Err e) -> counter_only (w_journal w) (w_journal w').
Proof.
  unfold edit_body. intros [E|(w1 & more & E1 & E)]%M_bind_Err; [by eapply apply_all_any|].
  apply apply_all_any in E1. apply M_bind_Err in E as [E|(w2 & u & E2 & E)].
  - unfold on_journal, zoom in E. destruct (append_batch _ _ _ _ (w_journal w1)) as [j r] eqn:Ea.
    injection E as <- ->. by apply append_batch_Err in Ea as ->.
  - apply M_bind_Err in E as [E|(w3 & u3 & E3 & [=])].
    destruct (track_all prepared w2) as [sc Hsc]. rewrite Hsc in E. done.
Qed.

(** *** The edit scope and the journal *)

(** A failed scope leaves the journal of the start, or of the failed body. *)
Definition failed_from {A} (body : M world A) (w w' : world) : Prop :=
  exists w1 s, (w1 = w \/ exists e1, body w = (w1, Err e1)) /\ w' = set_w_scene s w1.

Lemma failed_from_scene {A} (body : M world A) w w' s :
  failed_from body w w' -> failed_from body w (set_w_scene s w').
Proof. intros (w1 & s1 & Hb & ->). by exists w1, s. Qed.

Lemma with_layers_cases {A} lp (body : M world A) w w' r :
  with_layers w_scene set_w_scene lp body w = (w', r) ->
  match r with Ok a => body w = (w', Ok a) | Err _ => failed_from body w w' end.
Proof.
  revert w' r; induction lp as [|[layer paths] lp IH]; intros w' r Hr; cbn [with_layers] in Hr.
  - destruct r as [a|e]; [done|]. exists w', (w_scene w'). split; [eauto|]. by destruct w'.
  - apply atomic_apply_layer_cases in Hr. destruct r as [a|e]; [by apply IH in Hr|].
    destruct Hr as [->|(w1 & e1 & l & Hr & ->)].
    + exists w, (w_scene w). split; [by left|]. by destruct w.
    + apply IH in Hr. by apply failed_from_scene.
Qed.

Lemma atomic_edit_cases {A} lp sess (body : M world A) w w' r :
  atomic_edit w_scene set_w_scene lp sess body w = (w', r) ->
  match r with
  | Ok a => exists w1, body w = (w1, Ok a)
              /\ w' = set_w_scene (set_edit_target (edit_target (stg (w_scene w))) (w_scene w1)) w1
  | Err _ => failed_from body w w'
  end.
Proof.
  unfold atomic_edit.
  set (body' := if sess then _ else body). destruct (with_layers _ _ lp body' w) as [w1 r1] eqn:E.
  apply with_layers_cases in E.
  assert (match r1 with Ok a => body w = (w1, Ok a) | Err _ => failed_from body w w1 end) as Hb.
  { unfold body' in E. destruct sess; [|done]. destruct r1 as [a|e].
    - by apply atomic_apply_layer_cases in E.
    - destruct E as (w2 & s & [->|[e1 Hb]] & ->); [by exists w, s; split; [left|]|].
      apply atomic_apply_layer_cases in Hb as [->|(w3 & e3 & l & Hb & ->)]; [by exists w, s; split; [left|]|].
      exists w3, s. split; [eauto|done]. }
  intros [= <- <-]. destruct r1 as [a|e]; [by exists w1|]. apply failed_from_scene.
  destruct (is_exception e); [|done]. by apply failed_from_scene.
Qed.

(** *** One managed batch on the journal *)

Lemma completed_no_deletion evs evs' :
  existsb is_deletion evs = false -> Forall2 completed evs evs' -> evs' = evs.
Proof.
  intros Hd Hc. induction Hc as [|x y evs evs' Hxy _ IH]; [done|]. simpl in Hd.
  apply orb_false_iff in Hd as [Hx Hd]. rewrite IH by done. destruct Hxy as [->|[Ht _]]; [done|congruence].
Qed.

Lemma no_deletions_same w w' prepared :
  needs_scene_fields w prepared = false ->
  Forall2 (Forall2 completed) (prepared_events w prepared) (prepared_events w' prepared) ->
  prepared_events w' prepared = prepared_events w prepared.
Proof.
  unfold needs_scene_fields, prepared_events. induction prepared as [|t prepared IH]; [done|]. simpl.
  intros [Hd1 Hd2]%orb_false_iff Hc. apply Forall2_cons in Hc as [Hc1 Hc2].
  f_equal; [by apply completed_no_deletion|by apply IH].
Qed.

(** On success the batch encoded the final events of its requests under
    consecutive numbers and appended exactly those rows with the progress;
    otherwise only the counter moved. *)
Lemma managed_batch_journal prepared w w' r :
  indices_ok w prepared -> apply_and_persist_managed prepared w = (w', r) ->
  match r with
  | Err _ => counter_only (w_journal w) (w_journal w')
  | Ok encs =>
      Forall2 (Forall2 completed) (prepared_events w prepared) (prepared_events w' prepared)
      /\ encodes (next_seq (w_journal w)) (prepared_events w' prepared) encs
      /\ append_batch (concat (map store_rows encs)) (producer_progress prepared) [] true
           (set_next_seq (next_seq (w_journal w) + total (prepared_events w' prepared)) (w_journal w))
         = (w_journal w', Ok ())
  end.
Proof.
  intros Hi. unfold apply_and_persist_managed.
  destruct (needs_scene_fields w prepared) eqn:Hneeds.
  - intros Hr. simpl in Hr. unfold mbind, M_bind, mret, M_ret in Hr.
    apply atomic_edit_cases in Hr. destruct r as [encs|e].
    + destruct Hr as (w1 & Hb & ->). apply edit_body_Ok in Hb as (more & j1 & -> & Hc & [He ->] & Ha); [|done].
      done.
    + destruct Hr as (w1 & s & [->|[e1 Hb]] & ->); [apply counter_only_refl|].
      by apply edit_body_Err in Hb.
  - unfold mbind, M_bind. destruct (mapM' encode_managed prepared w) as [w1 [encoded|e]] eqn:Ee.
    + apply encode_all_Ok in Ee as [-> He]. set (w1 := advance _ w).
      intros Hr. apply atomic_edit_cases in Hr. destruct r as [encs|e].
      * destruct Hr as (w2 & Hb & ->).
        apply edit_body_Ok in Hb as (more & j1 & -> & Hc & [Hm ->] & Ha); [|done].
        rewrite Hm, app_nil_r in *. 
        assert (prepared_events w2 prepared = prepared_events w prepared) as Hsame by (by apply no_deletions_same).
        split_and!; [done| |].
        -- change (encodes (next_seq (w_journal w)) (prepared_events w2 prepared) encoded). by rewrite Hsame.
        -- change (prepared_events (set_w_scene _ w2) prepared) with (prepared_events w2 prepared).
           rewrite Hsame. exact Ha.
      * assert (counter_only (w_journal w) (w_journal w1)) as Hc1.
        { exists (next_seq (w_journal w) + total (prepared_events w prepared))%Z.
          split; [unfold total; lia|done]. }
        destruct Hr as (w2 & s & [->|[e1 Hb]] & ->); [done|].
        apply edit_body_Err in Hb. by eapply counter_only_trans.
    + intros [= <- <-]. by apply encode_all_any in Ee as [? _].
Qed.

Lemma with_sequences_cases {A} (body : M world A) w w' r :
  (forall w1 e1, body w = (w1, Err e1) -> counter_only (w_journal w) (w_journal w1)) ->
  with_sequences body w = (w', r) ->
  match r with
  | Ok a => body w = (w', Ok a)
  | Err e => is_exception e = true -> w_journal w' = w_journal w
  end.
Proof.
  intros Hc. unfold with_sequences, try_catch. destruct (body w) as [w1 [a|e]] eqn:E; intros [= <- <-]; [done|].
  intros He. rewrite He. destruct (Hc w1 e eq_refl) as (n & _ & ->). simpl.
  by rewrite set_next_seq_twice, set_next_seq_same.
Qed.

Lemma prepare_keeps i request w w' r : prepare_managed_transaction i request w = (w', r) ->
  w' = w /\ match r with Ok t => pt_index t = i /\ pt_request t = request | Err _ => True end.
Proof.
  unfold prepare_managed_transaction. intros [= <- <-]. split; [done|].
  destruct (_ ← _; _) as [t|e] eqn:E; [|done]. inv_bind E. inv_bind E. by injection E as <-.
Qed.

(** *** Durable and cached progress *)

Definition durable (j : J) (p : producer) : Z := get_producer_progress (store j) p.1 p.2.

Lemma durable_progress j p : durable j p = default 0%Z (progress_of (store j) !! p).
Proof. unfold durable. rewrite get_producer_progress_spec. by destruct p. Qed.

Lemma committed_through_Ok c s j j' r : cache_ok j -> committed_through c s j = (j', r) ->
  r = Ok (durable j (c, s)) /\ cache_ok j' /\ exists m, j' = Journal.set_cache m j.
Proof.
  intros Hok. unfold committed_through. destruct (progress_cache j !! (c, s)) as [n|] eqn:E.
  - intros [= <- <-]. rewrite (Hok c s n E). split_and!; [done|done|]. exists (progress_cache j). by destruct j.
  - intros [= <- <-]. split_and!; [done| |by eexists].
    intros c' s' n. simpl. destruct (decide ((c, s) = (c', s'))) as [[= -> ->]|Hne].
    + rewrite lookup_insert_eq. by intros [= <-].
    + rewrite lookup_insert_ne by done. apply Hok.
Qed.

Lemma journal_ok_cache m j : journal_ok j -> journal_ok (Journal.set_cache m j).
Proof. intros [? ? ?]. by split. Qed.

(** The whole journal invariant kept by the committer. *)
Definition jok (j : J) : Prop := journal_ok j /\ cache_ok j.

(** What a successful batch does: progress and rows. *)
Lemma append_effect rows pp n j j' :
  journal_ok j -> (next_seq j ≤ n)%Z -> (forall r, r ∈ rows -> (row_seq r < n)%Z) ->
  append_batch rows pp [] true (set_next_seq n j) = (j', Ok ()) ->
  journal_ok j' /\ next_seq j' = n
  /\ events_of (store j') = foldl rows_insert (events_of (store j)) rows
  /\ progress_of (store j') = foldl progress_max (progress_of (store j)) pp
  /\ progress_cache j' = progress_cache j.
Proof.
  intros Hj Hn Hrows Ha.
  assert (journal_ok (set_next_seq n j)) as Hj1.
  { destruct Hj as [H1' H2' H3']. split; simpl; [|intros ???? |done].
    - intros q Hq. specialize (H1' q Hq). lia.
    - assert (row_seq r < next_seq j)%Z by eauto. lia. }
  pose proof (journal_append_ok rows pp [] true _ j' Hj1 Hrows Ha) as Hj'.
  apply append_batch_sync_Ok in Ha as (st' & Ha & ->); [|unfold queued; simpl; by rewrite andb_false_r].
  apply append_batch_events in Ha as (_ & He & Hp). by split_and!.
Qed.

Lemma progress_max_single m r :
  req_txn_id r = (default 0 (m !! req_producer r) + 1)%Z ->
  progress_max m (req_progress r) = <[req_producer r := req_txn_id r]> m.
Proof.
  intros Ht. unfold progress_max. change (pp_producer (req_progress r)) with (req_producer r).
  f_equal. simpl. destruct (m !! req_producer r); simpl in Ht; [lia|done].
Qed.

(** Remembering what the store holds keeps the cache right. *)
Lemma remember_ok j ups :
  journal_ok j -> (forall p n, progress_cache j !! p = Some n -> p ∉ map fst ups -> n = durable j p) ->
  (forall p n, (p, n) ∈ ups -> n = durable j p) ->
  jok (remember_progress ups j).1.
Proof.
  intros Hj Hc Hu. split; [by apply journal_ok_cache|].
  intros c s n. simpl. change (get_producer_progress (store j) c s) with (durable j (c, s)).
  unfold dict_update. revert Hc Hu. generalize (progress_cache j).
  induction ups as [|[p m] ups IH]; intros cache Hc Hu Hn; simpl in *.
  - apply Hc; [done|set_solver].
  - eapply IH; [|intros p' n' Hin; apply Hu; set_solver|exact Hn].
    intros p' n' Hl Hni. destruct (decide (p' = p)) as [->|Hne].
    + rewrite lookup_insert_eq in Hl. injection Hl as <-. apply Hu. set_solver.
    + rewrite lookup_insert_ne in Hl by done. apply Hc; [done|set_solver].
Qed.

(** *** commit *)

Lemma commit_events_journal i request w w' r :
  i < length (w_events w) -> jok (w_journal w) -> commit_events i request w = (w', r) ->
  match r with
  | Err e => is_exception e = true -> w_journal w' = w_journal w
  | Ok recs =>
      map (fun x => wr_event x.1) recs = events_at w' i
      /\ Forall2 completed (events_at w i) (events_at w' i)
      /\ consecutive (next_seq (w_journal w)) (map (fun x => wr_seq x.1) recs)
      /\ journal_ok (w_journal w')
      /\ events_of (store (w_journal w')) = foldl rows_insert (events_of (store (w_journal w))) (map row_of recs)
      /\ progress_of (store (w_journal w'))
         = foldl progress_max (progress_of (store (w_journal w)))
             (match progress request with Some p => [p] | None => [] end)
      /\ progress_cache (w_journal w') = progress_cache (w_journal w)
  end.
Proof.
  intros Hi [Hj Hc]. unfold commit_events.
  set (body := t ← prepare_managed_transaction i request; apply_and_persist_managed [t]).
  assert (forall w1 r1, body w = (w1, r1) ->
    (exists e, r1 = Err e /\ w1 = w) \/ exists t, pt_index t = i /\ pt_request t = request
      /\ apply_and_persist_managed [t] w = (w1, r1)) as Hbody.
  { intros w1 r1 Hb. unfold body in Hb. unfold mbind, M_bind in Hb.
    destruct (prepare_managed_transaction i request w) as [w2 [t|e]] eqn:Ep;
      apply prepare_keeps in Ep as [-> Hp]; [right; exists t; naive_solver|left].
    injection Hb as <- <-. by exists e. }
  assert (forall t, pt_index t = i -> indices_ok w [t]) as Hidx.
  { intros t <-. split; [by apply NoDup_singleton|]. by intros t' ->%list_elem_of_singleton. }
  unfold mbind, M_bind. destruct (with_sequences body w) as [w1 r1] eqn:Ews.
  apply with_sequences_cases in Ews.
  2: { intros w2 e2 Hb. apply Hbody in Hb as [(e & _ & ->)|(t & Ht & _ & Hb)]; [apply counter_only_refl|].
       by apply managed_batch_journal in Hb; [|apply Hidx]. }
  destruct r1 as [encs|e]; [|by intros [= <- <-]].
  apply Hbody in Ews as [(e & [=] & _)|(t & Ht & Hreq & Hb)].
  apply managed_batch_journal in Hb as (Hcomp & He & Ha); [|by apply Hidx].
  simpl in Hcomp, He. destruct encs as [|enc [|enc2 encs]]; simpl in He; try tauto.
  intros [= <- <-]. rewrite Ht in *. destruct He as (Hev & Hrow & Hseq & _).
  apply append_effect in Ha as (Hj' & _ & Hevs & Hpr & Hca); [|done|unfold total; lia|].
  2: { intros x Hx. apply (encodes_seqs _ (prepared_events w1 [t]) [enc]); [|done].
       simpl. by rewrite Ht. }
  simpl in Hevs, Hpr. rewrite app_nil_r, Hrow in Hevs. rewrite Hreq in Hpr.
  apply Forall2_cons in Hcomp as [Hcomp _]. by split_and!.
Qed.

(** What one [commit] promises, with [n] the durable progress of the producer. *)
Definition commit_contract (i : nat) (request : TransactionRequest) (w w' : world)
    (r : result TransactionCommit) : Prop :=
  let n := durable (w_journal w) (req_producer request) in
  match r with
  | Ok c =>
      jok (w_journal w') /\ tc_checkpoint c = None
      /\ match tc_status c with
         | duplicate => (req_txn_id request ≤ n)%Z /\ tc_txn_id c = n /\ tc_records c = []
             /\ store (w_journal w') = store (w_journal w) /\ w_scene w' = w_scene w
         | committed => req_txn_id request = (n + 1)%Z /\ tc_txn_id c = (n + 1)%Z
             /\ Forall2 completed (events_at w i) (events_at w' i)
             /\ map (fun x => wr_event x.1) (tc_records c) = events_at w' i
             /\ consecutive (next_seq (w_journal w)) (map (fun x => wr_seq x.1) (tc_records c))
             /\ events_of (store (w_journal w'))
                = foldl rows_insert (events_of (store (w_journal w))) (map row_of (tc_records c))
             /\ progress_of (store (w_journal w'))
                = <[req_producer request := (n + 1)%Z]> (progress_of (store (w_journal w)))
         end
  | Err e =>
      is_exception e = true ->
      jok (w_journal w') /\ store (w_journal w') = store (w_journal w)
      /\ next_seq (w_journal w') = next_seq (w_journal w)
      /\ ((n + 1 < req_txn_id request)%Z -> e = TransactionRejectedError "unexpected_id" (n + 1))
      /\ (n < req_txn_id request)%Z
  end.

Lemma commit_meets_contract i request w :
  i < length (w_events w) -> jok (w_journal w) ->
  let '(w', r) := commit i request w in commit_contract i request w w' r.
Proof.
  intros Hi [Hj Hc]. unfold commit_contract. set (n := durable (w_journal w) (req_producer request)).
  unfold commit. unfold mbind at 1, M_bind. unfold on_journal at 1, zoom.
  destruct (committed_through _ _ (w_journal w)) as [j1 r1] eqn:Ect.
  apply committed_through_Ok in Ect as (-> & Hc1 & m & ->); [|done].
  change (durable (w_journal w) (req_client_id request, req_session_id request)) with n.
  unfold check_transaction_id. case_bool_decide as Hdup.
  - simpl. split_and!; [by split; [apply journal_ok_cache|]|done..].
  - case_bool_decide as Hexp.
    + simpl. intros _. split_and!; [by split; [apply journal_ok_cache|]|done..|lia].
    + set (w1 := set_w_journal (Journal.set_cache m (w_journal w)) w).
      unfold mbind, M_bind. destruct (commit_events i (transaction_of request) w1) as [w2 r2] eqn:Ece.
      apply commit_events_journal in Ece; [|done|by split; [apply journal_ok_cache|]].
      destruct r2 as [recs|e]; simpl.
      * destruct Ece as (Hev & Hcomp & Hseq & Hj2 & Hevs & Hpr & Hca).
        assert (req_txn_id request = n + 1)%Z as Ht by (destruct (decide (req_txn_id request = n + 1)%Z); tauto).
        assert (progress_of (store (w_journal w2)) = <[req_producer request := (n + 1)%Z]> (progress_of (store (w_journal w)))) as Hp2.
        { rewrite Hpr, <-Ht. apply progress_max_single. rewrite Ht. f_equal. apply durable_progress. }
        split_and!; try done.
        apply (remember_ok (w_journal w2) [(req_producer request, req_txn_id request)] Hj2).
        -- intros p k Hl Hni. rewrite Hca in Hl. destruct p as [c s]. apply Hc1 in Hl as ->.
           simpl. change (get_producer_progress (store (w_journal w)) c s) with (durable (w_journal w) (c, s)).
           rewrite !durable_progress, Hp2, lookup_insert_ne by set_solver. done.
        -- intros p k [= -> ->]%list_elem_of_singleton. by rewrite durable_progress, Hp2, lookup_insert_eq, Ht.
      * intros He. specialize (Ece He). rewrite Ece. simpl.
        split_and!; [by split; [apply journal_ok_cache|]|done..| |lia]. lia.
Qed.

(** ** The group: reference admission

    One request after the other against the progress [d] of the producers. *)
Fixpoint decisions (d : gmap producer Z) (requests : list TransactionRequest) :
    list (option TransactionOutcome) * gmap producer Z :=
  match requests with
  | [] => ([], d)
  | r :: requests =>
      match check_transaction_id r (default 0%Z (d !! req_producer r)) with
      | Some o => let '(l, d) := decisions d requests in (Some o :: l, d)
      | None => let '(l, d) := decisions (<[req_producer r := req_txn_id r]> d) requests in (None :: l, d)
      end
  end.

Definition accepted_from (index : nat) (requests : list TransactionRequest)
    (dec : list (option TransactionOutcome)) : list (nat * TransactionRequest) :=
  omap (fun x => match x.2 with (r, None) => Some (x.1, r) | _ => None end)
    (zip (seq index (length requests)) (zip requests dec)).

Definition known_from (index : nat) (dec : list (option TransactionOutcome)) : list (nat * TransactionOutcome) :=
  omap (fun x => match x.2 with Some o => Some (x.1, o) | None => None end) (zip (seq index (length dec)) dec).

Lemma decisions_length d reqs : length (decisions d reqs).1 = length reqs.
Proof.
  revert d; induction reqs as [|r reqs IH]; intros d; [done|]. simpl.
  destruct (check_transaction_id _ _).
  - specialize (IH d). destruct (decisions d reqs). simpl in *. lia.
  - specialize (IH (<[req_producer r := req_txn_id r]> d)). destruct (decisions _ reqs). simpl in *. lia.
Qed.

(** [next_by_session] over the durable progress. *)
Definition overlay (next d : gmap producer Z) : gmap producer Z := next ∪ d.

Lemma overlay_lookup next j p :
  default 0%Z (overlay next (progress_of (store j)) !! p)
  = match next !! p with Some n => n | None => durable j p end.
Proof.
  unfold overlay. rewrite lookup_union, durable_progress.
  destruct (next !! p), (progress_of (store j) !! p); done.
Qed.

Lemma admit_all_spec a index reqs j :
  cache_ok j ->
  exists m, let d := decisions (overlay (next_by_session a) (progress_of (store j))) reqs in
    cache_ok (Journal.set_cache m j)
    /\ exists next, overlay next (progress_of (store j)) = d.2
       /\ admit_all a index reqs j
          = (Journal.set_cache m j,
             Ok (mk_admission (accepted a ++ accepted_from index reqs d.1)
                   (dict_update (outcomes a) (known_from index d.1)) next)).
Proof.
  revert a index j; induction reqs as [|r reqs IH]; intros a index j Hc.
  - exists (progress_cache j). simpl.
    assert (Journal.set_cache (progress_cache j) j = j) as E by (by destruct j).
    rewrite E. split; [done|]. exists (next_by_session a). split; [done|].
    destruct a; simpl. unfold dict_update. simpl. by rewrite app_nil_r.
  - cbn [admit_all decisions]. unfold mbind, M_bind, admit_one. unfold mbind, M_bind.
    assert (exists m, cache_ok (Journal.set_cache m j) /\
      (match next_by_session a !! req_producer r with
       | Some n => mret n
       | None => committed_through (req_client_id r) (req_session_id r) end) j
      = (Journal.set_cache m j, Ok (default 0%Z (overlay (next_by_session a) (progress_of (store j)) !! req_producer r))))
      as (m & Hc1 & ->).
    { rewrite overlay_lookup. destruct (next_by_session a !! req_producer r) as [n|].
      - exists (progress_cache j). assert (Journal.set_cache (progress_cache j) j = j) as -> by (by destruct j). done.
      - destruct (committed_through (req_client_id r) (req_session_id r) j) as [j1 r1] eqn:E.
        apply committed_through_Ok in E as (-> & Hc1 & m & ->); [|done]. by exists m. }
    destruct (check_transaction_id r _) as [o|] eqn:Eo.
    + set (a1 := mk_admission _ _ _). destruct (IH a1 (S index) _ Hc1) as (m2 & Hc2 & next & Hn & Hr).
      exists m2. simpl in Hn, Hr, Hc2. change (store (Journal.set_cache m j)) with (store j) in *.
      destruct (decisions _ reqs) as [l d]. simpl in *. split; [done|]. exists next. split; [done|]. exact Hr.
    + set (a1 := mk_admission _ _ _). destruct (IH a1 (S index) _ Hc1) as (m2 & Hc2 & next & Hn & Hr).
      exists m2. simpl in Hn, Hr, Hc2. change (store (Journal.set_cache m j)) with (store j) in *.
      assert (overlay (<[req_producer r := req_txn_id r]> (next_by_session a)) (progress_of (store j))
              = <[req_producer r := req_txn_id r]> (overlay (next_by_session a) (progress_of (store j)))) as Ho.
      { unfold overlay. by rewrite insert_union_l. }
      rewrite Ho in *.
      destruct (decisions _ reqs) as [l d]. simpl in *. split; [done|]. exists next. split; [done|].
      rewrite <-app_assoc in Hr. exact Hr.
Qed.

(** The outcomes in request order: known ones, and a commit per accepted request. *)
Fixpoint fill (requests : list TransactionRequest) (dec : list (option TransactionOutcome))
    (encs : list EncodedEvents) : list TransactionOutcome :=
  match requests, dec, encs with
  | _ :: requests, Some o :: dec, _ => o :: fill requests dec encs
  | r :: requests, None :: dec, enc :: encs =>
      Done (mk_commit committed (req_txn_id r) (records enc) None) :: fill requests dec encs
  | _, _, _ => []
  end.

Definition outcome_records (o : TransactionOutcome) : list encoded_record :=
  match o with Done c => tc_records c | Failed _ => [] end.

Lemma known_from_cons index o dec :
  known_from index (o :: dec) = match o with Some o => [(index, o)] | None => [] end ++ known_from (S index) dec.
Proof. by destruct o. Qed.

Lemma accepted_from_cons index r reqs o dec :
  accepted_from index (r :: reqs) (o :: dec)
  = match o with None => [(index, r)] | Some _ => [] end ++ accepted_from (S index) reqs dec.
Proof. by destruct o. Qed.

Lemma admission_keys index reqs dec : length dec = length reqs ->
  map fst (known_from index dec) ++ map fst (accepted_from index reqs dec) ≡ₚ seq index (length reqs).
Proof.
  revert index dec; induction reqs as [|r reqs IH]; intros index [|o dec] Hl; try done.
  rewrite known_from_cons, accepted_from_cons. simpl. injection Hl as Hl. rewrite <-(IH (S index) dec) by done.
  destruct o; simpl; [done|]. by rewrite <-Permutation_middle.
Qed.

Lemma committed_outcomes_keys acc encs : length encs = length acc ->
  map fst (committed_outcomes acc encs) = map fst acc.
Proof.
  unfold committed_outcomes. revert encs; induction acc as [|[i r] acc IH]; intros [|enc encs] Hl; try done.
  simpl. f_equal. apply IH. by injection Hl.
Qed.

Lemma dict_update_elem {V'} (m : gmap nat V') l i v :
  NoDup (map fst l) -> (i, v) ∈ l -> dict_update m l !! i = Some v.
Proof.
  unfold dict_update. revert m; induction l as [|[k x] l IH]; intros m Hnd Hin; [by apply not_elem_of_nil in Hin|].
  simpl in *. apply NoDup_cons in Hnd as [Hni Hnd]. apply elem_of_cons in Hin as [[= -> ->]|Hin]; [|by apply IH].
  clear IH. assert (forall m : gmap nat V', foldl (fun m p => <[p.1 := p.2]> m) m l !! k = m !! k) as Hk.
  { clear m Hnd. induction l as [|[k' x'] l IH]; intros m; [done|]. simpl in *.
    rewrite IH by set_solver. rewrite lookup_insert_ne; [done|set_solver]. }
  rewrite Hk. apply lookup_insert_eq.
Qed.

Lemma fill_lookup index reqs dec encs i o :
  length dec = length reqs -> length encs = length (accepted_from index reqs dec) ->
  fill reqs dec encs !! i = Some o ->
  (index + i, o) ∈ known_from index dec ++ committed_outcomes (accepted_from index reqs dec) encs.
Proof.
  revert index dec encs i; induction reqs as [|r reqs IH]; intros index [|d dec] encs i Hl Hle Hf; try done.
  injection Hl as Hl. rewrite known_from_cons, accepted_from_cons in *. destruct d as [x|]; simpl in *.
  - destruct i as [|i]; simpl in Hf.
    + injection Hf as <-. rewrite Nat.add_0_r. set_solver.
    + apply (IH (S index)) in Hf; [|done|done]. replace (index + S i) with (S index + i) by lia. set_solver.
  - destruct encs as [|enc encs]; [done|]. injection Hle as Hle. destruct i as [|i]; simpl in Hf.
    + injection Hf as <-. rewrite Nat.add_0_r. unfold committed_outcomes. simpl. set_solver.
    + apply (IH (S index)) in Hf; [|done|done]. replace (index + S i) with (S index + i) by lia.
      unfold committed_outcomes in *. simpl. set_solver.
Qed.

Lemma fill_length index reqs dec encs :
  length dec = length reqs -> length encs = length (accepted_from index reqs dec) ->
  length (fill reqs dec encs) = length reqs.
Proof.
  revert index dec encs; induction reqs as [|r reqs IH]; intros index [|d dec] encs Hl Hle; try done.
  injection Hl as Hl. rewrite accepted_from_cons in Hle. destruct d as [x|]; simpl in *.
  - f_equal. by apply (IH (S index)).
  - destruct encs as [|enc encs]; [done|]. injection Hle as Hle. simpl. f_equal. by apply (IH (S index)).
Qed.

Lemma outcome_list_all n (m : gmap nat TransactionOutcome) l :
  length l = n -> (forall i o, l !! i = Some o -> m !! i = Some o) -> outcome_list n m = l.
Proof.
  intros <-. unfold outcome_list. assert (forall k, (forall i o, l !! i = Some o -> m !! (k + i) = Some o) ->
    omap (fun i => m !! i) (seq k (length l)) = l) as Hg; [|intros Hl; by apply (Hg 0)].
  induction l as [|x l IH]; intros k Hl; [done|]. simpl.
  specialize (Hl 0 x eq_refl) as Hx. rewrite Nat.add_0_r in Hx. rewrite Hx. f_equal.
  apply IH. intros i o Hi. replace (S k + i) with (k + S i) by lia. by apply Hl.
Qed.

Lemma group_outcomes reqs dec encs :
  length dec = length reqs -> length encs = length (accepted_from 0 reqs dec) ->
  outcome_list (length reqs)
    (dict_update (dict_update ∅ (known_from 0 dec)) (committed_outcomes (accepted_from 0 reqs dec) encs))
  = fill reqs dec encs.
Proof.
  intros Hl Hle. apply outcome_list_all; [by eapply fill_length|].
  intros i o Hf. apply (fill_lookup 0) in Hf; [|done|done]. simpl in Hf.
  unfold dict_update. rewrite <-foldl_app. apply dict_update_elem; [|done].
  rewrite map_app, committed_outcomes_keys by done. rewrite admission_keys by done. apply NoDup_seq.
Qed.

(** *** Progress of a group *)

Lemma progress_fold (D : list (producer * ProducerProgress)) (P : gmap producer Z) k :
  NoDup (map fst D) -> (forall k v, (k, v) ∈ D -> pp_producer v = k) ->
  foldl progress_max P (map snd D) !! k =
  match dict_get k D with
  | Some v => Some (match P !! k with
                    | Some old => Z.max old (EventStore.committed_through v)
                    | None => EventStore.committed_through v
                    end)
  | None => P !! k
  end.
Proof.
  revert P; induction D as [|[k1 v] D IH]; intros P Hnd Hk; [done|]. simpl in *.
  apply NoDup_cons in Hnd as [Hni Hnd]. rewrite IH; [|done|intros; apply Hk; set_solver].
  assert (pp_producer v = k1) as Hv by (apply Hk; set_solver). rewrite progress_max_lookup, Hv.
  case_bool_decide as Heq.
  - subst k. rewrite decide_True by done.
    destruct (dict_get k1 D) eqn:E; [|done]. exfalso. apply Hni. clear -E.
    induction D as [|[k2 v2] D IH]; [done|]. simpl in *. case_bool_decide; set_solver.
  - by rewrite decide_False by congruence.
Qed.

Record progress_inv (D : list (producer * ProducerProgress)) (d P : gmap producer Z) : Prop := {
  pi_nodup : NoDup (map fst D);
  pi_keys k v : (k, v) ∈ D -> pp_producer v = k;
  pi_some k v : dict_get k D = Some v ->
    d !! k = Some (EventStore.committed_through v)
    /\ forall old, P !! k = Some old -> (old ≤ EventStore.committed_through v)%Z;
  pi_none k : dict_get k D = None -> d !! k = P !! k }.

Lemma progress_inv_map D d P : progress_inv D d P -> foldl progress_max P (map snd D) = d.
Proof.
  intros [Hnd Hk Hs Hn]. apply map_eq. intros k. rewrite progress_fold by done.
  destruct (dict_get k D) as [v|] eqn:E; [|by rewrite Hn].
  destruct (Hs k v E) as [-> Hle]. f_equal. destruct (P !! k) as [old|]; [|done].
  specialize (Hle old eq_refl). lia.
Qed.

Definition progress_step (D : list (producer * ProducerProgress)) (r : TransactionRequest) :=
  dict_set (req_producer r) (fun _ => req_progress r) D.

Lemma progress_inv_step D d P r :
  req_txn_id r = (default 0 (d !! req_producer r) + 1)%Z -> progress_inv D d P ->
  progress_inv (progress_step D r) (<[req_producer r := req_txn_id r]> d) P.
Proof.
  intros Ht [Hnd Hk Hs Hn]. unfold progress_step. split.
  - by apply dict_set_NoDup.
  - intros k v [[-> [o ->]]|Hin]%dict_set_elem; [done|by apply Hk].
  - intros k v. rewrite dict_get_set. case_decide as Heq.
    + subst k. intros [= <-]. rewrite lookup_insert_eq. split; [done|].
      intros old Ho. simpl. destruct (dict_get (req_producer r) D) as [v|] eqn:E.
      * destruct (Hs _ _ E) as [Hd Hle]. rewrite Hd in Ht. simpl in Ht. specialize (Hle old Ho). lia.
      * rewrite (Hn _ E), Ho in Ht. simpl in Ht. lia.
    + rewrite lookup_insert_ne by done. apply Hs.
  - intros k. rewrite dict_get_set. case_decide; [done|]. rewrite lookup_insert_ne by done. apply Hn.
Qed.

Lemma check_admits r n : check_transaction_id r n = None -> req_txn_id r = (n + 1)%Z.
Proof.
  unfold check_transaction_id. case_bool_decide; [done|]. case_bool_decide as Hx; [done|].
  intros _. destruct (decide (req_txn_id r = n + 1)%Z); tauto.
Qed.

Lemma progress_inv_decisions index reqs D d P :
  progress_inv D d P ->
  progress_inv (foldl progress_step D (map snd (accepted_from index reqs (decisions d reqs).1)))
    (decisions d reqs).2 P.
Proof.
  revert index D d; induction reqs as [|r reqs IH]; intros index D d Hi; [done|]. simpl.
  destruct (check_transaction_id r _) as [o|] eqn:E.
  - specialize (IH (S index) D d Hi). destruct (decisions d reqs) as [l d2] eqn:Ed. simpl in *.
    exact IH.
  - apply check_admits in E.
    specialize (IH (S index) _ _ (progress_inv_step D d P r E Hi)).
    destruct (decisions (<[req_producer r := req_txn_id r]> d) reqs) as [l d2] eqn:Ed. simpl in *.
    exact IH.
Qed.

Lemma group_progress reqs P prepared :
  map pt_request prepared = map (fun ir => transaction_of ir.2) (accepted_from 0 reqs (decisions P reqs).1) ->
  foldl progress_max P (producer_progress prepared) = (decisions P reqs).2.
Proof.
  intros Hp. set (acc := accepted_from 0 reqs (decisions P reqs).1) in *.
  assert (progress_by_producer prepared = foldl progress_step [] (map snd acc)) as Hpp.
  { unfold progress_by_producer. generalize (@nil (producer * ProducerProgress)).
    revert Hp. generalize acc. clear acc. induction prepared as [|t prepared IH]; intros [|[i r] acc] Hp D; try done.
    simpl in *. injection Hp as Ht Hp. rewrite Ht. simpl. by apply IH. }
  assert (producer_progress prepared = map snd (progress_by_producer prepared)) as ->.
  { destruct prepared as [|t [|t2 prepared]]; [done| |done]. unfold producer_progress, progress_by_producer. simpl.
    by destruct (progress (pt_request t)). }
  rewrite Hpp. apply progress_inv_map. apply progress_inv_decisions.
  split; try done; [by constructor|]. by intros k v ?%not_elem_of_nil.
Qed.

(** *** commit_group *)

Lemma prepare_all_keeps (acc : list (nat * TransactionRequest)) w w' r :
  mapM' (fun ir => prepare_managed_transaction ir.1 (transaction_of ir.2)) acc w = (w', r) ->
  w' = w /\ match r with
            | Ok prepared => map pt_index prepared = map fst acc
                /\ map pt_request prepared = map (fun ir => transaction_of ir.2) acc
            | Err _ => True
            end.
Proof.
  revert w w' r; induction acc as [|[i q] acc IH]; intros w w' r Hr; simpl in Hr.
  - by injection Hr as <- <-.
  - unfold mbind, M_bind in Hr. destruct (prepare_managed_transaction i (transaction_of q) w) as [w1 [t|e]] eqn:Ep;
      apply prepare_keeps in Ep as [-> Hp]; [|by injection Hr as <- <-].
    destruct (mapM' _ acc w) as [w2 r2] eqn:E2. apply IH in E2 as [-> H2'].
    destruct r2 as [prepared|e]; injection Hr as <- <-; [|done].
    simpl; destruct Hp as [-> ->], H2' as [<- <-]. done.
Qed.

Lemma accepted_indices index reqs dec : length dec = length reqs ->
  NoDup (map fst (accepted_from index reqs dec))
  /\ forall i, i ∈ map fst (accepted_from index reqs dec) -> i < index + length reqs.
Proof.
  intros Hl. pose proof (admission_keys index reqs dec Hl) as Hp. split.
  - pose proof (NoDup_seq index (length reqs)) as Hnd. rewrite <-Hp in Hnd. by apply NoDup_app in Hnd as (_ & _ & ?).
  - intros i Hi. assert (i ∈ seq index (length reqs)) as Hin by (rewrite <-Hp; set_solver).
    apply elem_of_seq in Hin. lia.
Qed.

(** Accepting and persisting the admitted requests. *)
Lemma group_body_journal reqs w w' r :
  length (w_events w) = length reqs ->
  let dec := decisions (progress_of (store (w_journal w))) reqs in
  let acc := accepted_from 0 reqs dec.1 in
  group_body acc w = (w', r) ->
  match r with
  | Err _ => counter_only (w_journal w) (w_journal w')
  | Ok encs =>
      let evss := map (fun ir => events_at w' ir.1) acc in
      Forall2 (Forall2 completed) (map (fun ir => events_at w ir.1) acc) evss
      /\ encodes (next_seq (w_journal w)) evss encs
      /\ exists pp, foldl progress_max (progress_of (store (w_journal w))) pp = dec.2
           /\ append_batch (concat (map store_rows encs)) pp [] true
                (set_next_seq (next_seq (w_journal w) + total evss) (w_journal w)) = (w_journal w', Ok ())
  end.
Proof.
  intros Hlen dec acc. unfold group_body, mbind, M_bind.
  destruct (mapM' _ acc w) as [w1 [prepared|e]] eqn:Ep; apply prepare_all_keeps in Ep as [-> Hp].
  2: { intros [= <- <-]. apply counter_only_refl. }
  destruct Hp as [Hidx Hreq].
  assert (length dec.1 = length reqs) as Hdl by apply decisions_length.
  destruct (accepted_indices 0 reqs dec.1 Hdl) as [Hnd Hlt].
  assert (indices_ok w prepared) as Hi.
  { split; [by rewrite Hidx|]. intros t Ht. rewrite Hlen. apply (Hlt (pt_index t)). fold acc. rewrite <-Hidx.
    apply list_elem_of_fmap. by exists t. }
  assert (forall v, prepared_events v prepared = map (fun ir => events_at v ir.1) acc) as Hev.
  { intros v. unfold prepared_events. rewrite <-(map_map fst (fun i => events_at v i)), <-Hidx, map_map. done. }
  intros Hr. apply managed_batch_journal in Hr; [|done]. destruct r as [encs|e]; [|done].
  rewrite !Hev in Hr. destruct Hr as (Hc & He & Ha). split_and!; [done..|].
  exists (producer_progress prepared). split; [by apply group_progress|done].
Qed.

Lemma admit_group reqs j : cache_ok j ->
  let dec := decisions (progress_of (store j)) reqs in
  exists m next, cache_ok (Journal.set_cache m j) /\ overlay next (progress_of (store j)) = dec.2
    /\ admit_all (mk_admission [] ∅ ∅) 0 reqs j
       = (Journal.set_cache m j,
          Ok (mk_admission (accepted_from 0 reqs dec.1) (dict_update ∅ (known_from 0 dec.1)) next)).
Proof.
  intros Hc dec. destruct (admit_all_spec (mk_admission [] ∅ ∅) 0 reqs j Hc) as (m & Hc1 & next & Hn & Hr).
  assert (overlay ∅ (progress_of (store j)) = progress_of (store j)) as Ho by apply map_empty_union.
  cbn [next_by_session accepted outcomes] in *. rewrite Ho in Hn, Hr.
  exists m, next. split_and!; [done|exact Hn|exact Hr].
Qed.

(** What a group commit promises. *)
Definition group_contract (requests : list TransactionRequest) (w w' : world)
    (r : result (list TransactionOutcome)) : Prop :=
  let j := w_journal w in
  let dec := decisions (progress_of (store j)) requests in
  let evss v := map (fun ir => events_at v ir.1) (accepted_from 0 requests dec.1) in
  match r with
  | Ok outs =>
      jok (w_journal w')
      /\ exists encs,
           outs = fill requests dec.1 encs
           /\ Forall2 (Forall2 completed) (evss w) (evss w')
           /\ encodes (next_seq j) (evss w') encs
           /\ events_of (store (w_journal w'))
              = foldl rows_insert (events_of (store j)) (map row_of (concat (map records encs)))
           /\ progress_of (store (w_journal w')) = dec.2
  | Err e => is_exception e = true ->
      jok (w_journal w') /\ store (w_journal w') = store j /\ next_seq (w_journal w') = next_seq j
  end.

Lemma group_meets_contract requests w :
  length (w_events w) = length requests -> jok (w_journal w) ->
  let '(w', r) := commit_group requests w in group_contract requests w w' r.
Proof.
  intros Hlen [Hj Hc]. unfold group_contract. set (j := w_journal w).
  set (dec := decisions (progress_of (store j)) requests). unfold commit_group. unfold mbind at 1, M_bind. unfold on_journal at 1, zoom.
  destruct (admit_group requests (w_journal w) Hc) as (m & next & Hc1 & Hnext & ->).
  fold j dec in Hnext, Hc1 |- *. cbn [accepted outcomes next_by_session].
  set (w1 := set_w_journal (Journal.set_cache m j) w). set (acc := accepted_from 0 requests dec.1).
  assert (length dec.1 = length requests) as Hdl by apply decisions_length.
  destruct acc as [|a0 acc0] eqn:Eacc.
  - simpl. split; [by split; [apply journal_ok_cache|]|]. exists [].
    assert (fill requests dec.1 [] = outcome_list (length requests) (dict_update ∅ (known_from 0 dec.1))) as Hf.
    { rewrite <-group_outcomes; [|done|by fold acc; rewrite Eacc]. fold acc. by rewrite Eacc. }
    split_and!; try done. fold acc in Eacc.
    pose proof (group_progress requests (progress_of (store j)) []) as Hgp. fold dec in Hgp. fold acc in Hgp.
    rewrite Eacc in Hgp. by rewrite <-Hgp.
  - rewrite <-Eacc. unfold mbind, M_bind.
    destruct (with_sequences (group_body acc) w1) as [w2 r2] eqn:Ews.
    apply with_sequences_cases in Ews.
    2: { intros v e Hb. by apply (group_body_journal requests w1 v (Err e)) in Hb. }
    destruct r2 as [encs|e].
    + apply (group_body_journal requests w1 w2 (Ok encs)) in Ews as (Hcomp & He & pp & Hpp & Ha); [|done].
      change (store (w_journal w1)) with (store j) in *. fold dec acc in Hcomp, He, Hpp, Ha.
      apply append_effect in Ha as (Hj2 & _ & Hevs & Hpr & Hca);
        [|by apply journal_ok_cache|unfold total; lia|intros x Hx; by eapply encodes_seqs].
      rewrite (encodes_rows _ _ _ He) in Hevs.
      assert (length encs = length acc) as Hle by (rewrite (encodes_length _ _ _ He); apply length_map).
      unfold mbind, M_bind. simpl.
      rewrite bool_decide_true by done.
      split.
      * apply (remember_ok (w_journal w2) (map_to_list next) Hj2).
        -- intros p n Hl Hni. rewrite Hca in Hl. destruct p as [c s]. apply Hc1 in Hl as ->.
           change (get_producer_progress _ c s) with (durable j (c, s)).
           rewrite !durable_progress, Hpr. change (store (w_journal w1)) with (store j). rewrite Hpp, <-Hnext.
           rewrite overlay_lookup. destruct (next !! (c, s)) eqn:En; [|by rewrite <-durable_progress].
           exfalso. apply Hni. apply list_elem_of_fmap. exists ((c, s), z). split; [done|]. by apply elem_of_map_to_list.
        -- intros p n Hn%elem_of_map_to_list. rewrite durable_progress, Hpr.
           change (store (w_journal w1)) with (store j). by rewrite Hpp, <-Hnext, overlay_lookup, Hn.
      * exists encs. split_and!; try done.
        -- by apply group_outcomes.
        -- etrans; [exact Hpr|exact Hpp].
    + intros He. specialize (Ews He). rewrite Ews. split; [by split; [apply journal_ok_cache|]|done].
Qed.

(** one commit, exactly once.  With [n] the durable progress of the
    producer: an identity at or below [n] is answered as a duplicate and changes
    nothing durable; one above [n + 1] is rejected naming the expected identity;
    [n + 1] is committed or fails.  A commit makes durable, together, one record
    per (completed) event under consecutive sequence numbers and the progress
    [n + 1]; a failure with an [Exception] leaves store and counter untouched. *)
Theorem commit_exactly_once i request w :
  i < length (w_events w) -> jok (w_journal w) ->
  let '(w', r) := commit i request w in commit_contract i request w w' r.
Proof. apply commit_meets_contract. Qed.

(** C7: a group commit decides as the requests one by one would, and is one
    durable step.  On return the outcomes are, in request order, the duplicates
    and rejections of the serial admission and one commit per accepted request
    with the records of its (completed) events, numbered consecutively through
    the group; exactly their rows and the producers' final progress were stored.
    An [Exception] leaves store and counter as they were. *)
Theorem commit_group_serial requests w :
  length (w_events w) = length requests -> jok (w_journal w) ->
  let '(w', r) := commit_group requests w in group_contract requests w w' r.
Proof. apply group_meets_contract. Qed.

(** ** Exactly once, over any history *)

(** The commits an answer list reports. *)
Definition commit_log (requests : list TransactionRequest) (outs : list TransactionOutcome) : list (producer * Z) :=
  omap (fun ro => match ro.2 with
                  | Done c => match tc_status c with
                              | committed => Some (req_producer ro.1, tc_txn_id c)
                              | duplicate => None
                              end
                  | Failed _ => None
                  end) (zip requests outs).

(** One call of the server on the committer: a single commit or a group, on a
    scene and event objects that anything may have changed in between. *)
Inductive served : J -> list (producer * Z) -> J -> Prop :=
  | served_commit i request w w' r :
      i < length (w_events w) -> commit i request w = (w', r) ->
      (forall e, r = Err e -> is_exception e = true) ->
      served (w_journal w)
        (commit_log [request] [match r with Ok c => Done c | Err e => Failed e end]) (w_journal w')
  | served_group requests w w' r :
      length (w_events w) = length requests -> commit_group requests w = (w', r) ->
      (forall e, r = Err e -> is_exception e = true) ->
      served (w_journal w) (match r with Ok outs => commit_log requests outs | Err _ => [] end) (w_journal w').

Inductive history : J -> list (producer * Z) -> J -> Prop :=
  | history_nil j : history j [] j
  | history_cons j log j1 log' j2 :
      served j log j1 -> history j1 log' j2 -> history j (log ++ log') j2.

(** The transaction identities of one producer, in the order of the log. *)
Definition ids_of (p : producer) (log : list (producer * Z)) : list Z :=
  map snd (filter (fun x => x.1 = p) log).

Lemma ids_of_app p l k : ids_of p (l ++ k) = ids_of p l ++ ids_of p k.
Proof. unfold ids_of. by rewrite filter_app, map_app. Qed.

Lemma check_known r n o : check_transaction_id r n = Some o ->
  match o with Done c => tc_status c = duplicate /\ tc_records c = [] | Failed _ => True end.
Proof. unfold check_transaction_id. repeat case_bool_decide; by intros [= <-]. Qed.

Lemma group_log p d reqs encs :
  length encs = length (accepted_from 0 reqs (decisions d reqs).1) ->
  exists k, (0 ≤ k)%Z
    /\ ids_of p (commit_log reqs (fill reqs (decisions d reqs).1 encs)) = seqZ (default 0%Z (d !! p) + 1) k
    /\ default 0%Z ((decisions d reqs).2 !! p) = (default 0%Z (d !! p) + k)%Z.
Proof.
  generalize 0 as index. intros index. revert index d encs; induction reqs as [|r reqs IH]; intros index d encs Hl.
  { exists 0%Z. simpl. split_and!; [lia|done|lia]. }
  simpl in *. destruct (check_transaction_id r _) as [o|] eqn:E.
  - apply check_known in E. specialize (IH (S index) d encs). destruct (decisions d reqs) as [l d2]. simpl in *.
    destruct (IH Hl) as (k & Hk & Hids & Hd). exists k. split_and!; [done| |done].
    rewrite <-Hids. unfold commit_log. simpl. destruct o as [c|e]; [|done]. by destruct E as [-> _].
  - apply check_admits in E. specialize (IH (S index) (<[req_producer r := req_txn_id r]> d)).
    destruct (decisions _ reqs) as [l d2]. simpl in *.
    destruct encs as [|enc encs]; [done|]. injection Hl as Hl. destruct (IH encs Hl) as (k & Hk & Hids & Hd).
    unfold commit_log in *. simpl. unfold ids_of in *. rewrite filter_cons. simpl. case_decide as Hp.
    + subst p. rewrite lookup_insert_eq in Hids, Hd. simpl in Hids, Hd. exists (k + 1)%Z. split_and!; [lia| |lia].
      etrans; [exact (f_equal (cons (req_txn_id r)) Hids)|]. rewrite (seqZ_cons _ (k + 1)) by lia.
      f_equal; [done|]. f_equal; lia.
    + rewrite lookup_insert_ne in Hids, Hd by done. exists k. by split_and!.
Qed.

Lemma served_step j log j' : served j log j' -> jok j ->
  jok j' /\ forall p, (durable j p ≤ durable j' p)%Z
    /\ ids_of p log = seqZ (durable j p + 1) (durable j' p - durable j p).
Proof.
  assert (forall p a, seqZ (a + 1) (a - a) = [] /\ ids_of p [] = []) as Hnil.
  { intros p a. rewrite Z.sub_diag. done. }
  intros Hs Hj. destruct Hs as [i request w w' r Hi Hrun He|requests w w' r Hlen Hrun He].
  - pose proof (commit_meets_contract i request w Hi Hj) as Hc. rewrite Hrun in Hc. unfold commit_contract in Hc. simpl in Hc.
    destruct r as [c|e].
    + destruct Hc as (Hj' & _ & Hst). split; [done|]. intros p. unfold commit_log. simpl.
      destruct (tc_status c).
      * destruct Hst as (Ht & -> & _ & _ & _ & _ & Hpr). unfold ids_of. rewrite filter_cons, filter_nil. simpl.
        rewrite !durable_progress, Hpr. case_decide as Hp.
        -- subst p. rewrite lookup_insert_eq. simpl. rewrite durable_progress. split; [lia|].
           replace (_ - _)%Z with 1%Z by lia. by rewrite seqZ_cons by lia.
        -- rewrite lookup_insert_ne by done. split; [lia|]. by rewrite Z.sub_diag.
      * destruct Hst as (_ & _ & _ & Hst & _). unfold durable. rewrite Hst. split; [lia|]. by rewrite Z.sub_diag.
    + destruct (Hc (He e eq_refl)) as (Hj' & Hst & _). split; [done|]. intros p. unfold durable. rewrite Hst.
      split; [lia|]. by rewrite Z.sub_diag.
  - pose proof (group_meets_contract requests w Hlen Hj) as Hc. rewrite Hrun in Hc. unfold group_contract in Hc. simpl in Hc.
    destruct r as [outs|e].
    + destruct Hc as (Hj' & encs & -> & _ & Henc & _ & Hpr). split; [done|]. intros p.
      destruct (group_log p (progress_of (store (w_journal w))) requests encs) as (k & Hk & -> & Hd).
      { apply encodes_length in Henc. by rewrite length_map in Henc. }
      rewrite !durable_progress, Hpr, Hd. split; [lia|]. f_equal. lia.
    + destruct (Hc (He e eq_refl)) as (Hj' & Hst & _). split; [done|]. intros p. unfold durable. rewrite Hst.
      split; [lia|]. by rewrite Z.sub_diag.
Qed.

(** C2: exactly once.  Over any history of single and group commits (with
    failures, duplicates and rejections in between, on whatever scenes), the
    transactions reported as committed for a producer are exactly the identities
    after its initial durable progress up to its final one: in order, none twice,
    none missing. *)
Theorem history_exactly_once j log j' :
  jok j -> history j log j' ->
  jok j' /\ forall p, (durable j p ≤ durable j' p)%Z
    /\ ids_of p log = seqZ (durable j p + 1) (durable j' p - durable j p).
Proof.
  intros Hj Hh. revert Hj. induction Hh as [j|j log j1 log' j2 Hs _ IH]; intros Hj.
  - split; [done|]. intros p. split; [lia|]. by rewrite Z.sub_diag.
  - destruct (served_step j log j1 Hs Hj) as [Hj1 H1']. destruct (IH Hj1) as [Hj2 H2']. split; [done|]. intros p.
    destruct (H1' p) as [Hle1 Hids1], (H2' p) as [Hle2 Hids2]. split; [lia|].
    rewrite ids_of_app, Hids1, Hids2.
    replace (durable j2 p - durable j p)%Z with ((durable j1 p - durable j p) + (durable j2 p - durable j1 p))%Z by lia.
    rewrite seqZ_app by lia. f_equal. f_equal. lia.
Qed.
(** ** The layers side of the boundary *)

Definition same_specs (l l' : L) : Prop := forall q, spec_at l' q = spec_at l q.

(** Applying a request to its target writes under its rollback paths, and to
    the session layer when it has session events; success or failure. *)
Record honours_scope (target : string) (evs : list event) : Prop := {
  honours_tree s layer : tree (scene_layer layer s) ->
    tree (scene_layer layer (apply_validated list_info_keys (Some target) false evs s).1.1);
  honours_writes s :
    writes_within (scene_layer target s)
      (scene_layer target (apply_validated list_info_keys (Some target) false evs s).1.1)
      (scope_paths (managed_rollback_paths path_of text_of evs));
  honours_others s layer : layer ≠ target ->
    (layer = session_layer s -> existsb non_collaboration evs = false) ->
    same_specs (scene_layer layer s)
      (scene_layer layer (apply_validated list_info_keys (Some target) false evs s).1.1);
  honours_session s :
    session_layer (apply_validated list_info_keys (Some target) false evs s).1.1 = session_layer s }.

Lemma writes_within_mono l l' P Q : (forall p, p ∈ P -> p ∈ Q) -> writes_within l l' P -> writes_within l l' Q.
Proof. intros Hsub Hw q Hq. apply Hw. intros p Hp. by apply Hq, Hsub. Qed.

Lemma writes_within_trans l1 l2 l3 P : writes_within l1 l2 P -> writes_within l2 l3 P -> writes_within l1 l3 P.
Proof.
  intros H12 H23 q Hq. rewrite H23; [by apply H12|]. intros p Hp. destruct (Hq p Hp) as [Hn Hs].
  split; [done|]. intros Hqp. rewrite H12; [by apply Hs|done].
Qed.

Lemma writes_within_refl l P : writes_within l l P.
Proof. done. Qed.

Lemma same_specs_writes l l' P : same_specs l l' -> writes_within l l' P.
Proof. intros Hs q _. apply Hs. Qed.

(** A batch prepared from the current events, with usable scopes. *)
Record batch_ok (prepared : list PreparedTransaction) (w : world) : Prop := {
  batch_indices : indices_ok w prepared;
  batch_paths t : t ∈ prepared ->
    collaboration_paths t = managed_rollback_paths path_of text_of (events_at w (pt_index t))
    /\ has_session_events t = existsb non_collaboration (events_at w (pt_index t));
  batch_honours t : t ∈ prepared -> honours_scope (target_layer t) (events_at w (pt_index t));
  batch_target t : t ∈ prepared -> target_layer t ≠ session_layer (w_scene w);
  batch_trees layer : tree (scene_layer layer (w_scene w));
  batch_scopes layer paths : (layer, paths) ∈ layer_scopes prepared ->
    Forall (fun p => p ≠ []) paths /\ ancestors_first paths }.

Definition paths_step (d : list (string * gset string)) (t : PreparedTransaction) :=
  if bool_decide (collaboration_paths t = ∅) then d
  else dict_set (target_layer t)
         (fun old => match old with Some p => p ∪ collaboration_paths t | None => collaboration_paths t end) d.

Lemma paths_by_layer_covers prepared d :
  (forall t, t ∈ prepared -> collaboration_paths t ≠ ∅ ->
     exists P, dict_get (target_layer t) (foldl paths_step d prepared) = Some P /\ collaboration_paths t ⊆ P)
  /\ forall layer P, dict_get layer d = Some P ->
       exists P', dict_get layer (foldl paths_step d prepared) = Some P' /\ P ⊆ P'.
Proof.
  clear path_of text_of set_iter. revert d; induction prepared as [|t prepared IH]; intros d; simpl.
  - split; [by intros ? ?%not_elem_of_nil|]. intros layer P HP. by exists P.
  - destruct (IH (paths_step d t)) as [IH1 IH2].
    assert (forall layer P, dict_get layer d = Some P ->
      exists P', dict_get layer (paths_step d t) = Some P' /\ P ⊆ P') as Hkeep.
    { intros layer P HP. unfold paths_step. case_bool_decide; [by exists P|]. rewrite dict_get_set.
      case_decide as Hl; [|by exists P]. subst layer. rewrite HP. eexists; split; [done|]. set_solver. }
    split.
    + intros t' [->|Ht']%elem_of_cons Hne; [|by apply IH1].
      assert (exists P, dict_get (target_layer t) (paths_step d t) = Some P /\ collaboration_paths t ⊆ P) as (P & HP & HtP).
      { unfold paths_step. rewrite bool_decide_false by done. rewrite dict_get_set, decide_True by done.
        eexists; split; [done|]. destruct (dict_get (target_layer t) d); set_solver. }
      destruct (IH2 _ _ HP) as (P' & HP' & Hsub). exists P'. split; [done|]. set_solver.
    + intros layer P HP. destruct (Hkeep layer P HP) as (P1 & HP1 & Hs1).
      destruct (IH2 _ _ HP1) as (P2 & HP2 & Hs2). exists P2. split; [done|]. set_solver.
Qed.

Lemma paths_by_layer_NoDup prepared d : NoDup (map fst d) -> NoDup (map fst (foldl paths_step d prepared)).
Proof.
  revert d; induction prepared as [|t prepared IH]; intros d Hd; [done|]. simpl. apply IH.
  unfold paths_step. case_bool_decide; [done|]. by apply dict_set_NoDup.
Qed.

(** The single-request case computes the same scopes. *)
Lemma layer_scopes_uniform prepared :
  layer_scopes prepared = map (fun lp => (lp.1, scope_paths lp.2)) (paths_by_layer prepared).
Proof.
  unfold layer_scopes. destruct prepared as [|t [|t2 prepared]]; [done| |done].
  unfold paths_by_layer. simpl. by case_bool_decide.
Qed.

Lemma layer_scopes_NoDup prepared : NoDup (layer_scopes prepared).*1.
Proof.
  rewrite layer_scopes_uniform. rewrite <-list_fmap_compose.
  apply (paths_by_layer_NoDup prepared []). constructor.
Qed.

Context (set_iter_elem : forall (X : gset string) x, x ∈ set_iter X <-> x ∈ X).

Lemma scope_paths_mono X Y p : X ⊆ Y -> p ∈ scope_paths X -> p ∈ scope_paths Y.
Proof using set_iter_elem.
  unfold scope_paths. intros Hsub (x & -> & [Hne Hx]%list_elem_of_filter)%list_elem_of_fmap.
  apply list_elem_of_fmap. exists x. split; [done|]. apply list_elem_of_filter. split; [done|].
  apply set_iter_elem, Hsub. by apply set_iter_elem.
Qed.

Lemma layer_scopes_cover prepared t : t ∈ prepared -> collaboration_paths t ≠ ∅ ->
  exists paths, (target_layer t, paths) ∈ layer_scopes prepared
    /\ forall p, p ∈ scope_paths (collaboration_paths t) -> p ∈ paths.
Proof using set_iter_elem.
  intros Ht Hne. rewrite layer_scopes_uniform.
  destruct (proj1 (paths_by_layer_covers prepared []) t Ht Hne) as (P & HP & Hsub).
  exists (scope_paths P). split.
  - apply list_elem_of_fmap. exists (target_layer t, P). split; [done|]. by apply dict_get_elem.
  - intros p. by apply scope_paths_mono.
Qed.

(** What applying a part of the batch has written so far. *)
Record written_within (prepared : list PreparedTransaction) (w w' : world) : Prop := {
  ww_session : session_layer (w_scene w') = session_layer (w_scene w);
  ww_tree layer : tree (scene_layer layer (w_scene w'));
  ww_scoped layer paths : (layer, paths) ∈ layer_scopes prepared ->
    writes_within (scene_layer layer (w_scene w)) (scene_layer layer (w_scene w')) paths;
  ww_others layer : layer ∉ (layer_scopes prepared).*1 ->
    (snapshot_session prepared = true -> layer ≠ session_layer (w_scene w)) ->
    same_specs (scene_layer layer (w_scene w)) (scene_layer layer (w_scene w')) }.

Lemma layer_scopes_targets prepared layer paths :
  (layer, paths) ∈ layer_scopes prepared -> exists t, t ∈ prepared /\ target_layer t = layer.
Proof.
  rewrite layer_scopes_uniform. intros ([l P] & [= -> ->] & Hin)%list_elem_of_fmap. simpl.
  assert (l ∈ map fst (paths_by_layer prepared)) as Hl by (apply list_elem_of_fmap; by exists (l, P)).
  clear P Hin. revert Hl. unfold paths_by_layer.
  assert (forall d, l ∈ map fst (foldl paths_step d prepared) ->
    l ∈ map fst d \/ exists t, t ∈ prepared /\ target_layer t = l) as Hg.
  { induction prepared as [|t prepared IH]; intros d; simpl; [by left|].
    intros [Hd|(t' & Ht' & Hl)]%IH; [|right; exists t'; split; [by apply elem_of_cons; right|done]].
    revert Hd. unfold paths_step. case_bool_decide; [by left|].
    intros [->|?]%dict_set_keys; [right; exists t; split; [by apply elem_of_cons; left|done]|by left]. }
  intros Hl. destruct (Hg [] Hl) as [Hn|?]; [by apply not_elem_of_nil in Hn|done].
Qed.

Lemma keys_unique {K A} (l : list (K * A)) k a b : NoDup l.*1 -> (k, a) ∈ l -> (k, b) ∈ l -> a = b.
Proof.
  intros Hnd Ha Hb. induction l as [|[k1 a1] l IH]; [by apply not_elem_of_nil in Ha|].
  simpl in Hnd. apply NoDup_cons in Hnd as [Hni Hnd].
  apply elem_of_cons in Ha, Hb. destruct Ha as [Ha|Ha], Hb as [Hb|Hb]; simplify_eq; try done.
  - exfalso. apply Hni. apply list_elem_of_fmap. by eexists (_, _).
  - exfalso. apply Hni. apply list_elem_of_fmap. by eexists (_, _).
  - by apply IH.
Qed.

(** One more application keeps to the scopes. *)
Lemma written_within_apply prepared w0 w t :
  batch_ok prepared w0 -> t ∈ prepared -> events_at w (pt_index t) = events_at w0 (pt_index t) ->
  written_within prepared w0 w ->
  written_within prepared w0
    (on_request (pt_index t) (apply_validated list_info_keys (Some (target_layer t)) false) w).1.
Proof using set_iter_elem.
  intros Hb Ht Hev [Hs Htr Hsc Hot].
  destruct (batch_honours _ _ Hb t Ht) as [HT HW HO HS]. destruct (batch_paths _ _ Hb t Ht) as [Hcp Hse].
  set (f := apply_validated list_info_keys (Some (target_layer t)) false).
  assert (w_scene (on_request (pt_index t) f w).1 = (f (events_at w0 (pt_index t)) (w_scene w)).1.1) as Hsc'.
  { unfold on_request. rewrite Hev. by destruct (f (events_at w0 (pt_index t)) (w_scene w)) as [[? ?] ?]. }
  assert (forall layer, layer ≠ target_layer t -> layer ≠ session_layer (w_scene w0) ->
    same_specs (scene_layer layer (w_scene w)) (scene_layer layer (f (events_at w0 (pt_index t)) (w_scene w)).1.1)) as Hns.
  { intros layer H1' H2'. apply HO; [done|]. intros ->. by rewrite Hs in H2'. }
  assert (collaboration_paths t = ∅ -> same_specs (scene_layer (target_layer t) (w_scene w))
    (scene_layer (target_layer t) (f (events_at w0 (pt_index t)) (w_scene w)).1.1)) as Hempty.
  { intros He q. apply (HW (w_scene w)). intros p Hp. exfalso. rewrite <-Hcp, He in Hp.
    unfold scope_paths in Hp. apply list_elem_of_fmap in Hp as (x & _ & [_ Hx]%list_elem_of_filter).
    apply set_iter_elem in Hx. by apply not_elem_of_empty in Hx. }
  assert (snapshot_session prepared = false -> existsb non_collaboration (events_at w0 (pt_index t)) = false) as Hnosess.
  { intros Hsn. rewrite <-Hse. apply not_true_iff_false. intros Htrue. apply not_true_iff_false in Hsn. apply Hsn.
    apply existsb_exists. exists t. by rewrite <-list_elem_of_In. }
  split; rewrite Hsc'; [by rewrite HS|by intros layer; apply HT| |].
  - intros layer paths Hin. apply (writes_within_trans _ (scene_layer layer (w_scene w))); [by apply Hsc|].
    destruct (decide (layer = target_layer t)) as [->|Hne].
    + destruct (decide (collaboration_paths t = ∅)) as [He|He]; [by apply same_specs_writes, Hempty|].
      destruct (layer_scopes_cover prepared t Ht He) as (P & HP & Hsub).
      assert (P = paths) as ->.
      { pose proof (layer_scopes_NoDup prepared) as Hnd. apply (keys_unique _ _ _ _ Hnd HP Hin). }
      eapply writes_within_mono; [exact Hsub|]. rewrite Hcp. apply HW.
    + apply same_specs_writes. apply HO; [done|]. intros El.
      apply layer_scopes_targets in Hin as (t' & Ht' & Hl). exfalso.
      apply (batch_target _ _ Hb t' Ht'). by rewrite Hl, El.
  - intros layer Hni Hsess q. rewrite <-(Hot layer Hni Hsess q). revert q.
    change (same_specs (scene_layer layer (w_scene w)) (scene_layer layer (f (events_at w0 (pt_index t)) (w_scene w)).1.1)).
    destruct (decide (layer = target_layer t)) as [->|Hne].
    + apply Hempty. destruct (decide (collaboration_paths t = ∅)) as [He|He]; [done|]. exfalso. apply Hni.
      destruct (layer_scopes_cover prepared t Ht He) as (P & HP & _). apply list_elem_of_fmap. by exists (target_layer t, P).
    + apply HO; [done|]. intros El. apply Hnosess. destruct (snapshot_session prepared) eqn:E; [|done].
      exfalso. apply (Hsess eq_refl). by rewrite El, Hs.
Qed.

Lemma written_within_scene prepared w0 w w' :
  w_scene w' = w_scene w -> written_within prepared w0 w -> written_within prepared w0 w'.
Proof. intros E [? ? ? ?]. by split; rewrite E. Qed.

Lemma batch_ok_same prepared w w' :
  w_scene w' = w_scene w -> w_events w' = w_events w -> batch_ok prepared w -> batch_ok prepared w'.
Proof.
  destruct w as [sc j evs], w' as [sc' j' evs']. simpl. intros -> -> [Hi Hp Hh Ht Htr Hs]. by split.
Qed.

(** The mute state and the trackers. *)
Definition frame_kept (w w' : world) : Prop :=
  stk (stg (w_scene w')) = stk (stg (w_scene w)) /\ trk (w_scene w') = trk (w_scene w).

Lemma frame_kept_apply (Hframe : appliers_frame) i target w :
  frame_kept w (on_request i (apply_validated list_info_keys (Some target) false) w).1.
Proof.
  pose proof (apply_validated_stage list_info_keys (Some target) false (events_at w i) (w_scene w) Hframe) as Ha.
  unfold on_request. destruct (apply_validated _ _ _ _ (w_scene w)) as [[s evs] r].
  destruct Ha as (H1' & _ & _ & H4'). by split.
Qed.

Lemma apply_prepared_written prepared needs t w0 w w' r :
  batch_ok prepared w0 -> t ∈ prepared -> events_at w (pt_index t) = events_at w0 (pt_index t) ->
  written_within prepared w0 w -> apply_prepared needs t w = (w', r) ->
  written_within prepared w0 w' /\ (appliers_frame -> frame_kept w w')
  /\ forall k, k ≠ pt_index t -> events_at w' k = events_at w k.
Proof using set_iter_elem.
  intros Hb Ht Hev Hw. pose proof (written_within_apply prepared w0 w t Hb Ht Hev Hw) as Hw1.
  pose proof (fun Hf => frame_kept_apply Hf (pt_index t) (target_layer t) w) as Hfr.
  pose proof (on_request_frame (pt_index t)
    (apply_validated list_info_keys (Some (target_layer t)) false) w) as (_ & _ & Ho).
  unfold apply_prepared, mbind, M_bind.
  destruct (on_request _ _ w) as [w1 [u|e]]; simpl in *; [|by intros [= <- _]].
  destruct needs; [|by intros [= <- _]].
  destruct (encode_managed t w1) as [w2 r2] eqn:E. apply encode_managed_any in E as (_ & Hs & He).
  intros Hr. assert (w2 = w') as <- by (destruct r2; by injection Hr).
  split_and!; [by apply (written_within_scene _ _ w1)| |].
  - intros Hf. destruct (Hfr Hf). by split; rewrite Hs.
  - intros k Hk. unfold events_at. rewrite He. by apply Ho.
Qed.

Lemma apply_all_written prepared needs ps w0 w w' r :
  batch_ok prepared w0 -> (forall t, t ∈ ps -> t ∈ prepared) -> NoDup (map pt_index ps) ->
  (forall t, t ∈ ps -> events_at w (pt_index t) = events_at w0 (pt_index t)) ->
  written_within prepared w0 w -> mapM' (apply_prepared needs) ps w = (w', r) ->
  written_within prepared w0 w' /\ (appliers_frame -> frame_kept w w').
Proof using set_iter_elem.
  intros Hb. revert w r; induction ps as [|t ps IH]; intros w r Hsub Hnd Hev Hw Hr; simpl in Hr.
  - by injection Hr as <- _.
  - simpl in Hnd. apply NoDup_cons in Hnd as [Hni Hnd]. unfold mbind, M_bind in Hr.
    assert (t ∈ t :: ps) as Htin by (apply elem_of_cons; by left).
    destruct (apply_prepared needs t w) as [w1 r1] eqn:E.
    apply (apply_prepared_written prepared needs t w0) in E as (Hw1 & Hf1 & Ho); [|by auto..].
    destruct r1 as [more|e]; [|by injection Hr as <- _].
    destruct (mapM' (apply_prepared needs) ps w1) as [w2 r2] eqn:E2.
    assert (w2 = w') as -> by (destruct r2; by injection Hr).
    apply IH in E2 as [Hw2 Hf2]; [|intros t' Ht'; apply Hsub, elem_of_cons; by right|done| |done].
    + split; [done|]. intros Hf. destruct (Hf1 Hf), (Hf2 Hf). split; congruence.
    + intros t' Ht'. rewrite Ho; [apply Hev, elem_of_cons; by right|].
      intros E'. apply Hni. rewrite <-E'. apply list_elem_of_fmap. by exists t'.
Qed.

Lemma edit_body_written prepared needs encoded w w' e :
  batch_ok prepared w -> edit_body prepared needs encoded w = (w', Err e) ->
  written_within prepared w w' /\ (appliers_frame -> frame_kept w w').
Proof using set_iter_elem.
  intros Hb. assert (written_within prepared w w) as Hw0.
  { split; [done|apply Hb|done|done]. }
  pose proof (batch_indices _ _ Hb) as [Hnd _].
  unfold edit_body. intros [E|(w1 & more & E1 & E)]%M_bind_Err; [by eapply apply_all_written|].
  apply (apply_all_written prepared needs prepared w) in E1 as [Hw1 Hf1]; [|done..].
  apply M_bind_Err in E as [E|(w2 & u & E2 & E)].
  - unfold on_journal, zoom in E. destruct (append_batch _ _ _ _ (w_journal w1)) as [j r] eqn:Ea.
    injection E as <- ->. split; [by apply (written_within_scene _ _ w1)|done].
  - apply M_bind_Err in E as [E|(w3 & u3 & E3 & [=])].
    destruct (track_all prepared w2) as [sc Hsc]. rewrite Hsc in E. done.
Qed.

Lemma edit_scope_of_written prepared w w' :
  batch_ok prepared w -> written_within prepared w w' ->
  edit_scope_ok w_scene (layer_scopes prepared) (snapshot_session prepared) w w'.
Proof.
  intros Hb [Hs Htr Hsc Hot]. split.
  - apply layer_scopes_NoDup.
  - intros ([l P] & El & Hin)%list_elem_of_fmap. apply layer_scopes_targets in Hin as (t & Ht & Hl).
    apply (batch_target _ _ Hb t Ht). by rewrite Hl, El.
  - intros layer paths Hin. destruct (batch_scopes _ _ Hb layer paths Hin) as [Hne Ho].
    split; [apply (batch_trees _ _ Hb)|apply Htr|done|done|by apply Hsc].
  - intros layer Hni Hse. by apply Hot.
Qed.

Lemma set_w_scene_same w : set_w_scene (w_scene w) w = w.
Proof. by destruct w. Qed.

(** A managed batch that fails restores the scene; what it leaves of the journal is
    [managed_batch_journal]'s. *)
Lemma failed_batch_scene prepared w w' e :
  batch_ok prepared w -> apply_and_persist_managed prepared w = (w', Err e) -> is_exception e = true ->
  (forall layer q, spec_at (scene_layer layer (w_scene w')) q = spec_at (scene_layer layer (w_scene w)) q)
  /\ edit_target (stg (w_scene w')) = edit_target (stg (w_scene w))
  /\ (appliers_frame -> frame_kept w w').
Proof using set_iter_elem.
  intros Hb Hrun He.
  unfold apply_and_persist_managed, mbind, M_bind in Hrun.
  set (needs := needs_scene_fields w prepared) in *.
  destruct ((if needs then mret [] else mapM' encode_managed prepared) w) as [w1 r1] eqn:E1.
  assert (w_scene w1 = w_scene w /\ w_events w1 = w_events w) as [Hs1 He1].
  { destruct needs; [by injection E1 as <- _|]. by apply encode_all_any in E1 as (_ & ? & ?). }
  destruct r1 as [encoded|e1]; [|injection Hrun as <- <-; unfold frame_kept; by rewrite Hs1].
  apply (batch_ok_same _ _ w1) in Hb; [|done|done].
  destruct (edit_body prepared needs encoded w1) as [w2 r2] eqn:E2.
  assert (forall layer paths, (layer, paths) ∈ layer_scopes prepared ->
    tree (view_layer w_scene layer w1) /\ Forall (fun p => p ≠ []) paths) as Henter.
  { intros layer paths Hin. split; [apply (batch_trees _ _ Hb)|by apply (batch_scopes _ _ Hb layer)]. }
  destruct r2 as [encs|e2].
  { eapply (atomic_edit_success w_scene set_w_scene (fun _ _ => eq_refl) (fun _ _ _ => eq_refl)
      set_w_scene_same) in E2 as (w3 & Hok); [|exact Henter].
    rewrite Hok in Hrun. done. }
  pose proof (edit_body_written _ _ _ _ _ _ Hb E2) as [Hw Hf].
  pose proof (edit_scope_of_written _ _ _ Hb Hw) as Hscope.
  destruct (atomic_edit_failure w_scene set_w_scene (fun _ _ => eq_refl) (fun _ _ _ => eq_refl) set_w_scene_same
              _ _ _ w1 w2 e2 E2 Hscope) as (c & Hres & Hc).
  rewrite Hres in Hrun. injection Hrun as <- <-. rewrite He. unfold frame_kept, view_layer in *. simpl in *.
  rewrite Hs1 in Hc, Hf |- *. by split_and!.
Qed.

(** The sequence reservation changes the journal of a failing body and nothing else. *)
Lemma with_sequences_Err {A} (body : M world A) w w' e : with_sequences body w = (w', Err e) ->
  exists w1, body w = (w1, Err e) /\ w_scene w' = w_scene w1.
Proof.
  unfold with_sequences, try_catch. destruct (body w) as [w1 [a|e1]]; intros [= <- <-].
  exists w1. split; [done|]. by destruct (is_exception e1).
Qed.

(** C16: a managed batch that fails with an ordinary exception (applying, encoding
    after a deletion, or storing raised) leaves no trace: every spec of every layer
    and the edit target are restored, and the journal is the one before the batch,
    its stored rows, producer progress, queue and sequence counter included.  The
    layer stack with its mutes and the prim trackers are
    restored too if appliers leave them alone ([appliers_frame]).  Provided
    ([batch_ok]) the appliers write within the declared rollback paths, the paths of
    a layer are iterated ancestors first, and no request edits the session layer. *)
Theorem failed_batch_leaves_no_trace prepared w w' e :
  batch_ok prepared w -> with_sequences (apply_and_persist_managed prepared) w = (w', Err e) -> is_exception e = true ->
  (forall layer q, spec_at (scene_layer layer (w_scene w')) q = spec_at (scene_layer layer (w_scene w)) q)
  /\ edit_target (stg (w_scene w')) = edit_target (stg (w_scene w))
  /\ (appliers_frame -> frame_kept w w')
  /\ w_journal w' = w_journal w.
Proof using set_iter_elem.
  intros Hb Hrun He. pose proof (with_sequences_Err _ _ _ _ Hrun) as (w1 & Hrun1 & Hs).
  destruct (failed_batch_scene _ _ _ _ Hb Hrun1 He) as (H1' & H2' & H3'). unfold frame_kept in *. rewrite Hs.
  split_and!; [done..|]. apply with_sequences_cases in Hrun; [by apply Hrun|].
  intros w2 e2 H2. exact (managed_batch_journal prepared w w2 (Err e2) (batch_indices _ _ Hb) H2).
Qed.
End commit.

(** ** Witnesses: one request that defines [/A] on the default layer *)

Definition demo_path_of (s : string) : path := if bool_decide (s = "/") then [] else [str_drop 1 s].
Definition demo_text_of (p : path) : string := "/" +:+ default "" (head p).
Definition demo_iter (X : gset string) : list string := elements X.

Abbreviation demo_world := (world (L := demo_L) (R := unit) (Offset := Z) (C := gset string) (St := Sqlite.db)).

Definition demo_w (events : list (list event)) : demo_world := mk_world demo_scene demo_journal events.

Definition demo_request (txn : Z) : TransactionRequest := mk_request "c" "s" txn None None None "".

Abbreviation demo_commit := (commit demo_keys demo_encode demo_path_of demo_text_of demo_iter).
Abbreviation demo_group := (commit_group demo_keys demo_encode demo_path_of demo_text_of demo_iter).

Lemma demo_jok : jok (w_journal (demo_w [])).
Proof. split; [apply journal_init_ok|]. by intros c s n Hn. Qed.

Lemma commit_exactly_once_witness :
  let '(w', r) := demo_commit 0 (demo_request 1) (demo_w [[demo_ensure_event "/A"]]) in
  is_ok r = true /\ jok (w_journal w').
Proof.
  pose proof (commit_exactly_once demo_keys demo_encode demo_path_of demo_text_of demo_iter 0 (demo_request 1)
    (demo_w [[demo_ensure_event "/A"]]) ltac:(simpl; lia) demo_jok) as Hc.
  destruct (demo_commit 0 (demo_request 1) (demo_w [[demo_ensure_event "/A"]])) as [w' [c|e]] eqn:E.
  - split; [done|]. apply Hc.
  - exfalso. apply (f_equal (fun x => is_ok x.2)) in E. revert E.
    by assert (is_ok (demo_commit 0 (demo_request 1) (demo_w [[demo_ensure_event "/A"]])).2 = true) as -> by (by vm_compute).
Defined.

(** The second request repeats the identity of the first, the third follows. *)
Definition demo_batch : list TransactionRequest := [demo_request 1; demo_request 1; demo_request 2].
Definition demo_batch_world : demo_world :=
  demo_w [[demo_ensure_event "/A"]; [demo_ensure_event "/B"]; [demo_ensure_event "/C"]].

Lemma demo_group_ok w r : demo_group demo_batch demo_batch_world = (w, r) -> is_ok r = true.
Proof.
  assert (is_ok (demo_group demo_batch demo_batch_world).2 = true) as Hok by (by vm_compute).
  intros E. by rewrite E in Hok.
Qed.

Definition demo_log : list ((string * string) * Z) :=
  commit_log demo_batch (match (demo_group demo_batch demo_batch_world).2 with Ok outs => outs | Err _ => [] end).

Lemma demo_log_eq : demo_log = [(("c", "s"), 1%Z); (("c", "s"), 2%Z)].
Proof. by vm_compute. Qed.

Lemma commit_group_serial_witness :
  let '(w', r) := demo_group demo_batch demo_batch_world in
  match r with
  | Ok outs => Sqlite.producer_sessions (store (w_journal w')) = {[("c", "s") := 2%Z]}
               /\ commit_log demo_batch outs = [(("c", "s"), 1%Z); (("c", "s"), 2%Z)]
  | Err _ => False
  end.
Proof.
  pose proof (commit_group_serial demo_keys demo_encode demo_path_of demo_text_of demo_iter demo_batch
    demo_batch_world eq_refl demo_jok) as Hc.
  pose proof demo_log_eq as Hlog. unfold demo_log in Hlog.
  destruct (demo_group demo_batch demo_batch_world) as [w' [outs|e]] eqn:E.
  - destruct Hc as (_ & encs & _ & _ & _ & _ & Hpr). split; [|exact Hlog].
    etrans; [exact Hpr|]. by vm_compute.
  - by apply demo_group_ok in E.
Defined.

Lemma history_exactly_once_witness :
  exists first n, ids_of ("c", "s") demo_log = seqZ first n /\ seqZ first n = [1%Z; 2%Z].
Proof.
  pose proof demo_log_eq as Hlog. unfold demo_log in *.
  destruct (demo_group demo_batch demo_batch_world) as [w' r] eqn:E. simpl in *.
  assert (served demo_keys demo_encode demo_path_of demo_text_of demo_iter (w_journal demo_batch_world)
    (match r with Ok outs => commit_log demo_batch outs | Err _ => [] end) (w_journal w')) as Hs.
  { eapply served_group; [done|exact E|]. intros e ->. by apply demo_group_ok in E. }
  pose proof (history_exactly_once demo_keys demo_encode demo_path_of demo_text_of demo_iter _ _ _
    demo_jok (history_cons _ _ _ _ _ _ _ _ _ _ Hs (history_nil _ _ _ _ _ _))) as [_ Hh].
  destruct (Hh ("c", "s")) as [_ Hids]. rewrite app_nil_r in Hids.
  destruct r as [outs|e]; [|by apply demo_group_ok in E].
  eexists _, _. split; [exact Hids|]. rewrite <-Hids, Hlog. by vm_compute.
Defined.

(** A request whose second event has an unknown kind: applying raises after
    the first event was written. *)
Definition demo_bad_event : event := {["k" := PStr "unknown"; "prim" := PStr "/A"]}.
Definition demo_bad : list event := [demo_ensure_event "/A"; demo_bad_event].

Lemma demo_define_executes (w : demo_stage * gset string) :
  execute (demo_ensure_event "/A") w
  = ((set_layer_content (edit_target w.1)
        (<[["A"] := "Xform"]> (layer_content w.1 (edit_target w.1))) w.1, w.2), Ok ()).
Proof.
  unfold execute, apply_structural, on_stage, zoom, apply_event, is_instance_proxy_target.
  assert (is_barrier (demo_ensure_event "/A") = false) as -> by (by vm_compute).
  assert (is_structural (demo_ensure_event "/A") = true) as -> by (by vm_compute).
  assert (kind_of (demo_ensure_event "/A") = K_ENSURE_PRIM) as -> by (by vm_compute).
  rewrite bool_decide_eq_true_2 by (by vm_compute). simpl.
  assert (str_of (demo_ensure_event "/A") "prim" = "/A") as -> by (by vm_compute).
  rewrite bool_decide_eq_false_2 by done. unfold demo_define, modify.
  assert (str_of (demo_ensure_event "/A") "prim" = "/A") as -> by (by vm_compute).
  by assert (str_of (demo_ensure_event "/A") "typeName" = "Xform") as -> by (by vm_compute).
Qed.

Lemma demo_unknown_executes (w : demo_stage * gset string) : execute demo_bad_event w = (w, Err ValueError).
Proof.
  unfold execute, apply_value, apply_structural, on_stage, zoom, apply_event.
  assert (is_barrier demo_bad_event = false) as -> by (by vm_compute).
  assert (is_structural demo_bad_event = false) as -> by (by vm_compute).
  assert (kind_of demo_bad_event = "unknown") as -> by (by vm_compute).
  rewrite bool_decide_eq_false_2 by (by vm_compute). simpl. by destruct w.
Qed.

Lemma demo_bad_apply (w : demo_stage * gset string) :
  apply_events demo_bad true w =
  ((set_layer_content (edit_target w.1)
      (<[["A"] := "Xform"]> (layer_content w.1 (edit_target w.1))) w.1, w.2), Err ValueError).
Proof.
  unfold apply_events, mbind, M_bind. simpl mret.
  change (apply_loop [] demo_bad w = ((set_layer_content (edit_target w.1)
      (<[["A"] := "Xform"]> (layer_content w.1 (edit_target w.1))) w.1, w.2), Err ValueError)).
  rewrite apply_loop_execute by (by intros ? ?%not_elem_of_nil).
  assert (schedule_from [] demo_bad = demo_bad) as ->.
  { unfold demo_bad. cbn [schedule_from app].
    assert (is_barrier (demo_ensure_event "/A") = false) as -> by (by vm_compute).
    assert (is_barrier demo_bad_event = false) as -> by (by vm_compute). by vm_compute. }
  unfold demo_bad, iterM, mbind, M_bind. rewrite demo_define_executes. simpl. by rewrite demo_unknown_executes.
Qed.

Lemma demo_bad_validated (target : string) (s : demo_state) :
  let s' := (apply_validated demo_keys (Some target) false demo_bad s).1.1 in
  contents (stg s') = <[target := <[["A"] := "Xform"]> (scene_layer target s)]> (contents (stg s))
  /\ session_layer s' = session_layer s.
Proof.
  unfold apply_validated. assert (existsb non_collaboration demo_bad = false) as -> by (by vm_compute).
  assert (existsb (fun ev => negb (non_collaboration ev)) demo_bad = true) as -> by (by vm_compute).
  unfold apply_with_deletion_fields, demo_bad.
  assert (forall layer (s : demo_state), (deletion_loop demo_keys layer [] demo_bad s) =
    let '(s, r) := scene_apply demo_bad true s in (s, demo_bad, r)) as Hd.
  { intros layer s0. unfold demo_bad. cbn [deletion_loop].
    assert (is_deletion (demo_ensure_event "/A") = false) as -> by (by vm_compute).
    by assert (is_deletion demo_bad_event = false) as -> by (by vm_compute). }
  fold demo_bad. cbn [default from_option id]. rewrite Hd. unfold scene_apply, zoom. rewrite demo_bad_apply.
  unfold op_cache_for. destruct (is_muted s target) eqn:Em; simpl; by case_bool_decide.
Qed.

Lemma demo_paths : scope_paths demo_path_of demo_iter
  (managed_rollback_paths demo_path_of demo_text_of demo_bad) = [["A"]].
Proof. by vm_compute. Qed.

Lemma demo_tree_define (l : demo_L) : tree l -> tree (<[["A"] := "Xform"]> l : demo_L).
Proof.
  intros Ht p. simpl. destruct (decide (p = ["A"])) as [->|Hne]; [by eexists|].
  destruct (decide (p = [])) as [->|Hp]; [by eexists|].
  rewrite (map_spec_at_ne _ p) by done. rewrite lookup_insert_ne by done. intros Hs.
  destruct (decide (parent p = [])) as [->|Hpp]; [by eexists|].
  rewrite map_spec_at_ne by done. destruct (decide (parent p = ["A"])) as [->|Hpa]; [by rewrite lookup_insert_eq|].
  rewrite lookup_insert_ne by done. specialize (Ht p). simpl in Ht. rewrite !map_spec_at_ne in Ht by done. auto.
Qed.

Lemma demo_writes_define (l : demo_L) : writes_within l (<[["A"] := "Xform"]> l : demo_L) [["A"]].
Proof.
  intros q Hq. destruct (Hq ["A"]) as [HA _]; [by apply list_elem_of_singleton|]. simpl.
  destruct (decide (q = [])) as [->|Hne]; [done|].
  rewrite !map_spec_at_ne by done. rewrite lookup_insert_ne; [done|]. by intros <-.
Qed.

Lemma demo_bad_written (target layer : string) (s : demo_state) :
  scene_layer layer (apply_validated demo_keys (Some target) false demo_bad s).1.1
  = if decide (layer = target) then <[["A"] := "Xform"]> (scene_layer target s) else scene_layer layer s.
Proof.
  destruct (demo_bad_validated target s) as [Hc _]. unfold scene_layer, layer_content in *. rewrite Hc.
  case_decide as Hl; [by rewrite Hl, lookup_insert_eq|by rewrite lookup_insert_ne].
Qed.

Lemma demo_honours (target : string) : honours_scope demo_keys demo_path_of demo_text_of demo_iter target demo_bad.
Proof.
  split.
  - intros s layer Ht. rewrite demo_bad_written. case_decide as Hl; [|exact Ht].
    subst. exact (demo_tree_define _ Ht).
  - intros s. rewrite demo_paths, demo_bad_written, decide_True by done. apply demo_writes_define.
  - intros s layer Hne _ q. by rewrite demo_bad_written, decide_False.
  - intros s. apply demo_bad_validated.
Qed.

Definition demo_prepared : list PreparedTransaction :=
  [mk_prepared 0 (transaction_of (demo_request 1)) "anon:1" "default"
     (managed_rollback_paths demo_path_of demo_text_of demo_bad) false].

Lemma demo_batch_ok : batch_ok demo_keys demo_path_of demo_text_of demo_iter demo_prepared (demo_w [demo_bad]).
Proof.
  split.
  - split; [by apply NoDup_singleton|]. intros t ->%list_elem_of_singleton. simpl. lia.
  - intros t ->%list_elem_of_singleton. split; [done|by vm_compute].
  - intros t ->%list_elem_of_singleton. apply demo_honours.
  - by intros t ->%list_elem_of_singleton.
  - intros layer. apply demo_tree. by vm_compute.
  - assert (layer_scopes demo_path_of demo_iter demo_prepared = [("anon:1", [["A"]])]) as -> by (by vm_compute).
    intros layer paths [= -> ->]%list_elem_of_singleton. split; [repeat constructor; done|].
    apply demo_singleton_ancestors.
Qed.

Lemma failed_batch_leaves_no_trace_witness :
  let '(w', r) := with_sequences (apply_and_persist_managed demo_keys demo_encode demo_path_of demo_iter demo_prepared)
                    (demo_w [demo_bad]) in
  r = Err ValueError /\ spec_at (scene_layer "anon:1" (w_scene w')) ["A"] = None /\ next_seq (w_journal w') = 1%Z.
Proof.
  assert ((with_sequences (apply_and_persist_managed demo_keys demo_encode demo_path_of demo_iter demo_prepared)
             (demo_w [demo_bad])).2 = Err ValueError) as Hr by (by vm_compute).
  destruct (with_sequences _ (demo_w [demo_bad])) as [w' r] eqn:E.
  simpl in Hr. subst r.
  split; [done|].
  destruct (failed_batch_leaves_no_trace demo_keys demo_encode demo_path_of demo_text_of demo_iter
    (fun X x => elem_of_elements X x) demo_prepared (demo_w [demo_bad]) w' ValueError demo_batch_ok E eq_refl)
    as (Hs & _ & _ & Hj).
  rewrite Hs, Hj. split; by vm_compute.
Defined.
