(* ===== verification/Barrier.v ===== *)
(** The maintenance barrier of [server/_txn_barrier.py]: admitted transactions
    hold it shared, history maintenance holds it exclusively.

    [_TxnBarrier] is a counter and a flag under one condition variable, so the
    unit of interleaving is a critical section: from taking the lock to leaving
    it or going to sleep in [wait].  Each method is translated section by
    section ([None] is "the [while] test sends the caller to [wait]"), and the
    participants' control points form the step relation.  A participant stands
    for one ownership: a queued transaction's share is released by the commit
    worker, which makes no difference here. *)

From stdpp Require Import base gmap list relations.
From Stdlib Require Import ZArith Lia.
From S2P Require Import Prelude.
#[local] Set Default Goal Selector "!".
Open Scope Z_scope.

(** ** The barrier *)

Record barrier := mk_barrier { readers : Z; exclusive : bool }.
Definition barrier_init : barrier := mk_barrier 0 false.

Definition acquire_shared (b : barrier) : option barrier :=
  if exclusive b then None else Some (mk_barrier (readers b + 1) (exclusive b)).

(** The second component is [notify_all()]. *)
Definition release_shared (b : barrier) : barrier * bool :=
  let b := mk_barrier (readers b - 1) (exclusive b) in (b, bool_decide (readers b = 0)).

(** The first loop of [acquire_exclusive] and the assignment after it. *)
Definition claim_exclusive (b : barrier) : option barrier :=
  if exclusive b then None else Some (mk_barrier (readers b) true).
(** The second loop: [false] goes to [wait]. *)
Definition drained (b : barrier) : bool := negb (0 <? readers b).

Definition release_exclusive (b : barrier) : barrier * bool := (mk_barrier (readers b) false, true).

(** ** Participants *)

Inductive point : Type :=
  | Idle
  | WantShared | SleepShared | HoldShared
  | WantExclusive | SleepExclusive
  | Draining | SleepDraining
  | HoldExclusive.

#[export] Instance point_eq_dec : EqDecision point.
Proof. solve_decision. Defined.

Definition wake (p : point) : point :=
  match p with
  | SleepShared => WantShared
  | SleepExclusive => WantExclusive
  | SleepDraining => Draining
  | p => p
  end.

Record system := mk_system { bar : barrier; points : list point }.
Definition notify (b : bool) (ps : list point) : list point := if b then map wake ps else ps.

(** One critical section of the participant at the given point; [None] where it
    has none ([Idle] starts by choice, sleepers are moved by a notification). *)
Definition section (b : barrier) (p : point) : option (barrier * point * bool) :=
  match p with
  | WantShared =>
      Some (match acquire_shared b with
            | Some b => (b, HoldShared, false)
            | None => (b, SleepShared, false)
            end)
  | HoldShared => let '(b, n) := release_shared b in Some (b, Idle, n)
  | WantExclusive =>
      Some (match claim_exclusive b with
            | Some b => (b, if drained b then HoldExclusive else SleepDraining, false)
            | None => (b, SleepExclusive, false)
            end)
  | Draining => Some (b, if drained b then HoldExclusive else SleepDraining, false)
  | HoldExclusive => let '(b, n) := release_exclusive b in Some (b, Idle, n)
  | Idle | SleepShared | SleepExclusive | SleepDraining => None
  end.

Definition run_section (i : nat) (s : system) : option system :=
  p ← points s !! i;
  '(b, p, n) ← section (bar s) p;
  Some (mk_system b (<[i := p]> (notify n (points s)))).

(** [start]: a participant calls [acquire_shared] or [acquire_exclusive]. *)
Definition start (shared : bool) (i : nat) (s : system) : option system :=
  p ← points s !! i;
  if bool_decide (p = Idle)
  then Some (mk_system (bar s) (<[i := if shared then WantShared else WantExclusive]> (points s)))
  else None.

Inductive step : system -> system -> Prop :=
  | step_start shared i s s' : start shared i s = Some s' -> step s s'
  | step_section i s s' : run_section i s = Some s' -> step s s'.

Definition system_init (n : nat) : system := mk_system barrier_init (replicate n Idle).

(** ** Counting *)

Definition count (P : point -> bool) (ps : list point) : Z :=
  foldr (fun p n => (if P p then 1 else 0) + n) 0 ps.

Definition is_shared (p : point) : bool := bool_decide (p = HoldShared).
(** Owners of the [_exclusive] flag. *)
Definition is_owner (p : point) : bool :=
  match p with Draining | SleepDraining | HoldExclusive => true | _ => false end.

Lemma count_insert P ps i p q : ps !! i = Some p ->
  count P (<[i := q]> ps) = count P ps - (if P p then 1 else 0) + (if P q then 1 else 0).
Proof.
  revert i; induction ps as [|x ps IH]; intros [|i] Hi; simplify_eq/=; [lia|].
  rewrite (IH i) by done. lia.
Qed.

Lemma count_map P f ps : (forall p, P (f p) = P p) -> count P (map f ps) = count P ps.
Proof. intros Hf. induction ps as [|p ps IH]; simpl; [done|]. by rewrite Hf, IH. Qed.

Lemma count_nonneg P ps : 0 ≤ count P ps.
Proof. induction ps as [|p ps IH]; simpl; [done|]. destruct (P p); lia. Qed.

Lemma count_le P ps i p : ps !! i = Some p -> P p = true -> 1 ≤ count P ps.
Proof.
  revert i; induction ps as [|x ps IH]; intros [|i] Hi Hp; simplify_eq/=.
  - rewrite Hp. pose proof (count_nonneg P ps). lia.
  - specialize (IH i Hi Hp). destruct (P x); lia.
Qed.

Lemma count_two P ps i j p q : ps !! i = Some p -> ps !! j = Some q -> i ≠ j ->
  P p = true -> P q = true -> 2 ≤ count P ps.
Proof.
  revert i j; induction ps as [|x ps IH]; intros [|i] [|j] Hi Hj Hne Hp Hq; simplify_eq/=.
  - rewrite Hp. pose proof (count_le P ps j q Hj Hq). lia.
  - rewrite Hq. pose proof (count_le P ps i p Hi Hp). lia.
  - specialize (IH i j Hi Hj ltac:(lia) Hp Hq). destruct (P x); lia.
Qed.

Lemma count_pos P ps : 1 ≤ count P ps -> exists i p, ps !! i = Some p /\ P p = true.
Proof.
  induction ps as [|x ps IH]; simpl; [lia|]. destruct (P x) eqn:E.
  - intros _. by exists 0%nat, x.
  - intros H. destruct IH as (i & p & Hi & Hp); [lia|]. by exists (S i), p.
Qed.

Lemma count_0 P ps : count P ps = 0 -> forall i p, ps !! i = Some p -> P p = false.
Proof.
  intros Hc i p Hi. destruct (P p) eqn:E; [|done]. pose proof (count_le P ps i p Hi E). lia.
Qed.

Lemma notify_shared b ps : count is_shared (notify b ps) = count is_shared ps.
Proof. destruct b; [|done]. apply count_map. by intros []. Qed.
Lemma notify_owner b ps : count is_owner (notify b ps) = count is_owner ps.
Proof. destruct b; [|done]. apply count_map. by intros []. Qed.
Lemma notify_lookup b ps i p : ps !! i = Some p -> wake p = p -> notify b ps !! i = Some p.
Proof. intros Hi Hp. destruct b; simpl; [|done]. rewrite list_lookup_fmap, Hi. simpl. by rewrite Hp. Qed.
Lemma notify_Some b ps i p : notify b ps !! i = Some p ->
  exists q, ps !! i = Some q /\ p = if b then wake q else q.
Proof.
  destruct b; simpl; [|eauto]. rewrite list_lookup_fmap. intros (q & -> & Hq)%fmap_Some. eauto.
Qed.

(** ** The invariant *)

Record barrier_ok (s : system) : Prop := {
  ok_readers : readers (bar s) = count is_shared (points s);
  ok_owner : (if exclusive (bar s) then 1 else 0) = count is_owner (points s);
  ok_held : forall i, points s !! i = Some HoldExclusive -> readers (bar s) = 0;
  ok_waiting : forall i p, points s !! i = Some p ->
    match p with
    | SleepShared | SleepExclusive => exclusive (bar s) = true
    | SleepDraining => 0 < readers (bar s)
    | _ => True
    end;
}.

Lemma count_replicate P n : P Idle = false -> count P (replicate n Idle) = 0.
Proof. intros HP. induction n as [|n IH]; simpl; [done|]. by rewrite HP, IH. Qed.

Lemma system_init_ok n : barrier_ok (system_init n).
Proof.
  split; simpl.
  - by rewrite count_replicate.
  - by rewrite count_replicate.
  - by intros i [? _]%lookup_replicate.
  - intros i p [-> _]%lookup_replicate. done.
Qed.

(** What holds of the other participants and of the new point suffices. *)
Lemma barrier_ok_update s i p b q n :
  barrier_ok s -> points s !! i = Some p ->
  readers b = readers (bar s) - (if is_shared p then 1 else 0) + (if is_shared q then 1 else 0) ->
  (if exclusive b then 1 else 0)
    = (if exclusive (bar s) then 1 else 0) - (if is_owner p then 1 else 0) + (if is_owner q then 1 else 0) ->
  wake p = p ->
  (q = HoldExclusive -> readers b = 0) ->
  (readers b ≤ readers (bar s) \/ exclusive (bar s) = false) ->
  (n = true \/ exclusive b = exclusive (bar s) \/ exclusive b = true) ->
  (n = true \/ readers (bar s) ≤ readers b \/ 0 < readers b) ->
  match q with
  | SleepShared | SleepExclusive => exclusive b = true
  | SleepDraining => 0 < readers b
  | _ => True
  end ->
  barrier_ok (mk_system b (<[i := q]> (notify n (points s)))).
Proof.
  intros [Hr Ho Hh Hw] Hi Hrb Hob Hp Hq Hle Hn1 Hn2 Hsq.
  assert (notify n (points s) !! i = Some p) as Hni by (by apply notify_lookup).
  assert (i < length (notify n (points s)))%nat as Hlen by (by apply lookup_lt_Some in Hni).
  split; simpl.
  - rewrite (count_insert _ _ i p) by done. rewrite notify_shared. lia.
  - rewrite (count_insert _ _ i p) by done. rewrite notify_owner. lia.
  - intros j Hj. destruct (decide (i = j)) as [->|Hne].
    { rewrite list_lookup_insert_eq in Hj by done. apply Hq. congruence. }
    rewrite list_lookup_insert_ne in Hj by done. apply notify_Some in Hj as (q' & Hj & Eq).
    assert (q' = HoldExclusive) as -> by (destruct n, q'; done).
    pose proof (Hh j Hj) as H0. pose proof (count_le is_owner _ _ _ Hj eq_refl) as Hc.
    destruct Hle as [Hle|Hex]; [|rewrite Hex in Ho; lia].
    pose proof (count_nonneg is_shared (points s)).
    assert (0 ≤ readers b) as Hnn; [|lia]. destruct (is_shared p) eqn:Ep; [|destruct (is_shared q); lia].
    pose proof (count_le is_shared _ _ _ Hi Ep). lia.
  - intros j p' Hj. destruct (decide (i = j)) as [->|Hne].
    { rewrite list_lookup_insert_eq in Hj by done. simplify_eq. exact Hsq. }
    rewrite list_lookup_insert_ne in Hj by done. apply notify_Some in Hj as (q' & Hj & ->).
    pose proof (Hw j q' Hj) as Hw'. destruct n; [by destruct q'|].
    destruct Hn1 as [?|Hn1]; [done|]. destruct Hn2 as [?|Hn2]; [done|].
    destruct q'; try done; [destruct Hn1 as [->|]; done..|lia].
Qed.

Lemma barrier_ok_start shared i s s' : barrier_ok s -> start shared i s = Some s' -> barrier_ok s'.
Proof.
  unfold start. intros Hok Hs. destruct (points s !! i) as [p|] eqn:Hi; [simpl in Hs|done].
  case_bool_decide as Hp; [|done]. subst p. injection Hs as <-.
  apply (barrier_ok_update s i Idle (bar s) _ false); try done; destruct shared; simpl; try lia;
    first [left; lia|right; left; done|right; left; lia|done].
Qed.

Lemma readers_nonneg s : barrier_ok s -> 0 ≤ readers (bar s).
Proof. intros [-> _ _ _]. apply count_nonneg. Qed.

Lemma barrier_ok_section i s s' : barrier_ok s -> run_section i s = Some s' -> barrier_ok s'.
Proof.
  unfold run_section. intros Hok Hs. destruct (points s !! i) as [p|] eqn:Hi; [simpl in Hs|done].
  destruct (section (bar s) p) as [[[b q] n]|] eqn:Hsec; [simpl in Hs; injection Hs as <-|done].
  pose proof (readers_nonneg s Hok) as Hnn.
  assert (is_owner p = true -> exclusive (bar s) = true) as Hown.
  { intros Hp. pose proof (count_le is_owner _ _ _ Hi Hp). pose proof (ok_owner s Hok). destruct (exclusive (bar s)); lia. }
  assert (is_shared p = true -> 1 ≤ readers (bar s)) as Hsh.
  { intros Hp. rewrite (ok_readers s Hok). by apply (count_le _ _ i p). }
  apply (barrier_ok_update s i p); try done;
    destruct p; simplify_eq/=; try specialize (Hsh eq_refl); unfold acquire_shared, claim_exclusive, drained in *;
    try specialize (Hown eq_refl); simpl in *; destruct (exclusive (bar s)) eqn:Ex; simplify_eq/=;
    try rewrite Ex in *; simpl in *; try discriminate;
    repeat match goal with
           | |- context [negb (0 <? ?x)] => destruct (Z.ltb_spec 0 x); simpl
           | |- context [bool_decide (?x = ?y)] => destruct (decide (x = y)); [rewrite bool_decide_eq_true_2 by done|rewrite bool_decide_eq_false_2 by done]
           end; simpl; auto; try lia; try done; first [left; lia|right; left; lia|right; right; lia].
Qed.

Lemma barrier_ok_step s s' : barrier_ok s -> step s s' -> barrier_ok s'.
Proof.
  intros Hok Hs. destruct Hs as [shared i s s' H|i s s' H].
  - exact (barrier_ok_start _ _ _ _ Hok H).
  - exact (barrier_ok_section _ _ _ Hok H).
Qed.

Definition reachable (s : system) : Prop := exists n, rtc step (system_init n) s.

Lemma reachable_ok s : reachable s -> barrier_ok s.
Proof.
  intros [n H]. pose proof (system_init_ok n) as Hok. revert Hok.
  induction H as [|s1 s2 s3 H12 _ IH]; intros Hok; [done|]. apply IH. by eapply barrier_ok_step.
Qed.

(** C18: maintenance excludes transactions: in every reachable state the reader
    count is the number of shared holders; a participant that holds the barrier
    exclusively has no shared holder beside it and is the only one past the
    exclusive claim; and while the claim is set, however long the draining
    takes, no participant becomes a shared holder. *)
Theorem barrier_excludes s :
  reachable s ->
  readers (bar s) = count is_shared (points s)
  /\ (forall i, points s !! i = Some HoldExclusive ->
        forall j p, points s !! j = Some p -> j ≠ i -> p ≠ HoldShared /\ is_owner p = false)
  /\ (forall s' i, exclusive (bar s) = true -> step s s' ->
        points s' !! i = Some HoldShared -> points s !! i = Some HoldShared).
Proof.
  intros Hr%reachable_ok. split; [apply (ok_readers s Hr)|]. split.
  - intros i Hi j p Hj Hne. pose proof (ok_held s Hr i Hi) as H0. rewrite (ok_readers s Hr) in H0. split.
    + intros ->. by pose proof (count_0 _ _ H0 j _ Hj).
    + destruct (is_owner p) eqn:E; [|done]. pose proof (count_two is_owner _ j i _ _ Hj Hi Hne E eq_refl).
      pose proof (ok_owner s Hr). destruct (exclusive (bar s)); lia.
  - intros s' i Hex Hstep Hi'. destruct Hstep as [shared j s1 s2 H|j s1 s2 H].
    + unfold start in H. destruct (points s1 !! j) as [p|] eqn:Hj; [simpl in H|done]. case_bool_decide; [|done].
      injection H as <-. simpl in Hi'. apply list_lookup_insert_Some in Hi' as [(? & H & _)|[_ ?]]; [|done].
      by destruct shared.
    + unfold run_section in H. destruct (points s1 !! j) as [p|] eqn:Hj; [simpl in H|done].
      destruct (section (bar s1) p) as [[[b q] n]|] eqn:Hsec; [simpl in H; injection H as <-|done].
      simpl in Hi'. apply list_lookup_insert_Some in Hi' as [(-> & -> & _)|[_ Hn]].
      * exfalso. destruct p; simpl in Hsec; unfold acquire_shared, claim_exclusive in Hsec;
          rewrite ?Hex in Hsec; simpl in Hsec; try destruct (drained _); by simplify_eq.
      * apply notify_Some in Hn as (q' & Hq' & E). by destruct n, q'; simplify_eq/=.
Qed.

Definition is_sleeping (p : point) : bool :=
  match p with SleepShared | SleepExclusive | SleepDraining => true | _ => false end.
Definition is_idle (p : point) : bool := bool_decide (p = Idle).

(** No lost wake-up: whoever sleeps waits for somebody who can run. *)
Lemma sleeper_waits_for_runnable s i p :
  barrier_ok s -> points s !! i = Some p -> is_sleeping p = true ->
  exists j q, points s !! j = Some q /\ is_sleeping q = false /\ is_idle q = false.
Proof.
  intros Hok Hi Hp. pose proof (ok_waiting s Hok i p Hi) as Hw.
  assert (0 < readers (bar s) ->
    exists j q, points s !! j = Some q /\ is_sleeping q = false /\ is_idle q = false) as Hshared.
  { intros H. rewrite (ok_readers s Hok) in H. destruct (count_pos is_shared (points s)) as (j & q & Hj & Hq); [lia|].
    apply bool_decide_eq_true in Hq as ->. by exists j, HoldShared. }
  assert (exclusive (bar s) = true ->
    exists j q, points s !! j = Some q /\ is_sleeping q = false /\ is_idle q = false) as Howner.
  { intros H. pose proof (ok_owner s Hok) as Ho. rewrite H in Ho.
    destruct (count_pos is_owner (points s)) as (j & q & Hj & Hq); [lia|].
    destruct q; try done; [by exists j, Draining| |by exists j, HoldExclusive].
    apply Hshared, (ok_waiting s Hok j SleepDraining Hj). }
  destruct p; try done; auto.
Qed.

(** ** Every participant gets through *)

Definition weight (p : point) : Z :=
  match p with
  | WantShared | WantExclusive | Draining => 2
  | SleepShared | SleepExclusive | SleepDraining => 1
  | Idle | HoldShared | HoldExclusive => 0
  end.
Definition total_weight (ps : list point) : Z := foldr (fun p n => weight p + n) 0 ps.
Definition active (p : point) : bool := negb (is_idle p).

(** Sections the participants under way can still execute. *)
Definition budget (s : system) : Z :=
  count active (points s) * (Z.of_nat (length (points s)) + 1) + total_weight (points s).

Lemma total_weight_insert ps i p q : ps !! i = Some p ->
  total_weight (<[i := q]> ps) = total_weight ps - weight p + weight q.
Proof.
  revert i; induction ps as [|x ps IH]; intros [|i] Hi; simplify_eq/=; [lia|].
  rewrite (IH i) by done. lia.
Qed.

Lemma total_weight_notify b ps :
  total_weight (notify b ps) ≤ total_weight ps + (if b then Z.of_nat (length ps) else 0).
Proof.
  destruct b; simpl; [|lia]. induction ps as [|p ps IH]; simpl; [done|].
  rewrite Nat2Z.inj_succ. destruct p; simpl; lia.
Qed.

Lemma total_weight_nonneg ps : 0 ≤ total_weight ps.
Proof. induction ps as [|p ps IH]; simpl; [done|]. destruct p; simpl; lia. Qed.

Lemma budget_nonneg s : 0 ≤ budget s.
Proof.
  unfold budget. pose proof (count_nonneg active (points s)). pose proof (total_weight_nonneg (points s)). nia.
Qed.

Lemma total_weight_active ps : total_weight ps ≤ 2 * count active ps.
Proof. induction ps as [|p ps IH]; simpl; [done|]. destruct p; simpl; lia. Qed.

Lemma section_budget i s s' : run_section i s = Some s' -> budget s' < budget s.
Proof.
  unfold run_section. intros Hs. destruct (points s !! i) as [p|] eqn:Hi; [simpl in Hs|done].
  destruct (section (bar s) p) as [[[b q] n]|] eqn:Hsec; [simpl in Hs; injection Hs as <-|done].
  assert (notify n (points s) !! i = Some p) as Hni.
  { apply notify_lookup; [done|]. by destruct p. }
  unfold budget. simpl. rewrite (count_insert _ _ i p), (total_weight_insert _ i p), length_insert by done.
  assert (length (notify n (points s)) = length (points s)) as -> by (destruct n; [by apply length_map|done]).
  assert (count active (notify n (points s)) = count active (points s)) as ->.
  { destruct n; [|done]. apply count_map. by intros []. }
  pose proof (total_weight_notify n (points s)).
  assert ((is_idle q = true /\ is_idle p = false /\ weight p = 0 /\ weight q = 0)
          \/ (is_idle q = is_idle p /\ n = false /\ weight q < weight p)) as [(Eq & Ep & Wp & Wq)|(Eq & -> & Hw)].
  { destruct p; simpl in Hsec; unfold acquire_shared, claim_exclusive in Hsec; simplify_eq;
      try (left; split_and!; done); right; repeat case_match; simplify_eq; done. }
  - unfold active. rewrite Eq, Ep, Wp, Wq. simpl. destruct n; lia.
  - unfold active. rewrite Eq. simpl in *. destruct (is_idle p); simpl; lia.
Qed.

Lemma runnable_section i s p : points s !! i = Some p -> is_sleeping p = false -> is_idle p = false ->
  exists s', run_section i s = Some s'.
Proof.
  intros Hi Hs Hid. unfold run_section. rewrite Hi. simpl.
  destruct p; try done; simpl; eauto.
  - destruct (acquire_shared _) eqn:E; simpl; eauto.
  - destruct (claim_exclusive _) eqn:E; simpl; eauto.
Qed.

Definition section_step (s s' : system) : Prop := exists i, run_section i s = Some s'.

(** C19: nobody is left behind: from a reachable state with [k] participants
    under way among [n], if no further participant starts, at most [k * (n + 3)]
    critical sections can run, whatever the interleaving; and a state in which
    none can run any more is one where every participant is done (so neither a
    deadlock nor a lost wake-up is possible). *)
Theorem barrier_drains s s' k :
  reachable s -> nsteps section_step k s s' ->
  Z.of_nat k ≤ count active (points s) * (Z.of_nat (length (points s)) + 3)
  /\ ((forall s2, ~ section_step s' s2) -> forall i p, points s' !! i = Some p -> p = Idle).
Proof.
  intros Hr Hrun.
  assert (Z.of_nat k ≤ budget s - budget s') as Hk.
  { clear Hr. induction Hrun as [s|k s s1 s2 [i H1] _ IH]; [simpl; lia|]. apply section_budget in H1. lia. }
  split.
  - pose proof (budget_nonneg s'). pose proof (total_weight_active (points s)). unfold budget in *. nia.
  - intros Hstuck i p Hi. assert (barrier_ok s') as Hok.
    { apply reachable_ok. destruct Hr as [n Hr]. exists n. etrans; [exact Hr|].
      clear -Hrun. induction Hrun as [|k s s1 s2 [i H1] _ IH]; [done|]. econstructor; [by eapply step_section|done]. }
    assert (forall j q, points s' !! j = Some q -> is_sleeping q = false -> is_idle q = false -> False) as Hno.
    { intros j q Hj H1 H2. destruct (runnable_section j s' q Hj H1 H2) as [s2 H]. apply (Hstuck s2). by exists j. }
    destruct (is_idle p) eqn:Ei; [by apply bool_decide_eq_true in Ei|]. exfalso.
    destruct (is_sleeping p) eqn:Es; [|by apply (Hno i p)].
    destruct (sleeper_waits_for_runnable s' i p Hok Hi Es) as (j & q & Hj & H1 & H2). by apply (Hno j q).
Qed.

(** ** Witnesses: two transactions and one maintenance run *)

Definition move (i : nat) (m : option bool) (s : system) : option system :=
  match m with Some shared => start shared i s | None => run_section i s end.
Fixpoint run_moves (l : list (nat * option bool)) (s : system) : option system :=
  match l with [] => Some s | (i, m) :: l => s ← move i m s; run_moves l s end.

Lemma run_moves_steps l s s' : run_moves l s = Some s' -> rtc step s s'.
Proof.
  revert s; induction l as [|[i m] l IH]; intros s; simpl; [intros [= ->]; apply rtc_refl|].
  intros (s1 & H1 & H2)%bind_Some. eapply rtc_l; [|by apply IH].
  destruct m; [by eapply step_start|by eapply step_section].
Qed.

(** One share held, maintenance draining, the second transaction waiting. *)
Definition demo_blocked : system :=
  mk_system (mk_barrier 1 true) [HoldShared; SleepShared; SleepDraining].

Lemma demo_blocked_reachable : reachable demo_blocked.
Proof.
  exists 3%nat. apply (run_moves_steps
    [(0, Some true); (0, None); (2, Some false); (2, None); (1, Some true); (1, None)]%nat). reflexivity.
Qed.

Lemma barrier_excludes_witness :
  readers (bar demo_blocked) = 1
  /\ (forall s' i, step demo_blocked s' -> points s' !! i = Some HoldShared -> i = 0%nat).
Proof.
  destruct (barrier_excludes demo_blocked demo_blocked_reachable) as (Hr & _ & Hw). split; [done|].
  intros s' i Hs Hi. specialize (Hw s' i eq_refl Hs Hi). destruct i as [|[|[|i]]]; done.
Defined.

(** The share is released, maintenance runs, then the second transaction. *)
Definition demo_drain : list nat := [0; 2; 2; 1; 1]%nat.

Lemma demo_drained : exists s', run_moves (map (fun i => (i, None)) demo_drain) demo_blocked = Some s'
  /\ nsteps section_step 5 demo_blocked s' /\ forall s2, ~ section_step s' s2.
Proof.
  eexists. split; [reflexivity|]. split.
  - do 5 (eapply nsteps_l; [first [by exists 0%nat|by exists 2%nat|by exists 1%nat]|]). apply nsteps_O.
  - intros s2 [[|[|[|i]]] H]; discriminate.
Qed.

Lemma barrier_drains_witness :
  exists s', nsteps section_step 5 demo_blocked s' /\ Z.of_nat 5 ≤ 3 * 6
    /\ forall i p, points s' !! i = Some p -> p = Idle.
Proof.
  destruct demo_drained as (s' & _ & Hrun & Hstuck). exists s'.
  destruct (barrier_drains demo_blocked s' 5 demo_blocked_reachable Hrun) as [Hk Hdone].
  split; [done|]. split; [exact Hk|by apply Hdone].
Defined.
