(* ===== verification/Coordinator.v ===== *)
(** [TransactionCoordinator] ([server/transactions.py]): admission, the commit
    worker's batches, and completion.

    A request is a handle: its identity, its command and the payload paths
    computed in [__post_init__]; the fields only the coordinator writes
    ([commit], [error], [done]) are the handle's [slot].  Each method is
    translated up to the points where other threads may run: [submit] takes the
    barrier share, then enqueues, both under [_submission_lock] ([lock] holds
    what the owner of that lock is about to enqueue); the worker alternates
    between [get], collecting and executing.  [None] is a call that blocks.  The
    commit callbacks and the checkpoint are parameters here; [Commit.v] and
    [Journal.v] model what the server passes.  [submitted],
    [batches] and [others] (the barrier shares of other components) are history
    variables that no operation reads. *)

From stdpp Require Import base gmap list option strings relations.
From Stdlib Require Import ZArith Lia.
From S2P Require Import Prelude Constants EventStore Journal Commit Barrier.
#[local] Set Default Goal Selector "!".
Open Scope nat_scope.

Definition QUEUE_MAX : Z := 10000.

(** ** Requests *)

(** [TransactionRequest.__post_init__] *)
Definition payload_load_paths (events : list event) : list string :=
  omap (fun ev => if bool_decide (kind_of ev = K_LOAD_PAYLOAD) then Some (str_of ev "prim") else None) events.

Record request := new_request {
  req_id : nat;
  command : TransactionRequest;
  loads : list string }.

Record slot := mk_slot {
  slot_commit : option TransactionCommit;
  slot_error : option exn;
  slot_done : bool }.
Definition open_slot : slot := mk_slot None None false.

(** [TransactionRequest.wait] once [done] is set. *)
Definition wait (s : slot) : option (result TransactionCommit) :=
  if slot_done s then
    Some (match slot_error s, slot_commit s with
          | Some e, _ => Err e
          | None, None => Err RuntimeError
          | None, Some c => Ok c
          end)
  else None.

(** [replace(outcome, checkpoint=checkpoint)] *)
Definition with_checkpoint (ck : TransactionCheckpoint) (c : TransactionCommit) : TransactionCommit :=
  mk_commit (tc_status c) (tc_txn_id c) (tc_records c) (Some ck).

Definition is_committed (o : TransactionOutcome) : bool :=
  match o with
  | Done c => match tc_status c with committed => true | duplicate => false end
  | Failed _ => false
  end.

(** What [_complete] stores for one outcome. *)
Definition slot_of (ck : option TransactionCheckpoint) (o : TransactionOutcome) : slot :=
  match o with
  | Failed e => mk_slot None (Some e) true
  | Done c =>
      mk_slot (Some (match ck with
                     | Some ck => if is_committed o then with_checkpoint ck c else c
                     | None => c
                     end)) None true
  end.

Inductive worker : Type :=
  | NoThread
  | Waiting
  | Collecting (requests : list request)
  | Executing (requests : list request) (stop : bool)
  | Finished
  | Dead (e : exn).

Section coordinator.
Context {W : Type}.
Context (commit : request -> M W TransactionCommit).
Context (commit_group : list request -> M W (list TransactionOutcome)).
Context (checkpoint : M W TransactionCheckpoint).
Context (batch_size : nat).

Record coordinator := mk_coordinator {
  state : W;
  bar : barrier;
  stopping : bool;
  lock : option (option request);
  queue : list (option request);
  slots : gmap nat slot;
  wk : worker;
  submitted : list request;
  batches : list (list request);
  others : Z }.

Definition coordinator_init (w : W) (has_group : bool) : coordinator :=
  mk_coordinator w barrier_init false None [] ∅
    (if (1 <? batch_size) && has_group then Waiting else NoThread) [] [] 0.

Definition set_state w c := mk_coordinator w (bar c) (stopping c) (lock c) (queue c) (slots c) (wk c) (submitted c) (batches c) (others c).
Definition set_bar b c := mk_coordinator (state c) b (stopping c) (lock c) (queue c) (slots c) (wk c) (submitted c) (batches c) (others c).
Definition set_lock l c := mk_coordinator (state c) (bar c) (stopping c) l (queue c) (slots c) (wk c) (submitted c) (batches c) (others c).
Definition set_queue q c := mk_coordinator (state c) (bar c) (stopping c) (lock c) q (slots c) (wk c) (submitted c) (batches c) (others c).
Definition set_wk k c := mk_coordinator (state c) (bar c) (stopping c) (lock c) (queue c) (slots c) k (submitted c) (batches c) (others c).
Definition set_stopping c := mk_coordinator (state c) (bar c) true (lock c) (queue c) (slots c) (wk c) (submitted c) (batches c) (others c).
Definition open_request r c := mk_coordinator (state c) (bar c) (stopping c) (lock c) (queue c) (<[req_id r := open_slot]> (slots c)) (wk c) (submitted c) (batches c) (others c).
Definition note_submitted r c := mk_coordinator (state c) (bar c) (stopping c) (lock c) (queue c) (slots c) (wk c) (submitted c ++ [r]) (batches c) (others c).
Definition note_batch rs c := mk_coordinator (state c) (bar c) (stopping c) (lock c) (queue c) (slots c) (wk c) (submitted c) (batches c ++ [rs]) (others c).
Definition set_others n c := mk_coordinator (state c) (bar c) (stopping c) (lock c) (queue c) (slots c) (wk c) (submitted c) (batches c) n.

(** ** Completion *)

(** The [finally] part for one request: the outcome is stored, the share is
    released, [done] is set. *)
Definition complete_one (ck : option TransactionCheckpoint) (r : request) (o : TransactionOutcome)
    (c : coordinator) : coordinator :=
  mk_coordinator (state c) (release_shared (bar c)).1 (stopping c) (lock c) (queue c)
    (<[req_id r := slot_of ck o]> (slots c)) (wk c) (submitted c) (batches c) (others c).

Fixpoint complete_all (ck : option TransactionCheckpoint) (rs : list request) (outs : list TransactionOutcome)
    (c : coordinator) : coordinator * result unit :=
  match rs, outs with
  | [], [] => (c, Ok ())
  | r :: rs, o :: outs => complete_all ck rs outs (complete_one ck r o c)
  | _, _ => (c, Err ValueError)
  end.

(** The checkpoint of a batch: captured once, when something was committed. *)
Definition capture (outs : list TransactionOutcome) : M W (option TransactionCheckpoint) :=
  if existsb is_committed outs then
    try_catch (ck ← checkpoint; mret (Some ck))
      (fun e => if is_exception e then mret None else raise e)
  else mret None.

(** [_complete] *)
Definition complete (rs : list request) (outs : list TransactionOutcome) : M coordinator unit := fun c =>
  let '(w, captured) := capture outs (state c) in
  let '(c, r) := complete_all (match captured with Ok ck => ck | Err _ => None end) rs outs (set_state w c) in
  (c, match r, captured with
      | Err e, _ => Err e
      | Ok _, Err e => Err e
      | Ok _, Ok _ => Ok ()
      end).

(** ** Execution *)

(** [_commit_one] *)
Definition commit_one (r : request) : M W TransactionOutcome :=
  try_catch (c ← commit r; mret (Done c))
    (fun e => if is_exception e then mret (Failed e) else raise e).

(** The outcomes [_execute] computes: the group's, else one by one. *)
Definition run_batch (rs : list request) : M W (list TransactionOutcome) :=
  try_catch
    (outs ← commit_group rs;
     if bool_decide (length outs ≠ length rs) then raise RuntimeError else mret outs)
    (fun e => if is_exception e then mapM' commit_one rs else raise e).

(** [_execute]: a [BaseException] completes every request with it, then ends the worker. *)
Definition execute (rs : list request) : M coordinator unit := fun c =>
  let '(w, r) := run_batch rs (state c) in
  let c := set_state w c in
  match r with
  | Ok outs => complete rs outs c
  | Err e => (_ ← complete rs (replicate (length rs) (Failed e)); raise e) c
  end.

(** ** Admission *)

(** [submit] up to the barrier share: [None] while maintenance holds the
    barrier or another caller holds the submission lock. *)
Definition submit_enter (r : request) (c : coordinator) : option (coordinator * result unit) :=
  match lock c with
  | Some _ => None
  | None =>
      if stopping c then Some (c, Err RuntimeError)
      else b ← acquire_shared (bar c); Some (open_request r (set_lock (Some (Some r)) (set_bar b c)), Ok ())
  end.

(** The enqueueing part, with a worker: [None] while the queue is full. *)
Definition submit_put (c : coordinator) : option coordinator :=
  match lock c, wk c with
  | _, NoThread => None
  | Some (Some r), _ =>
      if (Z.of_nat (length (queue c)) <? QUEUE_MAX)%Z
      then Some (note_submitted r (set_lock None (set_queue (queue c ++ [Some r]) c))) else None
  | _, _ => None
  end.

(** [put] was interrupted: the share is given back. *)
Definition submit_interrupted (c : coordinator) : option coordinator :=
  match lock c, wk c with
  | _, NoThread => None
  | Some (Some r), _ => Some (set_lock None (set_bar (release_shared (bar c)).1 c))
  | _, _ => None
  end.

(** The part of [submit] without a worker: the request is committed in the
    caller's thread; a [BaseException] completes it and reaches the caller. *)
Definition submit_inline (c : coordinator) : option (coordinator * result unit) :=
  match lock c, wk c with
  | Some (Some r), NoThread =>
      let c := note_batch [r] (note_submitted r (set_lock None c)) in
      let '(w, o) := commit_one r (state c) in
      let c := set_state w c in
      Some (match o with
            | Ok o => complete [r] [o] c
            | Err e => (_ ← complete [r] [Failed e]; raise e) c
            end)
  | _, _ => None
  end.

(** [shutdown] up to the stop marker, and the marker. *)
Definition shutdown_enter (c : coordinator) : option coordinator :=
  match lock c with
  | Some _ => None
  | None =>
      if stopping c then Some c
      else Some (match wk c with
                 | NoThread => set_stopping c
                 | _ => set_lock (Some None) (set_stopping c)
                 end)
  end.
Definition shutdown_put (c : coordinator) : option coordinator :=
  match lock c with
  | Some None =>
      if (Z.of_nat (length (queue c)) <? QUEUE_MAX)%Z then Some (set_lock None (set_queue (queue c ++ [None]) c)) else None
  | _ => None
  end.

(** ** The worker *)

(** The guard of the collecting loop. *)
Definition collects_more (rs : list request) : bool :=
  (length rs <? batch_size)
  && match last rs with Some r => bool_decide (loads r = []) | None => false end.

(** One step of [_run]; [None] while [get] waits on an empty queue.  With an
    empty queue and time left the collecting loop spins; its step is the one
    that finds the deadline passed. *)
Definition worker_step (c : coordinator) : option coordinator :=
  match wk c with
  | NoThread | Finished | Dead _ => None
  | Waiting =>
      match queue c with
      | [] => None
      | None :: q => Some (set_wk Finished (set_queue q c))
      | Some r :: q => Some (set_wk (Collecting [r]) (set_queue q c))
      end
  | Collecting rs =>
      Some (if collects_more rs then
              match queue c with
              | [] => set_wk (Executing rs false) c
              | None :: q => set_wk (Executing rs true) (set_queue q c)
              | Some r :: q => set_wk (Collecting (rs ++ [r])) (set_queue q c)
              end
            else set_wk (Executing rs false) c)
  | Executing rs stop =>
      let '(c, r) := execute rs (note_batch rs c) in
      Some (set_wk (match r with
                    | Ok _ => if stop then Finished else Waiting
                    | Err e => Dead e
                    end) c)
  end.

(** ** The system: callers, worker, and the other users of the barrier *)

Inductive coord_step : coordinator -> coordinator -> Prop :=
  | cs_enter r c c' res : slots c !! req_id r = None -> submit_enter r c = Some (c', res) -> coord_step c c'
  | cs_put c c' : submit_put c = Some c' -> coord_step c c'
  | cs_interrupted c c' : submit_interrupted c = Some c' -> coord_step c c'
  | cs_inline c c' res : submit_inline c = Some (c', res) -> coord_step c c'
  | cs_shutdown c c' : shutdown_enter c = Some c' -> coord_step c c'
  | cs_marker c c' : shutdown_put c = Some c' -> coord_step c c'
  | cs_worker c c' : worker_step c = Some c' -> coord_step c c'
  | cs_acquire c b : acquire_shared (bar c) = Some b -> coord_step c (set_others (others c + 1) (set_bar b c))
  | cs_release c : (0 < others c)%Z ->
      coord_step c (set_others (others c - 1) (set_bar (release_shared (bar c)).1 c))
  | cs_claim c b : claim_exclusive (bar c) = Some b -> coord_step c (set_bar b c)
  | cs_reopen c : exclusive (bar c) = true -> coord_step c (set_bar (release_exclusive (bar c)).1 c).

(** ** What completion does *)

Definition fill_slots (ck : option TransactionCheckpoint) (ros : list (request * TransactionOutcome))
    (m : gmap nat slot) : gmap nat slot :=
  foldl (fun m ro => <[req_id ro.1 := slot_of ck ro.2]> m) m ros.

Definition completed_with ck rs outs (c : coordinator) : coordinator :=
  mk_coordinator (state c) (mk_barrier (readers (bar c) - Z.of_nat (length rs)) (exclusive (bar c))) (stopping c)
    (lock c) (queue c) (fill_slots ck (zip rs outs) (slots c)) (wk c) (submitted c) (batches c) (others c).

Lemma complete_all_spec ck rs outs c : length outs = length rs ->
  complete_all ck rs outs c = (completed_with ck rs outs c, Ok ()).
Proof.
  revert outs c; induction rs as [|r rs IH]; intros [|o outs] c Hl; try done; simpl.
  - unfold completed_with. simpl. rewrite Z.sub_0_r. by destruct c as [? []].
  - rewrite IH by (by injection Hl). unfold completed_with, complete_one. simpl. do 2 f_equal. f_equal. lia.
Qed.

Lemma fill_slots_other ck ros m i : i ∉ map (fun ro => req_id ro.1) ros -> fill_slots ck ros m !! i = m !! i.
Proof.
  revert m; induction ros as [|[r o] ros IH]; intros m; simpl; [done|].
  intros [Hi1 Hi2]%not_elem_of_cons. rewrite IH by done. by apply lookup_insert_ne.
Qed.

Lemma fill_slots_lookup ck ros m r o : NoDup (map (fun ro => req_id ro.1) ros) -> (r, o) ∈ ros ->
  fill_slots ck ros m !! req_id r = Some (slot_of ck o).
Proof.
  revert m; induction ros as [|[r' o'] ros IH]; intros m; simpl; [by intros _ ?%not_elem_of_nil|].
  intros [Hn Hnd]%NoDup_cons [[= <- <-]|Hin]%elem_of_cons; [|by apply IH].
  rewrite fill_slots_other by done. by rewrite lookup_insert_eq.
Qed.

Lemma run_batch_length rs w w' outs : run_batch rs w = (w', Ok outs) -> length outs = length rs.
Proof.
  assert (forall l v v' os, mapM' commit_one l v = (v', Ok os) -> length os = length l) as Hmap.
  { induction l as [|r l IH]; intros v v' os; simpl; [by intros [= <- <-]|]. intros H.
    apply M_bind_Ok in H as (v1 & o & _ & H). apply M_bind_Ok in H as (v2 & os' & H & [= <- <-]).
    simpl. f_equal. by eapply IH. }
  unfold run_batch, try_catch. match goal with |- context [match ?m with _ => _ end] => destruct m as [w1 [os|e]] eqn:E end.
  - intros [= <- <-]. apply M_bind_Ok in E as (w2 & os' & _ & E). case_bool_decide as Hl; [done|].
    injection E as <- <-. by destruct (decide (length os' = length rs)).
  - destruct (is_exception e); [|done]. apply Hmap.
Qed.

(** Every execution completes its requests, whatever is raised. *)
Lemma execute_spec rs c : exists w1 w2 ck outs res,
  execute rs c = (completed_with ck rs outs (set_state w2 c), res)
  /\ length outs = length rs
  /\ (exists r0, run_batch rs (state c) = (w1, r0)
        /\ match r0 with Ok os => outs = os | Err e => outs = replicate (length rs) (Failed e) /\ exists e', res = Err e' end)
  /\ (exists r1, capture outs w1 = (w2, r1)
        /\ match r1 with Ok ck1 => ck = ck1 | Err e => ck = None /\ exists e', res = Err e' end).
Proof.
  unfold execute. destruct (run_batch rs (state c)) as [w1 r0] eqn:Er.
  destruct r0 as [outs|e].
  - pose proof (run_batch_length rs _ _ _ Er) as Hl. unfold complete. simpl.
    destruct (capture outs w1) as [w2 r1] eqn:Ec. rewrite complete_all_spec by done.
    exists w1, w2, (match r1 with Ok ck => ck | Err _ => None end), outs,
      (match r1 with Ok _ => Ok () | Err e => Err e end). split; [by destruct r1|]. split; [done|]. split; [by eexists|].
    exists r1. split; [done|]. destruct r1; [done|]. split; [done|by eexists].
  - unfold mbind, M_bind, complete. simpl.
    destruct (capture (replicate (length rs) (Failed e)) w1) as [w2 r1] eqn:Ec.
    rewrite complete_all_spec by apply length_replicate.
    exists w1, w2, (match r1 with Ok ck => ck | Err _ => None end), (replicate (length rs) (Failed e)),
      (Err (match r1 with Ok _ => e | Err e2 => e2 end)). split; [by destruct r1|].
    split; [apply length_replicate|]. split; [by eexists; split; [done|]; split; [done|]; eexists|].
    exists r1. split; [done|]. destruct r1; [done|]. split; [done|by eexists].
Qed.

(** ** The invariant *)

Definition in_progress (k : worker) : list request :=
  match k with Collecting rs | Executing rs _ => rs | _ => [] end.
(** The request whose share is taken and which is not enqueued yet. *)
Definition entering (c : coordinator) : list request :=
  match lock c with Some (Some r) => [r] | _ => [] end.
Definition queued (c : coordinator) : list request := omap id (queue c).
Definition pending (c : coordinator) : list request := in_progress (wk c) ++ queued c.

Definition batch_shape (rs : list request) : Prop :=
  rs ≠ [] /\ length rs ≤ Nat.max 1 batch_size /\ Forall (fun r => loads r = []) (removelast rs).

Definition live (k : worker) : bool :=
  match k with NoThread | Finished | Executing _ true => false | _ => true end.

(** The life of the stop marker. *)
Inductive phase (c : coordinator) : Prop :=
  | phase_inline : wk c = NoThread -> queue c = [] -> lock c ≠ Some None -> phase c
  | phase_open q : live (wk c) = true -> stopping c = false -> lock c ≠ Some None -> queue c = map Some q -> phase c
  | phase_stopping q : live (wk c) = true -> stopping c = true -> lock c = Some None -> queue c = map Some q -> phase c
  | phase_marked q : live (wk c) = true -> stopping c = true -> lock c = None -> queue c = map Some q ++ [None] -> phase c
  | phase_last : wk c ≠ NoThread -> wk c ≠ Waiting -> (forall rs, wk c ≠ Collecting rs) ->
      (forall rs, wk c ≠ Executing rs false) -> stopping c = true -> lock c = None -> queue c = [] -> phase c.

Definition answered (s : slot) : Prop :=
  slot_done s = true /\ ((is_Some (slot_commit s) /\ slot_error s = None) \/ (slot_commit s = None /\ is_Some (slot_error s))).

Record coord_ok (c : coordinator) : Prop := {
  co_order : submitted c = concat (batches c) ++ pending c;
  co_shape : Forall batch_shape (batches c);
  co_current : in_progress (wk c) ≠ [] -> batch_shape (in_progress (wk c));
  co_done : forall r, r ∈ concat (batches c) -> exists s, slots c !! req_id r = Some s /\ answered s;
  co_open : forall r, r ∈ pending c ++ entering c -> slots c !! req_id r = Some open_slot;
  co_nodup : NoDup (map req_id (submitted c ++ entering c));
  co_readers : readers (bar c) = (others c + Z.of_nat (length (pending c ++ entering c)))%Z;
  co_others : (0 ≤ others c)%Z;
  co_busy : match wk c with Collecting rs | Executing rs _ => rs ≠ [] | _ => True end;
  co_phase : phase c;
}.

Lemma slot_of_answered ck o : answered (slot_of ck o).
Proof. destruct o as [c|e]; split; simpl; eauto. Qed.

Lemma coordinator_init_ok w g : coord_ok (coordinator_init w g).
Proof.
  unfold coordinator_init. split; destruct ((1 <? batch_size) && g); simpl; try done;
    try (by intros r ?%not_elem_of_nil); try (by constructor);
    first [by apply (phase_open _ [])|by apply phase_inline].
Qed.

Lemma live_Waiting_ne k : live k = true -> k ≠ NoThread.
Proof. by destruct k. Qed.

(** Only the barrier and its other users move. *)
Lemma coord_ok_bar c b n : coord_ok c -> (0 ≤ n)%Z ->
  (readers b - n = readers (bar c) - others c)%Z -> coord_ok (set_others n (set_bar b c)).
Proof.
  intros [H1 H2 H3 H4 H5 H6 H7 H8 H9 H10] Hn Hb. split; try done; simpl.
  - unfold pending, queued, entering in *. simpl. lia.
  - destruct H10; [by apply phase_inline|by eapply phase_open|by eapply phase_stopping|by eapply phase_marked|by apply phase_last].
Qed.

Lemma acquire_shared_readers b b' : acquire_shared b = Some b' -> readers b' = (readers b + 1)%Z.
Proof. unfold acquire_shared. destruct (exclusive b); [done|]. by intros [= <-]. Qed.
Lemma claim_exclusive_readers b b' : claim_exclusive b = Some b' -> readers b' = readers b.
Proof. unfold claim_exclusive. destruct (exclusive b); [done|]. by intros [= <-]. Qed.

Lemma coord_ok_enter r c c' res : coord_ok c -> slots c !! req_id r = None ->
  submit_enter r c = Some (c', res) -> coord_ok c'.
Proof.
  intros Hok Hfresh. pose proof Hok as [H1 H2 H3 H4 H5 H6 H7 H8 H9 H10]. unfold submit_enter.
  destruct (lock c) eqn:El; [done|]. destruct (stopping c) eqn:Es; [by intros [= <- _]|].
  destruct (acquire_shared (bar c)) as [b|] eqn:Ea; [|done]. intros [= <- _].
  apply acquire_shared_readers in Ea.
  assert (entering c = []) as Een by (unfold entering; by rewrite El). rewrite Een, app_nil_r in *.
  assert (forall x, x ∈ submitted c -> req_id x ≠ req_id r) as Hne.
  { intros x Hx E. rewrite H1 in Hx. apply elem_of_app in Hx as [Hx|Hx].
    - destruct (H4 x Hx) as (s & Hs & _). congruence.
    - specialize (H5 x Hx). congruence. }
  split; try done; simpl.
  - intros x Hx. destruct (H4 x Hx) as (s & Hs & Ha). exists s. split; [|done].
    rewrite lookup_insert_ne; [done|]. intros E. apply (Hne x); [|done]. rewrite H1. set_solver.
  - intros x [Hx|Hx]%elem_of_app.
    + rewrite lookup_insert_ne; [by apply H5|]. intros E. apply (Hne x); [|done]. rewrite H1. set_solver.
    + apply list_elem_of_singleton in Hx as ->. by rewrite lookup_insert_eq.
  - unfold entering. simpl. rewrite map_app. apply NoDup_app. split; [done|]. split; [|apply NoDup_singleton].
    intros i (x & -> & Hx)%list_elem_of_fmap. simpl. rewrite list_elem_of_singleton. by apply Hne.
  - unfold pending, queued, entering in *. simpl. rewrite length_app. simpl. lia.
  - destruct H10; [by apply phase_inline|by eapply phase_open|congruence..].
Qed.

Lemma coord_ok_put c c' : coord_ok c -> submit_put c = Some c' -> coord_ok c'.
Proof.
  intros Hok. pose proof Hok as [H1 H2 H3 H4 H5 H6 H7 H8 H9 H10]. unfold submit_put. intros H.
  assert (wk c ≠ NoThread /\ exists r, lock c = Some (Some r)
    /\ c' = note_submitted r (set_lock None (set_queue (queue c ++ [Some r]) c))) as (Hk & r & El & ->).
  { destruct (wk c), (lock c) as [[r|]|]; try done; destruct (_ <? _)%Z; try done; injection H as <-; eauto. }
  clear H. assert (entering c = [r]) as Een by (unfold entering; by rewrite El). rewrite Een in *.
  assert (pending (note_submitted r (set_lock None (set_queue (queue c ++ [Some r]) c))) = pending c ++ [r]) as Ep.
  { unfold pending, queued. simpl. rewrite omap_app, app_assoc. done. }
  split; try done; rewrite ?Ep; simpl.
  - by rewrite H1, app_assoc.
  - unfold entering. simpl. by rewrite app_nil_r.
  - unfold entering. simpl. by rewrite app_nil_r.
  - unfold entering. simpl. by rewrite app_nil_r.
  - destruct H10 as [|q Hl Hs Hm Hq| | |]; [done| |congruence..].
    apply (phase_open _ (q ++ [r])); simpl; [done..|]. by rewrite Hq, map_app.
Qed.

Lemma coord_ok_interrupted c c' : coord_ok c -> submit_interrupted c = Some c' -> coord_ok c'.
Proof.
  intros Hok. pose proof Hok as [H1 H2 H3 H4 H5 H6 H7 H8 H9 H10]. unfold submit_interrupted. intros H.
  assert (wk c ≠ NoThread /\ exists r, lock c = Some (Some r)
    /\ c' = set_lock None (set_bar (release_shared (bar c)).1 c)) as (Hk & r & El & ->).
  { destruct (wk c), (lock c) as [[r|]|]; try done; injection H as <-; eauto. }
  clear H. assert (entering c = [r]) as Een by (unfold entering; by rewrite El). rewrite Een in *.
  split; try done; simpl.
  - intros x Hx. apply H5. unfold entering in Hx. simpl in Hx. rewrite app_nil_r in Hx. unfold pending, queued in *.
    simpl in Hx. set_solver.
  - unfold entering. simpl. rewrite app_nil_r. rewrite map_app in H6. by apply NoDup_app in H6 as [? _].
  - unfold entering, pending, queued in *. simpl. rewrite app_nil_r. rewrite length_app in H7. simpl in H7. lia.
  - destruct H10 as [|q Hl Hs Hm Hq| | |]; [done| |congruence..]. by apply (phase_open _ q).
Qed.

Lemma zip_ids (rs : list request) (outs : list TransactionOutcome) : length outs = length rs ->
  map (fun ro => req_id ro.1) (zip rs outs) = map req_id rs.
Proof. revert outs; induction rs as [|r rs IH]; intros [|o outs] Hl; try done. simpl. f_equal. apply IH. by injection Hl. Qed.

Lemma zip_elem (rs : list request) (outs : list TransactionOutcome) r : length outs = length rs -> r ∈ rs ->
  exists o, (r, o) ∈ zip rs outs.
Proof.
  revert outs; induction rs as [|r' rs IH]; intros [|o outs] Hl; try done; [by intros ?%not_elem_of_nil|].
  intros [->|Hin]%elem_of_cons; simpl; [exists o; by left|]. destruct (IH outs) as [o' Ho]; [by injection Hl|done|].
  exists o'. by right.
Qed.

Lemma ids_disjoint (l k : list request) x y : NoDup (map req_id (l ++ k)) -> x ∈ l -> y ∈ k -> req_id x ≠ req_id y.
Proof.
  rewrite map_app. intros (_ & Hd & _)%NoDup_app Hx Hy E. apply (Hd (req_id x)); [by apply list_elem_of_fmap_2|].
  rewrite E. by apply list_elem_of_fmap_2.
Qed.

Definition settled (k : worker) : bool :=
  match k with Collecting _ | Executing _ _ => false | _ => true end.
Lemma settled_in_progress k : settled k = true -> in_progress k = [].
Proof. by destruct k. Qed.

(** A batch is closed: its requests leave [pending] or [entering]. *)
Lemma coord_ok_close c c' rs ck outs :
  coord_ok c -> length outs = length rs -> batch_shape rs ->
  batches c' = batches c ++ [rs] -> slots c' = fill_slots ck (zip rs outs) (slots c) ->
  pending c ++ entering c ≡ₚ rs ++ pending c' ++ entering c' ->
  submitted c' = concat (batches c) ++ rs ++ pending c' ->
  readers (bar c') = (readers (bar c) - Z.of_nat (length rs))%Z -> others c' = others c ->
  settled (wk c') = true -> phase c' -> coord_ok c'.
Proof.
  intros [H1 H2 H3 H4 H5 H6 H7 H8 H9 H10] Hl Hsh Hb Hs Hp Hsub Hr Ho Hk Hph.
  assert (NoDup (map req_id (concat (batches c) ++ rs ++ pending c' ++ entering c'))) as Hnd.
  { rewrite H1, <-app_assoc, Hp in H6. exact H6. }
  assert (NoDup (map req_id rs)) as Hrs.
  { rewrite !map_app in Hnd. apply NoDup_app in Hnd as (_ & _ & Hnd). by apply NoDup_app in Hnd as [? _]. }
  split.
  - rewrite Hsub, Hb, concat_app. simpl. by rewrite app_nil_r, <-app_assoc.
  - rewrite Hb. apply Forall_app. by split; [|constructor].
  - by rewrite settled_in_progress.
  - intros r. rewrite Hb, concat_app. simpl. rewrite app_nil_r. intros [Hin|Hin]%elem_of_app.
    + destruct (H4 r Hin) as (s & Hlk & Ha). exists s. split; [|done]. rewrite Hs, fill_slots_other; [done|].
      rewrite zip_ids by done. intros (y & E & Hy)%list_elem_of_fmap.
      by eapply (ids_disjoint _ _ r y Hnd); [|set_solver|].
    + destruct (zip_elem rs outs r Hl Hin) as [o Hin']. exists (slot_of ck o). split; [|apply slot_of_answered].
      rewrite Hs. apply fill_slots_lookup; [by rewrite zip_ids|done].
  - intros r Hin. rewrite Hs, fill_slots_other; [apply H5; rewrite Hp; set_solver|].
    rewrite zip_ids by done. intros (y & E & Hy)%list_elem_of_fmap. rewrite app_assoc in Hnd.
    eapply (ids_disjoint _ _ y r Hnd); [set_solver|done|done].
  - rewrite Hsub. by rewrite <-!app_assoc.
  - rewrite Hr, Ho, H7, Hp. rewrite length_app. lia.
  - by rewrite Ho.
  - by destruct (wk c').
  - done.
Qed.

(** The worker takes from the queue or moves on. *)
Lemma coord_ok_move c k q : coord_ok c -> in_progress k ++ omap id q = pending c ->
  (in_progress k ≠ [] -> batch_shape (in_progress k)) ->
  match k with Collecting rs | Executing rs _ => rs ≠ [] | _ => True end ->
  phase (set_wk k (set_queue q c)) -> coord_ok (set_wk k (set_queue q c)).
Proof.
  intros [H1 H2 H3 H4 H5 H6 H7 H8 H9 H10] Hp Hsh Hb Hph.
  assert (pending (set_wk k (set_queue q c)) = pending c) as Ep by done.
  split; try done; rewrite ?Ep; try done; by rewrite Ep.
Qed.

Lemma set_queue_same c : set_queue (queue c) c = c.
Proof. by destruct c. Qed.

Lemma batch_shape_snoc rs r : batch_shape rs -> collects_more rs = true -> batch_shape (rs ++ [r]).
Proof.
  intros (Hne & Hl & Hf) [Hlt Hlast]%andb_true_iff. apply Nat.ltb_lt in Hlt.
  split; [by destruct rs|]. split; [rewrite length_app; simpl; lia|]. rewrite removelast_last.
  destruct (last rs) as [r'|] eqn:E; [|done]. apply last_Some in E as [l' ->].
  rewrite removelast_last in Hf. apply Forall_app. split; [done|]. constructor; [|done].
  by apply bool_decide_eq_true in Hlast.
Qed.

Lemma phase_live_move c k q x : phase c -> live (wk c) = true -> live k = true -> queue c = Some x :: q ->
  phase (set_wk k (set_queue q c)).
Proof.
  intros [? Hq|q' Hl Hs Hm Hq|q' Hl Hs Hm Hq|q' Hl Hs Hm Hq|? ? ? ? ? ? Hq] Hlive Hk E; try congruence.
  - rewrite E in Hq. destruct q' as [|y q']; [done|]. injection Hq as -> ->. by apply (phase_open _ q').
  - rewrite E in Hq. destruct q' as [|y q']; [done|]. injection Hq as -> ->. by apply (phase_stopping _ q').
  - rewrite E in Hq. destruct q' as [|y q']; [done|]. injection Hq as -> ->. by apply (phase_marked _ q').
Qed.

Lemma phase_marker_move c k q : phase c -> queue c = None :: q -> live k = false -> k ≠ NoThread ->
  phase (set_wk k (set_queue q c)).
Proof.
  intros [? Hq|q' Hl Hs Hm Hq|q' Hl Hs Hm Hq|q' Hl Hs Hm Hq|? ? ? ? ? ? Hq] E Hlive Hk;
    rewrite E in Hq; try done; try (by destruct q').
  destruct q' as [|x q']; [|done]. injection Hq as ->. apply phase_last; simpl; try done; intros; by intros ->.
Qed.

Lemma phase_still c rs k : phase c -> wk c = Collecting rs -> live k = true -> phase (set_wk k c).
Proof.
  intros [Hw|q' Hl Hs Hm Hq|q' Hl Hs Hm Hq|q' Hl Hs Hm Hq|? ? Hno ? ? ? ?] Hwk Hk; try congruence.
  - by apply (phase_open _ q').
  - by apply (phase_stopping _ q').
  - by apply (phase_marked _ q').
Qed.

Lemma coord_ok_worker c c' : coord_ok c -> worker_step c = Some c' -> coord_ok c'.
Proof.
  intros Hok. pose proof Hok as [H1 H2 H3 H4 H5 H6 H7 H8 H9 H10]. unfold worker_step.
  assert (forall r, batch_shape [r]) as Hone by (intros r; split; [done|]; split; [simpl; lia|constructor]).
  destruct (wk c) as [| |rs|rs stop| |e] eqn:Ek; try done.
  - destruct (queue c) as [|[r|] q] eqn:Eq; [done| |]; intros [= <-]; apply coord_ok_move; try done.
    + unfold pending, queued. by rewrite Ek, Eq.
    + intros _. apply Hone.
    + by eapply phase_live_move; rewrite ?Ek.
    + unfold pending, queued. by rewrite Ek, Eq.
    + by apply phase_marker_move.
  - assert (batch_shape rs) as Hrs by (by apply H3).
    assert (coord_ok (set_wk (Executing rs false) c)) as Hgo.
    { rewrite <-(set_queue_same c) at 1. apply coord_ok_move; try done; [|rewrite set_queue_same].
      - unfold pending. by rewrite Ek.
      - by eapply phase_still. }
    intros [= <-]. destruct (collects_more rs) eqn:Ec; [|done].
    destruct (queue c) as [|[r|] q] eqn:Eq; [done| |]; apply coord_ok_move; try done.
    + unfold pending, queued. rewrite Ek, Eq. simpl. by rewrite <-app_assoc.
    + intros _. by apply batch_shape_snoc.
    + by destruct rs.
    + by eapply phase_live_move; rewrite ?Ek.
    + unfold pending, queued. by rewrite Ek, Eq.
    + by apply phase_marker_move.
  - destruct (execute rs (note_batch rs c)) as [c1 r] eqn:Ee. intros [= <-].
    destruct (execute_spec rs (note_batch rs c)) as (w1 & w2 & ck & outs & res & E & Hl & _).
    rewrite Ee in E. injection E as -> ->.
    set (k := match res with Ok _ => if stop then Finished else Waiting | Err e => Dead e end).
    assert (settled k = true) as Hset by (by unfold k; destruct res, stop).
    pose proof (settled_in_progress k Hset) as Hk.
    apply (coord_ok_close c _ rs ck outs); try done; simpl.
    + by apply H3.
    + unfold pending, queued, entering in *. rewrite Ek. simpl. rewrite Hk. simpl. by rewrite <-app_assoc.
    + rewrite H1. unfold pending, queued. rewrite Ek. simpl. by rewrite Hk.
    + destruct H10 as [|q Hl' Hs Hm Hq|q Hl' Hs Hm Hq|q Hl' Hs Hm Hq|H2' H3' H4' H5']; rewrite Ek in *; try done.
      * destruct stop; [done|]. apply (phase_open _ q); simpl; try done. unfold k. by destruct res.
      * destruct stop; [done|]. apply (phase_stopping _ q); simpl; try done. unfold k. by destruct res.
      * destruct stop; [done|]. apply (phase_marked _ q); simpl; try done. unfold k. by destruct res.
      * destruct stop; [|by destruct (H5' rs)]. apply phase_last; simpl; try done; unfold k; by destruct res.
Qed.
(** One request committed in its caller's thread. *)
Lemma submit_inline_spec r c : lock c = Some (Some r) -> wk c = NoThread ->
  exists w2 ck o res, submit_inline c
    = Some (completed_with ck [r] [o] (set_state w2 (note_batch [r] (note_submitted r (set_lock None c)))), res).
Proof.
  intros El Ek. unfold submit_inline. rewrite El, Ek. simpl.
  destruct (commit_one r (state c)) as [w1 [o|e]] eqn:Eo.
  - unfold complete. simpl. destruct (capture [o] w1) as [w2 r1] eqn:Ec.
    exists w2, (match r1 with Ok ck => ck | Err _ => None end), o, (match r1 with Ok _ => Ok () | Err e => Err e end).
    unfold completed_with, complete_one. simpl. by destruct r1.
  - unfold mbind, M_bind, complete. simpl.
    exists w1, None, (Failed e), (Err e). unfold completed_with, complete_one. done.
Qed.

Lemma coord_ok_inline c c' res : coord_ok c -> submit_inline c = Some (c', res) -> coord_ok c'.
Proof.
  intros Hok H. pose proof Hok as [H1 H2 H3 H4 H5 H6 H7 H8 H9 H10].
  assert (exists r, lock c = Some (Some r) /\ wk c = NoThread) as (r & El & Ek).
  { unfold submit_inline in H. destruct (lock c) as [[r|]|], (wk c); try done. by exists r. }
  assert (queue c = []) as Eq by (by destruct H10; rewrite Ek in *).
  destruct (submit_inline_spec r c El Ek) as (w2 & ck & o & res' & E). rewrite E in H. injection H as <- _.
  apply (coord_ok_close c _ [r] ck [o]); try done; simpl.
  - split; [done|]. split; [simpl; lia|constructor].
  - unfold pending, queued, entering. simpl. by rewrite El, Ek, Eq.
  - rewrite H1. unfold pending, queued. simpl. by rewrite Ek, Eq, app_nil_r.
  - by rewrite Ek.
  - by apply phase_inline.
Qed.

Lemma coord_ok_shutdown c c' : coord_ok c -> shutdown_enter c = Some c' -> coord_ok c'.
Proof.
  intros Hok. pose proof Hok as [H1 H2 H3 H4 H5 H6 H7 H8 H9 H10]. unfold shutdown_enter.
  destruct (lock c) eqn:El; [done|]. destruct (stopping c) eqn:Es; [by intros [= <-]|].
  assert (entering c = []) as Een by (unfold entering; by rewrite El).
  intros [= <-]. destruct H10 as [Hw Hq ?|q Hl Hs Hm Hq| | |]; try congruence.
  - rewrite Hw. split; try done. by apply phase_inline.
  - assert (coord_ok (set_lock (Some None) (set_stopping c))) as Hgoal; [|by destruct (wk c)].
    split; try done; [by unfold entering in *; rewrite El in *..|by apply (phase_stopping _ q)].
Qed.

Lemma coord_ok_marker c c' : coord_ok c -> shutdown_put c = Some c' -> coord_ok c'.
Proof.
  intros Hok. pose proof Hok as [H1 H2 H3 H4 H5 H6 H7 H8 H9 H10]. unfold shutdown_put.
  destruct (lock c) as [[r|]|] eqn:El; try done. destruct (_ <? _)%Z; [|done]. intros [= <-].
  assert (pending (set_lock None (set_queue (queue c ++ [None]) c)) = pending c) as Ep.
  { unfold pending, queued. simpl. rewrite omap_app. simpl. by rewrite app_nil_r. }
  split; try done; rewrite ?Ep; try done; try (by unfold entering in *; rewrite El in * ).
  destruct H10 as [|q Hl Hs Hm Hq|q Hl Hs Hm Hq| |]; try congruence.
  apply (phase_marked _ q); simpl; [done..|]. by rewrite Hq.
Qed.

Lemma coord_ok_step c c' : coord_ok c -> coord_step c c' -> coord_ok c'.
Proof.
  intros Hok Hs. destruct Hs.
  - by eapply coord_ok_enter.
  - by eapply coord_ok_put.
  - by eapply coord_ok_interrupted.
  - by eapply coord_ok_inline.
  - by eapply coord_ok_shutdown.
  - by eapply coord_ok_marker.
  - by eapply coord_ok_worker.
  - apply coord_ok_bar; [done|pose proof (co_others _ Hok); lia|]. apply acquire_shared_readers in H. lia.
  - apply coord_ok_bar; [done|lia|]. simpl. lia.
  - assert (set_bar b c = set_others (others c) (set_bar b c)) as -> by done.
    apply coord_ok_bar; [done|apply (co_others _ Hok)|]. apply claim_exclusive_readers in H. lia.
  - assert (forall b, set_bar b c = set_others (others c) (set_bar b c)) as -> by done.
    apply coord_ok_bar; [done|apply (co_others _ Hok)|done].
Qed.

Definition coord_reachable (c : coordinator) : Prop := exists w g, rtc coord_step (coordinator_init w g) c.

Lemma coord_reachable_ok c : coord_reachable c -> coord_ok c.
Proof.
  intros (w & g & H). pose proof (coordinator_init_ok w g) as Hok. revert Hok.
  induction H as [|c1 c2 c3 H12 _ IH]; intros Hok; [done|]. apply IH. by eapply coord_ok_step.
Qed.

(** C14: requests are served in submission order, each exactly once: at any time
    the submitted requests are the closed batches, then the batch under way, then
    the queue; a batch has at least one request, at most the configured number,
    and a payload load only at its end; every request of a closed batch has its
    answer (a commit or an error, not both), and no other request has one. *)
Theorem coordinator_serves_in_order c :
  coord_reachable c ->
  submitted c = concat (batches c) ++ in_progress (wk c) ++ omap id (queue c)
  /\ NoDup (map req_id (submitted c))
  /\ Forall batch_shape (batches c)
  /\ (forall r, r ∈ concat (batches c) -> exists s, slots c !! req_id r = Some s /\ answered s)
  /\ (forall r, r ∈ in_progress (wk c) ++ omap id (queue c) -> slots c !! req_id r = Some open_slot).
Proof.
  intros Hok%coord_reachable_ok. split_and!; try apply Hok.
  - pose proof (co_nodup c Hok) as Hn. rewrite map_app in Hn. by apply NoDup_app in Hn as [? _].
  - intros r Hr. apply (co_open c Hok), elem_of_app. by left.
Qed.

(** C15: maintenance waits for admitted requests: the barrier counts one share
    per request that entered and has no answer yet, beside those of its other
    users; so once an exclusive owner has seen it drained, every submitted request
    has its answer and none is between its share and the queue. *)
Theorem maintenance_waits_for_requests c :
  coord_reachable c ->
  readers (bar c) = (others c + Z.of_nat (length (pending c) + length (entering c)))%Z
  /\ (drained (bar c) = true ->
        entering c = [] /\ forall r, r ∈ submitted c -> exists s, slots c !! req_id r = Some s /\ answered s).
Proof.
  intros Hok%coord_reachable_ok. pose proof (co_readers c Hok) as Hr. rewrite length_app in Hr.
  split; [done|]. unfold drained. rewrite negb_true_iff, Z.ltb_ge. intros Hd.
  pose proof (co_others c Hok). assert (length (pending c) = 0 /\ length (entering c) = 0) as [Hp He] by lia.
  apply nil_length_inv in Hp, He. split; [done|]. intros r Hin. rewrite (co_order c Hok), Hp, app_nil_r in Hin.
  by apply (co_done c Hok).
Qed.

(** ** Termination of the worker *)

Definition worker_weight (k : worker) : nat :=
  match k with Collecting _ => 2 | Executing _ _ => 1 | _ => 0 end.
Definition work (c : coordinator) : nat := 3 * length (queue c) + worker_weight (wk c).

Lemma execute_frame rs c : queue (execute rs c).1 = queue c /\ stopping (execute rs c).1 = stopping c
  /\ lock (execute rs c).1 = lock c.
Proof. by destruct (execute_spec rs c) as (w1 & w2 & ck & outs & res & -> & _). Qed.

Lemma worker_step_work c c' : coord_ok c -> worker_step c = Some c' ->
  work c' < work c /\ stopping c' = stopping c /\ lock c' = lock c.
Proof.
  intros Hok. unfold worker_step, work. destruct (wk c) as [| |rs|rs stop| |e] eqn:Ek; try done.
  - destruct (queue c) as [|[r|] q] eqn:Eq; [done|..]; intros [= <-]; simpl; split_and!; (done || lia).
  - destruct (collects_more rs).
    + destruct (queue c) as [|[r|] q] eqn:Eq; intros [= <-]; simpl; rewrite ?Eq; simpl; split_and!; (done || lia).
    + intros [= <-]. simpl. split_and!; (done || lia).
  - pose proof (execute_frame rs (note_batch rs c)) as (Hq & Hs & Hl).
    destruct (execute rs (note_batch rs c)) as [c1 r]. intros [= <-]. simpl in *. rewrite Hq, Hs, Hl.
    split_and!; [|done..]. destruct r, stop; simpl; lia.
Qed.

(** The callbacks raise nothing that [except Exception] misses. *)
Record callbacks_ok : Prop := {
  commit_raises : forall r w w' e, commit r w = (w', Err e) -> is_exception e = true;
  group_raises : forall rs w w' e, commit_group rs w = (w', Err e) -> is_exception e = true;
  checkpoint_raises : forall w w' e, checkpoint w = (w', Err e) -> is_exception e = true;
}.

Lemma execute_returns rs c : callbacks_ok -> (execute rs c).2 = Ok ().
Proof.
  intros [Hc Hg Hk].
  assert (forall l w, exists w' os, mapM' commit_one l w = (w', Ok os)) as Hmap.
  { induction l as [|r l IH]; intros w; simpl; [by eexists _, _|]. unfold mbind, M_bind.
    assert (exists w1 o, commit_one r w = (w1, Ok o)) as (w1 & o & ->).
    { unfold commit_one, try_catch, mbind, M_bind. destruct (commit r w) as [w1 [c1|e]] eqn:E; [by eexists _, _|].
      rewrite (Hc _ _ _ _ E). by eexists _, _. }
    destruct (IH w1) as (w2 & os & ->). by eexists _, _. }
  assert (exists w1 outs, run_batch rs (state c) = (w1, Ok outs)) as (w1 & outs & E).
  { unfold run_batch, try_catch, mbind, M_bind. destruct (commit_group rs (state c)) as [w1 [outs|e]] eqn:E.
    - case_bool_decide; simpl; [apply Hmap|by eexists _, _].
    - rewrite (Hg _ _ _ _ E). apply Hmap. }
  assert (exists w2 ck, capture outs w1 = (w2, Ok ck)) as (w2 & ck & E2).
  { unfold capture. destruct (existsb is_committed outs); [|by eexists _, _].
    unfold try_catch, mbind, M_bind. destruct (checkpoint w1) as [w2 [ck|e]] eqn:E2; [by eexists _, _|].
    rewrite (Hk _ _ _ E2). by eexists _, _. }
  pose proof (run_batch_length rs _ _ _ E) as Hl.
  unfold execute. rewrite E. unfold complete. simpl. rewrite E2, complete_all_spec by done. done.
Qed.

Definition worker_step_rel (c c' : coordinator) : Prop := worker_step c = Some c'.

Lemma worker_run c c' n : coord_ok c -> nsteps worker_step_rel n c c' ->
  coord_ok c' /\ n + work c' ≤ work c /\ stopping c' = stopping c /\ lock c' = lock c.
Proof.
  intros Hok Hrun. revert Hok. induction Hrun as [c|n c c1 c2 H1 _ IH]; intros Hok; [split_and!; (done || lia)|].
  pose proof (worker_step_work _ _ Hok H1) as (Hw & Hs & Hl).
  destruct IH as (? & ? & -> & ->); [by eapply coord_ok_worker|]. split_and!; (done || lia).
Qed.

Lemma worker_run_alive c c' n : callbacks_ok -> nsteps worker_step_rel n c c' ->
  (forall e, wk c ≠ Dead e) -> wk c ≠ NoThread -> (forall e, wk c' ≠ Dead e) /\ wk c' ≠ NoThread.
Proof.
  intros Hcb Hrun. induction Hrun as [c|n c c1 c2 H1 _ IH]; intros Hd Hn; [done|]. apply IH.
  all: unfold worker_step_rel, worker_step in H1; destruct (wk c) as [| |rs|rs stop| |e] eqn:Ek; try done.
  - destruct (queue c) as [|[r|] q]; simplify_eq; simpl; congruence.
  - destruct (collects_more rs), (queue c) as [|[r|] q]; simplify_eq; simpl; congruence.
  - pose proof (execute_returns rs (note_batch rs c) Hcb) as Hr.
    destruct (execute rs (note_batch rs c)) as [c3 r]. simpl in Hr. subst r. simplify_eq. simpl. by destruct stop.
  - destruct (queue c) as [|[r|] q]; simplify_eq; simpl; congruence.
  - destruct (collects_more rs), (queue c) as [|[r|] q]; simplify_eq; simpl; congruence.
  - destruct (execute rs (note_batch rs c)) as [c3 r]. simplify_eq. simpl. by destruct r, stop.
Qed.

(** C17: the worker serves everything: without new admissions it makes at most
    three steps per queue entry and two for the batch under way; when it can make
    no more, the queue is empty and every submitted request has its answer, and
    after a shutdown the worker has ended (so [join] returns and no request can
    keep a barrier share forever), provided the callbacks raise only [Exception]s. *)
Theorem worker_serves_everything c c' n :
  coord_reachable c -> callbacks_ok -> wk c ≠ NoThread -> (forall e, wk c ≠ Dead e) ->
  nsteps worker_step_rel n c c' ->
  n ≤ 3 * length (queue c) + 2
  /\ (worker_step c' = None ->
        queue c' = [] /\ (forall r, r ∈ submitted c' -> exists s, slots c' !! req_id r = Some s /\ answered s)
        /\ (stopping c = true -> lock c = None -> wk c' = Finished)).
Proof.
  intros Hr Hcb Hn Hd Hrun. apply coord_reachable_ok in Hr as Hok.
  destruct (worker_run c c' n Hok Hrun) as (Hok' & Hw & Hs & Hl).
  destruct (worker_run_alive c c' n Hcb Hrun Hd Hn) as [Hd' Hn']. split.
  { unfold work in Hw. assert (worker_weight (wk c) ≤ 2) by (destruct (wk c); simpl; lia). lia. }
  unfold worker_step. intros Hstuck.
  assert ((wk c' = Waiting \/ wk c' = Finished) /\ queue c' = []) as [Hk Hq].
  { destruct (wk c') as [| |rs|rs stop| |e] eqn:Ek; try done.
    - destruct (queue c') as [|[]]; try done. split; [by left|done].
    - by destruct (execute rs _).
    - split; [by right|]. destruct (co_phase c' Hok') as [| | | |]; rewrite Ek in *; done.
    - by destruct (Hd' e). }
  assert (pending c' = []) as Hp by (unfold pending, queued; rewrite Hq; by destruct Hk as [-> | ->]).
  split_and!; [done| |].
  - intros r Hin. rewrite (co_order c' Hok'), Hp, app_nil_r in Hin. by apply (co_done c' Hok').
  - intros Hst Hlk. destruct Hk as [Hk|Hk]; [|done]. rewrite <-Hs in Hst. rewrite <-Hl in Hlk.
    destruct (co_phase c' Hok') as [| | |q Hlv Hs' Hm Hq'|]; try congruence.
    rewrite Hq in Hq'. by destruct q.
Qed.

(** ** Isolation of a failing neighbour *)

(** The slot reports the outcome: same error, or the same commit up to the
    checkpoint that a newly committed transaction gets. *)
Definition reports (o : TransactionOutcome) (s : slot) : Prop :=
  slot_done s = true /\
  match o with
  | Failed e => slot_error s = Some e /\ slot_commit s = None
  | Done c => slot_error s = None /\ exists k, slot_commit s = Some k
      /\ tc_status k = tc_status c /\ tc_txn_id k = tc_txn_id c /\ tc_records k = tc_records c
      /\ (tc_checkpoint k = tc_checkpoint c \/ is_committed o = true)
  end.

Lemma slot_of_reports ck o : reports o (slot_of ck o).
Proof.
  destruct o as [c|e]; split; try done; simpl. split; [done|].
  destruct ck as [ck|]; [|eexists; split_and!; try done; by left].
  destruct (tc_status c) eqn:Es; eexists; (split; [reflexivity|]); simpl; split_and!; try done; [by right|by left].
Qed.

Lemma completed_with_reports ck rs outs c i r o : NoDup (map req_id rs) -> length outs = length rs ->
  rs !! i = Some r -> outs !! i = Some o ->
  exists s, slots (completed_with ck rs outs c) !! req_id r = Some s /\ reports o s.
Proof.
  intros Hnd Hl Hr Ho. exists (slot_of ck o). split; [|apply slot_of_reports]. simpl.
  apply fill_slots_lookup; [by rewrite zip_ids|]. apply list_elem_of_lookup. exists i.
  by apply lookup_zip_Some.
Qed.

(** a bad request cannot reject its neighbours: when the group commit of a
    batch raises an [Exception], every request is answered with the outcome of
    committing it alone, one after the other in submission order, from the state
    the failed group left; and a failing checkpoint changes none of these answers.
    One barrier share per request is given back. *)
Theorem failed_group_is_isolated rs c w1 e w2 outs :
  NoDup (map req_id rs) -> commit_group rs (state c) = (w1, Err e) -> is_exception e = true ->
  mapM' commit_one rs w1 = (w2, Ok outs) ->
  length outs = length rs
  /\ (forall i r o, rs !! i = Some r -> outs !! i = Some o ->
        exists s, slots (execute rs c).1 !! req_id r = Some s /\ reports o s)
  /\ readers (bar (execute rs c).1) = (readers (bar c) - Z.of_nat (length rs))%Z.
Proof.
  intros Hnd Hg He Hm.
  assert (run_batch rs (state c) = (w2, Ok outs)) as Hrun.
  { unfold run_batch, try_catch, mbind, M_bind. by rewrite Hg, He. }
  pose proof (run_batch_length rs _ _ _ Hrun) as Hl.
  destruct (execute_spec rs c) as (v1 & v2 & ck & outs' & res & -> & Hl' & (r0 & Hr0 & Ho) & _).
  rewrite Hrun in Hr0. injection Hr0 as <- <-. subst outs'. split_and!; [done| |done].
  intros i r o Hr Hio. by eapply completed_with_reports.
Qed.
End coordinator.

(** ** Witnesses: a log of committed identities; request 1 always fails *)

Definition demo_cmd (n : nat) : TransactionRequest :=
  mk_request "c" "s" (Z.of_nat n) None None None "".
Definition demo_req (n : nat) : request := new_request n (demo_cmd n) [].
Definition demo_commit_cb (r : request) : M (list nat) TransactionCommit :=
  if decide (req_id r = 1) then raise ValueError
  else _ ← modify (fun l => l ++ [req_id r]);
       mret (mk_commit committed (Z.of_nat (req_id r)) [] None).
Definition demo_group_cb (rs : list request) : M (list nat) (list TransactionOutcome) :=
  if decide (1 ∈ map req_id rs) then raise ValueError else mapM' (fun r => Done <$> demo_commit_cb r) rs.
Definition demo_ck : M (list nat) TransactionCheckpoint := gets (fun l => mk_checkpoint 0 (Z.of_nat (length l))).

Abbreviation demo_step := (coord_step demo_commit_cb demo_group_cb demo_ck 4).
Abbreviation demo_coord := (coordinator (W := list nat)).

Definition demo_work : demo_coord -> option demo_coord := worker_step demo_commit_cb demo_group_cb demo_ck 4.

(** [Some n] submits request [n], [None] is a step of the worker. *)
Definition demo_op (op : option nat) (c : demo_coord) : option demo_coord :=
  match op with
  | Some n =>
      if decide (slots c !! n = None) then '(c, _) ← submit_enter (demo_req n) c; submit_put c else None
  | None => demo_work c
  end.
Fixpoint demo_run (ops : list (option nat)) (c : demo_coord) : option demo_coord :=
  match ops with [] => Some c | op :: ops => c ← demo_op op c; demo_run ops c end.

Lemma demo_run_steps ops c c' : demo_run ops c = Some c' -> rtc demo_step c c'.
Proof.
  revert c; induction ops as [|op ops IH]; intros c; simpl; [intros [= ->]; apply rtc_refl|].
  intros (c1 & H1 & H2)%bind_Some. apply IH in H2. destruct op as [n|]; simpl in H1.
  - case_decide as Hf; [|done]. apply bind_Some in H1 as ([c2 u] & H1 & H3).
    eapply rtc_l; [eapply (cs_enter _ _ _ _ (demo_req n)); [exact Hf|exact H1]|]. eapply rtc_l; [eapply cs_put, H3|exact H2].
  - eapply rtc_l; [eapply cs_worker, H1|exact H2].
Qed.

(** Three requests are submitted and the worker has collected two of them. *)
Definition demo_collected : option demo_coord :=
  demo_run [Some 0; Some 1; None; None; Some 2] (coordinator_init 4 [] true).

Lemma demo_collected_reachable c : demo_collected = Some c -> coord_reachable demo_commit_cb demo_group_cb demo_ck 4 c.
Proof. intros H. exists [], true. by eapply demo_run_steps. Qed.

Lemma demo_collected_view c : demo_collected = Some c ->
  map req_id (in_progress (wk c)) = [0; 1] /\ map req_id (omap id (queue c)) = [2] /\ batches c = []
  /\ length (pending c) + length (entering c) = 3 /\ others c = 0%Z.
Proof.
  assert ((fun c => (map req_id (in_progress (wk c)), map req_id (omap id (queue c)), batches c,
                     length (pending c) + length (entering c), others c)) <$> demo_collected
          = Some ([0; 1], [2], [], 3, 0%Z)) as H by (by vm_compute).
  intros E. rewrite E in H. simpl in H. by injection H.
Qed.

Lemma demo_collected_some : is_Some demo_collected.
Proof. assert (bool_decide (is_Some demo_collected) = true) as H by (by vm_compute). by apply bool_decide_eq_true in H. Qed.

Lemma coordinator_serves_in_order_witness : exists c, demo_collected = Some c
  /\ map req_id (in_progress (wk c)) = [0; 1] /\ map req_id (omap id (queue c)) = [2]
  /\ map req_id (submitted c) = [0; 1] ++ [2].
Proof.
  destruct demo_collected_some as [c E]. exists c.
  destruct (coordinator_serves_in_order _ _ _ _ c (demo_collected_reachable c E)) as (Ho & _).
  destruct (demo_collected_view c E) as (H1 & H2 & H3 & _).
  split_and!; [done..|]. by rewrite Ho, H3, !map_app, H1, H2.
Defined.

Lemma maintenance_waits_for_requests_witness : exists c, demo_collected = Some c
  /\ readers (bar c) = 3%Z /\ drained (bar c) = false.
Proof.
  destruct demo_collected_some as [c E]. exists c.
  destruct (maintenance_waits_for_requests _ _ _ _ c (demo_collected_reachable c E)) as [Hr _].
  destruct (demo_collected_view c E) as (_ & _ & _ & H4 & H5). rewrite H4, H5 in Hr.
  split_and!; [done..|]. unfold drained. by rewrite Hr.
Defined.

Lemma demo_callbacks_ok : callbacks_ok demo_commit_cb demo_group_cb demo_ck.
Proof.
  assert (forall r w w' e, demo_commit_cb r w = (w', Err e) -> is_exception e = true) as Hc.
  { intros r w w' e. unfold demo_commit_cb. case_decide; [by intros [= _ <-]|done]. }
  split; [done| |done]. intros rs w w' e. unfold demo_group_cb. case_decide as Hin; [by intros [= _ <-]|]. clear Hin.
  revert w; induction rs as [|r rs IH]; intros w; [done|]. simpl. intros H.
  unfold mbind, M_bind, fmap, M_fmap in H. destruct (demo_commit_cb r w) as [w1 [c|e1]] eqn:E.
  - destruct (mapM' _ rs w1) as [w2 [os|e2]] eqn:E2; [discriminate H|]. injection H as -> <-. exact (IH w1 E2).
  - injection H as _ <-. by eapply Hc.
Qed.

(** The worker collects the third request, executes the batch and waits;
    request 1 is answered with its error. *)
Lemma demo_finish : exists c c', demo_collected = Some c
  /\ nsteps (worker_step_rel demo_commit_cb demo_group_cb demo_ck 4) 3 c c'
  /\ (wk c ≠ NoThread /\ forall e, wk c ≠ Dead e) /\ state c' = [0; 2] /\ demo_work c' = None.
Proof.
  destruct demo_collected_some as [c E].
  assert ((fun c => (state c, demo_work c)) <$> (c ← demo_collected; demo_run [None; None; None] c)
          = Some ([0; 2], None)) as H by (by vm_compute).
  rewrite E in H. simpl in H. exists c.
  destruct (demo_work c) as [c1|] eqn:E1; [simpl in H|done]. destruct (demo_work c1) as [c2|] eqn:E2; [simpl in H|done].
  destruct (demo_work c2) as [c3|] eqn:E3; [simpl in H|done]. exists c3. injection H as H1 H2.
  split_and!; try done.
  - do 3 (eapply nsteps_l; [done|]). apply nsteps_O.
  - intros Hk. destruct (demo_collected_view c E) as (Hv & _). by rewrite Hk in Hv.
  - intros e Hk. destruct (demo_collected_view c E) as (Hv & _). by rewrite Hk in Hv.
Qed.

Lemma worker_serves_everything_witness : exists c c', demo_collected = Some c
  /\ nsteps (worker_step_rel demo_commit_cb demo_group_cb demo_ck 4) 3 c c' /\ state c' = [0; 2]
  /\ queue c' = [] /\ forall r, r ∈ submitted c' -> exists s, slots c' !! req_id r = Some s /\ answered s.
Proof.
  destruct demo_finish as (c & c' & E & Hrun & [Hk Hd] & Hst & Hstuck). exists c, c'.
  destruct (worker_serves_everything demo_commit_cb demo_group_cb demo_ck 4 c c' 3
    (demo_collected_reachable c E) demo_callbacks_ok Hk Hd Hrun) as [_ Hdone].
  destruct (Hdone Hstuck) as (Hq & Ha & _). by split_and!.
Defined.

Lemma failed_group_is_isolated_witness : exists s1 s2,
  let c := (execute demo_commit_cb demo_group_cb demo_ck [demo_req 1; demo_req 2] (coordinator_init 4 [] true)).1 in
  slots c !! 1 = Some s1 /\ slot_error s1 = Some ValueError
  /\ slots c !! 2 = Some s2 /\ slot_error s2 = None /\ is_Some (slot_commit s2).
Proof.
  destruct (failed_group_is_isolated demo_commit_cb demo_group_cb demo_ck [demo_req 1; demo_req 2]
    (coordinator_init 4 [] true) [] ValueError [2] [Failed ValueError; Done (mk_commit committed 2 [] None)])
    as (_ & Hs & _); [apply (bool_decide_eq_true_1 _); reflexivity|reflexivity..|].
  destruct (Hs 0 (demo_req 1) _ eq_refl eq_refl) as (s1 & E1 & _ & H1 & _).
  destruct (Hs 1 (demo_req 2) _ eq_refl eq_refl) as (s2 & E2 & _ & H2 & k & H3 & _).
  exists s1, s2. split_and!; [exact E1|done|exact E2|done|by eexists].
Defined.
