(* ===== verification/Compaction.v ===== *)
(** Log compaction ([server/compaction.py]): pending payloads merge by
    [_MergeKey], destructive edits forget what they cover, and entries that must
    not move are preserved in place.

    The pending dictionary is kept in insertion order, because
    [_preserve_sample_order] walks it in that order.  Merging mutates the
    previous event, which only the pending entry owns, so a merged event is a new
    value here.  Decoding is the codec's ([decode] below), and merging two Sdf
    fragments is a computation of the USD library ([merge_fragments]). *)

From stdpp Require Import base gmap list option strings.
From Stdlib Require Import ZArith Lia.
From S2P Require Import Prelude Constants Framing Applying.
#[local] Set Default Goal Selector "!".

Definition K_SAMPLES : string := "timeSamples".

(** ** Records and keys *)

(** [ReceivedEvent] *)
Record received := mk_received {
  seq : Z;
  r_event : event;
  r_layer_key : option string;
  r_origin : option string;
  r_client_id : option string;
  r_client : option string }.

Definition set_seq (n : Z) (r : received) : received :=
  mk_received n (r_event r) (r_layer_key r) (r_origin r) (r_client_id r) (r_client r).
Definition set_event (ev : event) (r : received) : received :=
  mk_received (seq r) ev (r_layer_key r) (r_origin r) (r_client_id r) (r_client r).

(** [_MergeKey] *)
Record merge_key := mk_key {
  k_prim : string;
  k_kind : string;
  k_time : pyval;
  k_layer_key : string;
  k_spec_path : string;
  k_purpose : string }.
#[export] Instance merge_key_eq_dec : EqDecision merge_key.
Proof. solve_decision. Defined.

(** [_MergeKey.from_event]; the string fields of a validated event are strings. *)
Definition from_event (ev : event) (layer_key : string) : merge_key :=
  let kind := kind_of ev in
  mk_key (str_of ev "prim") kind (py_get ev "time")
    (if bool_decide (kind ∈ NON_COLLABORATION_KINDS) then "" else layer_key)
    (if bool_decide (kind = K_SET_SDF_SPEC_FIELDS \/ kind = K_ERASE_TIME_SAMPLES) then str_of ev "spec_path" else "")
    (if bool_decide (kind = K_SET_MATERIAL_BINDING) then str_of ev "material_purpose" else "").

Definition SAMPLE_VALUE_KINDS : gset string :=
  {[K_SET_XFORM_TRS; K_SET_GPRIM_ATTRS; K_SET_CONNECTABLE_INPUT; K_SET_VISIBILITY; K_SET_POINT_INSTANCER]}.
Definition EXACT_LAYER_KINDS : gset string :=
  {[K_SET_SDF_SPEC_FIELDS; K_ERASE_TIME_SAMPLES; K_REPLACE_SDF_LAYER_CONTENT]}.
Definition CHILD_REPLAY_KINDS : gset string :=
  {[K_ENSURE_PRIM; K_ENSURE_XFORM_OPS; K_SET_XFORM_TRS; K_SET_VISIBILITY; K_SET_MATERIAL_BINDING;
    K_SET_CONNECTABLE_INPUT; K_SET_CONNECTABLE_CONNECTION; K_DELETE_PRIM; K_RENAME_PRIM;
    K_ERASE_TIME_SAMPLES; K_SET_SDF_SPEC_FIELDS]}.
Definition TRS_ATTRIBUTES : list (string * string) :=
  [("t", "xformOp:translate"); ("r", "xformOp:orient"); ("s", "xformOp:scale")].
(** [{wire: usd for usd, wire in POINT_INSTANCER_USD_TO_WIRE.items()}]: the
    last of two USD names for one wire name stays. *)
Definition INSTANCER_ATTRIBUTES : list (string * string) :=
  [("proto_indices", "protoIndices"); ("positions", "positions"); ("orientations", "orientationsf");
   ("scales", "scales"); ("velocities", "velocities"); ("accelerations", "accelerations");
   ("angular_velocities", "angularVelocities"); ("ids", "ids"); ("invisible_ids", "invisibleIds")].
Definition STAGE_METADATA_KEYS : list string :=
  ["timeCodesPerSecond"; "framesPerSecond"; "startTimeCode"; "endTimeCode"; "metersPerUnit"; "upAxis"].

(** ** Reading events *)

Definition items_of (v : pyval) : list (string * pyval) := match v with PDict d => d | _ => [] end.
Definition names_of (v : pyval) : list string :=
  match v with
  | PList l => omap (fun x => match x with PStr s => Some s | _ => None end) l
  | PDict d => map fst d
  | _ => []
  end.
(** [event.get(k, {}).items()] and the names of [event.get(k, ())]. *)
Definition get_items (ev : event) (k : string) : list (string * pyval) := items_of (py_get ev k).
Definition get_names (ev : event) (k : string) : list string := names_of (py_get ev k).

(** [_is_exact_deletion] *)
Definition is_exact_deletion (ev : event) : bool :=
  bool_decide (kind_of ev = K_ERASE_TIME_SAMPLES)
  || (bool_decide (kind_of ev = K_SET_SDF_SPEC_FIELDS) && truthy (py_get ev "removed")).

(** [_TRS_ATTRIBUTES[name]] *)
Fixpoint trs_attributes (names : list string) : result (list string) :=
  match names with
  | [] => Ok []
  | n :: names =>
      a ← match dict_get n TRS_ATTRIBUTES with Some a => Ok a | None => Err (KeyError n) end;
      l ← trs_attributes names; Ok (a :: l)
  end.

(** [_sampled_attribute_names] *)
Definition sampled_attribute_names (ev : event) : result (list string) :=
  let kind := kind_of ev in
  if bool_decide (py_get ev "time" = PNone) then Ok []
  else if bool_decide (kind = K_SET_GPRIM_ATTRS) then attrs ← py_item ev "attrs"; Ok (names_of attrs)
  else if bool_decide (kind = K_SET_XFORM_TRS) then fields ← py_item ev "fields"; trs_attributes (names_of fields)
  else if bool_decide (kind = K_SET_CONNECTABLE_INPUT) then
    inputs ← py_item ev "inputs"; Ok (map (fun n => "inputs:" +:+ n) (names_of inputs))
  else if bool_decide (kind = K_SET_VISIBILITY) then Ok ["visibility"]
  else if bool_decide (kind = K_SET_POINT_INSTANCER) then
    fields ← py_item ev "fields"; Ok (omap (fun n => dict_get n INSTANCER_ATTRIBUTES) (names_of fields))
  else Ok [].

(** ** Merging payloads *)

(** [d.update(items)] *)
Definition update_items (d items : list (string * pyval)) : list (string * pyval) :=
  foldl (fun d kv => dict_set kv.1 (fun _ => kv.2) d) d items.

(** [_merge_connections].  The disconnections are an ordered set of names. *)
Definition discard_name (n : string) (l : list string) : list string := filter (fun x => x ≠ n) l.
Definition add_name (n : string) (l : list string) : list string :=
  if bool_decide (n ∈ l) then l else l ++ [n].
Definition merge_connections (previous : option event) (ev : event) : event :=
  let merged := default ev previous in
  let connections := update_items (get_items merged "connections") (get_items ev "connections") in
  let disconnections := foldl (fun l n => add_name n l) [] (get_names merged "disconnections") in
  let disconnections := foldl (fun l kv => discard_name kv.1 l) disconnections (get_items ev "connections") in
  let disconnections := foldl (fun l n => add_name n l) disconnections (get_names ev "disconnections") in
  let merged := <["connections" := PDict connections]> merged in
  match disconnections with
  | [] => delete "disconnections" merged
  | _ => <["disconnections" := PList (map PStr disconnections)]> merged
  end.

(** The fields of [event] written over [previous], the new names appended. *)
Definition merge_field (ev : event) (previous : event) (name : string) : result event :=
  v ← py_item ev name;
  let previous := <[name := v]> previous in
  Ok (if bool_decide (name ∈ get_names previous "fields") then previous
      else <["fields" := PList (map PStr (get_names previous "fields" ++ [name]))]> previous).

(** [previous.setdefault(name, {}).update(items)] *)
Definition merge_items (name : string) (items : list (string * pyval)) (previous : event) : event :=
  <[name := PDict (update_items (get_items previous name) items)]> previous.

Section compaction.
(** [merge_spec_events]: its field list and the fragment the USD library produces. *)
Context (merge_fragments : event -> event -> result string).

Definition merge_spec_events (previous current : event) : result event :=
  if bool_decide (py_get previous "spec_path" ≠ py_get current "spec_path"
                  \/ py_get previous "spec_kind" ≠ py_get current "spec_kind")
  then Err ValueError
  else if truthy (py_get current "removed") || truthy (py_get previous "removed") then Ok current
  else
    let fields := foldl (fun l n => add_name n l) [] (get_names previous "fields" ++ get_names current "fields") in
    fragment ← merge_fragments previous current;
    Ok (<["removed" := PBool false]> (<["fragment" := PStr fragment]>
          (<["fields" := PList (map PStr fields)]> current))).

(** [_merge_payload] *)
Definition merge_payload (previous : option event) (ev : event) : result event :=
  let kind := kind_of ev in
  if bool_decide (kind = K_SET_CONNECTABLE_CONNECTION) then Ok (merge_connections previous ev)
  else match previous with
  | None => Ok ev
  | Some previous =>
      if bool_decide (kind = K_SET_XFORM_TRS \/ kind = K_SET_POINT_INSTANCER) then
        pf ← py_item previous "fields"; ef ← py_item ev "fields";
        if bool_decide (pf = ef) then Ok ev
        else foldR (merge_field ev) previous (names_of ef)
      else if bool_decide (kind = K_SET_GPRIM_ATTRS) then
        Ok (foldl (fun p name => if truthy (py_get ev name) then merge_items name (get_items ev name) p else p)
              previous ["attrs"; "primvar_meta"; "attr_interp"])
      else if bool_decide (kind = K_SET_CONNECTABLE_INPUT) then
        let p := merge_items "input_types" (get_items ev "input_types")
                   (merge_items "inputs" (get_items ev "inputs") previous) in
        Ok (if truthy (py_get ev "info_id") then <["info_id" := py_get ev "info_id"]> p else p)
      else if bool_decide (kind = K_SET_VARIANT_SELECTIONS) then
        Ok (merge_items "selections" (get_items ev "selections") previous)
      else if bool_decide (kind = K_SET_STAGE_METADATA) then
        Ok (foldl (fun p name => match ev !! name with Some v => <[name := v]> p | None => p end)
              previous STAGE_METADATA_KEYS)
      else if bool_decide (kind = K_SET_SDF_SPEC_FIELDS) then
        pk ← py_item previous "spec_kind"; ek ← py_item ev "spec_kind";
        if bool_decide (pk = ek) then merge_spec_events previous ev else Ok ev
      else if bool_decide (kind = K_ENSURE_PRIM) then
        let p := match ev !! "typeName" with Some t => <["typeName" := t]> previous | None => previous end in
        let schemas := sorted_strings (remove_dups (get_names previous "api_schemas" ++ get_names ev "api_schemas")) in
        Ok (match schemas with
            | [] => p
            | _ => <["api_schemas" := PList (map PStr schemas)]> p
            end)
      else Ok ev
  end.

(** ** [LogCompaction] *)

Record compaction := mk_compaction {
  pending : list (merge_key * received);
  preserved : list (merge_key * received) }.
Definition compaction_init : compaction := mk_compaction [] [].

Definition preserve (key : merge_key) (c : compaction) : compaction :=
  match dict_get key (pending c) with
  | Some r => mk_compaction (dict_pop key (pending c)) (preserved c ++ [(key, r)])
  | None => c
  end.

Definition discard (matches : merge_key -> bool) (c : compaction) : compaction :=
  mk_compaction (filter (fun kr => matches kr.1 = false) (pending c))
    (filter (fun kr => matches kr.1 = false) (preserved c)).

Definition in_fields (name : string) (ev : event) : bool := bool_decide (name ∈ get_names ev "fields").

(** The first loop of [_preserve_sample_order]: sample tables under a new sample. *)
Definition preserve_table (key : merge_key) (c : compaction) (name : string) : compaction :=
  let spec_key := mk_key (k_prim key) K_SET_SDF_SPEC_FIELDS PNone (k_layer_key key)
                    (k_prim key +:+ "." +:+ name) "" in
  match dict_get spec_key (pending c) with
  | Some previous => if in_fields K_SAMPLES (r_event previous) then preserve spec_key c else c
  | None => c
  end.

(** The second loop: values of the prim before a sample-history barrier. *)
Definition preserved_kinds (ev : event) : gset string :=
  if is_exact_deletion ev then SAMPLE_VALUE_KINDS ∪ {[K_SET_SDF_SPEC_FIELDS]} else SAMPLE_VALUE_KINDS.
Definition preserve_values (key : merge_key) (ev : event) (c : compaction) : compaction :=
  foldl (fun c k =>
           if bool_decide (k_prim k = k_prim key /\ k_layer_key k = k_layer_key key /\ k_kind k ∈ preserved_kinds ev)
           then preserve k c else c)
    c (map fst (pending c)).

Definition preserve_sample_order (key : merge_key) (ev : event) (c : compaction) : result compaction :=
  names ← sampled_attribute_names ev;
  let c := foldl (preserve_table key) c names in
  Ok (if is_sample_history_barrier ev then preserve_values key ev c else c).

(** The prim is the deleted one or below it, in the same layer. *)
Definition covers (key old : merge_key) : bool :=
  bool_decide (k_layer_key old = k_layer_key key)
  && (bool_decide (k_prim old = k_prim key) || String.prefix (k_prim key +:+ "/") (k_prim old)).

(** What a destructive event forgets before it is recorded. *)
Definition forget (key : merge_key) (c : compaction) : compaction :=
  let kind := k_kind key in
  if bool_decide (kind = K_DELETE_PRIM \/ kind = K_RENAME_PRIM) then discard (covers key) c
  else if bool_decide (kind = K_REPLACE_SDF_LAYER_CONTENT) then
    discard (fun old => bool_decide (k_layer_key old = k_layer_key key /\ k_kind old ∈ EXACT_LAYER_KINDS)) c
  else if bool_decide (kind = K_LOAD_PAYLOAD \/ kind = K_UNLOAD_PAYLOAD) then
    let opposite := if bool_decide (kind = K_LOAD_PAYLOAD) then K_UNLOAD_PAYLOAD else K_LOAD_PAYLOAD in
    mk_compaction (dict_pop (mk_key (k_prim key) opposite PNone (k_layer_key key) "" "") (pending c)) (preserved c)
  else c.

(** The merge at the end of [add_decoded_record]. *)
Definition merge_record (key : merge_key) (record : received) (c : compaction) : result compaction :=
  let kind := k_kind key in
  let previous := dict_get key (pending c) in
  match previous with
  | Some _ => if bool_decide (kind = K_ENSURE_XFORM_OPS) then Ok c else
      ev ← merge_payload (r_event <$> previous) (r_event record);
      let record := set_event ev record in
      let record := match previous with
                    | Some p => if bool_decide (kind = K_ENSURE_PRIM) then set_seq (seq p) record else record
                    | None => record
                    end in
      Ok (mk_compaction (dict_set key (fun _ => record) (pending c)) (preserved c))
  | None =>
      ev ← merge_payload None (r_event record);
      Ok (mk_compaction (dict_set key (fun _ => set_event ev record) (pending c)) (preserved c))
  end.

(** [add_decoded_record] *)
Definition add_decoded_record (c : compaction) (record : received) : result compaction :=
  let ev := r_event record in
  let kind := kind_of ev in
  if bool_decide (kind = K_SET_SUBLAYERS) then Ok c
  else
    let key := from_event ev (default "" (r_layer_key record)) in
    c ← preserve_sample_order key ev c;
    if is_exact_deletion ev then
      let c := if bool_decide (kind = K_SET_SDF_SPEC_FIELDS)
               then discard (fun old => bool_decide (k_layer_key old = k_layer_key key
                                                     /\ k_spec_path old = k_spec_path key)) c
               else c in
      Ok (mk_compaction (pending c) (preserved c ++ [(key, record)]))
    else merge_record key record (forget key c).

(** [replay_records]: a stable sort by sequence. *)
Definition seq_le (a b : received) : Prop := (seq a ≤ seq b)%Z.
#[global] Instance seq_le_trans : Transitive seq_le.
Proof. intros a b d. unfold seq_le. lia. Qed.
#[global] Instance seq_le_total : Total seq_le.
Proof. intros a b. unfold seq_le. lia. Qed.
#[global] Instance seq_le_dec a b : Decision (seq_le a b).
Proof. unfold seq_le. apply _. Defined.
Definition entries (c : compaction) : list received := map snd (preserved c) ++ map snd (pending c).
Definition replay_records (c : compaction) : list received := merge_sort seq_le (entries c).

(** A whole history. *)
Definition compact (records : list received) : result compaction :=
  foldR add_decoded_record compaction_init records.

(** ** Stored records *)

(** [resolve_payload(decode_envelope(blob))]: the message type decides. *)
Inductive stored_message : Type :=
  | StoredEvent (r : received)
  | StoredGraphState
  | StoredOther.
Context (decode : bytes -> result stored_message).

(** [add_stored_record] *)
Definition add_stored_record (c : compaction) (row : Z * bytes) : result compaction :=
  m ← decode row.2;
  match m with
  | StoredGraphState => Ok c
  | StoredOther => Err ValueError
  | StoredEvent r => add_decoded_record c (set_seq row.1 r)
  end.

(** [build_compacted] of the maintenance loop. *)
Definition build_compacted (rows : list (Z * bytes)) : result compaction :=
  foldR add_stored_record compaction_init rows.

(** [str.rstrip("/")] *)
Fixpoint rstrip_slash (s : string) : string :=
  match s with
  | "" => ""
  | String a s =>
      match rstrip_slash s with
      | "" => if Ascii.eqb a (Ascii.ascii_of_nat 47) then "" else String a ""
      | s => String a s
      end
  end.

(** The generator [decode(blobs)] of [child_replay_records], forced. *)
Definition decode_records (blobs : list bytes) : result (list received) :=
  mapR (fun blob =>
          m ← decode blob;
          match m with StoredEvent r => Ok r | _ => Err (OtherException "AttributeError") end) blobs.

Definition is_ancestor_event (prim_path : string) (r : received) : bool :=
  bool_decide (prim_path = str_of (r_event r) "prim")
  || String.prefix (rstrip_slash (str_of (r_event r) "prim") +:+ "/") prim_path.

(** The sort key of a segment: tier, then prim. *)
Definition tier_le (a b : received) : Prop :=
  let t x := event_apply_tier (kind_of (r_event x)) in
  (t a < t b)%nat \/ (t a = t b /\ str_le (str_of (r_event a) "prim") (str_of (r_event b) "prim")).
#[global] Instance tier_le_dec a b : Decision (tier_le a b).
Proof. unfold tier_le. apply _. Defined.

(** The barrier events of the replay. *)
Definition replay_barrier (ev : event) : bool :=
  bool_decide (kind_of ev = K_DELETE_PRIM \/ kind_of ev = K_RENAME_PRIM) || is_sample_history_barrier ev.

(** The last loop of [child_replay_records] with its [flush_segment]. *)
Fixpoint order_children (prefix : string) (segment : list received) (l : list received) : list received :=
  match l with
  | [] => merge_sort tier_le segment
  | r :: l =>
      let under := String.prefix prefix (str_of (r_event r) "prim") in
      if replay_barrier (r_event r) then
        merge_sort tier_le segment ++ (if under then [r] else []) ++ order_children prefix [] l
      else order_children prefix (if under then segment ++ [r] else segment) l
  end.

(** [child_replay_records]; [query] is [store.get_by_prim_prefix]. *)
Definition child_replay_records (query : string -> gset string -> list bytes) (prim_path : string) :
    result (list received) :=
  let prefix := rstrip_slash prim_path +:+ "/" in
  descendants ← decode_records (query prefix CHILD_REPLAY_KINDS);
  others ← decode_records (query "/" {[K_DELETE_PRIM; K_RENAME_PRIM]});
  let ancestors := filter (fun r => is_ancestor_event prim_path r = true) others in
  c ← foldR add_decoded_record compaction_init (list_merge seq_le descendants ancestors);
  Ok (order_children prefix [] (replay_records c)).
End compaction.

(** ** What an event says: the reference meaning

    An event writes opinions into slots of its merge key: one per field,
    attribute, input, selection, schema or connection, and a single one holding
    the whole event for the kinds that are not merged. *)

Inductive opinion_value : Type := Val (v : pyval) | Whole (ev : event).

Definition slot : Type := string * string.

Definition opinion (ev : event) (s : slot) : option opinion_value :=
  let kind := kind_of ev in
  let '(group, name) := s in
  let item (g : string) := Val <$> dict_get name (get_items ev g) in
  if bool_decide (kind = K_SET_XFORM_TRS \/ kind = K_SET_POINT_INSTANCER) then
    if bool_decide (group = "" /\ name ∈ get_names ev "fields") then Val <$> ev !! name else None
  else if bool_decide (kind = K_SET_GPRIM_ATTRS) then
    if bool_decide (group ∈ ["attrs"; "primvar_meta"; "attr_interp"]) then item group else None
  else if bool_decide (kind = K_SET_CONNECTABLE_INPUT) then
    if bool_decide (group ∈ ["inputs"; "input_types"]) then item group
    else if bool_decide (group = "" /\ name = "info_id") then
      if truthy (py_get ev "info_id") then Some (Val (py_get ev "info_id")) else None
    else None
  else if bool_decide (kind = K_SET_VARIANT_SELECTIONS) then
    if bool_decide (group = "selections") then item group else None
  else if bool_decide (kind = K_SET_STAGE_METADATA) then
    if bool_decide (group = "" /\ name ∈ STAGE_METADATA_KEYS) then Val <$> ev !! name else None
  else if bool_decide (kind = K_SET_CONNECTABLE_CONNECTION) then
    if bool_decide (group = "connections") then
      if bool_decide (name ∈ get_names ev "disconnections") then Some (Val PNone) else item group
    else None
  else if bool_decide (kind = K_ENSURE_PRIM) then
    if bool_decide (group = "" /\ name = "typeName") then Val <$> ev !! "typeName"
    else if bool_decide (group = "api_schemas" /\ name ∈ get_names ev "api_schemas") then Some (Val (PBool true))
    else None
  else if bool_decide (kind = K_ENSURE_XFORM_OPS) then
    if bool_decide (group = "" /\ name = "") then Some (Val PNone) else None
  else if bool_decide (kind = K_DELETE_PRIM) then None
  else if bool_decide (group = "" /\ name = "") then Some (Whole ev) else None.

Definition opinions : Type := merge_key -> slot -> option opinion_value.
Definition record_key (r : received) : merge_key := from_event (r_event r) (default "" (r_layer_key r)).

(** Applying a record: a deletion clears what it covers, anything else writes. *)
Definition apply_record (st : opinions) (r : received) : opinions := fun k s =>
  if bool_decide (kind_of (r_event r) = K_DELETE_PRIM) then
    if covers (record_key r) k then None else st k s
  else if bool_decide (k = record_key r) then
    match opinion (r_event r) s with Some v => Some v | None => st k s end
  else st k s.
Definition effects (l : list received) : opinions := foldl apply_record (fun _ _ => None) l.

(** *** Validated events *)

Definition identity_fields : list string := ["k"; "prim"; "time"; "material_purpose"; "spec_path"].
Definition item_groups : list string :=
  ["attrs"; "primvar_meta"; "attr_interp"; "inputs"; "input_types"; "selections"; "connections"].
(** Names an event field cannot have. *)
Definition reserved (name : string) : Prop := name ∈ "fields" :: identity_fields ++ item_groups.

(** The kinds whose history is reduced by merging and tombstones alone. *)
Definition reducible (kind : string) : Prop :=
  kind ∉ [K_SET_SUBLAYERS; K_RENAME_PRIM; K_REPLACE_SDF_LAYER_CONTENT; K_LOAD_PAYLOAD; K_UNLOAD_PAYLOAD;
          K_SET_SDF_SPEC_FIELDS; K_ERASE_TIME_SAMPLES].

Record wf_event (ev : event) : Prop := {
  wf_items g : g ∈ item_groups -> NoDup (map fst (get_items ev g));
  wf_fields : kind_of ev = K_SET_XFORM_TRS \/ kind_of ev = K_SET_POINT_INSTANCER ->
    (exists l, ev !! "fields" = Some (PList (map PStr l)))
    /\ forall n, n ∈ get_names ev "fields" -> is_Some (ev !! n) /\ ¬ reserved n;
  wf_trs : kind_of ev = K_SET_XFORM_TRS -> forall n, n ∈ get_names ev "fields" -> n ∈ ["t"; "r"; "s"];
  wf_sampled : kind_of ev = K_SET_GPRIM_ATTRS -> is_Some (ev !! "attrs");
  wf_inputs : kind_of ev = K_SET_CONNECTABLE_INPUT -> is_Some (ev !! "inputs");
}.

(** ** Dictionaries and names *)

Lemma dict_get_update d items n : NoDup (map fst items) ->
  dict_get n (update_items d items) = match dict_get n items with Some v => Some v | None => dict_get n d end.
Proof.
  unfold update_items. revert d; induction items as [|[k v] items IH]; intros d; [done|]. simpl.
  intros [Hni Hnd]%NoDup_cons. rewrite IH by done. rewrite dict_get_set. case_bool_decide as Hk.
  - subst. rewrite decide_True by done. by apply dict_get_None in Hni as ->.
  - rewrite decide_False by congruence. done.
Qed.

Lemma update_items_NoDup d items : NoDup (map fst d) -> NoDup (map fst (update_items d items)).
Proof.
  unfold update_items. revert d; induction items as [|[k v] items IH]; intros d Hd; [done|]. simpl.
  by apply IH, dict_set_NoDup.
Qed.

Lemma names_of_strs l : names_of (PList (map PStr l)) = l.
Proof. induction l as [|x l IH]; [done|]. simpl in *. f_equal. exact IH. Qed.

Lemma get_names_insert ev k l : get_names (<[k := PList (map PStr l)]> ev) k = l.
Proof. unfold get_names, py_get. rewrite lookup_insert_eq. apply names_of_strs. Qed.
Lemma get_names_insert_ne ev k k' v : k ≠ k' -> get_names (<[k := v]> ev) k' = get_names ev k'.
Proof. intros. unfold get_names, py_get. by rewrite lookup_insert_ne. Qed.
Lemma get_items_insert ev k d : get_items (<[k := PDict d]> ev) k = d.
Proof. unfold get_items, py_get. by rewrite lookup_insert_eq. Qed.
Lemma get_items_insert_ne ev k k' v : k ≠ k' -> get_items (<[k := v]> ev) k' = get_items ev k'.
Proof. intros. unfold get_items, py_get. by rewrite lookup_insert_ne. Qed.
Lemma kind_of_insert_ne ev k v : k ≠ "k" -> kind_of (<[k := v]> ev) = kind_of ev.
Proof. intros. unfold kind_of. by rewrite lookup_insert_ne. Qed.

Lemma elem_of_add_name x n l : x ∈ add_name n l <-> x = n \/ x ∈ l.
Proof. unfold add_name. case_bool_decide; set_solver. Qed.
Lemma elem_of_add_names x ns l : x ∈ foldl (fun l n => add_name n l) l ns <-> x ∈ ns \/ x ∈ l.
Proof.
  revert l; induction ns as [|n ns IH]; intros l; simpl; [set_solver|].
  rewrite IH, elem_of_add_name. set_solver.
Qed.
Lemma elem_of_discard_names x (d : list (string * pyval)) l :
  x ∈ foldl (fun l kv => discard_name kv.1 l) l d <-> x ∈ l /\ x ∉ map fst d.
Proof.
  revert l; induction d as [|[k v] d IH]; intros l; simpl; [set_solver|].
  rewrite IH. unfold discard_name. rewrite list_elem_of_filter. set_solver.
Qed.

(** ** The merge law *)

Definition over (a b : option opinion_value) : option opinion_value :=
  match a with Some v => Some v | None => b end.

Record merge_law (previous ev m : event) : Prop := {
  ml_kind : kind_of m = kind_of ev;
  ml_opinion s : opinion m s = over (opinion ev s) (opinion previous s);
  ml_wf : wf_event m;
  ml_identity : m = ev \/ forall f, f ∈ identity_fields -> m !! f = previous !! f;
}.

Lemma not_identity k f : k ∉ identity_fields -> f ∈ identity_fields -> k ≠ f.
Proof. by intros Hk Hf ->. Qed.

Ltac not_id := let H := fresh in intros H; repeat (apply elem_of_cons in H as [H|H]; [discriminate H|]); by apply not_elem_of_nil in H.

Lemma opinion_fields ev g n : kind_of ev = K_SET_XFORM_TRS \/ kind_of ev = K_SET_POINT_INSTANCER ->
  opinion ev (g, n) = if bool_decide (g = "" /\ n ∈ get_names ev "fields") then Val <$> ev !! n else None.
Proof. intros Hk. unfold opinion. by rewrite bool_decide_true. Qed.

Lemma py_item_Some ev k v : ev !! k = Some v -> py_item ev k = Ok v.
Proof. unfold py_item. by intros ->. Qed.

(** The field loop of [_merge_payload]. *)
Lemma merge_fields_law ev names p m :
  (forall n, n ∈ names -> is_Some (ev !! n) /\ ¬ reserved n) ->
  (exists l, p !! "fields" = Some (PList (map PStr l))) ->
  foldR (merge_field ev) p names = Ok m ->
  (forall n, n ∈ names -> m !! n = ev !! n)
  /\ (forall k, k ∉ names -> k ≠ "fields" -> m !! k = p !! k)
  /\ (exists l, m !! "fields" = Some (PList (map PStr l)))
  /\ (forall n, n ∈ get_names m "fields" <-> n ∈ get_names p "fields" \/ n ∈ names).
Proof.
  revert p; induction names as [|n names IH]; intros p Hn Hp; simpl.
  { intros [= ->]. split_and!; try done; [by intros n ?%not_elem_of_nil|set_solver]. }
  intros (x & Hx & H)%bind_Ok. unfold merge_field in Hx. destruct (Hn n) as [[v Hv] Hr]; [set_solver|].
  rewrite (py_item_Some _ _ _ Hv) in Hx. simpl in Hx.
  assert (n ≠ "fields" /\ n ≠ "k") as [Hnf Hnk].
  { split; intros ->; apply Hr; unfold reserved, identity_fields; set_solver. }
  set (p1 := <[n := v]> p) in *.
  assert (get_names p1 "fields" = get_names p "fields") as Ep1 by (by apply get_names_insert_ne).
  assert (x !! n = ev !! n /\ (forall k, k ≠ n -> k ≠ "fields" -> x !! k = p !! k)
          /\ (exists l, x !! "fields" = Some (PList (map PStr l)))
          /\ forall n', n' ∈ get_names x "fields" <-> n' ∈ get_names p "fields" \/ n' = n) as (H1 & H2 & H3 & H4).
  { case_bool_decide as Hin; injection Hx as <-.
    - unfold p1. split_and!; [by rewrite lookup_insert_eq|intros; by rewrite lookup_insert_ne| |].
      + rewrite lookup_insert_ne by done. exact Hp.
      + intros n'. fold p1. rewrite Ep1 in *. naive_solver.
    - unfold p1. split_and!.
      + by rewrite lookup_insert_ne, lookup_insert_eq.
      + intros k Hk1 Hk2. by rewrite !lookup_insert_ne.
      + rewrite lookup_insert_eq. by eexists.
      + intros n'. rewrite get_names_insert. fold p1. rewrite Ep1, elem_of_app, list_elem_of_singleton. done. }
  destruct (IH x) as (I1 & I2 & I3 & I4); [intros; apply Hn; set_solver|done|done|]. split_and!.
  - intros n' [->|Hin]%elem_of_cons; [|by apply I1]. destruct (decide (n ∈ names)); [by apply I1|].
    by rewrite I2, H1.
  - intros k [Hk1 Hk2]%not_elem_of_cons Hk3. rewrite I2 by done. by apply H2.
  - done.
  - intros n'. rewrite I4, H4. set_solver.
Qed.

Lemma merge_fields_total ev names p :
  (forall n, n ∈ names -> is_Some (ev !! n)) -> exists m, foldR (merge_field ev) p names = Ok m.
Proof.
  revert p; induction names as [|n names IH]; intros p Hn; simpl; [by eexists|].
  destruct (Hn n) as [v Hv]; [set_solver|]. destruct (merge_field ev p n) as [p1|e] eqn:E; simpl.
  - apply IH. intros; apply Hn; set_solver.
  - unfold merge_field in E. by rewrite (py_item_Some _ _ _ Hv) in E.
Qed.

Lemma opinion_items ev kind groups g n :
  kind_of ev = kind -> g ∈ groups ->
  (kind, groups) ∈ [(K_SET_GPRIM_ATTRS, ["attrs"; "primvar_meta"; "attr_interp"]);
                    (K_SET_CONNECTABLE_INPUT, ["inputs"; "input_types"]);
                    (K_SET_VARIANT_SELECTIONS, ["selections"])] ->
  opinion ev (g, n) = Val <$> dict_get n (get_items ev g).
Proof.
  intros Hk Hg Hin. unfold opinion. rewrite Hk.
  repeat (apply elem_of_cons in Hin as [[= -> ->]|Hin];
    [repeat (apply elem_of_cons in Hg as [->|Hg]; [reflexivity|]); by apply not_elem_of_nil in Hg|]).
  by apply not_elem_of_nil in Hin.
Qed.

Lemma fmap_over (f : pyval -> opinion_value) a b :
  f <$> (match a with Some v => Some v | None => b end) = over (f <$> a) (f <$> b).
Proof. by destruct a. Qed.

(** [previous.setdefault(name, {}).update(...)] *)
Lemma merge_items_get ev name items p g n : NoDup (map fst items) -> get_items ev name = items ->
  dict_get n (get_items (merge_items name items p) g)
  = if decide (g = name) then match dict_get n (get_items ev name) with Some v => Some v | None => dict_get n (get_items p g) end
    else dict_get n (get_items p g).
Proof.
  intros Hnd He. unfold merge_items. case_decide as Hg.
  - subst g. rewrite get_items_insert, dict_get_update by done. by rewrite He.
  - by rewrite get_items_insert_ne.
Qed.

Lemma merge_items_other name items p k : k ≠ name -> merge_items name items p !! k = p !! k.
Proof. intros. unfold merge_items. by rewrite lookup_insert_ne. Qed.

(** Events of the merged kinds differ from the previous one in their own fields. *)
Lemma wf_event_items ev p m : wf_event p -> wf_event ev -> kind_of m = kind_of p -> kind_of ev = kind_of p ->
  kind_of p ≠ K_SET_XFORM_TRS -> kind_of p ≠ K_SET_POINT_INSTANCER ->
  (forall g, g ∈ item_groups -> NoDup (map fst (get_items m g))) ->
  (is_Some (p !! "attrs") -> is_Some (m !! "attrs")) -> (is_Some (p !! "inputs") -> is_Some (m !! "inputs")) ->
  wf_event m.
Proof.
  intros [P1 P2 P3 P4 P5] _ Hm He N1 N2 Hi Ha Hin. split; rewrite ?Hm; try done.
  - intros [?|?]; done.
  - intros ?. by apply Ha, P4.
  - intros ?. by apply Hin, P5.
Qed.

Definition upd (cond : bool) (ev : event) (name : string) (p : event) : event :=
  if cond then merge_items name (get_items ev name) p else p.

Record updated (ev p p' : event) (names : list string) : Prop := {
  up_items g n : dict_get n (get_items p' g)
    = if decide (g ∈ names)
      then match dict_get n (get_items ev g) with Some v => Some v | None => dict_get n (get_items p g) end
      else dict_get n (get_items p g);
  up_other k : k ∉ names -> p' !! k = p !! k;
  up_some k : is_Some (p !! k) -> is_Some (p' !! k);
  up_nodup g : NoDup (map fst (get_items p g)) -> NoDup (map fst (get_items p' g));
}.

Lemma updated_nil ev p : updated ev p p [].
Proof. by split. Qed.

Lemma updated_snoc ev p p' names name cond : updated ev p p' names -> name ∉ names ->
  NoDup (map fst (get_items ev name)) -> (cond = false -> get_items ev name = []) ->
  updated ev p (upd cond ev name p') (names ++ [name]).
Proof.
  intros [U1 U2 U3 U4] Hni Hnd Hc. unfold upd. destruct cond.
  - split.
    + intros g n. rewrite (merge_items_get ev) by done. case_decide as Hg.
      * subst g. rewrite decide_True by set_solver. rewrite U1, decide_False by done. done.
      * rewrite U1. destruct (decide (g ∈ names)); [by rewrite decide_True by set_solver|].
        rewrite decide_False; [done|]. set_solver.
    + intros k Hk. rewrite merge_items_other by set_solver. apply U2. set_solver.
    + intros k Hk. destruct (decide (k = name)) as [->|Hne].
      * unfold merge_items. rewrite lookup_insert_eq. by eexists.
      * rewrite merge_items_other by done. by apply U3.
    + intros g Hg. unfold merge_items. destruct (decide (g = name)) as [->|Hne].
      * rewrite get_items_insert. by apply update_items_NoDup, U4.
      * rewrite get_items_insert_ne by done. by apply U4.
  - specialize (Hc eq_refl). split; try done.
    + intros g n. rewrite U1. destruct (decide (g ∈ names)); [by rewrite decide_True by set_solver|].
      destruct (decide (g = name)) as [->|Hne]; [by rewrite decide_True, Hc by set_solver|].
      rewrite decide_False; [done|]. set_solver.
    + intros k Hk. apply U2. set_solver.
Qed.

Lemma falsy_items ev g : truthy (py_get ev g) = false -> get_items ev g = [].
Proof. unfold get_items. destruct (py_get ev g) as [| | | | | |[|? ?]]; try done. Qed.

Lemma updated_kind ev p p' names : updated ev p p' names -> "k" ∉ names -> kind_of p' = kind_of p.
Proof. intros U Hk. unfold kind_of. by rewrite (up_other _ _ _ _ U). Qed.

Lemma updated_identity ev p p' names : updated ev p p' names -> (forall f, f ∈ identity_fields -> f ∉ names) ->
  forall f, f ∈ identity_fields -> p' !! f = p !! f.
Proof. intros U Hn f Hf. by apply (up_other _ _ _ _ U), Hn. Qed.

Lemma updated_wf ev p p' names : updated ev p p' names -> wf_event p -> wf_event ev ->
  kind_of p' = kind_of p -> kind_of ev = kind_of p ->
  kind_of p ≠ K_SET_XFORM_TRS -> kind_of p ≠ K_SET_POINT_INSTANCER -> wf_event p'.
Proof.
  intros U Hp He Hk1 Hk2 N1 N2. apply (wf_event_items ev p); try done.
  - intros g Hg. apply (up_nodup _ _ _ _ U), (wf_items p Hp g Hg).
  - apply (up_some _ _ _ _ U).
  - apply (up_some _ _ _ _ U).
Qed.

Ltac in_list := repeat first [by left | right]; fail.
Ltac not_in_list := let H := fresh in intros H; repeat (apply elem_of_cons in H as [H|H]; [discriminate H|]); by apply not_elem_of_nil in H.
Ltac split_in H := repeat (apply elem_of_cons in H as [->|H]); [..|by apply not_elem_of_nil in H].

Lemma merge_gprim_law p ev m : wf_event p -> wf_event ev ->
  kind_of p = K_SET_GPRIM_ATTRS -> kind_of ev = K_SET_GPRIM_ATTRS ->
  foldl (fun p name => if truthy (py_get ev name) then merge_items name (get_items ev name) p else p)
    p ["attrs"; "primvar_meta"; "attr_interp"] = m -> merge_law p ev m.
Proof.
  intros Hp He Kp Ke Hm. simpl in Hm.
  assert (updated ev p m ["attrs"; "primvar_meta"; "attr_interp"]) as U.
  { rewrite <-Hm. apply (updated_snoc ev p _ ["attrs"; "primvar_meta"]);
      [apply (updated_snoc ev p _ ["attrs"]); [apply (updated_snoc ev p _ []); [apply updated_nil|..]|..]|..];
      try apply falsy_items; try (apply (wf_items ev He); unfold item_groups; set_solver); not_in_list. }
  assert (kind_of m = K_SET_GPRIM_ATTRS) as Km by (rewrite <-Kp; eapply updated_kind; [exact U|not_in_list]).
  split; [by rewrite Km| |by apply (updated_wf _ _ _ _ U); rewrite ?Km, ?Kp|].
  - intros [g n]. destruct (decide (g ∈ ["attrs"; "primvar_meta"; "attr_interp"])) as [Hg|Hg].
    + rewrite !(opinion_items _ K_SET_GPRIM_ATTRS ["attrs"; "primvar_meta"; "attr_interp"]) by (done || in_list).
      by rewrite (up_items _ _ _ _ U), decide_True, fmap_over.
    + unfold opinion. rewrite Km, Ke, Kp. simpl. by rewrite bool_decide_false.
  - right. eapply updated_identity; [exact U|]. intros f Hf. split_in Hf; not_in_list.
Qed.

Lemma merge_variant_law p ev : wf_event p -> wf_event ev ->
  kind_of p = K_SET_VARIANT_SELECTIONS -> kind_of ev = K_SET_VARIANT_SELECTIONS ->
  merge_law p ev (merge_items "selections" (get_items ev "selections") p).
Proof.
  intros Hp He Kp Ke. set (m := merge_items _ _ p).
  assert (updated ev p m ["selections"]) as U.
  { apply (updated_snoc ev p p [] "selections" true); [apply updated_nil|not_in_list| |done].
    apply (wf_items ev He). unfold item_groups. in_list. }
  assert (kind_of m = K_SET_VARIANT_SELECTIONS) as Km by (rewrite <-Kp; eapply updated_kind; [exact U|not_in_list]).
  split; [by rewrite Km| |by apply (updated_wf _ _ _ _ U); rewrite ?Km, ?Kp|].
  - intros [g n]. destruct (decide (g ∈ ["selections"])) as [Hg|Hg].
    + rewrite !(opinion_items _ K_SET_VARIANT_SELECTIONS ["selections"]) by (done || in_list).
      by rewrite (up_items _ _ _ _ U), decide_True, fmap_over.
    + unfold opinion. rewrite Km, Ke, Kp. simpl. rewrite bool_decide_false; [done|]. intros ->. apply Hg. in_list.
  - right. eapply updated_identity; [exact U|]. intros f Hf. split_in Hf; not_in_list.
Qed.

(** A key outside the groups and the identity changes nothing else. *)
Lemma get_items_other ev k v g : g ≠ k -> get_items (<[k := v]> ev) g = get_items ev g.
Proof. intros. by apply get_items_insert_ne. Qed.

Lemma merge_input_law p ev m : wf_event p -> wf_event ev ->
  kind_of p = K_SET_CONNECTABLE_INPUT -> kind_of ev = K_SET_CONNECTABLE_INPUT ->
  (let p := merge_items "input_types" (get_items ev "input_types") (merge_items "inputs" (get_items ev "inputs") p) in
   if truthy (py_get ev "info_id") then <["info_id" := py_get ev "info_id"]> p else p) = m -> merge_law p ev m.
Proof.
  intros Hp He Kp Ke Hm. set (q := merge_items "input_types" _ (merge_items "inputs" _ p)) in *. cbv zeta in Hm.
  assert (updated ev p q ["inputs"; "input_types"]) as U.
  { apply (updated_snoc ev p (upd true ev "inputs" p) ["inputs"] "input_types" true).
    - apply (updated_snoc ev p p [] "inputs" true); [apply updated_nil|not_in_list| |done].
      apply (wf_items ev He). unfold item_groups. in_list.
    - not_in_list.
    - apply (wf_items ev He). unfold item_groups. in_list.
    - done. }
  assert (forall k, k ≠ "info_id" -> m !! k = q !! k) as Hmq.
  { intros k Hk. rewrite <-Hm. destruct (truthy _); [by rewrite lookup_insert_ne|done]. }
  assert (kind_of q = kind_of p) as Kq by (eapply updated_kind; [exact U|not_in_list]).
  assert (kind_of m = kind_of p) as Km by (rewrite <-Kq; unfold kind_of; by rewrite Hmq).
  assert (forall g, g ≠ "info_id" -> get_items m g = get_items q g) as Hgi.
  { intros g Hg. unfold get_items, py_get. by rewrite Hmq. }
  split; [by rewrite Km, Kp| | |].
  - intros [g n]. destruct (decide (g ∈ ["inputs"; "input_types"])) as [Hg|Hg].
    + rewrite !(opinion_items _ K_SET_CONNECTABLE_INPUT ["inputs"; "input_types"]) by (rewrite ?Km; done || in_list).
      rewrite Hgi by (intros ->; revert Hg; not_in_list).
      by rewrite (up_items _ _ _ _ U), decide_True, fmap_over.
    + unfold opinion. rewrite Km, Ke, Kp. simpl. rewrite !(bool_decide_false (g ∈ _)) by done.
      case_bool_decide as Hi; [|done]. destruct Hi as [-> ->].
      assert (py_get m "info_id" = if truthy (py_get ev "info_id") then py_get ev "info_id" else py_get p "info_id") as Ei.
      { rewrite <-Hm. unfold py_get at 1. destruct (truthy (py_get ev "info_id")); [by rewrite lookup_insert_eq|].
        unfold py_get. rewrite (up_other _ _ _ _ U) by not_in_list. done. }
      rewrite Ei. destruct (truthy (py_get ev "info_id")) eqn:E; [by rewrite E|done].
  - apply (wf_event_items ev p); try done; try (by rewrite ?Km, ?Kp, ?Ke).
    + intros g Hg. rewrite Hgi; [apply (up_nodup _ _ _ _ U), (wf_items p Hp g Hg)|]. intros ->. revert Hg. not_in_list.
    + rewrite Hmq by done. apply (up_some _ _ _ _ U).
    + rewrite Hmq by done. apply (up_some _ _ _ _ U).
  - right. intros f Hf. rewrite Hmq; [|by split_in Hf]. eapply updated_identity; [exact U| |done].
    intros f' Hf'. split_in Hf'; not_in_list.
Qed.

Lemma metadata_fold (ev p : event) (keys : list string) k :
  foldl (fun p name => match ev !! name with Some v => <[name := v]> p | None => p end) p keys !! k
  = if decide (k ∈ keys) then match ev !! k with Some v => Some v | None => p !! k end else p !! k.
Proof.
  revert p; induction keys as [|name keys IH]; intros p; [by rewrite decide_False by apply not_elem_of_nil|].
  simpl. rewrite IH. destruct (decide (k = name)) as [->|Hne].
  - rewrite (decide_True (P := name ∈ name :: keys)) by set_solver.
    destruct (ev !! name) eqn:E; [rewrite lookup_insert_eq|]; by case_decide.
  - assert ((match ev !! name with Some v => <[name:=v]> p | None => p end) !! k = p !! k) as ->.
    { destruct (ev !! name); [by rewrite lookup_insert_ne|done]. }
    destruct (decide (k ∈ keys)); [by rewrite decide_True by set_solver|].
    rewrite decide_False; [done|]. set_solver.
Qed.

Lemma merge_metadata_law p ev : wf_event p -> wf_event ev ->
  kind_of p = K_SET_STAGE_METADATA -> kind_of ev = K_SET_STAGE_METADATA ->
  merge_law p ev (foldl (fun p name => match ev !! name with Some v => <[name := v]> p | None => p end)
                    p STAGE_METADATA_KEYS).
Proof.
  intros Hp He Kp Ke. set (m := foldl _ p _).
  assert (forall k, m !! k = if decide (k ∈ STAGE_METADATA_KEYS) then match ev !! k with Some v => Some v | None => p !! k end
                             else p !! k) as Hm by apply metadata_fold.
  assert (forall k, k ∉ STAGE_METADATA_KEYS -> m !! k = p !! k) as Ho by (intros k Hk; by rewrite Hm, decide_False).
  assert (kind_of m = kind_of p) as Km by (unfold kind_of; rewrite Ho; [done|not_in_list]).
  split; [by rewrite Km, Kp| | |].
  - intros [g n]. unfold opinion. rewrite Km, Ke, Kp. simpl. case_bool_decide as Hg; [|done]. destruct Hg as [-> Hn].
    rewrite Hm, decide_True by done. by rewrite fmap_over.
  - apply (wf_event_items ev p); try done; try (by rewrite ?Km, ?Kp, ?Ke).
    + intros g Hg. unfold get_items, py_get. rewrite Ho; [apply (wf_items p Hp g Hg)|].
      unfold item_groups in Hg. split_in Hg; not_in_list.
    + rewrite Ho; [done|not_in_list].
    + rewrite Ho; [done|not_in_list].
  - right. intros f Hf. apply Ho. split_in Hf; not_in_list.
Qed.

Lemma reserved_fields : reserved "fields".
Proof. unfold reserved. by left. Qed.
Lemma reserved_identity f : f ∈ identity_fields -> reserved f.
Proof. intros. unfold reserved. right. apply elem_of_app. by left. Qed.
Lemma reserved_group g : g ∈ item_groups -> reserved g.
Proof. intros. unfold reserved. right. apply elem_of_app. by right. Qed.

Lemma fields_names ev l : ev !! "fields" = Some (PList (map PStr l)) -> get_names ev "fields" = l.
Proof. intros H. unfold get_names, py_get. rewrite H. apply names_of_strs. Qed.

Lemma wf_fields_event ev p m : wf_event p -> wf_event ev -> kind_of m = kind_of p -> kind_of ev = kind_of p ->
  kind_of p = K_SET_XFORM_TRS \/ kind_of p = K_SET_POINT_INSTANCER ->
  (exists l, m !! "fields" = Some (PList (map PStr l))) ->
  (forall n, n ∈ get_names m "fields" -> is_Some (m !! n) /\ (n ∈ get_names p "fields" \/ n ∈ get_names ev "fields")) ->
  (forall g, g ∈ item_groups -> NoDup (map fst (get_items m g))) -> wf_event m.
Proof.
  intros [P1 P2 P3 P4 P5] [E1 E2 E3 E4 E5] Km Ke Hk Hf Hn Hg. split; rewrite ?Km; try done.
  - intros _. split; [done|]. intros n Hin. destruct (Hn n Hin) as [Hs [Hp|He]]; (split; [done|]).
    + by apply P2.
    + apply E2; [by rewrite Ke|done].
  - intros Kt n Hin. destruct (Hn n Hin) as [_ [Hp|He]]; [by apply P3|]. apply E3; [by rewrite Ke|done].
  - intros H. by rewrite H in Hk; destruct Hk.
  - intros H. by rewrite H in Hk; destruct Hk.
Qed.

Lemma merge_fields_merge_law p ev m l : wf_event p -> wf_event ev ->
  kind_of p = K_SET_XFORM_TRS \/ kind_of p = K_SET_POINT_INSTANCER -> kind_of ev = kind_of p ->
  ev !! "fields" = Some (PList (map PStr l)) ->
  foldR (merge_field ev) p l = Ok m -> merge_law p ev m.
Proof.
  intros Hp He Hk Ke Hl Hm. pose proof (fields_names ev l Hl) as Enames.
  assert (forall n, n ∈ l -> is_Some (ev !! n) /\ ¬ reserved n) as Hn.
  { intros n Hin. apply (wf_fields ev He); [by rewrite Ke|]. by rewrite Enames. }
  destruct (wf_fields p Hp Hk) as [Hpf Hpn].
  destruct (merge_fields_law ev l p m Hn Hpf Hm) as (M1 & M2 & M3 & M4).
  assert (forall f, f ∈ identity_fields -> m !! f = p !! f) as Hid.
  { intros f Hf. apply M2; [|intros ->; revert Hf; unfold identity_fields; not_in_list].
    intros Hin. apply (Hn f Hin), reserved_identity, Hf. }
  assert (kind_of m = kind_of p) as Km by (unfold kind_of; rewrite Hid; [done|unfold identity_fields; in_list]).
  split; [by rewrite Km, Ke| | |by right].
  - intros [g n]. rewrite !opinion_fields by (rewrite ?Km, ?Ke; done). rewrite Enames.
    destruct (decide (g = "")) as [->|Hg]; [|by rewrite !bool_decide_false by tauto].
    destruct (decide (n ∈ l)) as [Hin|Hni].
    + rewrite bool_decide_true by (split; [done|]; apply M4; by right).
      rewrite (bool_decide_true (_ /\ n ∈ l)) by done. rewrite M1 by done.
      destruct (Hn n Hin) as [[v ->] _]. done.
    + rewrite (bool_decide_false (_ /\ n ∈ l)) by tauto. simpl.
      destruct (decide (n ∈ get_names p "fields")) as [Hp'|Hp'].
      * assert (n ∈ get_names m "fields") as Hmn by (apply M4; by left).
        rewrite !bool_decide_true by done.
        rewrite M2; [done|done|]. intros ->. destruct (Hpn "fields" Hp') as [_ Hr]. apply Hr, reserved_fields.
      * assert (n ∉ get_names m "fields") as Hmn by (rewrite M4; tauto).
        by rewrite !bool_decide_false by tauto.
  - apply (wf_fields_event ev p); try done.
    + intros n Hin. apply M4 in Hin as H. rewrite Enames. split; [|tauto].
      destruct (decide (n ∈ l)) as [Hin'|Hni]; [rewrite M1 by done; apply Hn, Hin'|].
      destruct H as [H|H]; [|done]. rewrite M2; [apply (Hpn n H)|done|].
      intros ->. destruct (Hpn "fields" H) as [_ Hr]. apply Hr, reserved_fields.
    + intros g Hg. unfold get_items, py_get. rewrite M2; [apply (wf_items p Hp g Hg)|by intros Hin; apply (Hn g Hin), reserved_group|].
      intros ->. unfold item_groups in Hg. revert Hg. not_in_list.
Qed.

(** *** Connections *)

Lemma opinion_connection ev n : kind_of ev = K_SET_CONNECTABLE_CONNECTION ->
  opinion ev ("connections", n)
  = if bool_decide (n ∈ get_names ev "disconnections") then Some (Val PNone)
    else Val <$> dict_get n (get_items ev "connections").
Proof. intros Hk. unfold opinion. rewrite Hk. reflexivity. Qed.

Lemma merge_connections_get (previous : option event) ev k : let merged := default ev previous in
  k ≠ "connections" -> k ≠ "disconnections" -> merge_connections previous ev !! k = merged !! k.
Proof.
  intros merged Hc Hd. unfold merge_connections. fold merged.
  destruct (foldl _ _ _) as [|x l]; [rewrite lookup_delete_ne by done|rewrite lookup_insert_ne by done];
    by rewrite lookup_insert_ne.
Qed.

Lemma merge_connections_items (previous : option event) ev : let merged := default ev previous in
  get_items (merge_connections previous ev) "connections"
  = update_items (get_items merged "connections") (get_items ev "connections").
Proof.
  intros merged. unfold merge_connections. fold merged.
  set (d := foldl _ _ _). destruct d as [|x l].
  - unfold get_items at 1, py_get. rewrite lookup_delete_ne by done. by rewrite lookup_insert_eq.
  - rewrite get_items_insert_ne by done. by rewrite get_items_insert.
Qed.

Lemma merge_connections_names (previous : option event) ev n : let merged := default ev previous in
  n ∈ get_names (merge_connections previous ev) "disconnections"
  <-> n ∈ get_names ev "disconnections"
      \/ (n ∈ get_names merged "disconnections" /\ n ∉ map fst (get_items ev "connections")).
Proof.
  intros merged. unfold merge_connections. fold merged.
  set (d := foldl (fun l n => add_name n l) (foldl (fun l kv => discard_name kv.1 l) _ _) _).
  assert (n ∈ d <-> n ∈ get_names ev "disconnections"
      \/ (n ∈ get_names merged "disconnections" /\ n ∉ map fst (get_items ev "connections"))) as Hd.
  { unfold d. rewrite elem_of_add_names, elem_of_discard_names, elem_of_add_names. set_solver. }
  rewrite <-Hd. destruct d as [|x l].
  - unfold get_names, py_get. rewrite lookup_delete_eq. simpl. done.
  - by rewrite get_names_insert.
Qed.

Lemma merge_connections_law (previous : option event) ev : let p := default ev previous in
  wf_event p -> wf_event ev ->
  kind_of p = K_SET_CONNECTABLE_CONNECTION -> kind_of ev = K_SET_CONNECTABLE_CONNECTION ->
  merge_law p ev (merge_connections previous ev).
Proof.
  intros p Hp He Kp Ke. set (m := merge_connections previous ev).
  assert (forall k, k ≠ "connections" -> k ≠ "disconnections" -> m !! k = p !! k) as Ho by apply merge_connections_get.
  assert (kind_of m = kind_of p) as Km by (unfold kind_of; by rewrite Ho).
  assert ("connections" ∈ item_groups) as Hcg by (unfold item_groups; in_list).
  split; [by rewrite Km, Kp| | |].
  - intros [g n]. destruct (decide (g = "connections")) as [->|Hg].
    + rewrite !opinion_connection by (rewrite ?Km; done). unfold m.
      rewrite merge_connections_items, dict_get_update by (apply (wf_items ev He _ Hcg)). fold p.
      pose proof (merge_connections_names previous ev n) as Hn. fold p in Hn.
      destruct (decide (n ∈ get_names ev "disconnections")) as [H1|H1].
      { rewrite !bool_decide_true by (try apply Hn; tauto). done. }
      rewrite (bool_decide_false (n ∈ get_names ev _)) by done.
      destruct (dict_get n (get_items ev "connections")) as [v|] eqn:Ev; simpl.
      * rewrite bool_decide_false; [done|]. rewrite Hn. intros [?|[_ Hni]]; [done|].
        apply Hni. apply dict_get_elem in Ev. apply list_elem_of_fmap. by exists (n, v).
      * apply dict_get_None in Ev. destruct (decide (n ∈ get_names p "disconnections")) as [H2|H2].
        -- rewrite !bool_decide_true by (try apply Hn; tauto). done.
        -- rewrite !bool_decide_false; [done|done|]. rewrite Hn. tauto.
    + unfold opinion. rewrite Km, Ke, Kp. simpl. by rewrite bool_decide_false.
  - apply (wf_event_items ev p); try done; try (by rewrite ?Km, ?Kp, ?Ke).
    + intros g Hg. destruct (decide (g = "connections")) as [->|Hne].
      * unfold m. rewrite merge_connections_items. apply update_items_NoDup, (wf_items p Hp _ Hcg).
      * unfold get_items, py_get. rewrite Ho; [apply (wf_items p Hp g Hg)|done|].
        intros ->. unfold item_groups in Hg. revert Hg. not_in_list.
    + by rewrite Ho.
    + by rewrite Ho.
  - right. intros f Hf. apply Ho; intros ->; unfold identity_fields in Hf; revert Hf; not_in_list.
Qed.

(** *** Prims *)

Lemma opinion_prim ev g n : kind_of ev = K_ENSURE_PRIM ->
  opinion ev (g, n)
  = if bool_decide (g = "" /\ n = "typeName") then Val <$> ev !! "typeName"
    else if bool_decide (g = "api_schemas" /\ n ∈ get_names ev "api_schemas") then Some (Val (PBool true)) else None.
Proof. intros Hk. unfold opinion. rewrite Hk. reflexivity. Qed.

Lemma merge_prim_law p ev m : wf_event p -> wf_event ev -> kind_of p = K_ENSURE_PRIM -> kind_of ev = K_ENSURE_PRIM ->
  (let q := match ev !! "typeName" with Some t => <["typeName" := t]> p | None => p end in
   let schemas := sorted_strings (remove_dups (get_names p "api_schemas" ++ get_names ev "api_schemas")) in
   match schemas with [] => q | _ => <["api_schemas" := PList (map PStr schemas)]> q end) = m ->
  merge_law p ev m.
Proof.
  intros Hp He Kp Ke Hm. set (q := match ev !! "typeName" with Some t => _ | None => p end) in *. cbv zeta in Hm.
  assert (forall k, k ≠ "typeName" -> q !! k = p !! k) as Hq.
  { intros k Hk. unfold q. destruct (ev !! "typeName"); [by rewrite lookup_insert_ne|done]. }
  set (ss := sorted_strings _) in *.
  assert (forall n, n ∈ ss <-> n ∈ get_names p "api_schemas" \/ n ∈ get_names ev "api_schemas") as Hss.
  { intros n. unfold ss. rewrite elem_of_sorted_strings, elem_of_remove_dups, elem_of_app.
    done. }
  assert (forall k, k ≠ "api_schemas" -> m !! k = q !! k) as Hmq.
  { intros k Hk. rewrite <-Hm. destruct ss; [done|by rewrite lookup_insert_ne]. }
  assert (forall n, n ∈ get_names m "api_schemas" <-> n ∈ ss) as Hms.
  { intros n. rewrite <-Hm. destruct ss as [|x ss'] eqn:E; [|by rewrite get_names_insert].
    unfold get_names, py_get. rewrite Hq by done. fold (py_get p "api_schemas") (get_names p "api_schemas").
    split; [|by intros ?%not_elem_of_nil]. intros H. apply Hss. by left. }
  assert (kind_of m = kind_of p) as Km by (unfold kind_of; by rewrite Hmq, Hq).
  split; [by rewrite Km, Kp| | |].
  - intros [g n]. rewrite !opinion_prim by (rewrite ?Km; done).
    case_bool_decide as H1.
    { rewrite Hmq by done. unfold q. destruct (ev !! "typeName"); [by rewrite lookup_insert_eq|done]. }
    destruct (decide (g = "api_schemas")) as [->|Hg]; [|by rewrite !bool_decide_false by tauto].
    destruct (decide (n ∈ get_names ev "api_schemas")) as [H2|H2].
    { assert (n ∈ get_names m "api_schemas") as Hin by (apply Hms, Hss; by right).
      rewrite (bool_decide_true (_ /\ n ∈ get_names m _)) by done.
      by rewrite (bool_decide_true (_ /\ n ∈ get_names ev _)) by done. }
    rewrite (bool_decide_false (_ /\ n ∈ get_names ev _)) by tauto. simpl.
    destruct (decide (n ∈ get_names p "api_schemas")) as [H3|H3].
    + assert (n ∈ get_names m "api_schemas") as Hin by (apply Hms, Hss; by left).
      by rewrite !bool_decide_true by done.
    + rewrite !bool_decide_false; [done|tauto|]. intros [_ H]. apply Hms, Hss in H. tauto.
  - apply (wf_event_items ev p); try done; try (by rewrite ?Km, ?Kp, ?Ke).
    + intros g Hg. unfold get_items, py_get. rewrite Hmq, Hq; [apply (wf_items p Hp g Hg)|..];
        intros ->; unfold item_groups in Hg; revert Hg; not_in_list.
    + by rewrite Hmq, Hq.
    + by rewrite Hmq, Hq.
  - right. intros f Hf. rewrite Hmq, Hq; [done|..]; intros ->; unfold identity_fields in Hf; revert Hf; not_in_list.
Qed.

Lemma opinion_whole ev s : kind_of ev ∉ [K_SET_XFORM_TRS; K_SET_POINT_INSTANCER; K_SET_GPRIM_ATTRS;
    K_SET_CONNECTABLE_INPUT; K_SET_VARIANT_SELECTIONS; K_SET_STAGE_METADATA; K_SET_CONNECTABLE_CONNECTION;
    K_ENSURE_PRIM; K_ENSURE_XFORM_OPS; K_DELETE_PRIM] ->
  opinion ev s = if bool_decide (s = ("", "")) then Some (Whole ev) else None.
Proof.
  rewrite !not_elem_of_cons. intros (? & ? & ? & ? & ? & ? & ? & ? & ? & ? & _). destruct s as [g n]. unfold opinion.
  rewrite !(bool_decide_false (kind_of ev = _)), bool_decide_false by tauto.
  repeat case_bool_decide; naive_solver.
Qed.

(** The kinds of which a later event replaces the earlier one. *)
Lemma merge_law_replaced p ev : wf_event ev ->
  (forall s, opinion ev s = None -> opinion p s = None) -> merge_law p ev ev.
Proof.
  intros He Hs. split; [done| |done|by left]. intros s. destruct (opinion ev s) eqn:E; [done|]. simpl.
  by rewrite Hs.
Qed.

Lemma same_fields p ev : wf_event p -> wf_event ev -> kind_of p = kind_of ev ->
  kind_of ev = K_SET_XFORM_TRS \/ kind_of ev = K_SET_POINT_INSTANCER ->
  py_get p "fields" = py_get ev "fields" -> merge_law p ev ev.
Proof.
  intros Hp He Hk Ht Hf. apply merge_law_replaced; [done|]. intros [g n].
  rewrite !opinion_fields by (rewrite ?Hk; done). unfold get_names. rewrite Hf.
  case_bool_decide as H; [|done]. destruct H as [_ Hn].
  destruct (wf_fields ev He Ht) as [_ Hs]. by destruct (Hs n Hn) as [[v ->] _].
Qed.

Section reduction.
Context (merge_fragments : event -> event -> result string).
Abbreviation merge_payload := (merge_payload merge_fragments).
Abbreviation add_decoded_record := (add_decoded_record merge_fragments).
Abbreviation merge_record := (merge_record merge_fragments).
Abbreviation compact := (compact merge_fragments).

Lemma merge_payload_law p ev : wf_event p -> wf_event ev -> kind_of p = kind_of ev -> reducible (kind_of ev) ->
  exists m, merge_payload (Some p) ev = Ok m /\ merge_law p ev m.
Proof.
  intros Hp He Hk Hr. unfold merge_payload.
  case_bool_decide as K1; [eexists; split; [done|]; apply (merge_connections_law (Some p)); simpl; by rewrite ?Hk|].
  case_bool_decide as K2.
  { assert (kind_of p = K_SET_XFORM_TRS \/ kind_of p = K_SET_POINT_INSTANCER) as K2' by (by rewrite Hk).
    destruct (wf_fields p Hp K2') as [[lp Hlp] _], (wf_fields ev He K2) as [[le Hle] Hn].
    rewrite (py_item_Some _ _ _ Hlp), (py_item_Some _ _ _ Hle). cbn [mbind result_bind]. rewrite (fields_names _ _ Hle) in Hn.
    case_bool_decide as Hf.
    - exists ev. split; [done|]. apply same_fields; try done. unfold py_get. by rewrite Hlp, Hle, Hf.
    - rewrite names_of_strs. destruct (merge_fields_total ev le p) as [m Hm]; [intros; by apply Hn|].
      exists m. split; [done|]. by apply (merge_fields_merge_law p ev m le). }
  case_bool_decide as K3; [eexists; split; [done|]; apply merge_gprim_law; by rewrite ?Hk|].
  case_bool_decide as K4; [eexists; split; [done|]; apply merge_input_law; by rewrite ?Hk|].
  case_bool_decide as K5; [eexists; split; [done|]; apply merge_variant_law; by rewrite ?Hk|].
  case_bool_decide as K6; [eexists; split; [done|]; apply merge_metadata_law; by rewrite ?Hk|].
  rewrite bool_decide_false by (intros K7; apply Hr; rewrite K7; in_list).
  case_bool_decide as K8; [eexists; split; [done|]; apply merge_prim_law; by rewrite ?Hk|].
  exists ev. split; [done|]. apply merge_law_replaced; [done|]. intros s.
  destruct (decide (kind_of ev = K_ENSURE_XFORM_OPS)) as [K9|K9].
  { destruct s as [g n]. unfold opinion. rewrite Hk, K9. simpl. by case_bool_decide. }
  destruct (decide (kind_of ev = K_DELETE_PRIM)) as [K10|K10].
  { destruct s as [g n]. unfold opinion. by rewrite Hk, K10. }
  rewrite !opinion_whole; [by case_bool_decide| |].
  all: rewrite ?Hk; intros Hin; repeat (apply elem_of_cons in Hin as [Hin|Hin]; [tauto|]);
    by apply not_elem_of_nil in Hin.
Qed.

Lemma merge_payload_first ev : wf_event ev -> exists m, merge_payload None ev = Ok m /\ merge_law ev ev m.
Proof.
  intros He. unfold merge_payload. case_bool_decide as K1.
  - eexists. split; [done|]. by apply (merge_connections_law None).
  - exists ev. split; [done|]. by apply merge_law_replaced.
Qed.

(** ** Reduction *)

(** The opinions held by the pending entries. *)
Definition held (c : compaction) : opinions := fun k s =>
  match dict_get k (pending c) with Some r => opinion (r_event r) s | None => None end.

Record reduced (c : compaction) (bound : Z) : Prop := {
  rd_preserved : preserved c = [];
  rd_keys : NoDup (map fst (pending c));
  rd_entry k r : (k, r) ∈ pending c ->
    record_key r = k /\ wf_event (r_event r) /\ reducible (kind_of (r_event r)) /\ (seq r < bound)%Z;
  rd_order kd rd k r : (kd, rd) ∈ pending c -> (k, r) ∈ pending c ->
    k_kind kd = K_DELETE_PRIM -> k ≠ kd -> covers kd k = true -> (seq rd < seq r)%Z;
}.

Lemma record_key_kind r : k_kind (record_key r) = kind_of (r_event r).
Proof. done. Qed.

Lemma covers_refl k : covers k k = true.
Proof. unfold covers. rewrite !bool_decide_true by done. done. Qed.

Lemma opinion_deletion ev s : kind_of ev = K_DELETE_PRIM -> opinion ev s = None.
Proof. intros Hk. destruct s as [g n]. unfold opinion. by rewrite Hk. Qed.

(** Replaying entries in sequence order yields what they hold. *)
Lemma effects_other l st k s : (forall r, r ∈ l -> record_key r ≠ k) -> st k s = None ->
  foldl apply_record st l k s = None.
Proof.
  revert st; induction l as [|r l IH]; intros st Hl Hst; [done|]. simpl. apply IH; [intros; apply Hl; set_solver|].
  unfold apply_record. case_bool_decide; [by destruct (covers _ _)|].
  rewrite bool_decide_false; [done|]. intros ->. by apply (Hl r); [left|].
Qed.

Lemma effects_kept l st k s : (forall r, r ∈ l -> record_key r ≠ k) ->
  (forall r, r ∈ l -> kind_of (r_event r) = K_DELETE_PRIM -> covers (record_key r) k = false) ->
  foldl apply_record st l k s = st k s.
Proof.
  revert st; induction l as [|r l IH]; intros st Hl Hc; [done|]. simpl.
  rewrite IH by (intros; (apply Hl || apply Hc); set_solver).
  unfold apply_record. case_bool_decide as Hd; [by rewrite (Hc r) by (done || by left)|].
  rewrite bool_decide_false; [done|]. intros ->. by apply (Hl r); [left|].
Qed.

Lemma replay_sorted c : StronglySorted seq_le (replay_records c).
Proof. apply StronglySorted_merge_sort; apply _. Qed.
Lemma replay_perm c : replay_records c ≡ₚ entries c.
Proof. apply merge_sort_Permutation. Qed.

Lemma entries_keys c n : reduced c n -> map record_key (entries c) = map fst (pending c).
Proof.
  intros [Hp _ He _]. unfold entries. rewrite Hp. simpl. rewrite map_map.
  assert (forall l, l ⊆ pending c -> map (fun x => record_key x.2) l = map fst l) as H; [|by apply H].
  induction l as [|[k r] l IH]; intros Hl; [done|]. simpl. f_equal; [apply (He k r)|apply IH]; set_solver.
Qed.

Lemma replay_held c n k s : reduced c n -> effects (replay_records c) k s = held c k s.
Proof.
  intros Hr. pose proof (replay_perm c) as Hperm. pose proof (replay_sorted c) as Hsort.
  assert (map record_key (replay_records c) ≡ₚ map fst (pending c)) as Hkeys by (by rewrite Hperm, (entries_keys c n Hr)).
  assert (NoDup (map record_key (replay_records c))) as Hnd by (rewrite Hkeys; apply (rd_keys c n Hr)).
  assert (forall r, r ∈ replay_records c -> (record_key r, r) ∈ pending c) as Hin.
  { intros r Hr'. rewrite Hperm in Hr'. unfold entries in Hr'. rewrite (rd_preserved c n Hr) in Hr'.
    simpl in Hr'. apply list_elem_of_fmap in Hr' as ([k' r'] & -> & H). simpl.
    by rewrite (proj1 (rd_entry c n Hr k' r' H)). }
  unfold held. destruct (dict_get k (pending c)) as [r|] eqn:E.
  - apply dict_get_elem in E. pose proof (rd_entry c n Hr k r E) as (Hk & _).
    assert (r ∈ replay_records c) as Hrin.
    { rewrite Hperm. unfold entries. rewrite (rd_preserved c n Hr). simpl. apply list_elem_of_fmap. by exists (k, r). }
    apply list_elem_of_split in Hrin as (l1 & l2 & El). rewrite El in *. clear Hperm Hkeys.
    rewrite map_app in Hnd. simpl in Hnd. apply NoDup_app in Hnd as (_ & Hd1 & Hd2). apply NoDup_cons in Hd2 as [Hd2 _].
    apply StronglySorted_app_1_r in Hsort. apply StronglySorted_inv in Hsort as [_ Hle]. rewrite Forall_forall in Hle.
    unfold effects. rewrite foldl_app. simpl.
    set (st1 := foldl apply_record (fun _ _ => None) l1).
    assert (st1 k s = None) as H1.
    { apply effects_other; [|done]. intros r' Hr' Ek. apply (Hd1 (record_key r')); [by apply list_elem_of_fmap_2|].
      rewrite Ek, Hk. by left. }
    rewrite effects_kept.
    + unfold apply_record. case_bool_decide as Hdel.
      * rewrite Hk, covers_refl. symmetry. by apply opinion_deletion.
      * rewrite bool_decide_true by done. rewrite H1. by destruct (opinion _ _).
    + intros r' Hr' Ek. apply Hd2. rewrite Hk, <-Ek. by apply list_elem_of_fmap_2.
    + intros rd Hrd Hdel. destruct (covers (record_key rd) k) eqn:Ec; [|done]. exfalso.
      assert (seq rd < seq r)%Z as Hlt.
      { apply (rd_order c n Hr (record_key rd) rd k r); try done; [apply Hin; set_solver|].
        intros ->. apply Hd2. rewrite Hk. by apply list_elem_of_fmap_2. }
      specialize (Hle rd Hrd). unfold seq_le in Hle. lia.
  - unfold effects. apply effects_other; [|done]. intros r Hr' <-. apply dict_get_None in E. apply E.
    apply list_elem_of_fmap. exists (record_key r, r). split; [done|]. by apply Hin.
Qed.

Lemma from_event_identity p m lk : (forall f, f ∈ identity_fields -> m !! f = p !! f) -> from_event m lk = from_event p lk.
Proof.
  intros H. unfold from_event, kind_of, str_of, py_get. unfold identity_fields in H.
  by rewrite !H by in_list.
Qed.

Lemma from_event_layer p ev lp le : from_event p lp = from_event ev le -> kind_of p = kind_of ev ->
  from_event p le = from_event ev le.
Proof. intros H Hk. unfold from_event in *. rewrite Hk in *. injection H as -> -> Hl -> ->. done. Qed.

Lemma held_set key r c k s : held (mk_compaction (dict_set key (fun _ => r) (pending c)) (preserved c)) k s
  = if decide (k = key) then opinion (r_event r) s else held c k s.
Proof. unfold held. simpl. rewrite dict_get_set. by case_decide. Qed.

Definition record_ok (r : received) : Prop := wf_event (r_event r) /\ reducible (kind_of (r_event r)).

Lemma trs_attributes_ok l : (forall n, n ∈ l -> n ∈ ["t"; "r"; "s"]) -> exists k, trs_attributes l = Ok k.
Proof.
  induction l as [|n l IH]; intros Hl; simpl; [by eexists|].
  destruct IH as [k ->]; [intros; apply Hl; set_solver|].
  assert (n ∈ ["t"; "r"; "s"]) as Hn by (apply Hl; set_solver). split_in Hn; simpl; by eexists.
Qed.

Lemma sampled_names_ok ev : wf_event ev -> exists names, sampled_attribute_names ev = Ok names.
Proof.
  intros [H1 H2 H3 H4 H5]. unfold sampled_attribute_names.
  case_bool_decide; [by eexists|]. case_bool_decide as K1.
  { destruct (H4 K1) as [v Hv]. rewrite (py_item_Some _ _ _ Hv). by eexists. }
  case_bool_decide as K2.
  { destruct (H2 (or_introl K2)) as [[l Hl] _]. rewrite (py_item_Some _ _ _ Hl). cbn [mbind result_bind].
    rewrite names_of_strs. apply trs_attributes_ok. intros n Hn. apply H3; [done|]. by rewrite (fields_names _ _ Hl). }
  case_bool_decide as K3.
  { destruct (H5 K3) as [v Hv]. rewrite (py_item_Some _ _ _ Hv). by eexists. }
  case_bool_decide; [by eexists|]. case_bool_decide as K5; [|by eexists].
  destruct (H2 (or_intror K5)) as [[l Hl] _]. rewrite (py_item_Some _ _ _ Hl). by eexists.
Qed.

Lemma no_spec_key c n k : reduced c n -> k_kind k = K_SET_SDF_SPEC_FIELDS -> dict_get k (pending c) = None.
Proof.
  intros Hr Hk. destruct (dict_get k (pending c)) as [r|] eqn:E; [|done]. exfalso.
  apply dict_get_elem in E. destruct (rd_entry c n Hr k r E) as (Hrk & _ & Hred & _). apply Hred.
  rewrite <-record_key_kind, Hrk, Hk. in_list.
Qed.

(** Nothing but merging and tombstones happens to a reducible record. *)
Lemma sample_order_reducible c n key ev : reduced c n -> wf_event ev -> reducible (kind_of ev) ->
  preserve_sample_order key ev c = Ok c.
Proof.
  intros Hr He Hk. unfold preserve_sample_order. destruct (sampled_names_ok ev He) as [names ->]. cbn [mbind result_bind].
  assert (foldl (preserve_table key) c names = c) as ->.
  { clear He. induction names as [|name names IH]; [done|]. simpl. unfold preserve_table at 2.
    by rewrite (no_spec_key c n). }
  assert (is_sample_history_barrier ev = false) as ->; [|done].
  unfold is_sample_history_barrier. rewrite !bool_decide_false; [done|..]; intros E; apply Hk; rewrite E; in_list.
Qed.

Lemma forget_reducible key c : reducible (k_kind key) ->
  forget key c = if bool_decide (k_kind key = K_DELETE_PRIM) then discard (covers key) c else c.
Proof.
  intros Hk. unfold forget. case_bool_decide as K1.
  - destruct K1 as [K1|K1]; [by rewrite bool_decide_true|]. exfalso. apply Hk. rewrite K1. in_list.
  - rewrite (bool_decide_false (k_kind key = K_DELETE_PRIM)) by tauto.
    rewrite !bool_decide_false; [done|..].
    + intros [E|E]; apply Hk; rewrite E; in_list.
    + intros E; apply Hk; rewrite E; in_list.
Qed.

Lemma reduced_mono c n n' : reduced c n -> (n ≤ n')%Z -> reduced c n'.
Proof. intros [? ? He ?] Hle. split; try done. intros k r Hin. destruct (He k r Hin) as (? & ? & ? & ?). split_and!; (done || lia). Qed.

Lemma dict_get_discard matches c k :
  dict_get k (pending (discard matches c)) = if matches k then None else dict_get k (pending c).
Proof.
  unfold discard. cbn [pending]. induction (pending c) as [|[k1 r] l IH]; [by destruct (matches k)|].
  rewrite filter_cons. cbn [fst dict_get]. case_decide as H1; cbn [dict_get]; rewrite IH.
  - case_bool_decide as E; [subst; by rewrite H1|done].
  - case_bool_decide as E; [subst; by destruct (matches k)|done].
Qed.

Lemma discard_reduced key c n : reduced c n -> reduced (discard (covers key) c) n
  /\ (forall k r, (k, r) ∈ pending (discard (covers key) c) -> covers key k = false)
  /\ forall k s, held (discard (covers key) c) k s = if covers key k then None else held c k s.
Proof.
  intros [Hp Hk He Ho]. split_and!.
  - split; simpl; [by rewrite Hp|by apply dict_filter_NoDup| |].
    + intros k r [_ Hin]%list_elem_of_filter. by apply He.
    + intros kd rd k r [_ Hd]%list_elem_of_filter [_ Hr]%list_elem_of_filter. by apply Ho.
  - intros k r [H _]%list_elem_of_filter. exact H.
  - intros k s. unfold held.
    rewrite dict_get_discard. by destruct (covers key k).
Qed.

Definition prior (c : compaction) (key : merge_key) (s : slot) : option opinion_value := held c key s.

(** The entry the merge leaves under the key. *)
Lemma merge_record_law c n key r : reduced c n -> record_ok r -> record_key r = key -> (n ≤ seq r)%Z ->
  (k_kind key = K_DELETE_PRIM -> dict_get key (pending c) = None) ->
  exists c', merge_record key r c = Ok c' /\
    (c' = c /\ (forall s, over (opinion (r_event r) s) (held c key s) = held c key s)
     \/ exists r', c' = mk_compaction (dict_set key (fun _ => r') (pending c)) (preserved c)
         /\ record_key r' = key /\ record_ok r'
         /\ (forall s, opinion (r_event r') s = over (opinion (r_event r) s) (held c key s))
         /\ (seq r' = seq r \/ exists p, (key, p) ∈ pending c /\ seq r' = seq p)).
Proof.
  intros Hr [Hwf Hred] Hkey Hn Hdel. unfold merge_record, prior, held.
  destruct (dict_get key (pending c)) as [p|] eqn:Ep.
  - apply dict_get_elem in Ep. destruct (rd_entry c n Hr key p Ep) as (Hpk & Hpw & Hpr & Hps).
    assert (kind_of (r_event p) = kind_of (r_event r)) as Hkind.
    { rewrite <-!record_key_kind. by rewrite Hpk, Hkey. }
    case_bool_decide as Kx.
    + exists c. split; [done|]. left. split; [done|]. intros [g m].
      rewrite <-Hkey, record_key_kind in Kx. unfold opinion. rewrite Hkind, Kx. simpl. by case_bool_decide.
    + destruct (merge_payload_law (r_event p) (r_event r)) as (m & Hm & [M1 M2 M3 M4]); try done.
      simpl. rewrite Hm. cbn [mbind result_bind]. eexists. split; [reflexivity|]. right. eexists. split; [reflexivity|].
      assert (from_event m (default "" (r_layer_key r)) = key) as Hmk.
      { destruct M4 as [-> |Hid]; [exact Hkey|]. rewrite (from_event_identity (r_event p)) by done.
        rewrite <-Hkey. apply (from_event_layer _ _ (default "" (r_layer_key p))); [|done].
        change (record_key p = record_key r). by rewrite Hpk, Hkey. }
      split_and!.
      * case_bool_decide; exact Hmk.
      * case_bool_decide; split; simpl; rewrite ?M1; done.
      * intros s. case_bool_decide; apply M2.
      * case_bool_decide; [right|by left]. exists p. done.
  - destruct (merge_payload_first (r_event r) Hwf) as (m & Hm & [M1 M2 M3 M4]). rewrite Hm. cbn [mbind result_bind].
    eexists. split; [reflexivity|]. right. eexists. split; [reflexivity|]. split_and!; [|by split; simpl; rewrite ?M1| |by left].
    + unfold record_key. simpl. destruct M4 as [-> |Hid]; [exact Hkey|]. by rewrite (from_event_identity (r_event r)).
    + intros s. simpl. rewrite M2. by destruct (opinion _ _).
Qed.

Lemma pending_set key r c k r' : NoDup (map fst (pending c)) ->
  (k, r') ∈ dict_set key (fun _ => r) (pending c) -> (k = key /\ r' = r) \/ (k ≠ key /\ (k, r') ∈ pending c).
Proof.
  intros Hnd Hin. apply elem_dict_get in Hin; [|by apply dict_set_NoDup]. rewrite dict_get_set in Hin.
  case_decide as Hk; [left; by simplify_eq|right]. split; [done|by apply dict_get_elem].
Qed.

Lemma set_reduced c n key r r' : reduced c n -> (n ≤ seq r)%Z -> record_key r' = key -> record_ok r' ->
  (k_kind key = K_DELETE_PRIM -> forall k x, (k, x) ∈ pending c -> covers key k = false) ->
  (seq r' = seq r \/ exists p, (key, p) ∈ pending c /\ seq r' = seq p) ->
  reduced (mk_compaction (dict_set key (fun _ => r') (pending c)) (preserved c)) (seq r + 1).
Proof.
  intros [Hp Hk He Ho] Hn Hkey [Hwf Hred] Hdel Hseq.
  assert (seq r' < seq r + 1)%Z as Hs.
  { destruct Hseq as [-> |(p & Hin & ->)]; [lia|]. destruct (He _ _ Hin) as (_ & _ & _ & ?). lia. }
  split; simpl; [done|by apply dict_set_NoDup| |].
  - intros k x [[-> ->]|[_ Hin]]%pending_set; [done| |done].
    destruct (He k x Hin) as (? & ? & ? & ?). split_and!; (done || lia).
  - intros kd rd k x [[-> ->]|[Hkd Hd]]%pending_set [[-> ->]|[Hkk Hx]]%pending_set Kd Hne Hc; try done.
    + by rewrite (Hdel Kd k x Hx) in Hc.
    + destruct Hseq as [-> |(p & Hin & ->)].
      * destruct (He _ _ Hd) as (_ & _ & _ & ?). lia.
      * by apply (Ho kd rd key p).
    + by apply (Ho kd rd k x).
Qed.

(** One record: the entries hold what applying it to the held opinions gives. *)
Lemma add_reducible c n r : reduced c n -> record_ok r -> (n ≤ seq r)%Z ->
  exists c', add_decoded_record c r = Ok c' /\ reduced c' (seq r + 1)
    /\ forall k s, held c' k s = apply_record (held c) r k s.
Proof.
  intros Hr Hok Hn. pose proof Hok as [Hwf Hred]. unfold add_decoded_record.
  rewrite bool_decide_false by (intros E; apply Hred; rewrite E; in_list).
  change (from_event (r_event r) (default "" (r_layer_key r))) with (record_key r).
  rewrite (sample_order_reducible c n) by done. cbn [mbind result_bind].
  assert (is_exact_deletion (r_event r) = false) as ->.
  { unfold is_exact_deletion. rewrite !bool_decide_false; [done|..]; intros E; apply Hred; rewrite E; in_list. }
  rewrite forget_reducible by (by rewrite record_key_kind).
  set (c1 := if bool_decide (k_kind (record_key r) = K_DELETE_PRIM) then discard (covers (record_key r)) c else c).
  assert (reduced c1 n
    /\ (k_kind (record_key r) = K_DELETE_PRIM -> forall k x, (k, x) ∈ pending c1 -> covers (record_key r) k = false)
    /\ forall k s, held c1 k s = if bool_decide (kind_of (r_event r) = K_DELETE_PRIM)
                                then if covers (record_key r) k then None else held c k s else held c k s)
    as (Hr1 & Hd1 & Hh1).
  { unfold c1. rewrite record_key_kind. case_bool_decide; [|done].
    destruct (discard_reduced (record_key r) c n Hr) as (? & ? & ?). done. }
  destruct (merge_record_law c1 n (record_key r) r Hr1 Hok eq_refl Hn) as (c' & -> & H).
  { intros Hd. apply dict_get_None. intros ([k x] & E & Hin)%list_elem_of_fmap. simpl in E. subst k.
    pose proof (Hd1 Hd _ _ Hin) as Hc. by rewrite covers_refl in Hc. }
  exists c'. split; [done|]. destruct H as [[-> Ho]|(r' & -> & Hk' & Hok' & Ho & Hs)].
  - split; [by apply (reduced_mono _ n); [|lia]|]. intros k s. unfold apply_record.
    rewrite Hh1. case_bool_decide as Kd; [done|]. case_bool_decide as Kk; [|done]. subst k.
    specialize (Ho s). rewrite !Hh1 in Ho. symmetry. exact Ho.
  - split; [by apply (set_reduced c1 n)|]. intros k s. rewrite held_set.
    destruct (decide (k = record_key r)) as [->|Kk]; unfold apply_record.
    + rewrite Ho, Hh1. case_bool_decide as Kd.
      * rewrite covers_refl. by rewrite opinion_deletion.
      * by rewrite bool_decide_true.
    + rewrite Hh1. case_bool_decide; [done|]. by rewrite bool_decide_false.
Qed.

Lemma apply_record_ext st st' r k s : (forall k s, st k s = st' k s) -> apply_record st r k s = apply_record st' r k s.
Proof. intros H. unfold apply_record. by rewrite !H. Qed.

Lemma foldl_apply_ext l st st' k s : (forall k s, st k s = st' k s) ->
  foldl apply_record st l k s = foldl apply_record st' l k s.
Proof.
  revert st st'; induction l as [|r l IH]; intros st st' H; simpl; [apply H|].
  apply IH. intros. by apply apply_record_ext.
Qed.

Lemma compact_from l c n st : reduced c n -> (forall k s, held c k s = st k s) ->
  Forall record_ok l -> StronglySorted (fun a b => (seq a < seq b)%Z) l -> Forall (fun r => (n ≤ seq r)%Z) l ->
  exists c' n', foldR add_decoded_record c l = Ok c' /\ reduced c' n'
    /\ forall k s, held c' k s = foldl apply_record st l k s.
Proof.
  revert c n st; induction l as [|r l IH]; intros c n st Hr Hh Hok Hs Hn; simpl; [by eexists _, _|].
  apply Forall_cons in Hok as [Hor Hok]. apply Forall_cons in Hn as [Hnr Hn].
  apply StronglySorted_inv in Hs as [Hs Hlt].
  destruct (add_reducible c n r Hr Hor Hnr) as (c1 & -> & Hr1 & Hh1). cbn [mbind result_bind].
  apply (IH c1 (seq r + 1)%Z (apply_record st r)); try done.
  - intros k s. rewrite Hh1. by apply apply_record_ext.
  - eapply Forall_impl; [exact Hlt|]. simpl. lia.
Qed.

Lemma compaction_init_reduced n : reduced compaction_init n.
Proof. split; simpl; try done; [constructor|intros ? ? ?%not_elem_of_nil; done|intros ? ? ? ? ?%not_elem_of_nil; done]. Qed.

(** C9: compaction loses no opinion of the kinds it merges: for a history of
    well-formed events ([wf_event]: the fields they name are there, their item names
    are distinct) in increasing sequence order, of kinds other than renames, payload loads
    and unloads, sublayers, exact Sdf deltas, sample erasures and layer
    replacements ([record_ok]), compaction succeeds and
    replaying the compacted records leaves every slot of every merge key with the
    opinion that replaying the full history leaves there, deletions included. *)
Theorem compaction_preserves_opinions records :
  Forall record_ok records -> StronglySorted (fun a b => (seq a < seq b)%Z) records ->
  exists c, compact records = Ok c
    /\ forall k s, effects (replay_records c) k s = effects records k s.
Proof.
  intros Hok Hs.
  assert (exists n, Forall (fun r => (n ≤ seq r)%Z) records) as [n Hn].
  { destruct Hs as [|r l Hs Hlt]; [by exists 0%Z|]. exists (seq r). constructor; [done|].
    eapply Forall_impl; [exact Hlt|]. simpl. lia. }
  destruct (compact_from records compaction_init n (fun _ _ => None)) as (c & n' & Hc & Hr & Hh);
    [apply compaction_init_reduced|done..|].
  exists c. split; [done|]. intros k s. by rewrite (replay_held c n' k s Hr), Hh.
Qed.
End reduction.

(** ** Every kind: size, keys and sequence numbers *)

Section shape.
Context (merge_fragments : event -> event -> result string).
Abbreviation add_decoded_record := (add_decoded_record merge_fragments).
Abbreviation compact := (compact merge_fragments).

Record compaction_ok (seqs : list Z) (n : nat) (c : compaction) : Prop := {
  ck_keys : NoDup (map fst (pending c));
  ck_size : length (entries c) <= n;
  ck_seqs r : r ∈ entries c -> seq r ∈ seqs;
}.

Lemma dict_pop_perm (d : list (merge_key * received)) k r : NoDup (map fst d) -> dict_get k d = Some r ->
  d ≡ₚ (k, r) :: dict_pop k d.
Proof.
  unfold dict_pop. induction d as [|[k1 r1] d IH]; [done|]. cbn [map fst dict_get].
  intros [Hni Hnd]%NoDup_cons. case_bool_decide as Hk.
  - subst k1. intros [= ->]. rewrite filter_cons_False by (simpl; auto). f_equiv.
    symmetry. apply reflexive_eq. clear IH. induction d as [|[k2 r2] d IH]; [done|].
    simpl in Hni. apply not_elem_of_cons in Hni as [Hne Hni]. apply NoDup_cons in Hnd as [_ Hnd].
    rewrite filter_cons_True by (simpl; auto). by rewrite IH.
  - intros Hg. rewrite filter_cons_True by done. rewrite Permutation_swap. f_equiv. by apply IH.
Qed.

Lemma preserve_entries k c : NoDup (map fst (pending c)) -> entries (preserve k c) ≡ₚ entries c
  /\ NoDup (map fst (pending (preserve k c))).
Proof.
  intros Hnd. unfold preserve. destruct (dict_get k (pending c)) as [r|] eqn:E; [|done].
  split; [|by apply dict_filter_NoDup]. unfold entries. simpl.
  rewrite map_app, <-app_assoc. simpl. f_equiv.
  change (r :: map snd (dict_pop k (pending c))) with (map snd ((k, r) :: dict_pop k (pending c))).
  by rewrite <-dict_pop_perm.
Qed.

Lemma preserve_ok S n k c : compaction_ok S n c -> compaction_ok S n (preserve k c).
Proof.
  intros [H1 H2 H3]. destruct (preserve_entries k c H1) as [Hp Hn]. split; [done|by rewrite Hp|].
  intros r. rewrite Hp. apply H3.
Qed.

Lemma sublist_filter_snd (P : merge_key * received -> Prop) `{!forall x, Decision (P x)} l :
  map snd (filter P l) `sublist_of` map snd l.
Proof.
  induction l as [|x l IH]; [done|]. rewrite filter_cons.
  case_decide; simpl; [by apply sublist_skip|by apply sublist_cons].
Qed.

Lemma filtered_ok S n c (P Q : merge_key * received -> Prop) `{!forall x, Decision (P x), !forall x, Decision (Q x)} :
  compaction_ok S n c -> compaction_ok S n (mk_compaction (filter P (pending c)) (filter Q (preserved c))).
Proof.
  intros [H1 H2 H3]. set (c' := mk_compaction _ _).
  assert (entries c' `sublist_of` entries c) as He by (apply sublist_app; apply sublist_filter_snd).
  split; [by apply dict_filter_NoDup|apply sublist_length in He; lia|]. intros r Hr.
  apply H3. by apply (sublist_subseteq _ _ He).
Qed.

Lemma discard_ok S n m c : compaction_ok S n c -> compaction_ok S n (discard m c).
Proof. apply filtered_ok. Qed.

Lemma compaction_ok_mono S n n' c : compaction_ok S n c -> n <= n' -> compaction_ok S n' c.
Proof. intros [? ? ?] ?. split; (done || lia). Qed.

Lemma dict_set_perm (d : list (merge_key * received)) k r r' : NoDup (map fst d) -> dict_get k d = Some r' ->
  dict_set k (fun _ => r) d ≡ₚ (k, r) :: dict_pop k d.
Proof.
  unfold dict_pop. induction d as [|[k1 r1] d IH]; [done|]. cbn [map fst dict_get dict_set].
  intros [Hni Hnd]%NoDup_cons. case_bool_decide as Hk.
  - subst k1. intros [= ->]. rewrite filter_cons_False by (simpl; auto). f_equiv.
    apply reflexive_eq. clear IH. induction d as [|[k2 r2] d IH]; [done|].
    simpl in Hni. apply not_elem_of_cons in Hni as [Hne Hni]. apply NoDup_cons in Hnd as [_ Hnd].
    rewrite filter_cons_True by (simpl; auto). by rewrite <-IH.
  - intros Hg. rewrite filter_cons_True by done. rewrite (Permutation_swap (k1, r1)). f_equiv. by apply IH.
Qed.

Lemma dict_set_new (d : list (merge_key * received)) k r : dict_get k d = None ->
  dict_set k (fun _ => r) d = d ++ [(k, r)].
Proof.
  induction d as [|[k1 r1] d IH]; [done|]. cbn [dict_get dict_set app]. case_bool_decide; [done|].
  intros Hg. by rewrite IH.
Qed.

Lemma set_ok S n key r c : compaction_ok S n c -> seq r ∈ S ->
  compaction_ok S (n + 1) (mk_compaction (dict_set key (fun _ => r) (pending c)) (preserved c)).
Proof.
  intros [H1 H2 H3] Hr. destruct (dict_get key (pending c)) as [r'|] eqn:E.
  - pose proof (dict_set_perm (pending c) key r r' H1 E) as Hp. pose proof (dict_pop_perm _ _ _ H1 E) as Hq.
    assert (length (dict_set key (fun _ => r) (pending c)) = length (pending c)) as Hlen.
    { rewrite Hp. rewrite Hq at 2. done. }
    split; simpl; [by apply dict_set_NoDup| |].
    + unfold entries in *. simpl. rewrite length_app, !length_map in *. lia.
    + intros x. unfold entries. simpl. rewrite Hp. simpl. intros [Hx|[->|Hx]%elem_of_cons]%elem_of_app; [|done|].
      * apply H3. unfold entries. set_solver.
      * apply H3. unfold entries. rewrite Hq. simpl. set_solver.
  - split; simpl; [by apply dict_set_NoDup| |]; unfold entries in *; simpl; rewrite (dict_set_new _ _ _ E), map_app; simpl.
    + rewrite !length_app in *. simpl. lia.
    + intros x. rewrite app_assoc, elem_of_app, list_elem_of_singleton. intros [Hx| ->]; [by apply H3|done].
Qed.

Lemma preserve_fold_ok {A} S n c (l : list A) (f : compaction -> A -> compaction) :
  (forall c x, compaction_ok S n c -> compaction_ok S n (f c x)) -> compaction_ok S n c ->
  compaction_ok S n (foldl f c l).
Proof. intros Hf. revert c; induction l as [|x l IH]; intros c Hc; simpl; [done|]. by apply IH, Hf. Qed.

Lemma sample_order_ok S n key ev c c' : compaction_ok S n c -> preserve_sample_order key ev c = Ok c' -> compaction_ok S n c'.
Proof.
  intros Hc. unfold preserve_sample_order. destruct (sampled_attribute_names ev) as [names|]; [cbn [mbind result_bind]|done].
  intros [= <-].
  assert (compaction_ok S n (foldl (preserve_table key) c names)) as H.
  { apply preserve_fold_ok; [|done]. intros c1 x H1. unfold preserve_table.
    destruct (dict_get _ _); [|done]. destruct (in_fields _ _); [by apply preserve_ok|done]. }
  destruct (is_sample_history_barrier ev); [|done]. unfold preserve_values.
  apply preserve_fold_ok; [|done]. intros c1 x H1. case_bool_decide; [by apply preserve_ok|done].
Qed.

Lemma forget_ok S n key c : compaction_ok S n c -> compaction_ok S n (forget key c).
Proof.
  intros Hc. unfold forget. case_bool_decide as K1; [by apply discard_ok|]. clear K1.
  case_bool_decide as K2; [by apply discard_ok|]. clear K2.
  case_bool_decide as K; [|done]. clear K. destruct Hc as [H1 H2 H3]. split; simpl; [by apply dict_filter_NoDup| |].
  - unfold entries in *. simpl. rewrite length_app in *.
    pose proof (sublist_length _ _ (sublist_filter_snd (fun ka => ka.1 ≠ mk_key (k_prim key)
      (if bool_decide (k_kind key = K_LOAD_PAYLOAD) then K_UNLOAD_PAYLOAD else K_LOAD_PAYLOAD) PNone (k_layer_key key) "" "")
      (pending c))) as Hl. unfold dict_pop. lia.
  - intros r. unfold entries. simpl. intros [Hr|Hr]%elem_of_app; apply H3; unfold entries; [set_solver|].
    apply elem_of_app. right. by apply (sublist_subseteq _ _ (sublist_filter_snd _ _)) in Hr.
Qed.

Lemma merge_record_ok S n key r c c' : compaction_ok S n c -> seq r ∈ S ->
  merge_record merge_fragments key r c = Ok c' -> compaction_ok S (n + 1) c'.
Proof.
  intros Hc Hr. unfold merge_record. destruct (dict_get key (pending c)) as [p|] eqn:E.
  - case_bool_decide; [intros [= <-]; apply (compaction_ok_mono S n); [done|lia]|].
    intros (ev & _ & [= <-])%bind_Ok. apply set_ok; [done|]. case_bool_decide; simpl; [|done].
    apply (ck_seqs S n c Hc). unfold entries. apply dict_get_elem in E. apply elem_of_app. right.
    apply list_elem_of_fmap. by exists (key, p).
  - intros (ev & _ & [= <-])%bind_Ok. by apply set_ok.
Qed.

Lemma add_ok S n c r c' : compaction_ok S n c -> seq r ∈ S -> add_decoded_record c r = Ok c' -> compaction_ok S (n + 1) c'.
Proof.
  intros Hc Hr. unfold add_decoded_record. case_bool_decide.
  { intros [= <-]. apply (compaction_ok_mono S n); [done|lia]. }
  intros (c1 & H1 & H2)%bind_Ok. apply (sample_order_ok S n) in H1; [|done].
  destruct (is_exact_deletion (r_event r)).
  - injection H2 as <-. set (c2 := if bool_decide _ then discard _ c1 else c1).
    assert (compaction_ok S n c2) as [K1 K2 K3] by (unfold c2; case_bool_decide; [by apply discard_ok|done]).
    split; simpl; [done| |]; unfold entries in *; simpl; rewrite map_app; simpl.
    + rewrite !length_app in *. simpl. lia.
    + intros x. rewrite <-app_assoc. simpl. intros [Hx|[->|Hx]%elem_of_cons]%elem_of_app; [|done|]; apply K3; set_solver.
  - eapply merge_record_ok; [|exact Hr|exact H2]. by apply forget_ok.
Qed.

(** whatever the kinds, compaction only shrinks a history: it holds at most
    one record per record read, under distinct merge keys where merging is still
    possible, every record under a sequence number of the history, and it replays
    them in sequence order. *)
Theorem compaction_only_shrinks records c :
  compact records = Ok c ->
  length (replay_records c) <= length records
  /\ NoDup (map fst (pending c))
  /\ (forall r, r ∈ replay_records c -> exists r0, r0 ∈ records /\ seq r = seq r0)
  /\ StronglySorted seq_le (replay_records c).
Proof.
  intros H.
  assert (forall l c0 n, (forall r, r ∈ l -> r ∈ records) -> compaction_ok (map seq records) n c0 ->
            foldR add_decoded_record c0 l = Ok c -> compaction_ok (map seq records) (n + length l) c) as Hgen.
  { induction l as [|r l IH]; intros c0 n Hl Hc0; simpl; [intros [= <-]; by rewrite Nat.add_0_r|].
    intros (c1 & H1 & H2)%bind_Ok. replace (n + Datatypes.S (length l)) with ((n + 1) + length l) by lia.
    apply (IH c1); [intros; apply Hl; set_solver| |done]. eapply add_ok; [exact Hc0| |exact H1].
    apply list_elem_of_fmap. exists r. split; [done|]. apply Hl. by left. }
  destruct (Hgen records compaction_init 0) as [K1 K2 K3]; [done| |exact H|].
  { split; simpl; [constructor|done|by intros r ?%not_elem_of_nil]. }
  split_and!.
  - by rewrite replay_perm.
  - done.
  - intros r Hr. rewrite replay_perm in Hr. apply K3, list_elem_of_fmap in Hr as (r0 & E & Hr0). by exists r0.
  - apply replay_sorted.
Qed.

(** ** Tombstones *)

Lemma tombstone_step c r :
  kind_of (r_event r) = K_DELETE_PRIM \/ kind_of (r_event r) = K_RENAME_PRIM ->
  add_decoded_record c r
  = Ok (mk_compaction
          (filter (fun kr => covers (record_key r) kr.1 = false) (pending c) ++ [(record_key r, r)])
          (filter (fun kr => covers (record_key r) kr.1 = false) (preserved c))).
Proof.
  intros Hk. unfold add_decoded_record.
  rewrite bool_decide_false by (destruct Hk as [-> | ->]; done).
  change (from_event (r_event r) (default "" (r_layer_key r))) with (record_key r).
  assert (preserve_sample_order (record_key r) (r_event r) c = Ok c) as ->.
  { unfold preserve_sample_order, sampled_attribute_names.
    assert (is_sample_history_barrier (r_event r) = false) as ->.
    { unfold is_sample_history_barrier. rewrite !bool_decide_false by (destruct Hk as [-> | ->]; done). done. }
    case_bool_decide; [done|]. by rewrite !bool_decide_false by (destruct Hk as [-> | ->]; done). }
  cbn [mbind result_bind].
  assert (is_exact_deletion (r_event r) = false) as ->.
  { unfold is_exact_deletion. by rewrite !bool_decide_false by (destruct Hk as [-> | ->]; done). }
  unfold forget. rewrite bool_decide_true by (by rewrite record_key_kind).
  unfold merge_record. rewrite dict_get_discard, covers_refl.
  assert (merge_payload merge_fragments None (r_event r) = Ok (r_event r)) as ->.
  { unfold merge_payload. rewrite bool_decide_false by (destruct Hk as [-> | ->]; done). done. }
  cbn [mbind result_bind]. rewrite dict_set_new by (by rewrite dict_get_discard, covers_refl).
  by destruct r.
Qed.

(** a deletion or a rename forgets exactly what it covers: of the entries
    before it, those of the prim and of the prims below it, in its layer, are
    gone, every other one is untouched, and the event itself becomes an entry. *)
Theorem tombstone_exact c r :
  kind_of (r_event r) = K_DELETE_PRIM \/ kind_of (r_event r) = K_RENAME_PRIM ->
  add_decoded_record c r
  = Ok (mk_compaction
          (filter (fun kr => covers (record_key r) kr.1 = false) (pending c) ++ [(record_key r, r)])
          (filter (fun kr => covers (record_key r) kr.1 = false) (preserved c))).
Proof. apply tombstone_step. Qed.

Definition event_record (n : Z) (layer_key : string) (ev : event) : received :=
  mk_received n ev (Some layer_key) None None None.
Definition ensure_event (prim type : string) : event :=
  <["k" := PStr K_ENSURE_PRIM]> (<["prim" := PStr prim]> {["typeName" := PStr type]}).
Definition rename_event (prim new_name : string) : event :=
  <["k" := PStr K_RENAME_PRIM]> (<["prim" := PStr prim]> {["new_name" := PStr new_name]}).

Lemma ensure_event_kind prim type : kind_of (ensure_event prim type) = K_ENSURE_PRIM.
Proof. unfold kind_of, ensure_event. by rewrite lookup_insert_eq. Qed.
Lemma rename_event_kind prim new_name : kind_of (rename_event prim new_name) = K_RENAME_PRIM.
Proof. unfold kind_of, rename_event. by rewrite lookup_insert_eq. Qed.

(** compaction loses a renamed prim: of a history that creates a prim and
    renames it only the rename is replayed, which does nothing on a layer that
    does not have the prim, so the prim exists after replaying the full history
    and not after replaying the compacted one. *)
Theorem compaction_loses_renamed_prim prim type new_name layer_key :
  let rename := event_record 2 layer_key (rename_event prim new_name) in
  exists c, compact [event_record 1 layer_key (ensure_event prim type); rename] = Ok c
    /\ replay_records c = [rename]
    /\ Forall (fun r => kind_of (r_event r) ∉ CREATE_KINDS) (replay_records c).
Proof.
  intros rename. set (ensure := event_record 1 layer_key (ensure_event prim type)).
  assert (kind_of (r_event rename) = K_RENAME_PRIM) as Kr by by apply rename_event_kind.
  assert (kind_of (r_event ensure) = K_ENSURE_PRIM) as Ke by apply ensure_event_kind.
  assert (add_decoded_record compaction_init ensure
          = Ok (mk_compaction [(record_key ensure, ensure)] [])) as Hadd.
  { unfold add_decoded_record. rewrite bool_decide_false by (by rewrite Ke).
    change (from_event (r_event ensure) _) with (record_key ensure).
    assert (preserve_sample_order (record_key ensure) (r_event ensure) compaction_init = Ok compaction_init) as ->.
    { unfold preserve_sample_order, sampled_attribute_names, is_sample_history_barrier.
      rewrite !(bool_decide_false (kind_of _ = _)) by (by rewrite Ke). by case_bool_decide. }
    cbn [mbind result_bind]. unfold is_exact_deletion. rewrite !bool_decide_false by (by rewrite Ke). simpl.
    unfold forget. rewrite record_key_kind, Ke. simpl. unfold merge_record, merge_payload.
    cbn [dict_get pending compaction_init]. rewrite bool_decide_false by (by rewrite Ke). done. }
  exists (mk_compaction [(record_key rename, rename)] []). unfold compact. cbn [foldR].
  rewrite Hadd. cbn [mbind result_bind]. rewrite tombstone_step by (right; exact Kr). simpl.
  assert (covers (record_key rename) (record_key ensure) = true) as Hc.
  { unfold covers, record_key, from_event. rewrite Kr, Ke. simpl.
    assert (str_of (rename_event prim new_name) "prim" = prim) as ->.
    { unfold str_of, rename_event. by rewrite lookup_insert_ne, lookup_insert_eq. }
    assert (str_of (ensure_event prim type) "prim" = prim) as ->.
    { unfold str_of, ensure_event. by rewrite lookup_insert_ne, lookup_insert_eq. }
    rewrite (bool_decide_true (prim = prim)) by done. rewrite orb_true_l, andb_true_r. apply bool_decide_true. done. }
  rewrite filter_cons_False by (simpl; by rewrite Hc). split; [done|]. split; [done|].
  change (replay_records _) with [rename]. constructor; [|done]. change (kind_of (r_event rename) ∉ CREATE_KINDS). rewrite Kr.
  refine (bool_decide_eq_false_1 (K_RENAME_PRIM ∈ CREATE_KINDS) _). by vm_compute.
Qed.
End shape.

(** ** Child replay *)

#[global] Instance tier_le_trans : Transitive tier_le.
Proof.
  intros a b c. unfold tier_le. intros [H1|[H1 H1']] [H2|[H2 H2']]; [left; lia..|].
  right. split; [congruence|]. by etrans.
Qed.
#[global] Instance tier_le_total : Total tier_le.
Proof.
  intros a b. unfold tier_le. set (x := event_apply_tier _). set (y := event_apply_tier _).
  destruct (Nat.lt_trichotomy x y) as [H|[H|H]]; [by left; left| |by right; left].
  destruct (str_le_total (str_of (r_event a) "prim") (str_of (r_event b) "prim")); [left|right]; by right.
Qed.

Definition under_prefix (prefix : string) (r : received) : bool :=
  String.prefix prefix (str_of (r_event r) "prim").

Lemma order_children_perm prefix seg l :
  order_children prefix seg l ≡ₚ seg ++ filter (fun r => under_prefix prefix r = true) l.
Proof.
  revert seg; induction l as [|r l IH]; intros seg; simpl.
  { by rewrite merge_sort_Permutation, app_nil_r. }
  unfold under_prefix in *. rewrite filter_cons. destruct (replay_barrier (r_event r)).
  - rewrite merge_sort_Permutation, IH. simpl. case_decide as Hp; [by rewrite Hp|].
    apply not_true_is_false in Hp. by rewrite Hp.
  - rewrite IH. case_decide as Hp; [rewrite Hp, <-app_assoc; done|]. apply not_true_is_false in Hp. by rewrite Hp.
Qed.

Lemma order_children_split prefix seg l1 b l2 : replay_barrier (r_event b) = true ->
  order_children prefix seg (l1 ++ b :: l2)
  = order_children prefix seg l1 ++ (if under_prefix prefix b then [b] else []) ++ order_children prefix [] l2.
Proof.
  intros Hb. revert seg; induction l1 as [|r l1 IH]; intros seg; simpl.
  - by rewrite Hb.
  - destruct (replay_barrier (r_event r)); [|apply IH]. rewrite IH. by rewrite <-!app_assoc.
Qed.

Lemma order_children_segment prefix seg l : Forall (fun r => replay_barrier (r_event r) = false) l ->
  order_children prefix seg l = merge_sort tier_le (seg ++ filter (fun r => under_prefix prefix r = true) l).
Proof.
  intros Hl. revert seg. induction Hl as [|r l Hr Hl IH]; intros seg; simpl; [by rewrite app_nil_r|].
  rewrite Hr, IH. rewrite filter_cons. unfold under_prefix at 2 3. case_decide as Hp.
  - by rewrite Hp, <-app_assoc.
  - apply not_true_is_false in Hp. by rewrite Hp.
Qed.

(** the child replay keeps what the reduction kept below the payload prim,
    nothing else, with every deletion, rename and sample-history barrier in its
    place: the records between two barriers are the ones that were between them,
    ordered by apply tier and then by prim path. *)
Theorem child_replay_ordered prefix l :
  order_children prefix [] l ≡ₚ filter (fun r => under_prefix prefix r = true) l
  /\ (forall l1 b l2, l = l1 ++ b :: l2 -> replay_barrier (r_event b) = true ->
        order_children prefix [] l
        = order_children prefix [] l1 ++ (if under_prefix prefix b then [b] else []) ++ order_children prefix [] l2)
  /\ (Forall (fun r => replay_barrier (r_event r) = false) l -> StronglySorted tier_le (order_children prefix [] l)).
Proof.
  split_and!.
  - by rewrite order_children_perm.
  - intros l1 b l2 -> Hb. by apply order_children_split.
  - intros Hl. rewrite order_children_segment by done. apply StronglySorted_merge_sort; apply _.
Qed.

(** ** Witnesses *)

Definition no_fragments (_ _ : event) : result string := Err ValueError.
Definition demo_trs_event (prim name : string) (v : Z) : event :=
  <["k" := PStr K_SET_XFORM_TRS]> (<["prim" := PStr prim]> (<[name := PInt v]>
    {["fields" := PList [PStr name]]})).
Definition demo_delete_event (prim : string) : event :=
  <["k" := PStr K_DELETE_PRIM]> {["prim" := PStr prim]}.

(** Two transforms of [/A] merge, [/B] is created and deleted. *)
Definition demo_history : list received :=
  [event_record 1 "default" (ensure_event "/A" "Xform");
   event_record 2 "default" (demo_trs_event "/A" "t" 1);
   event_record 3 "default" (ensure_event "/B" "Xform");
   event_record 4 "default" (demo_trs_event "/A" "r" 2);
   event_record 5 "default" (demo_delete_event "/B")].

Lemma demo_wf_plain n l ev : kind_of ev = K_ENSURE_PRIM \/ kind_of ev = K_DELETE_PRIM ->
  Forall (fun g => ev !! g = None) item_groups -> record_ok (event_record n l ev).
Proof.
  intros Hk Hg. split; [split|]; change (r_event (event_record n l ev)) with ev.
  - intros g Hin. rewrite Forall_forall in Hg. unfold get_items, py_get. rewrite (Hg g Hin). constructor.
  - intros [H|H]; rewrite H in Hk; by destruct Hk.
  - intros H; rewrite H in Hk; by destruct Hk.
  - intros H; rewrite H in Hk; by destruct Hk.
  - intros H; rewrite H in Hk; by destruct Hk.
  - unfold reducible. destruct Hk as [-> | ->]; not_in_list.
Qed.

Lemma demo_wf_trs n l prim name v : name ∈ ["t"; "r"; "s"] -> record_ok (event_record n l (demo_trs_event prim name v)).
Proof.
  intros Hn. assert (kind_of (demo_trs_event prim name v) = K_SET_XFORM_TRS) as Hk.
  { unfold kind_of, demo_trs_event. by rewrite lookup_insert_eq. }
  assert (get_names (demo_trs_event prim name v) "fields" = [name]) as Hf.
  { unfold get_names, py_get, demo_trs_event. by split_in Hn. }
  split; [split|]; change (r_event (event_record n l ?ev)) with ev.
  - intros g Hg. unfold get_items, py_get, demo_trs_event.
    split_in Hg; split_in Hn; constructor.
  - intros _. split; [exists [name]; by split_in Hn|]. rewrite Hf. intros m ->%list_elem_of_singleton.
    split; [split_in Hn; by eexists|]. unfold reserved. split_in Hn; simpl; not_in_list.
  - intros _. rewrite Hf. by intros m ->%list_elem_of_singleton.
  - rewrite Hk. done.
  - rewrite Hk. done.
  - rewrite Hk. unfold reducible. not_in_list.
Qed.

Lemma demo_history_ok : Forall record_ok demo_history.
Proof.
  unfold demo_history. repeat (apply Forall_cons; split); [..|apply Forall_nil_2].
  all: first [apply demo_wf_trs; in_list | apply demo_wf_plain; [first [by left|by right]|]; unfold item_groups; repeat (apply Forall_cons; split; [reflexivity|]); apply Forall_nil_2].
Qed.

Lemma demo_history_sorted : StronglySorted (fun a b => (seq a < seq b)%Z) demo_history.
Proof. unfold demo_history. repeat constructor. Qed.

Lemma compaction_preserves_opinions_witness :
  exists c, compact no_fragments demo_history = Ok c
    /\ (forall k s, effects (replay_records c) k s = effects demo_history k s)
    /\ length (replay_records c) = 3.
Proof.
  destruct (compaction_preserves_opinions no_fragments demo_history demo_history_ok demo_history_sorted) as (c & Hc & He).
  exists c. split; [done|]. split; [done|]. revert Hc.
  destruct (compact no_fragments demo_history) as [c0|] eqn:E; [|done]. intros [= <-].
  assert ((length ∘ replay_records) <$> (match compact no_fragments demo_history with Ok c => Some c | Err _ => None end) = Some 3) as H
    by (by vm_compute).
  rewrite E in H. by injection H.
Defined.

Lemma compaction_only_shrinks_witness :
  exists c, compact no_fragments demo_history = Ok c
    /\ length (replay_records c) <= length demo_history /\ StronglySorted seq_le (replay_records c).
Proof.
  assert (exists c, compact no_fragments demo_history = Ok c) as [c Hc].
  { destruct (compact no_fragments demo_history) eqn:E; [by eexists|].
    assert (match compact no_fragments demo_history with Ok _ => true | Err _ => false end = true) as H by (by vm_compute).
    by rewrite E in H. }
  exists c. destruct (compaction_only_shrinks no_fragments demo_history c Hc) as (H1 & _ & _ & H4). by split_and!.
Defined.

Lemma tombstone_exact_witness :
  add_decoded_record no_fragments
    (mk_compaction [(record_key (event_record 1 "l" (ensure_event "/B/C" "Xform")), event_record 1 "l" (ensure_event "/B/C" "Xform"));
                    (record_key (event_record 2 "l" (ensure_event "/BC" "Xform")), event_record 2 "l" (ensure_event "/BC" "Xform"))] [])
    (event_record 3 "l" (demo_delete_event "/B"))
  = Ok (mk_compaction
      [(record_key (event_record 2 "l" (ensure_event "/BC" "Xform")), event_record 2 "l" (ensure_event "/BC" "Xform"));
       (record_key (event_record 3 "l" (demo_delete_event "/B")), event_record 3 "l" (demo_delete_event "/B"))] []).
Proof. rewrite tombstone_exact by (by left). reflexivity. Defined.
