(* ===== verification/Maintenance.v ===== *)
(** * Maintenance: exclusive replacement of the history
    ([openusdconnect/server/maintenance.py], [compact_log] and [purge] of
    [server/state.py], [install_snapshot] of [server/scene.py])

    The journal, the scene and the number of times receivers were sent the
    replaced history.  [compact_log] captures the history in one step, reduces it
    without any lock and finishes in a second step; whatever the server does in
    between is an interleaving of other steps.  No shared layer graph: with one,
    the code also writes the graph's baseline and drops records of unreachable
    layers.  Draining the broadcast queue is [Delivery.v]'s; reclaiming disk space
    changes no row and is left out.

    Theorems: compaction in two steps is compaction of the whole history at the
    end, or nothing if the history was replaced; rows queued behind the captured
    history are lost (commits of a managed stage are written at once; the server
    queues the shared-stage writes without producer progress, in realtime mode); the
    identity of the history does not repeat within one run of the process. *)

From S2P Require Import Prelude Framing Constants Rollback LayerStack PrimIndex Applying Scene SceneLayers EventStore Journal Compaction.

(** A lemma takes the section variables of its statement and no others. *)
#[local] Set Default Proof Using "Type".
#[local] Set Proof Using Clear Unused.

Section maintenance.
Context {V L R Offset C St : Type} `{SdfTraversal V L} `{UsdApply (stage (L := L) (R := R) (Offset := Offset)) C} `{EventStore St}.
Context (encode : wire_record -> result bytes).
Context (decode : bytes -> result stored_message) (merge_fragments : event -> event -> result string).
Local Abbreviation scene := (scene (L := L) (R := R) (Offset := Offset) (C := C)).
Local Abbreviation journal := (journal St).

Record server := mk_server { s_journal : journal; s_scene : scene; resyncs : nat }.
Definition set_journal (j : journal) (s : server) : server := mk_server j (s_scene s) (resyncs s).
Definition set_scene (sc : scene) (s : server) : server := mk_server (s_journal s) sc (resyncs s).
Definition on_journal {A} (m : M journal A) : M server A := zoom s_journal set_journal m.
Definition on_scene {A} (m : M scene A) : M server A := zoom s_scene set_scene m.

(** ** [SceneState.install_snapshot] *)

(** [PreparedSnapshot] *)
Record prepared_snapshot := mk_prepared {
  ps_events : list event; ps_edit_layer : L; ps_session_events : list event }.

(** [apply_events] with a cache of its own. *)
Definition apply_uncached (events : list event) : M scene unit :=
  zoom (fun s => (stg s, cache_empty)) (fun w s => set_stg w.1 s) (apply_events events true).

Definition install_session_events (events : list event) : M scene unit :=
  match events with
  | [] => mret ()
  | _ => fun s =>
      let '(s, r) := apply_uncached events (set_edit_target (session_layer s) s) in
      (set_edit_target (edit_layer s) s, r)
  end.

Definition install_snapshot (p : prepared_snapshot) : M scene unit :=
  _ ← modify (fun s => set_edit_target (edit_layer s) (set_scene_layer (edit_layer s) (ps_edit_layer p) s));
  _ ← install_session_events (ps_session_events p);
  modify (rebuild_caches (ps_events p)).

(** ** [HistoryMaintenance] *)

(** [drain]: the realtime queue is written out. *)
Definition maintenance_drain : M server unit := on_journal (modify drain).

(** [_finish_rewrite] *)
Definition finish_rewrite (count : nat) : M server unit := on_journal (modify (reset_history (Z.of_nat count))).

(** The records of a rewrite, numbered from [seq]. *)
Fixpoint encode_from (seq : Z) (records : list received) (enc : EncodedEvents) : result EncodedEvents :=
  match records with
  | [] => Ok enc
  | r :: rest =>
      x ← encode_event_record encode seq (r_event r) (r_client r) (r_client_id r) (r_origin r) (r_layer_key r);
      encode_from (seq + 1) rest (encoded_append enc x)
  end.

Definition rewrite_store (rows : list store_row) : M server unit := on_journal (on_store (clear_and_rewrite rows false)).

(** [commit_compaction] *)
Definition commit_compaction (c : compaction) : M server unit :=
  let compacted := replay_records c in
  encoded ← lift (encode_from 1 compacted (mk_encoded [] []));
  let rows := store_rows encoded in
  _ ← rewrite_store rows;
  _ ← on_scene (modify (rebuild_caches (map r_event compacted)));
  finish_rewrite (length rows).

(** [purge] *)
Definition maintenance_purge : M server unit :=
  _ ← rewrite_store [];
  _ ← on_scene (modify clear_collaboration_layers);
  finish_rewrite 0.

(** [commit_snapshot] *)
Definition snapshot_record (client_id origin : string) (ev : event) : received :=
  mk_received 0 ev (if non_collaboration ev then None else Some "default") (Some origin) (Some client_id) None.

Definition commit_snapshot (p : prepared_snapshot) (client_id origin : string) : M server EncodedEvents :=
  encoded ← lift (encode_from 1 (map (snapshot_record client_id origin) (ps_events p)) (mk_encoded [] []));
  _ ← maintenance_drain;
  _ ← rewrite_store (store_rows encoded);
  _ ← on_scene (install_snapshot p);
  _ ← finish_rewrite (length (records encoded));
  mret encoded.

(** ** [UsdSyncServer] *)

Definition resync_receivers : M server unit := modify (fun s => mk_server (s_journal s) (s_scene s) (S (resyncs s))).

(** [compact_log] in the shared section: the identity and the rows. *)
Definition compact_capture (s : server) : Z * list (Z * bytes) := ((replay_token (s_journal s)).1, get_all_asc (store (s_journal s))).

Definition add_rows (c : compaction) (rows : list (Z * bytes)) : result compaction :=
  foldR (add_stored_record merge_fragments decode) c rows.

(** [compact_log] in the rewrite window, with what was captured and reduced. *)
Definition compact_finish (replay_epoch max_seq : Z) (c : compaction) : M server unit :=
  _ ← maintenance_drain;
  current_epoch ← gets (fun s => (replay_token (s_journal s)).1);
  if bool_decide (current_epoch ≠ replay_epoch) then mret () else
  delta ← gets (fun s => get_from_seq_asc (store (s_journal s)) (max_seq + 1));
  c ← lift (add_rows c delta);
  _ ← commit_compaction c;
  resync_receivers.

(** The whole of [compact_log] when nothing runs in between. *)
Definition compact_log : M server unit := fun s =>
  let '(replay_epoch, rows) := compact_capture s in
  match last rows with
  | None => (s, Ok ())
  | Some (max_seq, _) => (c ← lift (build_compacted merge_fragments decode rows); compact_finish replay_epoch max_seq c) s
  end.

(** The same as one exclusive step: reduce what the history holds then. *)
Definition compact_now : M server unit :=
  _ ← maintenance_drain;
  rows ← gets (fun s => get_all_asc (store (s_journal s)));
  c ← lift (build_compacted merge_fragments decode rows);
  _ ← commit_compaction c;
  resync_receivers.

(** [UsdSyncServer.purge] *)
Definition purge : M server unit :=
  _ ← maintenance_drain;
  _ ← maintenance_purge;
  resync_receivers.

(** Any write of events through the journal: encoded and appended under a
    reservation, durably or into the realtime queue. *)
Definition journal_write (routed : list (string * event)) (c o a : option string)
    (pp : list ProducerProgress) (li : list LayerIdentity) (synchronous : bool) : M journal EncodedEvents :=
  reserve_sequences
    (enc ← assign_and_encode_events encode routed c o a;
     _ ← append_batch (store_rows enc) pp li synchronous;
     mret enc).
(** ** The journal between two points *)

(** Since the captured point the journal has only got rows with later sequence
    numbers, stored or queued. *)
Record extends (n0 : Z) (m0 : gmap Z store_row) (j : journal) : Prop := {
  ext_ok : journal_ok j;
  ext_next : (n0 ≤ next_seq j)%Z;
  ext_old q : (q < n0)%Z -> events_of (store j) !! q = m0 !! q;
  ext_queue rows r : rows ∈ queue j -> r ∈ rows -> (n0 ≤ row_seq r)%Z;
}.

Lemma rows_insert_old rows (m : gmap Z store_row) n0 q : (forall r, r ∈ rows -> (n0 ≤ row_seq r)%Z) -> (q < n0)%Z ->
  foldl rows_insert m rows !! q = m !! q.
Proof.
  revert m. induction rows as [|r rows IH]; intros m Hr Hq; [done|]. simpl. rewrite IH by set_solver. unfold rows_insert.
  apply lookup_insert_ne. specialize (Hr r ltac:(by left)). lia.
Qed.

Lemma persist_one_frame (j : journal) : next_seq (persist_one j) = next_seq j /\ replay_epoch (persist_one j) = replay_epoch j.
Proof.
  unfold persist_one. destruct (queue j) as [|rows rest]; [done|].
  unfold try_catch, mbind, M_bind, on_store, zoom, add_event_count, modify. cbn.
  by destruct (EventStore.append_batch rows [] [] (store j)) as [st' [[]|e]].
Qed.

Lemma persist_one_extends n0 m0 j : extends n0 m0 j -> extends n0 m0 (persist_one j).
Proof.
  intros [Hok Hn Ho Hq]. destruct (persist_one_frame j) as [E1 _]. split; [by apply persist_one_ok|by rewrite E1| |].
  - intros q Hlt. rewrite <-(Ho q Hlt). unfold persist_one. destruct (queue j) as [|rows rest] eqn:Eq; [done|].
    unfold try_catch, mbind, M_bind, on_store, zoom, add_event_count, modify. cbn.
    destruct (EventStore.append_batch rows [] [] (store j)) as [st' [[]|e]] eqn:Ha; cbn.
    + apply append_batch_events in Ha as (_ & -> & _). apply (rows_insert_old _ _ n0); [|done]. intros r Hr. apply (Hq rows); [set_solver|done].
    + by apply append_batch_atomic in Ha as ->.
  - intros rows r Hr. rewrite persist_one_queue in Hr. apply Hq. destruct (queue j); [done|]. set_solver.
Qed.

Lemma drain_frame (j : journal) : next_seq (drain j) = next_seq j /\ replay_epoch (drain j) = replay_epoch j.
Proof.
  unfold drain. induction (length (queue j)) as [|n [IH1 IH2]]; [done|]. simpl. destruct (persist_one_frame (Nat.iter n persist_one j)). split; congruence.
Qed.

Lemma drain_extends n0 m0 j : extends n0 m0 j -> extends n0 m0 (drain j).
Proof. intros Hj. unfold drain. induction (length (queue j)) as [|n IH]; [done|]. by apply persist_one_extends. Qed.

Lemma append_batch_epoch rows pp li sync (j : journal) : replay_epoch (append_batch rows pp li sync j).1 = replay_epoch j.
Proof.
  unfold append_batch. destruct (realtime j && _); [done|]. unfold on_store, zoom, add_event_count, modify, mbind, M_bind.
  by destruct (EventStore.append_batch rows pp li (store j)) as [st' [[]|e]].
Qed.

Lemma journal_write_epoch routed c o a pp li sync (j : journal) : replay_epoch (journal_write routed c o a pp li sync j).1 = replay_epoch j.
Proof.
  unfold journal_write, reserve_sequences, try_catch, mbind, M_bind.
  destruct (assign_and_encode_events encode routed c o a j) as [j1 r1] eqn:E1. apply encode_routed_frame in E1 as [E1 _].
  assert (replay_epoch j1 = replay_epoch j) as He by (by rewrite E1).
  destruct r1 as [enc|e]; [|cbn; by destruct (is_exception e)].
  pose proof (append_batch_epoch (store_rows enc) pp li sync j1) as E2. destruct (append_batch (store_rows enc) pp li sync j1) as [j2 [[]|e]]; cbn in *; [congruence|].
  destruct (is_exception e); cbn; congruence.
Qed.

(** A write of events: at worst it moves the counter, at best it adds rows with
    fresh sequence numbers. *)
Lemma journal_write_extends routed c o a pp li sync n0 m0 j : extends n0 m0 j -> extends n0 m0 (journal_write routed c o a pp li sync j).1.
Proof.
  intros [Hok Hn Ho Hq]. assert (forall n, (next_seq j ≤ n)%Z -> extends n0 m0 (set_next_seq n j)) as Hset.
  { intros n Hle. destruct Hok as [K1 K2 K3]. split; [|cbn; lia|done|done]. split; cbn; [|intros rows r ? ?|done].
    - intros q Hs. specialize (K1 q Hs). lia.
    - specialize (K2 rows r). naive_solver lia. }
  unfold journal_write, reserve_sequences, try_catch. unfold mbind, M_bind.
  destruct (assign_and_encode_events encode routed c o a j) as [j1 [enc|e]] eqn:E1.
  - pose proof (encode_routed_frame _ _ _ _ _ _ _ _ _ E1) as [Ej1 Hle].
    apply encode_routed_Ok in E1 as (new & -> & Hj1 & Hev & Hseq & _). cbn [store_rows app].
    assert (forall r, r ∈ map row_of new -> (next_seq j ≤ row_seq r < next_seq j1)%Z) as Hrows.
    { intros r (x & -> & [i Hi]%list_elem_of_lookup)%list_elem_of_fmap. specialize (Hseq i (wr_seq x.1)). rewrite list_lookup_fmap, Hi in Hseq.
      specialize (Hseq eq_refl). apply lookup_lt_Some in Hi. rewrite Hj1. cbn. rewrite <-(length_map snd routed), <-Hev, length_map. lia. }
    destruct (append_batch (map row_of new) pp li sync j1) as [j2 [[]|e]] eqn:E2; cbn.
    + rewrite Ej1 in Hrows, E2. set (j1' := set_next_seq (next_seq j1) j) in *.
      assert (extends n0 m0 j1') as [K1 K2 K3 K4] by (by apply Hset).
      assert (journal_ok j2) as Hok2 by (eapply journal_append_ok; [exact K1| |exact E2]; intros r Hr; cbn; by apply Hrows).
      destruct (queued pp li sync j1') eqn:Eq.
      * unfold append_batch in E2. unfold queued in Eq. rewrite Eq in E2. injection E2 as <-. split; [done..|]. cbn.
        intros rows r [Hin| ->%list_elem_of_singleton]%elem_of_app Hr; [by apply (Hq rows)|]. specialize (Hrows r Hr). lia.
      * apply append_batch_sync_Ok in E2 as (st' & Ha & ->); [|done]. split; [done|exact K2| |exact K4]. cbn.
        apply append_batch_events in Ha as (_ & -> & _). intros q Hlt. rewrite <-(K3 q Hlt). apply (rows_insert_old _ _ n0); [|done].
        intros r Hr. specialize (Hrows r Hr). lia.
    + apply append_batch_Err in E2 as ->. rewrite Ej1. destruct (is_exception e); apply Hset; [lia|done].
  - apply encode_routed_frame in E1 as [-> Hle]. cbn. destruct (is_exception e); apply Hset; [lia|done].
Qed.
Lemma filter_sorted {A} (Rel : A -> A -> Prop) (P : A -> Prop) `{!forall x, Decision (P x)} l : StronglySorted Rel l -> StronglySorted Rel (filter P l).
Proof.
  induction 1 as [|x l Hl IH Hx]; [constructor|]. rewrite filter_cons. case_decide; [|done]. constructor; [done|].
  rewrite Forall_forall in *. intros y [_ Hy]%list_elem_of_filter. by apply Hx.
Qed.

(** The rows up to the last captured one are the captured ones. *)
Lemma listing_split n0 (m0 m : gmap Z store_row) top : (forall q, (q < n0)%Z -> m !! q = m0 !! q) ->
  (forall q, is_Some (m0 !! q) -> (q ≤ top)%Z) -> (top < n0)%Z -> by_key m = by_key m0 ++ filter (fun p => (top + 1 ≤ p.1)%Z) (by_key m).
Proof.
  intros Ho Ht Hn. apply by_key_unique.
  - apply StronglySorted_app_2; [|apply by_key_strictly_sorted|apply filter_sorted, by_key_strictly_sorted].
    intros [q1 r1] [q2 r2] Hin1%elem_of_by_key [Hle _]%list_elem_of_filter. unfold key_lt. cbn in *. specialize (Ht q1 ltac:(by eexists)). lia.
  - intros q r. rewrite elem_of_app, list_elem_of_filter, !elem_of_by_key. cbn. destruct (decide (q ≤ top)%Z) as [Hq|Hq].
    + rewrite Ho by lia. split; [intros [?|[? _]]; [done|lia]|by left].
    + split; [intros [Hin|[_ Hin]]; [|done]|intros Hin; right; split; [lia|done]]. specialize (Ht q ltac:(by eexists)). lia.
Qed.

(** ** Rewrites *)

Lemma rewrite_store_run rows s s' r : rewrite_store rows s = (s', r) ->
  match r with
  | Ok _ => exists st', s' = set_journal (set_store st' (s_journal s)) s
  | Err _ => s' = s
  end.
Proof.
  unfold rewrite_store, on_journal, on_store, zoom. destruct (clear_and_rewrite rows false (store (s_journal s))) as [st' [[]|e]] eqn:E1; intros [= <- <-].
  - by eexists.
  - apply clear_and_rewrite_atomic in E1 as ->. by destruct s as [[] ? ?].
Qed.

Definition drained (s : server) : server := set_journal (drain (s_journal s)) s.

Lemma maintenance_drain_run s : maintenance_drain s = (drained s, Ok ()).
Proof. done. Qed.

(** A rewrite installs a new history and identity, or leaves both alone. *)
Definition rewritten (j j' : journal) : Prop := exists st' n, j' = reset_history (Z.of_nat n) (set_store st' j).

Lemma rewritten_epoch j j' : rewritten j j' -> replay_epoch j' = (replay_epoch j + 1)%Z.
Proof. by intros (st' & n & ->). Qed.

Lemma commit_compaction_run c s s' r : commit_compaction c s = (s', r) ->
  match r with Ok _ => rewritten (s_journal s) (s_journal s') | Err _ => s' = s end.
Proof.
  unfold commit_compaction, lift. unfold mbind at 1, M_bind at 1. destruct (encode_from 1 (replay_records c) (mk_encoded [] [])) as [enc|e]; [|by intros [= <- <-]].
  unfold mbind, M_bind. destruct (rewrite_store (store_rows enc) s) as [s1 r1] eqn:E1. apply rewrite_store_run in E1.
  destruct r1 as [[]|e]; [|by intros [= <- <-]]. destruct E1 as [st' ->]. cbn. intros [= <- <-]. by eexists _, _.
Qed.

Lemma purge_run s s' r : purge s = (s', r) -> match r with Ok _ => rewritten (drain (s_journal s)) (s_journal s') | Err _ => s' = drained s end.
Proof.
  unfold purge, maintenance_purge. unfold mbind, M_bind. rewrite maintenance_drain_run.
  destruct (rewrite_store [] (drained s)) as [s1 r1] eqn:E1. apply rewrite_store_run in E1.
  destruct r1 as [[]|e]; [|by intros [= <- <-]]. destruct E1 as [st' ->]. cbn. intros [= <- <-]. by exists st', 0.
Qed.

(** Only a failure to install the prepared opinions comes after the boundary. *)
Lemma commit_snapshot_run p c o s s' r : commit_snapshot p c o s = (s', r) ->
  match r with
  | Ok _ => rewritten (drain (s_journal s)) (s_journal s')
  | Err _ => s' = s \/ s' = drained s \/ exists st' sc', s' = mk_server (set_store st' (drain (s_journal s))) sc' (resyncs s)
      /\ exists e sc0, install_snapshot p sc0 = (sc', Err e)
  end.
Proof.
  unfold commit_snapshot, lift. unfold mbind at 1, M_bind at 1. destruct (encode_from 1 _ _) as [enc|e]; [|intros [= <- <-]; by left].
  unfold mbind, M_bind. rewrite maintenance_drain_run. destruct (rewrite_store (store_rows enc) (drained s)) as [s1 r1] eqn:E1. apply rewrite_store_run in E1.
  destruct r1 as [[]|e]; [|intros [= <- <-]; right; by left]. destruct E1 as [st' ->]. unfold on_scene, zoom. cbn.
  destruct (install_snapshot p (s_scene s)) as [sc' [[]|e]] eqn:E2; cbn; intros [= <- <-].
  - by eexists _, _.
  - right. right. exists st', sc'. split; [done|]. by exists e, (s_scene s).
Qed.

Lemma compact_finish_run e m c s s' r : compact_finish e m c s = (s', r) ->
  s' = drained s \/ rewritten (drain (s_journal s)) (s_journal s').
Proof.
  unfold compact_finish, gets, lift. unfold mbind, M_bind. rewrite maintenance_drain_run. cbn.
  case_bool_decide; [intros [= <- _]; by left|]. destruct (add_rows c _) as [c'|err]; [|intros [= <- _]; by left].
  destruct (commit_compaction c' (drained s)) as [s1 r1] eqn:E1. apply commit_compaction_run in E1.
  destruct r1 as [[]|err]; intros [= <- _]; [|by left]. by right.
Qed.

(** ** The server while a compaction is being reduced *)

(** Other activity within one run of the process: writes, the persist thread, any
    change of the scene or the policy, purges, saves of prepared opinions whose
    installation cannot raise, and other compactions.  Not a restart. *)
Inductive server_step (s : server) : server -> Prop :=
  | StepWrite routed c o a pp li sync : server_step s (on_journal (journal_write routed c o a pp li sync) s).1
  | StepPersist : server_step s (set_journal (persist_one (s_journal s)) s)
  | StepScene sc : server_step s (set_scene sc s)
  | StepBump : server_step s (on_journal bump_snapshot_epoch s).1
  | StepPurge : server_step s (purge s).1
  | StepSave p c o : (forall sc, is_ok (install_snapshot p sc).2 = true) -> server_step s (commit_snapshot p c o s).1
  | StepCompact e m c : server_step s (compact_finish e m c s).1.

Definition since (e0 n0 : Z) (m0 : gmap Z store_row) (s : server) : Prop :=
  (e0 < replay_epoch (s_journal s))%Z \/ (replay_epoch (s_journal s) = e0 /\ extends n0 m0 (s_journal s)).

Lemma since_drained e0 n0 m0 s : since e0 n0 m0 s -> since e0 n0 m0 (drained s).
Proof.
  unfold since, drained. cbn. destruct (drain_frame (s_journal s)) as [_ ->]. intros [?|[? ?]]; [by left|right; split; [done|by apply drain_extends]].
Qed.

Lemma since_rewritten e0 n0 m0 s s' : since e0 n0 m0 s -> rewritten (drain (s_journal s)) (s_journal s') -> since e0 n0 m0 s'.
Proof. intros Hs E1%rewritten_epoch. rewrite (proj2 (drain_frame _)) in E1. left. destruct Hs as [?|[? _]]; lia. Qed.

Lemma since_step e0 n0 m0 s s' : since e0 n0 m0 s -> server_step s s' -> since e0 n0 m0 s'.
Proof.
  intros Hs Hstep. destruct Hstep as [routed c o a pp li sync| |sc| | |p c o Hin|e m c].
  - unfold on_journal, zoom. destruct (journal_write routed c o a pp li sync (s_journal s)) as [j r] eqn:E1. cbn.
    destruct Hs as [Hlt|[He Hx]].
    + left. cbn. pose proof (journal_write_epoch routed c o a pp li sync (s_journal s)) as E2. rewrite E1 in E2. cbn in E2. by rewrite E2.
    + right. pose proof (journal_write_extends routed c o a pp li sync n0 m0 (s_journal s) Hx) as K1.
      pose proof (journal_write_epoch routed c o a pp li sync (s_journal s)) as K2. rewrite E1 in K1, K2. cbn in *. by rewrite K2.
  - unfold since. cbn. destruct (persist_one_frame (s_journal s)) as [_ ->]. destruct Hs as [?|[? ?]]; [by left|right; split; [done|by apply persist_one_extends]].
  - exact Hs.
  - destruct Hs as [?|[? [[K1 K2 K3] K4 K5 K6]]]; [by left|]. right. split; [done|]. by split; [split|..].
  - destruct (purge s) as [s' r] eqn:E1. apply purge_run in E1. cbn. destruct r; [by eapply since_rewritten|]. rewrite E1. by apply since_drained.
  - destruct (commit_snapshot p c o s) as [s' r] eqn:E1. apply commit_snapshot_run in E1. cbn. destruct r; [by eapply since_rewritten|].
    destruct E1 as [->|[->|(st' & sc' & _ & err & sc0 & E2)]]; [done|by apply since_drained|]. specialize (Hin sc0). by rewrite E2 in Hin.
  - destruct (compact_finish e m c s) as [s' r] eqn:E1. cbn. destruct (compact_finish_run _ _ _ _ _ _ E1) as [->|?]; [by apply since_drained|by eapply since_rewritten].
Qed.
Lemma since_run e0 n0 m0 s s' : since e0 n0 m0 s -> rtc server_step s s' -> since e0 n0 m0 s'.
Proof. intros Hs Hrun. induction Hrun as [|s1 s2 s3 Hstep _ IH]; [done|]. apply IH. by eapply since_step. Qed.

Lemma last_key_top (m : gmap Z store_row) k v : last (by_key m) = Some (k, v) -> is_Some (m !! k) /\ forall q, is_Some (m !! q) -> (q ≤ k)%Z.
Proof.
  intros [l Hl]%last_Some. split.
  - exists v. apply elem_of_by_key. rewrite Hl. set_solver.
  - intros q [r Hr]. apply elem_of_by_key in Hr. rewrite Hl in Hr. apply elem_of_app in Hr as [Hr|Hr].
    + pose proof (by_key_strictly_sorted m) as Hss. rewrite Hl in Hss.
      pose proof (StronglySorted_app_1_elem_of _ _ _ _ (k, v) Hss Hr ltac:(set_solver)) as Hlt. unfold key_lt in Hlt. cbn in Hlt. lia.
    + apply list_elem_of_singleton in Hr. injection Hr as -> _. lia.
Qed.

Lemma captured_delta n0 (m0 : gmap Z store_row) (j0 j : journal) max_seq b :
  n0 = next_seq j0 -> m0 = events_of (store j0) -> journal_ok j0 -> last (get_all_asc (store j0)) = Some (max_seq, b) -> extends n0 m0 j ->
  get_all_asc (store j) = get_all_asc (store j0) ++ get_from_seq_asc (store j) (max_seq + 1).
Proof.
  intros -> -> Hok Hl Hx. rewrite get_all_asc_spec in Hl. destruct (last (by_key (events_of (store j0)))) as [[k v]|] eqn:El.
  - assert (k = max_seq) as ->.
    { rewrite fmap_last, El in Hl. by injection Hl. }
    apply last_key_top in El as [Hk Ht]. pose proof (stored_below _ Hok max_seq Hk) as Hlt.
    rewrite !get_all_asc_spec, get_from_seq_asc_spec, <-map_app. f_equal. eapply listing_split; [apply Hx|done|done].
  - rewrite fmap_last, El in Hl. done.
Qed.

(** C10: compacting in two steps is sound.  If nothing was queued when the history
    was captured, then after any steps in between (writes, durable or queued, the
    persist thread, changes of the scene, purges, saves whose prepared opinions
    install without raising, other compactions) the second step does exactly what
    one exclusive compaction of the history it finds would do, or, if the history
    was replaced in the meantime, nothing but drain the queue. *)
Theorem compaction_in_two_steps s0 s1 replay_epoch0 rows max_seq b c :
  journal_ok (s_journal s0) -> queue (s_journal s0) = [] -> compact_capture s0 = (replay_epoch0, rows) -> last rows = Some (max_seq, b) ->
  build_compacted merge_fragments decode rows = Ok c -> rtc server_step s0 s1 ->
  compact_finish replay_epoch0 max_seq c s1
  = if decide (replay_epoch (s_journal s1) = replay_epoch0) then compact_now s1 else (drained s1, Ok ()).
Proof.
  intros Hok Hq Hcap Hl Hc Hrun. unfold compact_capture in Hcap. injection Hcap as He Hrows. cbn in He.
  assert (since replay_epoch0 (next_seq (s_journal s0)) (events_of (store (s_journal s0))) s0) as Hs0.
  { right. split; [done|]. split; [done|lia|done|]. intros rs r Hin. rewrite Hq in Hin. by apply elem_of_nil in Hin. }
  pose proof (since_drained _ _ _ _ (since_run _ _ _ _ _ Hs0 Hrun)) as Hs1.
  assert (replay_epoch (s_journal (drained s1)) = replay_epoch (s_journal s1)) as Hd by apply drain_frame.
  unfold compact_finish, compact_now, gets, lift. unfold mbind, M_bind. rewrite maintenance_drain_run. cbn. rewrite (proj2 (drain_frame _)).
  case_decide as Hep.
  - rewrite bool_decide_false by naive_solver. destruct Hs1 as [Hlt|[_ Hx]]; [rewrite Hd in Hlt; lia|].
    change (drain (s_journal s1)) with (s_journal (drained s1)).
    rewrite (captured_delta _ _ (s_journal s0) _ max_seq b eq_refl eq_refl Hok ltac:(by rewrite Hrows) Hx), Hrows.
    unfold build_compacted in *. rewrite foldR_app, Hc. done.
  - rewrite bool_decide_true by done. done.
Qed.
(** *** Rows the captured history has overtaken *)

(** Everything stored or queued is numbered up to [top]. *)
Record up_to (top : Z) (j : journal) : Prop := {
  up_stored q : is_Some (events_of (store j) !! q) -> (q ≤ top)%Z;
  up_queued rows r : rows ∈ queue j -> r ∈ rows -> (row_seq r ≤ top)%Z }.

Lemma rows_insert_up_to rows (m : gmap Z store_row) top :
  (forall q, is_Some (m !! q) -> (q ≤ top)%Z) -> (forall r, r ∈ rows -> (row_seq r ≤ top)%Z) ->
  forall q, is_Some (foldl rows_insert m rows !! q) -> (q ≤ top)%Z.
Proof.
  revert m. induction rows as [|r rows IH]; intros m Hm Hr; [done|]. simpl. apply IH; [|set_solver].
  intros q. unfold rows_insert. intros [<-|[_ Hq]]%lookup_insert_is_Some; [apply Hr; set_solver|by apply Hm].
Qed.

Lemma persist_one_up_to top j : up_to top j -> up_to top (persist_one j).
Proof.
  intros [Hs Hq]. split.
  - unfold persist_one. destruct (queue j) as [|rows rest] eqn:Eq; [done|].
    unfold try_catch, mbind, M_bind, on_store, zoom, add_event_count, modify. cbn.
    destruct (EventStore.append_batch rows [] [] (store j)) as [st' [[]|e]] eqn:Ha; cbn.
    + apply append_batch_events in Ha as (_ & -> & _). apply rows_insert_up_to; [done|]. intros r Hr. apply (Hq rows); [set_solver|done].
    + by apply append_batch_atomic in Ha as ->.
  - intros rows r. rewrite persist_one_queue. intros Hr. apply Hq. destruct (queue j); [done|]. set_solver.
Qed.

Lemma persist_up_to top j n : up_to top j ->
  up_to top (Nat.iter n persist_one j) /\ replay_epoch (Nat.iter n persist_one j) = replay_epoch j.
Proof.
  intros Hj. induction n as [|n [IH1 IH2]]; [done|]. simpl. split; [by apply persist_one_up_to|].
  rewrite <-IH2. apply persist_one_frame.
Qed.

Lemma no_delta top (j : journal) : up_to top j -> get_from_seq_asc (store j) (top + 1) = [].
Proof.
  intros [Hs _]. rewrite get_from_seq_asc_spec. destruct (filter _ (by_key (events_of (store j)))) as [|[q r] l] eqn:E; [done|].
  assert ((q, r) ∈ filter (fun p => (top + 1 ≤ p.1)%Z) (by_key (events_of (store j)))) as [Hle Hin%elem_of_by_key]%list_elem_of_filter
    by (rewrite E; by left).
  specialize (Hs q (ex_intro _ _ Hin)). simpl in Hle. lia.
Qed.

Lemma captured_up_to (j : journal) top b : last (get_all_asc (store j)) = Some (top, b) ->
  forall q, is_Some (events_of (store j) !! q) -> (q ≤ top)%Z.
Proof.
  rewrite get_all_asc_spec, fmap_last. destruct (last (by_key (events_of (store j)))) as [[k v]|] eqn:El; [|done].
  intros [= -> _]. by apply last_key_top in El as [_ Ht].
Qed.

(** What a successful [commit_compaction] leaves in the store. *)
Lemma commit_compaction_rows c s s' : commit_compaction c s = (s', Ok ()) ->
  exists enc, encode_from 1 (replay_records c) (mk_encoded [] []) = Ok enc
    /\ events_of (store (s_journal s')) = foldl rows_insert ∅ (store_rows enc).
Proof.
  unfold commit_compaction, lift. unfold mbind at 1, M_bind at 1.
  destruct (encode_from 1 (replay_records c) (mk_encoded [] [])) as [enc|e]; [|done]. intros Hc. exists enc. split; [done|].
  revert Hc. unfold mbind, M_bind, rewrite_store, on_journal, on_store, zoom.
  destruct (clear_and_rewrite (store_rows enc) false (store (s_journal s))) as [st' [[]|e]] eqn:E; [|done].
  apply clear_and_rewrite_events in E as (_ & E & _). intros [= <-]. exact E.
Qed.

(** C33: compaction loses what was queued behind the captured history.  Whenever all
    the rows queued at the capture are numbered below the last stored row, and
    nothing but the persist thread runs before the second step, a compaction that
    succeeds leaves the reduction of the captured rows alone, numbered from 1: the
    queued rows, though the thread or the drain stored them, are in neither part
    that is read, and the rewrite deletes them.  The witness is a history of two
    rows of which one is left, where one exclusive compaction keeps both. *)
Theorem compaction_loses_queued_row s s' n replay_epoch0 rows max_seq b c :
  compact_capture s = (replay_epoch0, rows) -> last rows = Some (max_seq, b) ->
  build_compacted merge_fragments decode rows = Ok c ->
  (forall batch r, batch ∈ queue (s_journal s) -> r ∈ batch -> (row_seq r < max_seq)%Z) ->
  compact_finish replay_epoch0 max_seq c (set_journal (Nat.iter n persist_one (s_journal s)) s) = (s', Ok ()) ->
  exists enc, encode_from 1 (replay_records c) (mk_encoded [] []) = Ok enc
    /\ events_of (store (s_journal s')) = foldl rows_insert ∅ (store_rows enc).
Proof.
  intros Hcap Hl Hc Hq Hrun. unfold compact_capture in Hcap. injection Hcap as He <-. cbn in He.
  assert (up_to max_seq (s_journal s)) as Hup.
  { split; [by eapply captured_up_to|]. intros batch r Hb Hr. specialize (Hq batch r Hb Hr). lia. }
  apply (persist_up_to _ _ n) in Hup as [Hup Hep]. set (j := Nat.iter n persist_one (s_journal s)) in *.
  pose proof (persist_up_to _ _ (length (queue j)) Hup) as [Hd Hde]. change (Nat.iter (length (queue j)) persist_one j) with (drain j) in *.
  set (s1 := set_journal j s) in *. change (drain j) with (s_journal (drained s1)) in Hd, Hde.
  revert Hrun. unfold compact_finish, gets, lift. unfold mbind, M_bind. rewrite maintenance_drain_run.
  rewrite bool_decide_false by (cbn in *; congruence). rewrite (no_delta _ _ Hd). simpl.
  destruct (commit_compaction c (drained s1)) as [s2 [[]|e]] eqn:E1; [|done].
  apply commit_compaction_rows in E1 as (enc & Henc & Hev). intros [= <-]. by exists enc.
Qed.

(** ** The identity of the state a client saw *)

Definition snapshot_id (s : server) : Z * Z := snapshot_token (s_journal s).
Definition id_lt (a b : Z * Z) : Prop := (a.1 < b.1 \/ (a.1 = b.1 /\ a.2 < b.2))%Z.

(** A durable server whose identity is that of [s0] holds the rows of [s0]. *)
Record identified (s0 s : server) : Prop := {
  id_durable : realtime (s_journal s) = false /\ queue (s_journal s) = [];
  id_seq : (1 ≤ next_seq (s_journal s))%Z;
  id_rows : id_lt (snapshot_id s0) (snapshot_id s)
    \/ (snapshot_id s = snapshot_id s0 /\ events_of (store (s_journal s)) = events_of (store (s_journal s0)));
}.

Lemma drain_empty (j : journal) : queue j = [] -> drain j = j.
Proof. unfold drain. by intros ->. Qed.

Lemma identified_rewritten s0 s s' : identified s0 s -> rewritten (drain (s_journal s)) (s_journal s') -> identified s0 s'.
Proof.
  intros [[Hr Hq] Hn Hid] (st' & n & E1). rewrite drain_empty in E1 by done. split.
  - by rewrite E1.
  - rewrite E1. cbn. lia.
  - left. unfold snapshot_id, id_lt, snapshot_token in *. rewrite E1. cbn in *. destruct Hid as [Hlt|[Heq _]]; [lia|]. injection Heq as Heq _. lia.
Qed.

Lemma identified_drained s0 s : identified s0 s -> identified s0 (drained s).
Proof. intros Hid. unfold drained. rewrite drain_empty by apply Hid. destruct s. exact Hid. Qed.

(** A write by a durable server. *)
Lemma journal_write_durable routed c o a pp li sync (j : journal) : realtime j = false -> queue j = [] ->
  let j' := (journal_write routed c o a pp li sync j).1 in
  realtime j' = false /\ queue j' = [] /\ snapshot_epoch j' = snapshot_epoch j
  /\ ((next_seq j' = next_seq j /\ events_of (store j') = events_of (store j)) \/ (next_seq j < next_seq j')%Z).
Proof.
  intros Hr Hq. unfold journal_write, reserve_sequences, try_catch. unfold mbind, M_bind.
  destruct (assign_and_encode_events encode routed c o a j) as [j1 [enc|e]] eqn:E1.
  - pose proof (encode_routed_frame _ _ _ _ _ _ _ _ _ E1) as [Ej1 Hle].
    apply encode_routed_Ok in E1 as (new & -> & Hj1 & Hev & Hseq & _). cbn [store_rows app].
    assert (queued pp li sync j1 = false) as Hqd by (unfold queued; rewrite Ej1; cbn; by rewrite Hr).
    destruct (append_batch (map row_of new) pp li sync j1) as [j2 [[]|e]] eqn:E2; cbn.
    + apply append_batch_sync_Ok in E2 as (st' & Ha & ->); [|done]. cbn. rewrite Hj1. cbn. split_and!; [done..|].
      destruct routed as [|x routed]; [|right; cbn; lia]. left. split; [cbn; lia|]. destruct new; [|done]. by apply append_batch_events in Ha as (_ & -> & _); rewrite Hj1.
    + apply append_batch_Err in E2 as ->. rewrite Ej1. destruct (is_exception e); cbn; split_and!; try done; [by left|].
      destruct (decide (next_seq j1 = next_seq j)) as [->|]; [by left|right; lia].
  - apply encode_routed_frame in E1 as [-> Hle]. cbn in *. destruct (is_exception e); cbn; split_and!; try done; [by left|].
    destruct (decide (next_seq j1 = next_seq j)) as [->|]; [by left|right; lia].
Qed.

Lemma identified_step s0 s s' : identified s0 s -> server_step s s' -> identified s0 s'.
Proof.
  intros Hid Hstep. pose proof Hid as [[Hr Hq] Hn Hrows]. destruct Hstep as [routed c o a pp li sync| |sc| | |p c o Hin|e m c].
  - pose proof (journal_write_durable routed c o a pp li sync (s_journal s) Hr Hq) as (K1 & K2 & K3 & K4).
    unfold on_journal, zoom. destruct (journal_write routed c o a pp li sync (s_journal s)) as [j r]. cbn in *. split; [done|cbn; lia|].
    unfold snapshot_id, snapshot_token, id_lt in *. cbn in *. rewrite K3. destruct K4 as [[-> ->]|Hlt]; [exact Hrows|]. left.
    destruct Hrows as [|[Heq _]]; [lia|]. injection Heq as Heq1 Heq2. lia.
  - assert (persist_one (s_journal s) = s_journal s) as -> by (unfold persist_one; by rewrite Hq). destruct s. exact Hid.
  - by split.
  - split; [done|done|]. left. unfold snapshot_id, snapshot_token, id_lt in *. cbn in *. destruct Hrows as [|[Heq _]]; [lia|]. injection Heq as Heq1 Heq2. lia.
  - destruct (purge s) as [s' r] eqn:E1. apply purge_run in E1. cbn. destruct r; [by eapply identified_rewritten|]. rewrite E1. by apply identified_drained.
  - destruct (commit_snapshot p c o s) as [s' r] eqn:E1. apply commit_snapshot_run in E1. cbn. destruct r; [by eapply identified_rewritten|].
    destruct E1 as [->|[->|(st' & sc' & _ & err & sc0 & E2)]]; [done|by apply identified_drained|]. specialize (Hin sc0). by rewrite E2 in Hin.
  - destruct (compact_finish e m c s) as [s' r] eqn:E1. cbn. destruct (compact_finish_run _ _ _ _ _ _ E1) as [->|?]; [by apply identified_drained|by eapply identified_rewritten].
Qed.

Lemma identified_run s0 s : realtime (s_journal s0) = false -> queue (s_journal s0) = [] -> (1 ≤ next_seq (s_journal s0))%Z ->
  rtc server_step s0 s -> identified s0 s.
Proof.
  intros Hr Hq Hn Hrun. assert (identified s0 s0) as Hid by (split; [done|done|by right]).
  assert (forall a b, rtc server_step a b -> identified s0 a -> identified s0 b) as Hall; [|by apply (Hall s0)].
  intros a b. induction 1 as [|a1 a2 a3 Hstep _ IH]; [done|]. intros Ha. apply IH. by eapply identified_step.
Qed.
End maintenance.

(** ** [PeriodicCompactor]

    Intervals in milliseconds.  A turn of [_compaction_loop] is a function of what
    its wait reports; [None]: the wait goes on. *)
Record compactor := mk_compactor { compact_interval : Z; compact_stop : bool; compact_wake : bool; compact_thread : bool }.

Inductive turn_result : Type := TurnExit | TurnContinue | TurnCompact.

Definition compactor_init (interval : Z) : compactor := mk_compactor (Z.max 0 interval) false false false.
Definition request_stop (c : compactor) : compactor := mk_compactor (compact_interval c) true true (compact_thread c).
Definition compactor_start (c : compactor) : compactor :=
  mk_compactor (compact_interval c) (compact_stop c) (compact_wake c) (compact_thread c || (0 <? compact_interval c)%Z).
Definition set_compact_interval (interval : Z) (c : compactor) : compactor :=
  mk_compactor (Z.max 0 interval) (compact_stop c) true (compact_thread c || (0 <? Z.max 0 interval)%Z).
Definition clear_wake (c : compactor) : compactor := mk_compactor (compact_interval c) (compact_stop c) false (compact_thread c).

(** [elapsed]: the timed wait ran out before the event was set; [stopped] and
    [needs]: [_compact_stop] and [needs_compaction()] after it. *)
Definition compaction_turn (c : compactor) (elapsed stopped needs : bool) : option (compactor * turn_result) :=
  if compact_stop c then Some (c, TurnExit)
  else if (compact_interval c <=? 0)%Z then (if compact_wake c then Some (clear_wake c, TurnContinue) else None)
  else if compact_wake c then Some (clear_wake c, TurnContinue)
  else if negb elapsed then None
  else if stopped then Some (c, TurnExit)
  else if negb needs then Some (c, TurnContinue)
  else Some (c, TurnCompact).

(** A compaction starts only when an interval is set, has elapsed, nobody asked
    to stop and there is something to compact; and once asked to stop the thread
    ends at its next turn. *)
Lemma compaction_turn_spec c elapsed stopped needs :
  ((compaction_turn c elapsed stopped needs) = Some (c, TurnCompact)
    <-> compact_stop c = false /\ (0 < compact_interval c)%Z /\ compact_wake c = false /\ elapsed = true /\ stopped = false /\ needs = true)
  /\ compaction_turn (request_stop c) elapsed stopped needs = Some (request_stop c, TurnExit).
Proof.
  split; [|done]. unfold compaction_turn. destruct (compact_stop c); [naive_solver|]. destruct (Z.leb_spec (compact_interval c) 0).
  - destruct (compact_wake c); split; intros Hc; [done|lia|done|lia].
  - destruct (compact_wake c), elapsed, stopped, needs; naive_solver.
Qed.

(** ** Witnesses: two prims, one byte each on disk *)

Definition demo_rec (prim : string) : received := mk_received 0 (demo_ensure_event prim) (Some "default") None None None.
Definition demo_enc (r : wire_record) : result bytes :=
  Ok [if bool_decide (py_get (wr_event r) "prim" = PStr "/A") then Byte.x01 else Byte.x02].
Definition demo_dec (b : bytes) : result stored_message :=
  match b with
  | [Byte.x01] => Ok (StoredEvent (demo_rec "/A"))
  | [Byte.x02] => Ok (StoredEvent (demo_rec "/B"))
  | _ => Err ValueError
  end.

Abbreviation demo_server_t := (server (L := demo_L) (R := unit) (Offset := Z) (C := gset string) (St := Sqlite.db)).
Definition demo_server (realtime : bool) : demo_server_t :=
  mk_server (journal_init (Sqlite.mk_db ∅ ∅ ∅) realtime) demo_scene 0.
Definition demo_write (prim : string) (pp : list ProducerProgress) (s : demo_server_t) : demo_server_t :=
  (on_journal (journal_write demo_enc [("default", demo_ensure_event prim)] None None None pp [] false) s).1.
Definition demo_rows (s : demo_server_t) : list (Z * bytes) := get_all_asc (store (s_journal s)).
Definition demo_reduced (rows : list (Z * bytes)) : compaction :=
  match build_compacted no_fragments demo_dec rows with Ok c => c | Err _ => compaction_init end.
Definition demo_finish (e top : Z) (c : compaction) (s : demo_server_t) : demo_server_t :=
  (compact_finish demo_enc demo_dec no_fragments e top c s).1.

(** A server that writes durably: captured with one row, finished with two. *)
Definition demo_durable : demo_server_t := demo_write "/A" [mk_progress "c" "s" 1] (demo_server false).

Lemma demo_journal_write_ok (s : demo_server_t) prim pp : journal_ok (s_journal s) -> queue (s_journal s) = [] ->
  journal_ok (s_journal (demo_write prim pp s)).
Proof.
  intros Hok Hq. unfold demo_write, on_journal, zoom.
  assert (extends (next_seq (s_journal s)) (events_of (store (s_journal s))) (s_journal s)) as Hx.
  { split; [done|lia|done|]. intros rs r Hin. rewrite Hq in Hin. by apply elem_of_nil in Hin. }
  pose proof (journal_write_extends demo_enc [("default", demo_ensure_event prim)] None None None pp [] false _ _ _ Hx) as Hy.
  destruct (journal_write _ _ _ _ _ _ _ _ (s_journal s)) as [j r]. apply Hy.
Qed.

Lemma compaction_in_two_steps_witness :
  let s1 := demo_write "/B" [mk_progress "c" "s" 2] demo_durable in
  demo_finish 0 1 (demo_reduced (demo_rows demo_durable)) s1 = (compact_now demo_enc demo_dec no_fragments s1).1
  /\ demo_rows (compact_now demo_enc demo_dec no_fragments s1).1 = [(1%Z, [Byte.x01]); (2%Z, [Byte.x02])].
Proof.
  split; [|vm_compute; reflexivity]. unfold demo_finish.
  rewrite (compaction_in_two_steps demo_enc demo_dec no_fragments demo_durable (demo_write "/B" [mk_progress "c" "s" 2] demo_durable) 0 [(1%Z, [Byte.x01])] 1 [Byte.x01]).
  - rewrite decide_True by (vm_compute; reflexivity). reflexivity.
  - apply demo_journal_write_ok; [apply journal_init_ok|done].
  - vm_compute. reflexivity.
  - vm_compute. reflexivity.
  - reflexivity.
  - vm_compute. reflexivity.
  - apply rtc_once. apply StepWrite.
Defined.

(** A realtime server: "/A" is queued, then "/B" is written durably because it
    acknowledges a producer. *)
Definition demo_overtaken : demo_server_t := demo_write "/B" [mk_progress "c" "s" 1] (demo_write "/A" [] (demo_server true)).
Definition demo_persisted : demo_server_t := set_journal (persist_one (s_journal demo_overtaken)) demo_overtaken.

Lemma compaction_loses_queued_row_witness :
  demo_rows demo_overtaken = [(2%Z, [Byte.x02])]
  /\ demo_rows demo_persisted = [(1%Z, [Byte.x01]); (2%Z, [Byte.x02])]
  /\ events_of (store (s_journal (demo_finish 0 2 (demo_reduced (demo_rows demo_overtaken)) demo_persisted)))
     = {[1%Z := mk_row 1 [Byte.x02] None (Some "ensure_prim") (Some "/B")]}
  /\ demo_rows (compact_now demo_enc demo_dec no_fragments demo_persisted).1 = [(1%Z, [Byte.x01]); (2%Z, [Byte.x02])].
Proof.
  split; [vm_compute; reflexivity|]. split; [vm_compute; reflexivity|]. split; [|vm_compute; reflexivity].
  destruct (compaction_loses_queued_row demo_enc demo_dec no_fragments demo_overtaken
    (demo_finish 0 2 (demo_reduced (demo_rows demo_overtaken)) demo_persisted) 1 0 [(2%Z, [Byte.x02])] 2 [Byte.x02]
    (demo_reduced (demo_rows demo_overtaken))) as (enc & Henc & ->).
  - vm_compute. reflexivity.
  - reflexivity.
  - vm_compute. reflexivity.
  - intros batch r. assert (queue (s_journal demo_overtaken) = [[mk_row 1 [Byte.x01] None (Some "ensure_prim") (Some "/A")]]) as -> by (vm_compute; reflexivity).
    intros ->%list_elem_of_singleton ->%list_elem_of_singleton. reflexivity.
  - vm_compute. reflexivity.
  - vm_compute in Henc. injection Henc as <-. vm_compute. reflexivity.
Defined.
