(* ===== verification/Producer.v ===== *)
(** The producer client: the native outbox session
    ([native/client_core/.../producer_session.h], [ordered_outbox_storage.h])
    and [EventSender] ([sender.py]) on top of it.

    Ids, counts and generations of the native session are [std::uint64_t], with
    their wrap-around written out ([u64]).  A connection attempt makes one socket
    and takes one generation, so a socket is named by its generation.  The bytes
    of a transaction stand for the message they encode ([txn], [make_txn]).
    Reconnect timers only decide when an attempt is made; they are left to the
    caller here and in [Protocol.v]. *)

From stdpp Require Import base gmap list option strings.
From Stdlib Require Import ZArith Lia.
From S2P Require Import Prelude Constants EventStore Journal Commit.
#[local] Set Default Goal Selector "!".
Open Scope Z_scope.

Definition u64 (n : Z) : Z := n mod 2 ^ 64.

(** ** The outbox *)

(** [make_txn] *)
Record txn := make_txn {
  t_events : list event;
  t_layer_key : string;
  t_txn_id : Z }.

(** [OrderedOutboxEntry] *)
Record entry := mk_entry {
  transaction_id : Z;
  payload : txn;
  event_count : Z;
  layer_key : string }.

#[export] Instance txn_eq_dec : EqDecision txn.
Proof. solve_decision. Defined.
#[export] Instance entry_eq_dec : EqDecision entry.
Proof. solve_decision. Defined.

(** [OrderedOutboxStorage] *)
Record outbox := mk_outbox {
  queue : list entry;
  capacity : Z;
  next_unsent : nat;
  pending_events : Z;
  next_id : Z;
  submitted_count : Z;
  last_acked : Z;
  acked_count : Z;
  acked_events : Z;
  acked_since_drain : Z }.

Definition outbox_init (cap : Z) : outbox := mk_outbox [] cap 0 0 1 0 0 0 0 0.

Definition can_append_storage (o : outbox) : bool := Z.of_nat (length (queue o)) <? capacity o.
Definition highest_submitted (o : outbox) : Z := u64 (next_id o - 1).
Definition contains (id : Z) (o : outbox) : bool := existsb (fun e => transaction_id e =? id) (queue o).

Definition append_storage (id : Z) (p : txn) (events : Z) (layer : string) (o : outbox) : outbox :=
  mk_outbox (queue o ++ [mk_entry id p events layer]) (capacity o) (next_unsent o)
    (u64 (pending_events o + events)) (u64 (next_id o + 1)) (u64 (submitted_count o + 1))
    (last_acked o) (acked_count o) (acked_events o) (acked_since_drain o).

(** [Replace]: the first entry with the id; [assert] excludes the other case. *)
Fixpoint replace_entry (id : Z) (new : entry) (q : list entry) : option (Z * list entry) :=
  match q with
  | [] => None
  | e :: q =>
      if transaction_id e =? id then Some (event_count e, new :: q)
      else '(n, q) ← replace_entry id new q; Some (n, e :: q)
  end.
Definition replace_storage (id : Z) (p : txn) (events : Z) (layer : string) (o : outbox) : option outbox :=
  '(old, q) ← replace_entry id (mk_entry id p events layer) (queue o);
  Some (mk_outbox q (capacity o) (next_unsent o) (u64 (u64 (pending_events o - old) + events))
          (next_id o) (submitted_count o) (last_acked o) (acked_count o) (acked_events o) (acked_since_drain o)).

(** The loop of [AcknowledgeThrough]: transactions and events removed, the
    pending events left, and the remaining queue. *)
Fixpoint pop_through (id count events pending : Z) (q : list entry) : Z * Z * Z * list entry :=
  match q with
  | [] => (count, events, pending, [])
  | e :: q' =>
      if transaction_id e <=? id
      then pop_through id (u64 (count + 1)) (u64 (events + event_count e)) (u64 (pending - event_count e)) q'
      else (count, events, pending, q)
  end.
Definition acknowledge_storage (id : Z) (o : outbox) : outbox :=
  let '(count, events, pending, q) := pop_through id 0 0 (pending_events o) (queue o) in
  mk_outbox q (capacity o)
    (if count <? Z.of_nat (next_unsent o) then (next_unsent o - Z.to_nat count)%nat else 0%nat)
    pending (Z.max (next_id o) (u64 (id + 1))) (submitted_count o)
    (Z.max (last_acked o) id) (u64 (acked_count o + count)) (u64 (acked_events o + events))
    (u64 (acked_since_drain o + events)).

Definition reset_storage (o : outbox) : outbox :=
  mk_outbox [] (capacity o) 0 0 1 (submitted_count o) 0 (acked_count o) (acked_events o) (acked_since_drain o).

Definition set_next_unsent (n : nat) (o : outbox) : outbox :=
  mk_outbox (queue o) (capacity o) n (pending_events o) (next_id o) (submitted_count o)
    (last_acked o) (acked_count o) (acked_events o) (acked_since_drain o).
Definition claim_storage (o : outbox) : option (entry * outbox) :=
  e ← queue o !! next_unsent o; Some (e, set_next_unsent (S (next_unsent o)) o).
Definition mark_all_unsent (o : outbox) : outbox := set_next_unsent 0 o.

Definition drain_storage (o : outbox) : Z * outbox :=
  (acked_since_drain o,
   mk_outbox (queue o) (capacity o) (next_unsent o) (pending_events o) (next_id o) (submitted_count o)
     (last_acked o) (acked_count o) (acked_events o) 0).

(** ** The session *)

Inductive producer_phase : Type := Disconnected | AwaitingHello | Ready | RecoveryRequired.
Inductive producer_result : Type :=
  | Accepted | StaleGeneration | InvalidPhase | RecoveryRequiredResult | HighwaterAhead | HighwaterRegressed
  | OutboxFull | SequenceMismatch | NoPendingTransaction | TransactionMissing | RecoveryNotRecoverable
  | InvalidArgument.
Inductive recovery_disposition : Type := NoDisposition | RecoverableConflict | InvalidOperation | SessionFatal.

#[export] Instance producer_phase_eq_dec : EqDecision producer_phase.
Proof. solve_decision. Defined.
#[export] Instance producer_result_eq_dec : EqDecision producer_result.
Proof. solve_decision. Defined.
#[export] Instance recovery_disposition_eq_dec : EqDecision recovery_disposition.
Proof. solve_decision. Defined.

(** [OrderedProducerSession] *)
Record session := mk_session {
  box : outbox;
  phase : producer_phase;
  disposition : recovery_disposition;
  generation : Z;
  rejected_id : Z }.

Definition session_init (cap : Z) : session := mk_session (outbox_init cap) Disconnected NoDisposition 0 0.

Definition set_box (o : outbox) (s : session) : session :=
  mk_session o (phase s) (disposition s) (generation s) (rejected_id s).
Definition set_phase (p : producer_phase) (s : session) : session :=
  mk_session (box s) p (disposition s) (generation s) (rejected_id s).

Definition require_phase (g : Z) (required : producer_phase) (s : session) : producer_result :=
  if bool_decide (g ≠ generation s) then StaleGeneration
  else if bool_decide (phase s = RecoveryRequired) then RecoveryRequiredResult
  else if bool_decide (phase s = required) then Accepted else InvalidPhase.

Definition validate_highwater (id : Z) (s : session) : producer_result :=
  if highest_submitted (box s) <? id then HighwaterAhead
  else if id <? last_acked (box s) then HighwaterRegressed
  else Accepted.

Definition enter_recovery (id : Z) (d : recovery_disposition) (s : session) : session :=
  mk_session (mark_all_unsent (box s)) RecoveryRequired d (generation s) id.
Definition clear_recovery (s : session) : session :=
  mk_session (box s) (phase s) NoDisposition (generation s) 0.

Definition begin_connection (s : session) : option (Z * session) :=
  if bool_decide (phase s = RecoveryRequired) then None
  else
    let g := u64 (generation s + 1) in
    Some (g, mk_session (mark_all_unsent (box s)) AwaitingHello (disposition s) g (rejected_id s)).

(** A guard that returns its own result unless it accepts. *)
Definition guarded (r : producer_result) (k : session -> session * producer_result) (s : session) :
    session * producer_result :=
  match r with Accepted => k s | _ => (s, r) end.

(** The highwater check of [AcceptHello] and [AcknowledgeThrough]. *)
Definition through_highwater (id : Z) (p : producer_phase) (s : session) : session * producer_result :=
  match validate_highwater id s with
  | Accepted => (set_phase p (set_box (acknowledge_storage id (box s)) s), Accepted)
  | r => (enter_recovery 0 SessionFatal s, r)
  end.

Definition accept_hello (g committed_through : Z) (s : session) : session * producer_result :=
  guarded (require_phase g AwaitingHello s) (through_highwater committed_through Ready) s.

Definition disconnect_session (g : Z) (s : session) : session * producer_result :=
  if bool_decide (g ≠ generation s) then (s, StaleGeneration)
  else
    let s := set_box (mark_all_unsent (box s)) s in
    (if bool_decide (phase s = RecoveryRequired) then s else set_phase Disconnected s, Accepted).

Definition append_session (g id : Z) (p : txn) (events : Z) (layer : string) (s : session) :
    session * producer_result :=
  if events =? 0 then (s, InvalidArgument)
  else guarded (require_phase g Ready s) (fun s =>
    if negb (can_append_storage (box s)) then (s, OutboxFull)
    else if bool_decide (id ≠ next_id (box s)) then (s, SequenceMismatch)
    else (set_box (append_storage id p events layer (box s)) s, Accepted)) s.

(** [claim_next_unsent] of the binding: [None] without a pending transaction,
    [std::logic_error] for a session that is not ready. *)
Definition claim_next_unsent (g : Z) (s : session) : session * result (option entry) :=
  match require_phase g Ready s with
  | Accepted =>
      match claim_storage (box s) with
      | Some (e, o) => (set_box o s, Ok (Some e))
      | None => (s, Ok None)
      end
  | _ => (s, Err RuntimeError)
  end.

Definition acknowledge_through (g id : Z) (s : session) : session * producer_result :=
  guarded (require_phase g Ready s) (through_highwater id Ready) s.

Definition reject (g id : Z) (d : recovery_disposition) (s : session) : session * producer_result :=
  guarded (require_phase g Ready s) (fun s =>
    if contains id (box s) then (enter_recovery id d s, Accepted)
    else (enter_recovery id SessionFatal s, TransactionMissing)) s.

(** [RepairRejected]; [None] where [Replace] asserts. *)
Definition repair_rejected_session (p : txn) (events : Z) (layer : string) (s : session) :
    option (session * producer_result) :=
  if events =? 0 then Some (s, InvalidArgument)
  else if bool_decide (phase s ≠ RecoveryRequired) then Some (s, InvalidPhase)
  else if bool_decide (disposition s ≠ RecoverableConflict) then Some (s, RecoveryNotRecoverable)
  else
    o ← replace_storage (rejected_id s) p events layer (box s);
    Some (set_phase Disconnected (clear_recovery (set_box o s)), Accepted).

Definition reset_session (s : session) : session :=
  mk_session (reset_storage (box s)) Disconnected NoDisposition (u64 (generation s + 1)) 0.

Definition session_can_append (s : session) : bool :=
  bool_decide (phase s = Ready) && can_append_storage (box s).
Definition session_empty (s : session) : bool := bool_decide (queue (box s) = []).
Definition recovery_required (s : session) : bool := bool_decide (phase s = RecoveryRequired).

(** ** [EventSender] *)

(** Rejection codes and their policy ([recovery.py]). *)
Definition CODE_NONE : Z := 0.
Definition CODE_INVALID_IDENTITY : Z := 1.
Definition CODE_UNEXPECTED_ID : Z := 2.
Definition CODE_STALE_LAYER_GRAPH : Z := 3.
Definition CODE_INVALID_TRANSACTION : Z := 4.

(** [TransactionFailure.disposition] with [native_disposition]. *)
Definition disposition_of (code : Z) : recovery_disposition :=
  if code =? CODE_STALE_LAYER_GRAPH then RecoverableConflict
  else if code =? CODE_INVALID_TRANSACTION then InvalidOperation
  else SessionFatal.

(** [TransactionFailure]; the reason texts are left out. *)
Record failure := mk_failure {
  f_txn_id : Z;
  f_code : Z;
  f_expected_txn_id : Z }.
#[export] Instance failure_eq_dec : EqDecision failure.
Proof. solve_decision. Defined.

(** [RecoveryArtifact] *)
Record artifact := mk_artifact {
  a_session_id : string;
  a_failure : failure;
  a_transactions : list entry }.

(** [MirrorCheckpoint] *)
Record MirrorCheckpoint := mk_mirror {
  m_server_instance : string;
  m_epoch : Z;
  m_head_seq : Z }.

(** The messages a producer connection receives. *)
Record transaction_result := mk_result {
  r_txn_id : Z;
  r_acknowledged : bool;
  r_expected_txn_id : Z;
  r_code : Z;
  r_checkpoint : option TransactionCheckpoint }.
Record hello_ok := mk_hello_ok {
  h_committed_through : Z;
  h_server_instance : string;
  h_shared_stage : bool }.
Inductive server_message : Type :=
  | HelloOk (h : hello_ok)
  | AuthRejected
  | HelloRejected
  | TransactionResult (r : transaction_result)
  | RateLimited
  | OtherMessage.

#[export] Instance checkpoint_eq_dec : EqDecision TransactionCheckpoint.
Proof. solve_decision. Defined.
#[export] Instance transaction_result_eq_dec : EqDecision transaction_result.
Proof. solve_decision. Defined.
#[export] Instance hello_ok_eq_dec : EqDecision hello_ok.
Proof. solve_decision. Defined.
#[export] Instance server_message_eq_dec : EqDecision server_message.
Proof. solve_decision. Defined.

(** [EventSender]: [sock] is the published socket, by its generation. *)
Record sender := mk_sender {
  native : session;
  sock : option Z;
  socket_generation : Z;
  failed : option failure;
  recovery_artifact : option artifact;
  session_id : string;
  server_instance : string;
  checkpoint : option MirrorCheckpoint;
  auth_rejected : bool;
  hello_rejected : bool;
  layer_mode : LayerMode;
  background_send : bool }.

Definition sender_init (cap : Z) (id : string) (mode : LayerMode) (background : bool) : sender :=
  mk_sender (session_init cap) None 0 None None id "" None false false mode background.

Definition set_native (n : session) (s : sender) : sender :=
  mk_sender n (sock s) (socket_generation s) (failed s) (recovery_artifact s) (session_id s)
    (server_instance s) (checkpoint s) (auth_rejected s) (hello_rejected s) (layer_mode s) (background_send s).
Definition set_sock (k : option Z) (s : sender) : sender :=
  mk_sender (native s) k (socket_generation s) (failed s) (recovery_artifact s) (session_id s)
    (server_instance s) (checkpoint s) (auth_rejected s) (hello_rejected s) (layer_mode s) (background_send s).
Definition publish_socket (g : Z) (s : sender) : sender :=
  mk_sender (native s) (Some g) g (failed s) (recovery_artifact s) (session_id s)
    (server_instance s) (checkpoint s) (auth_rejected s) (hello_rejected s) (layer_mode s) (background_send s).
Definition set_failure (f : option failure) (a : option artifact) (s : sender) : sender :=
  mk_sender (native s) (sock s) (socket_generation s) f a (session_id s)
    (server_instance s) (checkpoint s) (auth_rejected s) (hello_rejected s) (layer_mode s) (background_send s).
Definition set_identity (id : string) (s : sender) : sender :=
  mk_sender (native s) (sock s) (socket_generation s) (failed s) (recovery_artifact s) id
    (server_instance s) (checkpoint s) (auth_rejected s) (hello_rejected s) (layer_mode s) (background_send s).
Definition set_checkpoint (i : string) (c : option MirrorCheckpoint) (s : sender) : sender :=
  mk_sender (native s) (sock s) (socket_generation s) (failed s) (recovery_artifact s) (session_id s)
    i c (auth_rejected s) (hello_rejected s) (layer_mode s) (background_send s).
Definition set_rejected (auth hello : bool) (s : sender) : sender :=
  mk_sender (native s) (sock s) (socket_generation s) (failed s) (recovery_artifact s) (session_id s)
    (server_instance s) (checkpoint s) auth hello (layer_mode s) (background_send s).

(** A method of the native session that reports a result. *)
Definition on_native (k : session -> session * producer_result) (s : sender) : sender * producer_result :=
  let '(n, r) := k (native s) in (set_native n s, r).

(** [_record_session_failure_locked] *)
Definition record_session_failure (f : failure) (s : sender) : sender :=
  set_failure (Some f) (Some (mk_artifact (session_id s) f (queue (box (native s))))) s.

(** [_close]: the published socket, unless another one was expected. *)
Definition close (expected : option Z) (s : sender) : sender :=
  match sock s with
  | None => s
  | Some g =>
      if bool_decide (expected = None \/ expected = Some g)
      then set_native (disconnect_session (socket_generation s) (native s)).1 (set_sock None s)
      else s
  end.

(** *** Connecting *)

(** [_connect_locked] up to the hello message; the flags are reset once the
    native session has started a connection. *)
Definition connect_begin (s : sender) : option (Z * sender) :=
  match sock s with
  | Some _ => None
  | None => '(g, n) ← begin_connection (native s); Some (g, set_rejected false false (set_native n s))
  end.

(** An attempt that ends before its socket is published. *)
Definition abandon_attempt (g : Z) (s : sender) : sender :=
  set_native (disconnect_session g (native s)).1 s.

(** [_accept_handshake_response]: whether the handshake completed. *)
Definition accept_handshake_response (g : Z) (m : server_message) (s : sender) : sender * bool :=
  match m with
  | AuthRejected => (set_rejected true (hello_rejected s) s, false)
  | HelloRejected => (set_rejected (auth_rejected s) true s, false)
  | HelloOk h =>
      let s := set_checkpoint (h_server_instance h) None s in
      if bool_decide ((if h_shared_stage h then SHARED_STAGE else MANAGED) ≠ layer_mode s)
      then (set_rejected (auth_rejected s) true s, false)
      else
        let '(s, r) := on_native (accept_hello g (h_committed_through h)) s in
        match r with
        | Accepted => (s, true)
        | _ => (record_session_failure (mk_failure (h_committed_through h) CODE_UNEXPECTED_ID 0) s, false)
        end
  | TransactionResult _ | RateLimited | OtherMessage => (s, false)
  end.

(** The rest of [_connect_locked]: a completed handshake publishes the socket,
    anything else ends the attempt. *)
Definition connect_finish (g : Z) (m : server_message) (s : sender) : sender * bool :=
  let '(s, ok) := accept_handshake_response g m s in
  if ok then (publish_socket g s, true) else (abandon_attempt g s, false).

(** One turn of the replay loop of [_connect_locked] and of the loop of
    [_write_pending]: the transaction to write to the socket, if any. *)
Definition replay_one (g : Z) (s : sender) : sender * result (option txn) :=
  let '(n, r) := claim_next_unsent g (native s) in
  (set_native n s, match r with Ok e => Ok (option_map payload e) | Err x => Err x end).

(** The guards of [_write_pending] before it claims. *)
Definition writer_active (g : Z) (s : sender) : bool :=
  bool_decide (sock s = Some g /\ socket_generation s = g /\ failed s = None).

(** *** Submitting *)

Section sender.
Context (validate_events : list event -> LayerMode -> result unit).

(** [send_events] under its locks: what [_condition] protects, and the message
    the caller then writes to the socket (nothing in background mode). *)
Definition send_events (events : list event) (layer : string) (s : sender) :
    sender * result (bool * option (Z * txn)) :=
  if bool_decide (events = []) then (s, Ok (false, None))
  else match validate_events events (layer_mode s) with
  | Err e => (s, Err e)
  | Ok _ =>
      match sock s, failed s with
      | Some g, None =>
          if negb (session_can_append (native s)) then (s, Ok (false, None))
          else
            let id := next_id (box (native s)) in
            let p := make_txn events layer id in
            let '(s, r) := on_native (append_session (socket_generation s) id p (Z.of_nat (length events)) layer) s in
            match r with
            | Accepted => (s, Ok (true, if background_send s then None else Some (g, p)))
            | _ => (s, Ok (false, None))
            end
      | _, _ => (s, Ok (false, None))
      end
  end.

(** *** Results *)

(** [_accept_result]: the new state; the second component is the socket to close. *)
Definition accept_result (r : transaction_result) (g : Z) (s : sender) : sender * option Z :=
  match sock s with
  | None => (s, None)
  | Some _ =>
      if bool_decide (g ≠ socket_generation s) then (s, None)
      else if r_acknowledged r then
        let '(s, a) := on_native (acknowledge_through g (r_txn_id r)) s in
        match a with
        | StaleGeneration => (s, None)
        | Accepted =>
            (set_checkpoint (server_instance s)
               (match r_checkpoint r with
                | Some ck => if bool_decide (server_instance s = "") then None
                             else Some (mk_mirror (server_instance s) (epoch ck) (head_seq ck))
                | None => None
                end) s, None)
        | _ => (record_session_failure (mk_failure (r_txn_id r) CODE_UNEXPECTED_ID 0) s, sock s)
        end
      else
        let f := mk_failure (r_txn_id r) (r_code r) (r_expected_txn_id r) in
        let '(s, a) := on_native (reject g (r_txn_id r) (disposition_of (f_code f))) s in
        match a with
        | StaleGeneration => (s, None)
        | TransactionMissing =>
            (record_session_failure (mk_failure (r_txn_id r) CODE_UNEXPECTED_ID 0) s, sock s)
        | _ => (record_session_failure f s, sock s)
        end
  end.

(** One message in [_read_results] on the socket of generation [g]; [false]
    ends the reader, which closes its socket if it is still the current one. *)
Definition read_result (g : Z) (m : server_message) (s : sender) : sender * bool :=
  match m with
  | TransactionResult r =>
      let '(s, c) := accept_result r g s in
      (match c with Some k => close (Some k) s | None => s end, true)
  | RateLimited => (if bool_decide (g = socket_generation s /\ sock s = Some g) then close (Some g) s else s, false)
  | _ => (s, true)
  end.

(** *** Recovery *)

(** [repair_rejected_transaction] after [disconnect]. *)
Definition repair_rejected_transaction (events : list event) (layer : string) (s : sender) :
    option (sender * result Z) :=
  if bool_decide (events = []) then Some (s, Err ValueError)
  else match validate_events events (layer_mode s) with
  | Err e => Some (s, Err e)
  | Ok _ =>
      match failed s with
      | None => Some (s, Err RuntimeError)
      | Some f =>
          if bool_decide (disposition_of (f_code f) ≠ RecoverableConflict) then Some (s, Err RuntimeError)
          else
            let s := close None s in
            let p := make_txn events layer (f_txn_id f) in
            '(n, r) ← repair_rejected_session p (Z.of_nat (length events)) layer (native s);
            let s := set_native n s in
            Some (match r with
                  | Accepted => (set_failure None None s, Ok (f_txn_id f))
                  | _ => (s, Err RuntimeError)
                  end)
      end
  end.

(** [abandon_rejected_session]; [String.length] counts code points as [len] does
    on the ASCII ids the library makes. *)
Definition abandon_rejected_session (replacement : string) (s : sender) : sender * result artifact :=
  if bool_decide (replacement = "" \/ (128 < String.length replacement)%nat) then (s, Err ValueError)
  else match failed s, recovery_artifact s with
  | Some _, Some a =>
      if bool_decide (replacement = session_id s) then (s, Err ValueError)
      else
        let s := close None s in
        (set_identity replacement (set_failure None None (set_native (reset_session (native s)) s)), Ok a)
  | _, _ => (s, Err RuntimeError)
  end.

(** One look of [flush] at the state; [None] goes on waiting. *)
Definition flush_check (s : sender) : option (result bool) :=
  match failed s with
  | Some f => Some (Err (TransactionRejectedError "" (f_expected_txn_id f)))
  | None => if session_empty (native s) then Some (Ok true) else None
  end.

(** [acknowledged_checkpoint] *)
Definition acknowledged_checkpoint (s : sender) : option MirrorCheckpoint :=
  if bool_decide (failed s ≠ None) || negb (session_empty (native s)) then None else checkpoint s.
End sender.

(** ** Facts about the outbox *)

Definition events_in (q : list entry) : Z := foldr (fun e n => event_count e + n) 0 q.

(** The queue holds exactly the ids after the last acknowledged one. *)
Record outbox_ok (o : outbox) : Prop := {
  ok_ids : map transaction_id (queue o) = seqZ (last_acked o + 1) (next_id o - 1 - last_acked o);
  ok_acked : 0 <= last_acked o < next_id o;
  ok_next : next_id o < 2 ^ 64;
  ok_unsent : (next_unsent o <= length (queue o))%nat;
  ok_pending : pending_events o = u64 (events_in (queue o));
}.

Record session_ok (s : session) : Prop := {
  so_box : outbox_ok (box s);
  so_unsent : phase s ≠ Ready -> next_unsent (box s) = 0%nat;
  so_repair : phase s = RecoveryRequired -> disposition s = RecoverableConflict ->
              contains (rejected_id s) (box s) = true;
}.

Lemma u64_small n : 0 <= n < 2 ^ 64 -> u64 n = n.
Proof. apply Z.mod_small. Qed.
Lemma u64_add_l a b : u64 (u64 a + b) = u64 (a + b).
Proof. unfold u64. by rewrite Zplus_mod_idemp_l. Qed.
Lemma u64_sub_l a b : u64 (u64 a - b) = u64 (a - b).
Proof. unfold u64. by rewrite Zminus_mod_idemp_l. Qed.

Lemma events_in_app q1 q2 : events_in (q1 ++ q2) = events_in q1 + events_in q2.
Proof. unfold events_in. induction q1 as [|e q1 IH]; simpl; [done|]. rewrite IH. lia. Qed.

Lemma outbox_length o : outbox_ok o -> Z.of_nat (length (queue o)) = next_id o - 1 - last_acked o.
Proof.
  intros H. pose proof (f_equal length (ok_ids o H)) as Hl. rewrite length_map, length_seqZ in Hl.
  pose proof (ok_acked o H). lia.
Qed.

Lemma outbox_lookup o i e : outbox_ok o -> queue o !! i = Some e -> transaction_id e = last_acked o + 1 + Z.of_nat i.
Proof.
  intros H He. pose proof (ok_ids o H) as Hi. apply (f_equal (lookup i)) in Hi.
  rewrite list_lookup_fmap, He in Hi. simpl in Hi. symmetry in Hi. apply lookup_seqZ in Hi as [-> _]. lia.
Qed.

Lemma contains_iff o id : contains id o = true <-> exists e, e ∈ queue o /\ transaction_id e = id.
Proof.
  unfold contains. rewrite existsb_exists. setoid_rewrite <-list_elem_of_In. setoid_rewrite Z.eqb_eq. done.
Qed.

Lemma contains_range o id : outbox_ok o -> (contains id o = true <-> last_acked o < id < next_id o).
Proof.
  intros H. rewrite contains_iff. split.
  - intros (e & (i & Hi)%list_elem_of_lookup_1 & <-). pose proof (outbox_lookup o i e H Hi).
    apply lookup_lt_Some in Hi. pose proof (outbox_length o H). lia.
  - intros Hr. pose proof (outbox_length o H) as Hl.
    destruct (queue o !! Z.to_nat (id - last_acked o - 1)) as [e|] eqn:E.
    + exists e. split; [by eapply list_elem_of_lookup_2|]. rewrite (outbox_lookup o _ e H E). lia.
    + apply lookup_ge_None in E. lia.
Qed.

Lemma outbox_init_ok cap : outbox_ok (outbox_init cap).
Proof. split; simpl; done || lia. Qed.

Lemma set_unsent_ok n o : outbox_ok o -> (n <= length (queue o))%nat -> outbox_ok (set_next_unsent n o).
Proof. intros [] ?. by split. Qed.
Lemma mark_all_unsent_ok o : outbox_ok o -> outbox_ok (mark_all_unsent o).
Proof. intros H. apply set_unsent_ok; [done|lia]. Qed.

Lemma append_ok o p n l : outbox_ok o -> next_id o < 2 ^ 64 - 1 -> outbox_ok (append_storage (next_id o) p n l o).
Proof.
  intros H Hn. pose proof (outbox_length o H). destruct H as [H1 H2 H3 H4 H5].
  split; unfold append_storage; cbn [queue last_acked next_id next_unsent pending_events].
  - rewrite map_app, H1. simpl. rewrite u64_small by lia.
    replace (next_id o + 1 - 1 - last_acked o) with ((next_id o - 1 - last_acked o) + 1) by lia.
    rewrite seqZ_app by lia. f_equal. rewrite seqZ_cons by lia. simpl. f_equal. lia.
  - rewrite u64_small by lia. lia.
  - rewrite u64_small by lia. lia.
  - rewrite length_app. simpl. lia.
  - rewrite H5, u64_add_l, events_in_app. simpl. f_equal. lia.
Qed.

(** The loop of [AcknowledgeThrough] removes the entries up to the id. *)
Lemma pop_through_spec id c ev pe q1 q2 :
  Forall (fun e => transaction_id e <= id) q1 -> (forall e, head q2 = Some e -> id < transaction_id e) ->
  c = u64 c -> ev = u64 ev -> pe = u64 pe ->
  pop_through id c ev pe (q1 ++ q2)
  = (u64 (c + Z.of_nat (length q1)), u64 (ev + events_in q1), u64 (pe - events_in q1), q2).
Proof.
  intros Hq1 Hq2. revert c ev pe. induction Hq1 as [|e q1 He Hq1 IH]; intros c ev pe Hc Hev Hpe; simpl.
  - rewrite !Z.add_0_r, Z.sub_0_r, <-Hc, <-Hev, <-Hpe. destruct q2 as [|e q2]; simpl; [done|].
    specialize (Hq2 e eq_refl). replace (transaction_id e <=? id) with false by (symmetry; apply Z.leb_gt; lia). done.
  - replace (transaction_id e <=? id) with true by (symmetry; apply Z.leb_le; lia).
    assert (forall n, u64 n = u64 (u64 n)) as Hu by (intros n; unfold u64; by rewrite Zmod_mod).
    rewrite IH by apply Hu. rewrite !u64_add_l, u64_sub_l.
    repeat match goal with |- (_, _) = (_, _) => apply pair_equal_spec; split end; try done; f_equal; lia.
Qed.

Lemma acknowledge_spec o id : outbox_ok o -> last_acked o <= id < next_id o ->
  exists pe since,
  acknowledge_storage id o
  = mk_outbox (drop (Z.to_nat (id - last_acked o)) (queue o)) (capacity o)
      (next_unsent o - Z.to_nat (id - last_acked o)) pe (next_id o) (submitted_count o) id
      (u64 (acked_count o + (id - last_acked o))) (u64 (acked_events o + events_in (take (Z.to_nat (id - last_acked o)) (queue o)))) since
  /\ outbox_ok (acknowledge_storage id o).
Proof.
  intros H Hid. remember (Z.to_nat (id - last_acked o)) as k eqn:Ek. pose proof (outbox_length o H) as Hlen.
  assert (pop_through id 0 0 (pending_events o) (queue o)
          = (u64 (0 + Z.of_nat k), u64 (0 + events_in (take k (queue o))),
             u64 (pending_events o - events_in (take k (queue o))), drop k (queue o))) as Hp.
  { rewrite <-(take_drop k (queue o)) at 1. rewrite pop_through_spec.
    - rewrite length_take. replace (k `min` length (queue o))%nat with k by lia. done.
    - apply Forall_lookup. intros i e Hi. apply lookup_take_Some in Hi as [Hi Hlt].
      rewrite (outbox_lookup o i e H Hi). lia.
    - intros e He. rewrite head_lookup, lookup_drop in He. rewrite (outbox_lookup o _ e H He). lia.
    - done.
    - done.
    - rewrite (ok_pending o H). unfold u64. by rewrite Zmod_mod. }
  pose proof (ok_acked o H). pose proof (ok_next o H). pose proof (ok_unsent o H).
  assert (u64 (0 + Z.of_nat k) = id - last_acked o) as Hk by (rewrite u64_small; lia).
  assert ((if id - last_acked o <? Z.of_nat (next_unsent o) then (next_unsent o - k)%nat else 0%nat)
          = (next_unsent o - k)%nat) as Hun by (destruct (Z.ltb_spec (id - last_acked o) (Z.of_nat (next_unsent o))); lia).
  assert (Z.max (next_id o) (u64 (id + 1)) = next_id o) as Hnx by (rewrite u64_small; lia).
  assert (Z.max (last_acked o) id = id) as Hla by lia.
  assert (u64 (acked_events o + u64 (0 + events_in (take k (queue o)))) = u64 (acked_events o + events_in (take k (queue o)))) as Hae
    by (rewrite !(Z.add_comm (acked_events o)); by rewrite u64_add_l, Z.add_0_l).
  unfold acknowledge_storage. rewrite Hp, Hk, <-Ek, Hun, Hnx, Hla, Hae. eexists _, _. split; [done|].
  split; cbn [queue last_acked next_id next_unsent pending_events].
  - rewrite <-skipn_map, (ok_ids o H). apply list_eq. intros i. rewrite lookup_drop.
    destruct (decide (Z.of_nat i < next_id o - 1 - id)).
    + rewrite !lookup_seqZ_lt by lia. f_equal. lia.
    + rewrite !lookup_seqZ_ge by lia. done.
  - lia.
  - done.
  - rewrite length_drop. lia.
  - rewrite (ok_pending o H), u64_sub_l. f_equal.
    rewrite <-(take_drop k (queue o)) at 1. rewrite events_in_app. lia.
Qed.

(** ** The session keeps its invariant *)

Lemma replace_entry_spec id new q n q' : replace_entry id new q = Some (n, q') ->
  exists i e, q !! i = Some e /\ transaction_id e = id /\ q' = <[i := new]> q /\ n = event_count e.
Proof.
  revert n q'; induction q as [|e q IH]; intros n q'; simpl; [done|].
  destruct (Z.eqb_spec (transaction_id e) id) as [He|He].
  - intros [= <- <-]. by exists 0%nat, e.
  - intros ([m q1] & E & [= <- <-])%bind_Some. destruct (IH _ _ E) as (i & e' & Hi & ? & -> & ?).
    by exists (S i), e'.
Qed.

Lemma replace_entry_Some id new q : existsb (fun e => transaction_id e =? id) q = true ->
  is_Some (replace_entry id new q).
Proof.
  induction q as [|e q IH]; simpl; [done|]. destruct (transaction_id e =? id); simpl; [by eexists|].
  intros [[n q'] E]%IH. rewrite E. by eexists.
Qed.

Lemma events_in_insert q i e new : q !! i = Some e ->
  events_in (<[i := new]> q) = events_in q - event_count e + event_count new.
Proof.
  revert i; induction q as [|e1 q IH]; intros [|i]; simpl; [done|done|intros [= ->]; unfold events_in; simpl; lia|].
  intros Hi. specialize (IH i Hi). unfold events_in in *. simpl. lia.
Qed.

Lemma replace_ok o id p n l o' : outbox_ok o -> replace_storage id p n l o = Some o' ->
  outbox_ok o' /\ exists i e, queue o !! i = Some e /\ transaction_id e = id
    /\ queue o' = <[i := mk_entry id p n l]> (queue o) /\ next_id o' = next_id o /\ last_acked o' = last_acked o
    /\ next_unsent o' = next_unsent o.
Proof.
  intros H. unfold replace_storage. intros ([old q] & E & [= <-])%bind_Some.
  apply replace_entry_spec in E as (i & e & Hi & He & -> & ->). split; [|by exists i, e].
  destruct H as [H1 H2 H3 H4 H5]. split; cbn [queue last_acked next_id next_unsent pending_events]; [|done..| |].
  - rewrite <-H1. apply list_eq. intros j. rewrite !list_lookup_fmap.
    destruct (decide (i = j)) as [<-|Hne]; [|by rewrite list_lookup_insert_ne].
    rewrite list_lookup_insert_eq by (by eapply lookup_lt_Some). rewrite Hi. simpl. by rewrite He.
  - by rewrite length_insert.
  - rewrite u64_add_l, H5, <-Z.add_opp_r, <-Z.add_assoc, u64_add_l, (events_in_insert _ _ _ _ Hi). f_equal. simpl. lia.
Qed.

Lemma enter_recovery_ok id d s : session_ok s -> (d = RecoverableConflict -> contains id (box s) = true) ->
  session_ok (enter_recovery id d s).
Proof. intros [H1 H2 H3] Hd. split; simpl; [by apply mark_all_unsent_ok|done|auto]. Qed.

Lemma validate_highwater_ok id s : outbox_ok (box s) -> validate_highwater id s = Accepted ->
  last_acked (box s) <= id < next_id (box s).
Proof.
  intros H. unfold validate_highwater, highest_submitted. pose proof (ok_acked _ H). pose proof (ok_next _ H).
  rewrite u64_small by lia. destruct (Z.ltb_spec (next_id (box s) - 1) id), (Z.ltb_spec id (last_acked (box s))); done || lia.
Qed.

Lemma through_highwater_ok id s : session_ok s -> (phase s ≠ RecoveryRequired) ->
  session_ok (through_highwater id Ready s).1.
Proof.
  intros Hs Hp. unfold through_highwater. destruct (validate_highwater id s) eqn:E.
  1: { split; cbn; [|done|done]. apply validate_highwater_ok in E; [|by apply so_box].
       by destruct (acknowledge_spec (box s) id (so_box s Hs) E) as (? & ? & _ & ?). }
  all: simpl; by apply enter_recovery_ok.
Qed.

Lemma require_phase_Accepted g p s : require_phase g p s = Accepted -> g = generation s /\ phase s = p /\ phase s ≠ RecoveryRequired.
Proof.
  unfold require_phase. case_bool_decide as H1; [done|]. case_bool_decide as H2; [done|]. case_bool_decide; [|done].
  intros _. split_and!; [|done..]. destruct (decide (g = generation s)); tauto.
Qed.

Lemma guarded_ind (P : session * producer_result -> Prop) g p k s :
  (g = generation s -> phase s = p -> phase s ≠ RecoveryRequired -> P (k s)) ->
  (forall r, r ≠ Accepted -> P (s, r)) -> P (guarded (require_phase g p s) k s).
Proof.
  intros Hk Hr. unfold guarded. destruct (require_phase g p s) eqn:E; [|by apply Hr..].
  apply require_phase_Accepted in E as (? & ? & ?). auto.
Qed.

Lemma begin_connection_ok g s s' : session_ok s -> begin_connection s = Some (g, s') -> session_ok s' /\ phase s' = AwaitingHello.
Proof.
  intros [H1 H2 H3]. unfold begin_connection. case_bool_decide; [done|]. intros [= <- <-].
  split; [|done]. split; simpl; [by apply mark_all_unsent_ok|done|done].
Qed.

Lemma accept_hello_ok g id s : session_ok s -> session_ok (accept_hello g id s).1.
Proof.
  intros H. unfold accept_hello. apply (guarded_ind (fun x => session_ok x.1)); [|done].
  intros _ _ Hp. by apply through_highwater_ok.
Qed.

Lemma acknowledge_through_ok g id s : session_ok s -> session_ok (acknowledge_through g id s).1.
Proof.
  intros H. unfold acknowledge_through. apply (guarded_ind (fun x => session_ok x.1)); [|done].
  intros _ _ Hp. by apply through_highwater_ok.
Qed.

Lemma disconnect_ok g s : session_ok s -> session_ok (disconnect_session g s).1.
Proof.
  intros [H1 H2 H3]. unfold disconnect_session. case_bool_decide; [done|]. simpl.
  case_bool_decide as K; (split; simpl; [by apply mark_all_unsent_ok|done|by auto]).
Qed.

Lemma append_session_ok g id p n l s : session_ok s -> next_id (box s) < 2 ^ 64 - 1 ->
  session_ok (append_session g id p n l s).1.
Proof.
  intros H Hn. unfold append_session. destruct (n =? 0); [done|].
  apply (guarded_ind (fun x => session_ok x.1)); [|done]. intros _ Hp Hnr.
  destruct (can_append_storage (box s)); [|done]. simpl. case_bool_decide as Hid; [done|].
  assert (id = next_id (box s)) as -> by (destruct (decide (id = next_id (box s))); tauto).
  split; simpl; [apply append_ok; [by apply so_box|done]|done|by rewrite Hp].
Qed.

Lemma claim_ok g s : session_ok s -> session_ok (claim_next_unsent g s).1.
Proof.
  intros H. unfold claim_next_unsent. destruct (require_phase g Ready s) eqn:E; [|done..].
  apply require_phase_Accepted in E as (_ & Hp & _). unfold claim_storage.
  destruct (queue (box s) !! next_unsent (box s)) as [e|] eqn:Eq; [|done]. simpl.
  split; simpl; [|by rewrite Hp|by rewrite Hp].
  apply set_unsent_ok; [by apply so_box|]. by apply lookup_lt_Some in Eq.
Qed.

Lemma reject_ok g id d s : session_ok s -> session_ok (reject g id d s).1.
Proof.
  intros H. unfold reject. apply (guarded_ind (fun x => session_ok x.1)); [|done]. intros _ _ _.
  destruct (contains id (box s)) eqn:E; simpl; by apply enter_recovery_ok.
Qed.

Lemma repair_ok p n l s s' r : session_ok s -> repair_rejected_session p n l s = Some (s', r) -> session_ok s'.
Proof.
  intros [H1 H2 H3]. unfold repair_rejected_session. destruct (n =? 0); [by intros [= <- <-]|].
  case_bool_decide as K1; [by intros [= <- <-]|]. case_bool_decide as K2; [by intros [= <- <-]|].
  intros (o & Ho & [= <- <-])%bind_Some. destruct (replace_ok _ _ _ _ _ _ H1 Ho) as [Hok (i & e & Hi & He & Hq & _ & _ & Hu)].
  split; simpl; [done| |done]. intros _. rewrite Hu. apply H2. destruct (phase s); done.
Qed.

(** The [assert] of [Replace] holds where [RepairRejected] calls it. *)
Lemma repair_defined p n l s : session_ok s -> is_Some (repair_rejected_session p n l s).
Proof.
  intros [H1 H2 H3]. unfold repair_rejected_session. destruct (n =? 0); [by eexists|].
  case_bool_decide as K1; [by eexists|]. case_bool_decide as K2; [by eexists|].
  assert (phase s = RecoveryRequired) as Hp by (destruct (phase s); done).
  assert (disposition s = RecoverableConflict) as Hd by (destruct (disposition s); done).
  specialize (H3 Hp Hd). unfold contains in H3.
  destruct (replace_entry_Some _ (mk_entry (rejected_id s) p n l) _ H3) as [[m q] E].
  unfold replace_storage. rewrite E. by eexists.
Qed.

Lemma reset_session_ok s : session_ok (reset_session s).
Proof. split; simpl; [|done|done]. split; simpl; done || lia. Qed.
