(* ===== verification/Protocol.v ===== *)
(** The producer protocol end to end: [EventSender] ([Producer.v]), the
    connections between it and the server, the connection handler
    ([server/connection.py]) and the durable progress of one producer session,
    served by [TransactionCommitter] ([Commit.v]).

    A connection is a pair of streams of whole messages; a cut loses any suffix
    of what has not been read and everything written later (framing delivers
    whole messages only, [Framing.v]).  The server may be reading several
    connections of one producer at once, those the client has given up included.
    [sys_versions] is a history variable: what the client submitted under each
    id, a repaired transaction with every version it had. *)

From stdpp Require Import base gmap list option strings relations.
From Stdlib Require Import ZArith Lia.
From S2P Require Import Prelude Constants EventStore Journal Rollback PrimIndex Applying LayerStack Scene Commit Producer.
#[local] Set Default Goal Selector "!".
Open Scope Z_scope.

(** ** The connection handler *)

(** [except (TypeError, ValueError)]: [TransactionRejectedError] is a [ValueError]. *)
Definition is_rejection (e : exn) : bool :=
  match e with TypeError | ValueError | TransactionRejectedError _ _ => true | _ => false end.

(** The rejection codes by name ([codec.py]). *)
Definition code_of (name : string) : Z :=
  if bool_decide (name = "invalid_identity") then CODE_INVALID_IDENTITY
  else if bool_decide (name = "unexpected_id") then CODE_UNEXPECTED_ID
  else if bool_decide (name = "stale_layer_graph") then CODE_STALE_LAYER_GRAPH
  else if bool_decide (name = "invalid_transaction") then CODE_INVALID_TRANSACTION
  else CODE_NONE.

(** [_transaction_rejection] *)
Definition transaction_rejection (txn_id : Z) (e : exn) : transaction_result :=
  match e with
  | TransactionRejectedError code expected => mk_result txn_id false expected (code_of code) None
  | _ => mk_result txn_id false 0 CODE_INVALID_TRANSACTION None
  end.

(** [_resolve_transaction_reply]: any other exception reaches the caller. *)
Definition resolve_transaction_reply (txn_id : Z) (ck : option TransactionCheckpoint) (o : TransactionOutcome) :
    result transaction_result :=
  match o with
  | Done c => Ok (mk_result (tc_txn_id c) true 0 CODE_NONE ck)
  | Failed e => if is_rejection e then Ok (transaction_rejection txn_id e) else Err e
  end.

(** One reply in the batch of [_transaction_result_loop]: an acknowledgement
    replaces an acknowledgement just before it. *)
Definition push_reply (outgoing : list transaction_result) (reply : transaction_result) : list transaction_result :=
  match last outgoing with
  | Some r => if r_acknowledged reply && r_acknowledged r then removelast outgoing ++ [reply] else outgoing ++ [reply]
  | None => outgoing ++ [reply]
  end.
Definition batch_replies (replies : list transaction_result) : list transaction_result := foldl push_reply [] replies.

(** The durable progress of one producer session under one transaction. *)
Inductive serve (request : TransactionRequest) (n : Z) : TransactionOutcome -> Z -> Prop :=
  | serve_known o : check_transaction_id request n = Some o -> serve request n o n
  | serve_commit c : check_transaction_id request n = None -> tc_status c = committed ->
      tc_txn_id c = req_txn_id request -> serve request n (Done c) (req_txn_id request)
  | serve_failed e : check_transaction_id request n = None -> serve request n (Failed e) n.

(** ** Connections *)

Record link := mk_link {
  up : bool;
  greeted : bool;
  c2s : list txn;
  resolved : list transaction_result;
  s2c : list server_message }.
Definition new_link : link := mk_link true false [] [] [].

(** What is written to a connection that is down is lost. *)
Definition write (t : txn) (l : link) : link :=
  if up l then mk_link true (greeted l) (c2s l ++ [t]) (resolved l) (s2c l) else l.
Definition push (ms : list server_message) (l : link) : link :=
  if up l then mk_link true (greeted l) (c2s l) (resolved l) (s2c l ++ ms) else l.
Definition greet (l : link) : link := mk_link (up l) true (c2s l) (resolved l) (s2c l).
Definition set_c2s (ts : list txn) (l : link) : link := mk_link (up l) (greeted l) ts (resolved l) (s2c l).
Definition set_resolved (rs : list transaction_result) (l : link) : link := mk_link (up l) (greeted l) (c2s l) rs (s2c l).
Definition set_s2c (ms : list server_message) (l : link) : link := mk_link (up l) (greeted l) (c2s l) (resolved l) ms.
Definition cut (i j : nat) (l : link) : link :=
  mk_link false (greeted l) (take i (c2s l)) (resolved l) (take j (s2c l)).

Record system := mk_system {
  sys_client : sender;
  sys_connecting : option Z;
  sys_replaying : bool;
  sys_links : gmap Z link;
  sys_log : list txn;
  sys_versions : list (list txn) }.

Definition set_client (c : sender) (w : system) : system :=
  mk_system c (sys_connecting w) (sys_replaying w) (sys_links w) (sys_log w) (sys_versions w).
Definition set_connecting (k : option Z) (w : system) : system :=
  mk_system (sys_client w) k (sys_replaying w) (sys_links w) (sys_log w) (sys_versions w).
Definition set_replaying (b : bool) (w : system) : system :=
  mk_system (sys_client w) (sys_connecting w) b (sys_links w) (sys_log w) (sys_versions w).
Definition set_link (g : Z) (l : link) (w : system) : system :=
  mk_system (sys_client w) (sys_connecting w) (sys_replaying w) (<[g := l]> (sys_links w)) (sys_log w) (sys_versions w).
Definition log_txn (t : txn) (w : system) : system :=
  mk_system (sys_client w) (sys_connecting w) (sys_replaying w) (sys_links w) (sys_log w ++ [t]) (sys_versions w).
Definition set_versions (vs : list (list txn)) (w : system) : system :=
  mk_system (sys_client w) (sys_connecting w) (sys_replaying w) (sys_links w) (sys_log w) vs.

Definition sys_progress (w : system) : Z := Z.of_nat (length (sys_log w)).

Section protocol.
Context (validate_events : list event -> LayerMode -> result unit).
Context (client_id : string).

Definition request_of (w : system) (t : txn) : TransactionRequest :=
  mk_request client_id (session_id (sys_client w)) (t_txn_id t) None None None (t_layer_key t).

(** *** The client *)

(** [connect]: the attempt gets its connection and a generation of its own. *)
Inductive client_step : system -> system -> Prop :=
  | cl_connect w g c : sys_connecting w = None -> sys_links w !! g = None ->
      connect_begin (sys_client w) = Some (g, c) ->
      client_step w (set_link g new_link (set_connecting (Some g) (set_client c w)))
  | cl_abandon w g : sys_connecting w = Some g ->
      client_step w (set_connecting None (set_client (abandon_attempt g (sys_client w)) w))
  | cl_handshake w g l m ms c ok : sys_connecting w = Some g -> sys_links w !! g = Some l -> s2c l = m :: ms ->
      connect_finish g m (sys_client w) = (c, ok) ->
      client_step w (set_replaying (negb (background_send c)) (set_link g (set_s2c ms l)
                       (set_connecting None (set_client c w))))
  | cl_write w g l c t : sock (sys_client w) = Some g -> sys_links w !! g = Some l ->
      (if background_send (sys_client w) then writer_active g (sys_client w) = true else sys_replaying w = true) ->
      replay_one g (sys_client w) = (c, Ok (Some t)) ->
      client_step w (set_link g (write t l) (set_client c w))
  | cl_replayed w g c : sock (sys_client w) = Some g -> background_send (sys_client w) = false ->
      sys_replaying w = true -> replay_one g (sys_client w) = (c, Ok None) ->
      client_step w (set_replaying false (set_client c w))
  | cl_send w events layer c out : background_send (sys_client w) = true \/ sys_replaying w = false ->
      next_id (box (native (sys_client w))) < 2 ^ 64 - 1 ->
      send_events validate_events events layer (sys_client w) = (c, Ok (true, out)) ->
      client_step w
        (match out with
         | Some (g, t) => match sys_links w !! g with Some l => set_link g (write t l) | None => id end
         | None => id
         end (set_versions (sys_versions w ++ [[make_txn events layer (next_id (box (native (sys_client w))))]])
                (set_client c w)))
  | cl_close w expected : client_step w (set_client (close expected (sys_client w)) w)
  | cl_read w g l m ms c b : sys_connecting w ≠ Some g -> sys_links w !! g = Some l -> s2c l = m :: ms ->
      read_result g m (sys_client w) = (c, b) ->
      client_step w (set_link g (set_s2c ms l) (set_client c w))
  | cl_repair w events layer c r :
      repair_rejected_transaction validate_events events layer (sys_client w) = Some (c, r) ->
      client_step w
        (match r with
         | Ok id => set_versions (alter (fun vs => vs ++ [make_txn events layer id]) (Z.to_nat (id - 1)) (sys_versions w))
         | Err _ => fun w => w
         end (set_client c w)).

(** *** The server; [faulty] allows failures other than lost connections *)

Inductive server_step (faulty : bool) : system -> system -> Prop :=
  | sv_greet w g l i shared : sys_links w !! g = Some l -> greeted l = false ->
      server_step faulty w (set_link g (greet (push [HelloOk (mk_hello_ok (sys_progress w) i shared)] l)) w)
  | sv_refuse w g l m : m = AuthRejected \/ m = HelloRejected -> sys_links w !! g = Some l -> greeted l = false ->
      server_step faulty w (set_link g (greet (push [m] l)) w)
  | sv_rate_limit w g l t ts : sys_links w !! g = Some l -> greeted l = true -> c2s l = t :: ts ->
      server_step faulty w (set_link g (push [RateLimited] (set_c2s ts l)) w)
  | sv_process w g l t ts o n ck r : sys_links w !! g = Some l -> greeted l = true -> c2s l = t :: ts ->
      serve (request_of w t) (sys_progress w) o n ->
      (faulty = false -> match o with Done _ => True | Failed _ => check_transaction_id (request_of w t) (sys_progress w) = Some o end) ->
      resolve_transaction_reply (t_txn_id t) ck o = Ok r ->
      server_step faulty w (set_link g (set_resolved (resolved l ++ [r]) (set_c2s ts l))
                       (if n =? sys_progress w then w else log_txn t w))
  | sv_refuse_txn w g l t ts e : faulty = true -> is_rejection e = true -> sys_links w !! g = Some l -> greeted l = true -> c2s l = t :: ts ->
      server_step faulty w (set_link g (set_resolved (resolved l ++ [transaction_rejection (t_txn_id t) e]) (set_c2s ts l)) w)
  | sv_results w g l rs rest : sys_links w !! g = Some l -> greeted l = true -> resolved l = rs ++ rest -> rs ≠ [] ->
      server_step faulty w (set_link g (push (TransactionResult <$> batch_replies rs) (set_resolved rest l)) w)
  | sv_cut w g l i j : sys_links w !! g = Some l -> server_step faulty w (set_link g (cut i j l) w).

Definition protocol_step (faulty : bool) (w w' : system) : Prop := client_step w w' \/ server_step faulty w w'.

Definition system_init (cap : Z) (sid : string) (mode : LayerMode) (background : bool) : system :=
  mk_system (sender_init cap sid mode background) None false ∅ [] [].
Definition protocol_reachable (faulty : bool) (w : system) : Prop :=
  exists cap sid mode background, rtc (protocol_step faulty) (system_init cap sid mode background) w.
End protocol.

(** ** Safety *)

(** One of the versions submitted under the transaction's id. *)
Definition submitted (vs : list (list txn)) (t : txn) : Prop :=
  1 <= t_txn_id t /\ exists v, vs !! Z.to_nat (t_txn_id t - 1) = Some v /\ t ∈ v.

Definition entry_ok (vs : list (list txn)) (e : entry) : Prop :=
  t_txn_id (payload e) = transaction_id e /\ submitted vs (payload e).

Record client_ok (vs : list (list txn)) (n : Z) (s : session) : Prop := {
  c_session : session_ok s;
  c_next : Z.of_nat (length vs) = next_id (box s) - 1;
  c_acked : last_acked (box s) <= n;
  c_queue : Forall (entry_ok vs) (queue (box s));
}.

Definition result_ok (n : Z) (r : transaction_result) : Prop := r_acknowledged r = true -> r_txn_id r <= n.
Definition message_ok (n : Z) (m : server_message) : Prop :=
  match m with
  | HelloOk h => h_committed_through h <= n
  | TransactionResult r => result_ok n r
  | _ => True
  end.
Record link_ok (vs : list (list txn)) (n : Z) (l : link) : Prop := {
  l_c2s : Forall (submitted vs) (c2s l);
  l_resolved : Forall (result_ok n) (resolved l);
  l_s2c : Forall (message_ok n) (s2c l);
}.

Definition log_ok (vs : list (list txn)) (log : list txn) : Prop :=
  forall i t, log !! i = Some t -> t_txn_id t = Z.of_nat i + 1 /\ submitted vs t.

(** *** Sessions *)

(** What the protocol sees of the outbox. *)
Definition core (s : session) : list entry * Z * Z := (queue (box s), next_id (box s), last_acked (box s)).

Lemma core_inj s s' : core s = core s' ->
  queue (box s) = queue (box s') /\ next_id (box s) = next_id (box s') /\ last_acked (box s) = last_acked (box s').
Proof. intros [= -> -> ->]. done. Qed.

Lemma client_ok_core vs n s s' : client_ok vs n s -> session_ok s' -> core s' = core s -> client_ok vs n s'.
Proof. intros [H1 H2 H3 H4] Hs (Hq & Hn & Hl)%core_inj. split; [done|by rewrite Hn|by rewrite Hl|by rewrite Hq]. Qed.

Lemma core_begin g s s' : begin_connection s = Some (g, s') -> core s' = core s.
Proof. unfold begin_connection. case_bool_decide; [done|]. by intros [= <- <-]. Qed.
Lemma core_disconnect g s : core (disconnect_session g s).1 = core s.
Proof. unfold disconnect_session. case_bool_decide; [done|]. simpl. by case_bool_decide. Qed.
Lemma core_claim g s : core (claim_next_unsent g s).1 = core s.
Proof.
  unfold claim_next_unsent. destruct (require_phase g Ready s); [|done..]. unfold claim_storage.
  by destruct (queue (box s) !! next_unsent (box s)).
Qed.
Lemma core_reject g id d s : core (reject g id d s).1 = core s.
Proof. unfold reject. apply (guarded_ind (fun x => core x.1 = core s)); [|done]. intros. by destruct (contains id (box s)). Qed.

Lemma client_ok_disconnect vs n g s : client_ok vs n s -> client_ok vs n (disconnect_session g s).1.
Proof. intros H. apply (client_ok_core vs n s); [done|by apply disconnect_ok, H|apply core_disconnect]. Qed.

Lemma client_ok_highwater vs n id s : client_ok vs n s -> phase s ≠ RecoveryRequired -> id <= n ->
  client_ok vs n (through_highwater id Ready s).1.
Proof.
  intros H Hp Hid. pose proof (through_highwater_ok id s (c_session _ _ _ H) Hp) as Hok.
  unfold through_highwater in *. destruct (validate_highwater id s) eqn:E.
  1: { simpl in *. apply validate_highwater_ok in E; [|apply H].
       destruct (acknowledge_spec (box s) id (so_box s (c_session _ _ _ H)) E) as (pe & since & Ha & _).
       split; [done|..]; cbn [box set_phase set_box]; rewrite Ha; cbn [queue next_id last_acked];
         [apply H|lia|apply Forall_drop, H]. }
  all: by apply (client_ok_core vs n s).
Qed.

Lemma client_ok_hello vs n g id s : client_ok vs n s -> id <= n -> client_ok vs n (accept_hello g id s).1.
Proof.
  intros H Hid. unfold accept_hello. apply (guarded_ind (fun x => client_ok vs n x.1)); [|done].
  intros _ _ Hp. by apply client_ok_highwater.
Qed.
Lemma client_ok_ack vs n g id s : client_ok vs n s -> id <= n -> client_ok vs n (acknowledge_through g id s).1.
Proof.
  intros H Hid. unfold acknowledge_through. apply (guarded_ind (fun x => client_ok vs n x.1)); [|done].
  intros _ _ Hp. by apply client_ok_highwater.
Qed.

Lemma submitted_mono vs vs' t : submitted vs t -> (forall i v, vs !! i = Some v -> exists v', vs' !! i = Some v' /\ v ⊆ v') ->
  submitted vs' t.
Proof. intros [H1 (v & Hv & Ht)] Hm. split; [done|]. destruct (Hm _ _ Hv) as (v' & ? & ?). exists v'. split; [done|set_solver]. Qed.

Lemma versions_snoc (vs : list (list txn)) x i v : vs !! i = Some v -> exists v', (vs ++ [x]) !! i = Some v' /\ v ⊆ v'.
Proof. intros H. exists v. split; [|done]. by apply lookup_app_l_Some. Qed.
Lemma versions_alter (vs : list (list txn)) t j i v : vs !! i = Some v ->
  exists v', alter (fun x => x ++ [t]) j vs !! i = Some v' /\ v ⊆ v'.
Proof.
  intros H. destruct (decide (j = i)) as [->|Hne].
  - rewrite list_lookup_alter_eq, H. simpl. eexists. split; [done|set_solver].
  - rewrite list_lookup_alter_ne by done. by exists v.
Qed.

Lemma entry_ok_mono vs vs' e : entry_ok vs e -> (forall i v, vs !! i = Some v -> exists v', vs' !! i = Some v' /\ v ⊆ v') ->
  entry_ok vs' e.
Proof. intros [? ?] ?. split; [done|by eapply submitted_mono]. Qed.

Lemma link_ok_mono vs vs' n n' l : link_ok vs n l -> n <= n' ->
  (forall i v, vs !! i = Some v -> exists v', vs' !! i = Some v' /\ v ⊆ v') -> link_ok vs' n' l.
Proof.
  intros [H1 H2 H3] Hn Hm. split.
  - eapply Forall_impl; [exact H1|]. intros. by eapply submitted_mono.
  - eapply Forall_impl; [exact H2|]. unfold result_ok. intros r Hr Ha. specialize (Hr Ha). lia.
  - eapply Forall_impl; [exact H3|]. intros []; simpl; unfold result_ok; auto; [lia|]. intros Hr Ha. specialize (Hr Ha). lia.
Qed.
Lemma log_ok_mono vs vs' log : log_ok vs log ->
  (forall i v, vs !! i = Some v -> exists v', vs' !! i = Some v' /\ v ⊆ v') -> log_ok vs' log.
Proof. intros H Hm i t Ht. destruct (H i t Ht) as [? ?]. split; [done|by eapply submitted_mono]. Qed.

(** *** The sender *)

Lemma client_ok_close vs n k c : client_ok vs n (native c) -> client_ok vs n (native (close k c)).
Proof. intros H. unfold close. destruct (sock c); [|done]. case_bool_decide; [|done]. by apply client_ok_disconnect. Qed.

Lemma client_ok_finish vs n g m c : message_ok n m -> client_ok vs n (native c) ->
  client_ok vs n (native (connect_finish g m c).1).
Proof.
  intros Hm H. unfold connect_finish.
  assert (client_ok vs n (native (accept_handshake_response g m c).1)) as Ha.
  { destruct m as [h| | | | |]; simpl; [|done..]. case_bool_decide; [done|]. unfold on_native.
    pose proof (client_ok_hello vs n g (h_committed_through h) (native c) H Hm) as Hn. simpl.
    destruct (accept_hello g (h_committed_through h) (native c)) as [s []]; done. }
  destruct (accept_handshake_response g m c) as [c' []]; simpl in *; [done|].
  unfold abandon_attempt. simpl. by apply client_ok_disconnect.
Qed.

Lemma client_ok_accept_result vs n r g c : result_ok n r -> client_ok vs n (native c) ->
  client_ok vs n (native (accept_result r g c).1).
Proof.
  intros Hr H. unfold accept_result. destruct (sock c) as [k|]; [|done]. case_bool_decide; [done|].
  destruct (r_acknowledged r) eqn:Ea; unfold on_native.
  - pose proof (client_ok_ack vs n g (r_txn_id r) (native c) H (Hr Ea)) as Hn.
    destruct (acknowledge_through g (r_txn_id r) (native c)) as [s a]. simpl in *. by destruct a.
  - pose proof (reject_ok g (r_txn_id r) (disposition_of (r_code r)) (native c) (c_session _ _ _ H)) as Hs.
    pose proof (core_reject g (r_txn_id r) (disposition_of (r_code r)) (native c)) as Hc. simpl.
    destruct (reject g (r_txn_id r) (disposition_of (r_code r)) (native c)) as [s a]. simpl in *.
    assert (client_ok vs n s) by (by eapply client_ok_core). by destruct a.
Qed.

Lemma client_ok_read vs n m g c : message_ok n m -> client_ok vs n (native c) ->
  client_ok vs n (native (read_result g m c).1).
Proof.
  intros Hm H. unfold read_result. destruct m as [| | |r| |]; try done.
  - pose proof (client_ok_accept_result vs n r g c Hm H) as Hr. destruct (accept_result r g c) as [c' [k|]]; [|done].
    by apply client_ok_close.
  - case_bool_decide; [|done]. by apply client_ok_close.
Qed.


(** A quarantined session has no socket, and a repairable rejection is the one
    the sender recorded. *)
Record quarantine_ok (c : sender) : Prop := {
  q_sock : phase (native c) = RecoveryRequired -> sock c = None;
  q_repair : phase (native c) = RecoveryRequired -> disposition (native c) = RecoverableConflict ->
             exists f, failed c = Some f /\ f_txn_id f = rejected_id (native c);
}.

Lemma disconnect_cases g s : (disconnect_session g s).1 = s
  \/ (disconnect_session g s).1
     = mk_session (mark_all_unsent (box s)) (if bool_decide (phase s = RecoveryRequired) then RecoveryRequired else Disconnected)
         (disposition s) (generation s) (rejected_id s).
Proof.
  unfold disconnect_session. case_bool_decide; [by left|]. right. simpl. case_bool_decide as Hp; [|done].
  rewrite <-Hp. by destruct s.
Qed.

Lemma quarantine_disconnect g c : quarantine_ok c -> quarantine_ok (set_native (disconnect_session g (native c)).1 c).
Proof.
  intros [H1 H2]. destruct (disconnect_cases g (native c)) as [-> | ->]; [by split|].
  split; simpl; (case_bool_decide; [auto|done]).
Qed.

Lemma quarantine_close k c : quarantine_ok c -> quarantine_ok (close k c).
Proof.
  intros H. unfold close. destruct (sock c) as [g|] eqn:E; [|done]. case_bool_decide; [|done].
  apply (quarantine_disconnect _ (set_sock None c)). destruct H as [H1 H2]. split; simpl; [done|exact H2].
Qed.

(** Methods that need an active connection never see a quarantined session. *)
Lemma highwater_cases id s :
  (validate_highwater id s = Accepted /\ through_highwater id Ready s = (set_phase Ready (set_box (acknowledge_storage id (box s)) s), Accepted))
  \/ exists r, validate_highwater id s = r /\ (r = HighwaterAhead \/ r = HighwaterRegressed)
       /\ through_highwater id Ready s = (enter_recovery 0 SessionFatal s, r).
Proof.
  unfold through_highwater, validate_highwater. destruct (highest_submitted (box s) <? id).
  - right. eexists. split_and!; [done|by left|done].
  - destruct (id <? last_acked (box s)); [|by left]. right. eexists. split_and!; [done|by right|done].
Qed.

(** The handshake of the connection being made. *)
Lemma finish_cases g m c : phase (native c) = AwaitingHello -> generation (native c) = g ->
  (exists h i k, m = HelloOk h /\ validate_highwater (h_committed_through h) (native c) = Accepted
     /\ connect_finish g m c = (publish_socket g (set_native
          (set_phase Ready (set_box (acknowledge_storage (h_committed_through h) (box (native c))) (native c))) (set_checkpoint i k c)), true))
  \/ (exists c' s, connect_finish g m c = (set_native (disconnect_session g s).1 c', false) /\ sock c' = sock c
        /\ background_send c' = background_send c /\ session_id c' = session_id c
        /\ ((s = native c /\ failed c' = failed c)
            \/ (exists h, m = HelloOk h /\ validate_highwater (h_committed_through h) (native c) ≠ Accepted
                 /\ s = enter_recovery 0 SessionFatal (native c)))).
Proof.
  intros Hp Hg. unfold connect_finish, accept_handshake_response.
  destruct m as [h| | | | |]; try (right; eexists _, _; split; [reflexivity|]; split_and!; [done..|by left]).
  destruct (bool_decide ((if h_shared_stage h then SHARED_STAGE else MANAGED) ≠ layer_mode (set_checkpoint (h_server_instance h) None c))).
  { right; eexists _, _; split; [reflexivity|]; split_and!; [done..|by left]. }
  unfold on_native, accept_hello, guarded. cbn [native set_checkpoint].
  assert (require_phase g AwaitingHello (native c) = Accepted) as ->.
  { unfold require_phase. rewrite Hg, Hp. by rewrite bool_decide_false by auto. }
  destruct (highwater_cases (h_committed_through h) (native c)) as [[Hv E] | (r & Hv & Hr & E)]; rewrite E.
  - left. by exists h, (h_server_instance h), None.
  - right. destruct Hr as [-> | ->]; (eexists _, _; split; [reflexivity|]; split_and!; [done..|]; right; exists h;
      split_and!; [done|by rewrite Hv|done]).
Qed.

Lemma quarantine_finish g m c : phase (native c) = AwaitingHello -> generation (native c) = g -> sock c = None ->
  quarantine_ok (connect_finish g m c).1.
Proof.
  intros Hp Hg Hs. destruct (finish_cases g m c Hp Hg) as [(h & i & k & _ & _ & ->)|(c' & s & -> & Hs' & _ & _ & Hc)]; [by split|].
  apply (quarantine_disconnect g (set_native s c')). split; simpl.
  - by rewrite Hs'.
  - destruct Hc as [[-> _]|(h & _ & _ & ->)]; [by rewrite Hp|done].
Qed.

(** One result on a socket: ignored, acknowledged, or the end of the session. *)
Lemma accept_result_cases r g c : quarantine_ok c ->
  (accept_result r g c = (c, None) /\ (sock c = None \/ g ≠ socket_generation c \/ g ≠ generation (native c)))
  \/ (sock c ≠ None /\ g = socket_generation c /\ r_acknowledged r = true
      /\ phase (native c) = Ready /\ generation (native c) = g /\ validate_highwater (r_txn_id r) (native c) = Accepted
      /\ exists k, accept_result r g c
           = (set_checkpoint (server_instance c) k (set_native (set_phase Ready (set_box (acknowledge_storage (r_txn_id r) (box (native c))) (native c))) c), None))
  \/ (sock c ≠ None
      /\ (phase (native c) = Ready -> r_acknowledged r = true -> validate_highwater (r_txn_id r) (native c) ≠ Accepted)
      /\ exists f s, accept_result r g c = (record_session_failure f (set_native s c), sock c)
         /\ ((s = native c /\ phase s ≠ RecoveryRequired)
             \/ exists id d, s = enter_recovery id d (native c) /\ (d = RecoverableConflict -> f_txn_id f = id))).
Proof.
  intros [Hq _]. unfold accept_result. destruct (sock c) as [k|] eqn:Ek; [|left; split; [done|by left]].
  assert (phase (native c) ≠ RecoveryRequired) as Hnr by (intros H; by apply Hq in H).
  case_bool_decide as Hg; [left; split; [done|tauto]|].
  assert (forall R, require_phase g R (native c) = (if bool_decide (g ≠ generation (native c)) then StaleGeneration
            else if bool_decide (phase (native c) = R) then Accepted else InvalidPhase)) as Hrp.
  { intros R. unfold require_phase. case_bool_decide; [done|]. by rewrite (bool_decide_false _ Hnr). }
  destruct (r_acknowledged r) eqn:Ea; unfold on_native.
  - unfold acknowledge_through, guarded. rewrite Hrp. case_bool_decide as Hgen.
    { left. split; [by destruct c|tauto]. }
    case_bool_decide as Hp.
    + destruct (highwater_cases (r_txn_id r) (native c)) as [[Hv E] | (a & Hv & Ha & E)]; rewrite E.
      * right; left. split_and!; try done. by eexists.
      * right; right. split_and!; [done|by intros _ _; rewrite Hv; destruct Ha as [-> | ->]|].
        destruct Ha as [-> | ->]; (eexists _, _; split; [cbn [sock set_native]; by rewrite Ek|]; right; by eexists _, _).
    + right; right. split_and!; [done|done|]. eexists _, _. split; [cbn [sock set_native]; by rewrite Ek|]. by left.
  - unfold reject, guarded. rewrite Hrp. case_bool_decide as Hgen.
    { left. split; [by destruct c|tauto]. }
    right; right. split_and!; [done|done|].
    case_bool_decide as Hp; [destruct (contains (r_txn_id r) (box (native c)))|];
      (eexists _, _; split; [cbn [sock set_native]; by rewrite Ek|]); [right; by eexists _, _..|by left].
Qed.

Lemma quarantine_read m g c : quarantine_ok c -> quarantine_ok (read_result g m c).1.
Proof.
  intros H. unfold read_result. destruct m as [| | |r| |]; try done; [|case_bool_decide; [by apply quarantine_close|done]].
  destruct (accept_result_cases r g c H) as [[-> _]|[(_ & _ & _ & _ & _ & _ & k & ->)|(Hs & _ & f & s & -> & Hc)]]; [done|by split|].
  destruct (sock c) as [k|] eqn:Ek; [|done]. simpl. unfold close. simpl. rewrite Ek.
  rewrite bool_decide_true by by right.
  apply (quarantine_disconnect _ (set_sock None (record_session_failure f (set_native s c)))).
  destruct Hc as [[-> Hp]|(id & d & -> & Hd)]; split; simpl; try done. intros _ Hdd. exists f. split; [done|]. by apply Hd.
Qed.

Section protocol_proofs.
Context (validate_events : list event -> LayerMode -> result unit).
Context (client_id : string).

Lemma send_events_spec events layer c c' out :
  send_events validate_events events layer c = (c', Ok (true, out)) ->
  exists g, let id := next_id (box (native c)) in let t := make_txn events layer id in
  sock c = Some g /\ failed c = None /\ phase (native c) = Ready
  /\ c' = set_native (set_box (append_storage id t (Z.of_nat (length events)) layer (box (native c))) (native c)) c
  /\ out = (if background_send c then None else Some (g, t)).
Proof.
  unfold send_events. case_bool_decide; [done|]. destruct (validate_events _ _); [|done].
  destruct (sock c) as [g|] eqn:Eg; [|done]. destruct (failed c) eqn:Ef; [done|].
  destruct (negb (session_can_append (native c))); [done|]. unfold on_native, append_session.
  destruct (Z.of_nat (length events) =? 0); [done|]. unfold guarded.
  destruct (require_phase _ _ _) eqn:Er; [|done..]. destruct (negb (can_append_storage _)); [done|].
  case_bool_decide; [done|]. intros [= <- <-]. apply require_phase_Accepted in Er as (_ & Hp & _).
  exists g. by split_and!.
Qed.

Lemma client_ok_send vs n events layer c c' out : next_id (box (native c)) < 2 ^ 64 - 1 ->
  send_events validate_events events layer c = (c', Ok (true, out)) -> client_ok vs n (native c) ->
  client_ok (vs ++ [[make_txn events layer (next_id (box (native c)))]]) n (native c')
  /\ submitted (vs ++ [[make_txn events layer (next_id (box (native c)))]]) (make_txn events layer (next_id (box (native c)))).
Proof.
  intros Hn (g & _ & _ & Hp & -> & _)%send_events_spec H. destruct H as [Hs Hv Hl Hq].
  set (t := make_txn events layer (next_id (box (native c)))).
  pose proof (so_box _ Hs) as Hb. pose proof (ok_acked _ Hb). pose proof (ok_next _ Hb).
  assert (submitted (vs ++ [[t]]) t) as Ht.
  { split; simpl; [lia|]. exists [t]. split; [|set_solver].
    replace (Z.to_nat (next_id (box (native c)) - 1)) with (length vs) by lia. by rewrite list_lookup_middle. }
  split; [|done]. split; simpl.
  - split; simpl; [by apply append_ok|done|by rewrite Hp].
  - rewrite length_app, u64_small by lia. simpl. lia.
  - done.
  - apply Forall_app; split; [|apply Forall_singleton; by split]. eapply Forall_impl; [exact Hq|]. intros e He.
    apply (entry_ok_mono vs); [done|]. apply versions_snoc.
Qed.

(** A repair replaces the rejected transaction under its own id, or changes
    nothing but the connection. *)
Lemma repair_cases events layer c c' r : quarantine_ok c ->
  repair_rejected_transaction validate_events events layer c = Some (c', r) ->
  (exists e, r = Err e /\ (c' = c \/ c' = close None c))
  \/ (exists o f, r = Ok (f_txn_id f) /\ phase (native c) = RecoveryRequired
      /\ replace_storage (f_txn_id f) (make_txn events layer (f_txn_id f)) (Z.of_nat (length events)) layer (box (native c)) = Some o
      /\ c' = set_failure None None (set_native (mk_session o Disconnected NoDisposition (generation (native c)) 0) c)).
Proof.
  intros Hq. unfold repair_rejected_transaction. case_bool_decide; [by intros [= <- <-]; left; eexists; split; [done|by left]|].
  destruct (validate_events _ _); [|by intros [= <- <-]; left; eexists; split; [done|by left]].
  destruct (failed c) as [f|] eqn:Ef; [|by intros [= <- <-]; left; eexists; split; [done|by left]].
  case_bool_decide; [by intros [= <- <-]; left; eexists; split; [done|by left]|].
  intros ([s res] & Hrep & Hr)%bind_Some. unfold repair_rejected_session in Hrep.
  assert (forall k, set_native (native k) k = k) as Hid by (by intros []).
  destruct (Z.of_nat (length events) =? 0).
  { injection Hrep as <- <-. injection Hr as <- <-. left. eexists. split; [done|]. right. apply Hid. }
  case_bool_decide as K1.
  { injection Hrep as <- <-. injection Hr as <- <-. left. eexists. split; [done|]. right. apply Hid. }
  case_bool_decide as K2.
  { injection Hrep as <- <-. injection Hr as <- <-. left. eexists. split; [done|]. right. apply Hid. }
  apply bind_Some in Hrep as (o & Ho & [= <- <-]). injection Hr as <- <-. right.
  destruct Hq as [Hq1 Hq2].
  assert (native (close None c) = (disconnect_session (socket_generation c) (native c)).1 \/ close None c = c) as Hcl.
  { unfold close. destruct (sock c); [|by right]. rewrite bool_decide_true by by left. by left. }
  assert (phase (native c) = RecoveryRequired) as Hp.
  { destruct Hcl as [Hcl|Hcl]; rewrite Hcl in K1.
    - destruct (disconnect_cases (socket_generation c) (native c)) as [Hd|Hd]; rewrite Hd in K1; [done|].
      simpl in K1. by case_bool_decide.
    - done. }
  assert (close None c = c) as Hcc by (unfold close; by rewrite Hq1).
  rewrite Hcc in K1, K2, Ho |- *. destruct (Hq2 Hp K2) as (f' & Hf' & Hid'). rewrite Ef in Hf'. injection Hf' as <-.
  exists o, f. rewrite <-Hid' in Ho. by split_and!.
Qed.

Lemma client_ok_repair vs n events layer c c' r : quarantine_ok c ->
  repair_rejected_transaction validate_events events layer c = Some (c', r) -> client_ok vs n (native c) ->
  match r with
  | Ok id => client_ok (alter (fun v => v ++ [make_txn events layer id]) (Z.to_nat (id - 1)) vs) n (native c')
  | Err _ => client_ok vs n (native c')
  end.
Proof.
  intros Hq Hr H. destruct (repair_cases _ _ _ _ _ Hq Hr) as [(e & -> & [-> | ->])|(o & f & -> & Hp & Ho & ->)];
    [done|by apply client_ok_close|].
  destruct H as [Hs Hv Hl Hqu]. pose proof (so_box _ Hs) as Hb.
  destruct (replace_ok _ _ _ _ _ _ Hb Ho) as [Hok (i & e & Hi & He & Hqo & Hno & Hlo & Hun)].
  set (t := make_txn events layer (f_txn_id f)) in *.
  pose proof (outbox_lookup _ _ _ Hb Hi) as Hid. pose proof (ok_acked _ Hb). pose proof (outbox_length _ Hb).
  pose proof (lookup_lt_Some _ _ _ Hi).
  split; simpl.
  - split; simpl; [done| |done]. intros _. rewrite Hun. apply (so_unsent _ Hs). by rewrite Hp.
  - by rewrite length_alter, Hno.
  - by rewrite Hlo.
  - rewrite Hqo. apply Forall_insert.
    + eapply Forall_impl; [exact Hqu|]. intros x Hx. apply (entry_ok_mono vs); [done|]. apply versions_alter.
    + split; [done|]. split; simpl; [lia|]. destruct (lookup_lt_is_Some_2 vs (Z.to_nat (f_txn_id f - 1))) as [v Hvl]; [lia|].
      rewrite list_lookup_alter_eq, Hvl. simpl. eexists. split; [done|set_solver].
Qed.

Lemma quarantine_repair events layer c c' r : quarantine_ok c ->
  repair_rejected_transaction validate_events events layer c = Some (c', r) -> quarantine_ok c'.
Proof.
  intros Hq Hr. destruct (repair_cases _ _ _ _ _ Hq Hr) as [(e & _ & [-> | ->])|(o & f & _ & _ & _ & ->)]; [done| |by split].
  by apply quarantine_close.
Qed.

Lemma replay_one_native g c c' r : replay_one g c = (c', r) ->
  c' = set_native (claim_next_unsent g (native c)).1 c
  /\ (forall t, r = Ok (Some t) -> exists e, claim_storage (box (native c)) = Some (e, set_next_unsent (S (next_unsent (box (native c)))) (box (native c)))
        /\ queue (box (native c)) !! next_unsent (box (native c)) = Some e /\ t = payload e /\ generation (native c) = g /\ phase (native c) = Ready
        /\ c' = set_native (set_box (set_next_unsent (S (next_unsent (box (native c)))) (box (native c))) (native c)) c)
  /\ (r = Ok None -> c' = c /\ generation (native c) = g /\ phase (native c) = Ready /\ queue (box (native c)) !! next_unsent (box (native c)) = None).
Proof.
  unfold replay_one, claim_next_unsent, claim_storage.
  destruct (require_phase g Ready (native c)) eqn:E; [|by intros [= <- <-]..].
  apply require_phase_Accepted in E as (Hg & Hp & _).
  destruct (queue (box (native c)) !! next_unsent (box (native c))) as [e|] eqn:Eq; simpl; intros [= <- <-].
  - split_and!; [done| |done]. intros t [= <-]. by exists e.
  - split_and!; [done|done|]. intros _. split_and!; try done. by destruct c.
Qed.

(** *** The system *)

Record protocol_ok (w : system) : Prop := {
  p_client : client_ok (sys_versions w) (sys_progress w) (native (sys_client w));
  p_quarantine : quarantine_ok (sys_client w);
  p_connecting g : sys_connecting w = Some g -> sock (sys_client w) = None
                   /\ phase (native (sys_client w)) = AwaitingHello /\ generation (native (sys_client w)) = g;
  p_log : log_ok (sys_versions w) (sys_log w);
  p_len : (length (sys_log w) <= length (sys_versions w))%nat;
  p_links : map_Forall (fun _ => link_ok (sys_versions w) (sys_progress w)) (sys_links w);
}.

Lemma link_ok_push vs n ms l : link_ok vs n l -> Forall (message_ok n) ms -> link_ok vs n (push ms l).
Proof. intros [H1 H2 H3] Hm. unfold push. destruct (up l); [|by split]. split; simpl; [done..|]. by apply Forall_app. Qed.
Lemma link_ok_write vs n t l : link_ok vs n l -> submitted vs t -> link_ok vs n (write t l).
Proof.
  intros [H1 H2 H3] Hm. unfold write. destruct (up l); [|by split]. split; simpl; [|done..].
  apply Forall_app. split; [done|by apply Forall_singleton].
Qed.

Lemma protocol_ok_client w c : protocol_ok w -> client_ok (sys_versions w) (sys_progress w) (native c) ->
  quarantine_ok c -> (forall g, sys_connecting w = Some g -> sock c = None /\ phase (native c) = AwaitingHello /\ generation (native c) = g) ->
  protocol_ok (set_client c w).
Proof. intros [] ? ? ?. by split. Qed.

Lemma protocol_ok_link w g l : protocol_ok w -> link_ok (sys_versions w) (sys_progress w) l -> protocol_ok (set_link g l w).
Proof. intros [] ?. split; try done. simpl. by apply map_Forall_insert_2. Qed.

Lemma protocol_ok_replaying b w : protocol_ok w -> protocol_ok (set_replaying b w).
Proof. intros []. by split. Qed.

Lemma connecting_read g m c : sock c = None -> read_result g m c = (c, (read_result g m c).2).
Proof.
  intros Hs. unfold read_result, accept_result. destruct m as [| | |r| |]; rewrite ?Hs; try done.
  by rewrite bool_decide_false by (by intros [_ ?]).
Qed.

Lemma client_step_ok w w' : protocol_ok w -> client_step validate_events w w' -> protocol_ok w'.
Proof.
  intros H Hstep. pose proof H as [Hc Hq Hk Hl Hn Hm].
  destruct Hstep as [w g c Hcon Hnew Hb|w g Hcon|w g l m ms c ok Hcon Hg Hs Hf|w g l c t Hsk Hg Hact Hr
    |w g c Hsk Hbg Hrp Hr|w events layer c out Hbg Hn64 Hsend|w k|w g l m ms c b Hcon Hg Hs Hr|w events layer c r Hr].
  - unfold connect_begin in Hb. destruct (sock (sys_client w)) eqn:Es; [done|].
    apply bind_Some in Hb as ([g' n] & Hb & [= <- <-]). pose proof (begin_connection_ok _ _ _ (c_session _ _ _ Hc) Hb) as [Hok Hp].
    assert (generation n = g') as Hgn by (revert Hb; unfold begin_connection; case_bool_decide; [done|]; by intros [= <- <-]).
    apply protocol_ok_link; [|by repeat constructor]. split; simpl; try done.
    + eapply client_ok_core; [done|done|by eapply core_begin].
    + split; simpl; [done|by rewrite Hp].
    + by intros g [= <-].
  - apply (protocol_ok_client (set_connecting None w)); simpl; [by split| | |done].
    + unfold abandon_attempt. by apply client_ok_disconnect.
    + by apply quarantine_disconnect.
  - destruct (Hk g Hcon) as (Hsk & Hp & Hgen). pose proof (map_Forall_lookup_1 _ _ _ _ Hm Hg) as [L1 L2 L3]. rewrite Hs in L3.
    apply Forall_cons in L3 as [Hmok L3].
    pose proof (client_ok_finish _ _ g m (sys_client w) Hmok Hc) as Hfc. pose proof (quarantine_finish g m (sys_client w) Hp Hgen Hsk) as Hfq.
    rewrite Hf in Hfc, Hfq. cbn [fst] in *. apply protocol_ok_replaying, protocol_ok_link; [by split|by split].
  - destruct (replay_one_native _ _ _ _ Hr) as (_ & Hcl & _). destruct (Hcl t eq_refl) as (e & _ & He & -> & Hgen & Hp & Heq).
    apply (protocol_ok_link (set_client c w)).
    + apply protocol_ok_client; [done| | |].
      * pose proof (client_ok_core _ _ _ (claim_next_unsent g (native (sys_client w))).1 Hc (claim_ok _ _ (c_session _ _ _ Hc)) (core_claim _ _)) as Hx.
        destruct (replay_one_native _ _ _ _ Hr) as (Hcn & _). rewrite Hcn. exact Hx.
      * rewrite Heq. split; simpl; by rewrite Hp.
      * intros g' Hg'. by destruct (Hk g' Hg') as (Hno & _); rewrite Hno in Hsk.
    + apply link_ok_write; [by apply (map_Forall_lookup_1 _ _ _ _ Hm Hg)|].
      pose proof (Forall_lookup_1 _ _ _ _ (c_queue _ _ _ Hc) He) as [_ Hsub]. exact Hsub.
  - destruct (replay_one_native _ _ _ _ Hr) as (_ & _ & Hno). destruct (Hno eq_refl) as [-> _]. by split.
  - destruct (client_ok_send _ _ _ _ _ _ _ Hn64 Hsend Hc) as [Hc' Hsub].
    destruct (send_events_spec _ _ _ _ _ Hsend) as (g & Hsk & _ & Hp & Heq & Hout). set (t := make_txn _ _ _) in *.
    assert (protocol_ok (set_versions (sys_versions w ++ [[t]]) (set_client c w))) as Hw.
    { split; simpl; [done| | | | |].
      - rewrite Heq. split; simpl; by rewrite Hp.
      - intros g' Hg'. by destruct (Hk g' Hg') as (Hno & _); rewrite Hno in Hsk.
      - apply (log_ok_mono (sys_versions w)); [done|apply versions_snoc].
      - rewrite length_app. lia.
      - eapply map_Forall_impl; [exact Hm|]. intros i x Hx. apply (link_ok_mono (sys_versions w) _ (sys_progress w)); [exact Hx|apply Z.le_refl|apply versions_snoc]. }
    rewrite Hout. destruct (background_send (sys_client w)); [done|]. destruct (sys_links w !! g) as [l|] eqn:Eg; [|done].
    apply protocol_ok_link; [done|]. apply link_ok_write; [|done]. apply (p_links _ Hw g l). exact Eg.
  - apply protocol_ok_client; [done|by apply client_ok_close|by apply quarantine_close|].
    intros g Hg. destruct (Hk g Hg) as (Hsk & ? & ?). unfold close. by rewrite Hsk.
  - pose proof (map_Forall_lookup_1 _ _ _ _ Hm Hg) as [L1 L2 L3]. rewrite Hs in L3. apply Forall_cons in L3 as [Hmok L3].
    pose proof (client_ok_read _ _ m g (sys_client w) Hmok Hc) as Hrc. pose proof (quarantine_read m g (sys_client w) Hq) as Hrq.
    rewrite Hr in Hrc, Hrq. simpl in *. apply (protocol_ok_link (set_client c w)); [|by split].
    apply protocol_ok_client; [done..|]. intros g' Hg'. destruct (Hk g' Hg') as (Hsk & ? & ?).
    pose proof (connecting_read g m _ Hsk) as Hno. rewrite Hr in Hno. by injection Hno as ->.
  - pose proof (client_ok_repair _ _ _ _ _ _ _ Hq Hr Hc) as Hc'. pose proof (quarantine_repair _ _ _ _ _ Hq Hr) as Hq'.
    assert (forall g, sys_connecting w = Some g -> sock c = None /\ phase (native c) = AwaitingHello /\ generation (native c) = g) as Hk'.
    { intros g Hg. destruct (Hk g Hg) as (Hsk & Hp & Hgen). destruct (repair_cases _ _ _ _ _ Hq Hr) as [(e & _ & [-> | ->])|(o & f & _ & Hp' & _)];
        [done|unfold close; by rewrite Hsk|]. by rewrite Hp in Hp'. }
    destruct r as [id|e]; [|by apply protocol_ok_client]. split; simpl; [done..| | |].
    + apply (log_ok_mono (sys_versions w)); [done|apply versions_alter].
    + by rewrite length_alter.
    + eapply map_Forall_impl; [exact Hm|]. intros i x Hx. apply (link_ok_mono (sys_versions w) _ (sys_progress w)); [exact Hx|apply Z.le_refl|apply versions_alter].
Qed.

Lemma protocol_ok_log w t : protocol_ok w -> submitted (sys_versions w) t -> t_txn_id t = sys_progress w + 1 ->
  protocol_ok (log_txn t w) /\ sys_progress (log_txn t w) = sys_progress w + 1.
Proof.
  intros [H1 H2 H3 H4 H5 H6] Ht Hid. unfold sys_progress in *.
  assert (sys_progress (log_txn t w) = sys_progress w + 1) as Hp by (unfold sys_progress; simpl; rewrite length_app; simpl; lia).
  unfold sys_progress in Hp. split; [|exact Hp]. split; simpl; try done.
  - destruct H1 as [C1 C2 C3 C4]. split; try done. unfold sys_progress. simpl in *. lia.
  - intros i t' [Hi|[Hge Hi]]%lookup_app_Some; [by apply H4|]. apply list_lookup_singleton_Some in Hi as [Hi <-]. split; [lia|done].
  - destruct Ht as (_ & v & Hv%lookup_lt_Some & _). rewrite length_app. simpl. lia.
  - eapply map_Forall_impl; [exact H6|]. intros i x Hx. eapply link_ok_mono; [exact Hx| |by intros j v ?; exists v].
    unfold sys_progress. simpl in *. lia.
Qed.

Lemma batch_replies_subset rs r : r ∈ batch_replies rs -> r ∈ rs.
Proof.
  unfold batch_replies. assert (forall acc, r ∈ foldl push_reply acc rs -> r ∈ acc ++ rs) as H; [|intros ?%H; done].
  induction rs as [|x rs IH]; intros acc; simpl; [by rewrite app_nil_r|]. intros Hr%IH.
  apply elem_of_app in Hr as [Hr|Hr]; [|set_solver]. unfold push_reply in Hr. destruct (last acc) as [y|] eqn:El; [|set_solver].
  destruct (_ && _); [|set_solver]. apply last_Some in El as [l ->]. rewrite removelast_last in Hr. set_solver.
Qed.

Lemma serve_cases w t o n : serve (request_of client_id w t) (sys_progress w) o n ->
  (n = sys_progress w /\ forall ck r, resolve_transaction_reply (t_txn_id t) ck o = Ok r -> result_ok (sys_progress w) r)
  \/ (n = sys_progress w + 1 /\ t_txn_id t = n /\ exists c, o = Done c /\ tc_txn_id c = n).
Proof.
  assert (forall id e r ck, resolve_transaction_reply id ck (Failed e) = Ok r -> r_acknowledged r = false) as Hfail.
  { intros id e r ck. simpl. destruct (is_rejection e); [|done]. intros [= <-]. by destruct e. }
  intros [o' Hk|c Hk Hst Hc|e Hk].
  - left. split; [done|]. unfold check_transaction_id in Hk. case_bool_decide.
    + injection Hk as <-. intros ck r [= <-] _. simpl. lia.
    + case_bool_decide; [|done]. injection Hk as <-. intros ck r Hr. intros Ha. by rewrite (Hfail _ _ _ _ Hr) in Ha.
  - right. pose proof (check_admits _ _ Hk) as Hn. simpl in *. split_and!; [done|lia|]. exists c. split; [done|]. lia.
  - left. split; [done|]. intros ck r Hr Ha. by rewrite (Hfail _ _ _ _ Hr) in Ha.
Qed.

Lemma server_step_ok faulty w w' : protocol_ok w -> server_step client_id faulty w w' -> protocol_ok w'.
Proof.
  intros H Hstep.
  assert (forall g l, sys_links w !! g = Some l -> link_ok (sys_versions w) (sys_progress w) l) as Hm by apply (p_links _ H).
  destruct Hstep as [w g l i sh Hg Hgr|w g l m Hmm Hg Hgr|w g l t ts Hg _ Hts|w g l t ts o n ck r Hg _ Hts Hsv _ Hr
    |w g l t ts e _ He Hg _ Hts|w g l rs rest Hg _ Hrs Hne|w g l i j Hg]; pose proof (Hm _ _ Hg) as HL; pose proof HL as [L1 L2 L3].
  - apply protocol_ok_link; [done|]. assert (link_ok (sys_versions w) (sys_progress w) (push [HelloOk (mk_hello_ok (sys_progress w) i sh)] l)) as []
      by (apply link_ok_push; [done|]; apply Forall_singleton; simpl; lia). by split.
  - apply protocol_ok_link; [done|]. assert (link_ok (sys_versions w) (sys_progress w) (push [m] l)) as []
      by (apply link_ok_push; [done|]; apply Forall_singleton; by destruct Hmm as [-> | ->]). by split.
  - rewrite Hts in L1. apply Forall_cons in L1 as [_ L1]. apply protocol_ok_link; [done|]. apply link_ok_push; [by split|by apply Forall_singleton].
  - rewrite Hts in L1. apply Forall_cons in L1 as [Ht L1]. destruct (serve_cases _ _ _ _ Hsv) as [[-> Hres]|(-> & Hid & c & -> & Hc)].
    + rewrite Z.eqb_refl. apply protocol_ok_link; [done|]. split; simpl; [done| |done].
      apply Forall_app. split; [done|]. apply Forall_singleton. by apply (Hres ck).
    + replace (sys_progress w + 1 =? sys_progress w) with false by (symmetry; apply Z.eqb_neq; lia).
      destruct (protocol_ok_log w t H Ht Hid) as [Hl Hp]. apply protocol_ok_link; [done|]. simpl in Hr. injection Hr as <-.
      assert (link_ok (sys_versions w) (sys_progress (log_txn t w)) l) as [K1 K2 K3]
        by (eapply link_ok_mono; [exact HL|lia|by intros j v ?; exists v]).
      split; simpl; [done| |done]. apply Forall_app. split; [done|]. apply Forall_singleton. intros _. simpl. lia.
  - rewrite Hts in L1. apply Forall_cons in L1 as [Ht L1]. apply protocol_ok_link; [done|]. split; simpl; [done| |done].
    apply Forall_app. split; [done|]. apply Forall_singleton. by destruct e.
  - rewrite Hrs in L2. apply Forall_app in L2 as [L2 L2']. apply protocol_ok_link; [done|]. apply link_ok_push; [by split|].
    apply Forall_fmap, Forall_forall. intros r Hr. rewrite Forall_forall in L2. by apply L2, batch_replies_subset.
  - apply protocol_ok_link; [done|]. split; simpl; [by apply Forall_take|done|by apply Forall_take].
Qed.

Lemma protocol_init_ok cap sid mode background : protocol_ok (system_init cap sid mode background).
Proof.
  split; [|by split|done|by intros i t Ht|done|apply map_Forall_empty].
  split; [|done|done|constructor]. split; [apply outbox_init_ok|done|done].
Qed.

Lemma protocol_invariant faulty w : protocol_reachable validate_events client_id faulty w -> protocol_ok w.
Proof.
  intros (cap & sid & mode & bg & Hr). pose proof (protocol_init_ok cap sid mode bg) as H0. revert H0.
  induction Hr as [|w1 w2 w3 [Hs|Hs] _ IH]; [done|intros H; apply IH; by eapply client_step_ok|intros H; apply IH; by eapply server_step_ok].
Qed.

Lemma log_is_prefix vs log : log_ok vs log -> Forall (fun v => length v = 1%nat) vs ->
  (length log <= length vs)%nat -> log = take (length log) (concat vs).
Proof.
  intros Hl H1 Hlen. assert (forall vs', Forall (fun v : list txn => length v = 1%nat) vs' -> forall i v t, vs' !! i = Some v -> t ∈ v -> concat vs' !! i = Some t) as Hc.
  { induction 1 as [|v vs' Hv Hvs IH]; intros i v' t; [done|]. destruct v as [|x [|]]; try done. destruct i as [|i]; simpl; [|apply IH].
    by intros [= <-] ->%list_elem_of_singleton. }
  apply list_eq. intros i. destruct (decide (i < length log)%nat) as [Hi|Hi].
  - rewrite lookup_take_lt by done. destruct (lookup_lt_is_Some_2 log i Hi) as [t Ht]. rewrite Ht. symmetry.
    destruct (Hl i t Ht) as [Hid (_ & v & Hv & Hin)]. replace (Z.to_nat (t_txn_id t - 1)) with i in Hv by lia. by eapply Hc.
  - rewrite lookup_ge_None_2 by lia. by rewrite lookup_take_ge by lia.
Qed.

(** C1: exactly once, end to end: however connections are cut, duplicated and
    re-established, and whatever the server refuses, the durable log of a
    producer session holds ids 1, 2, ... in order, each with one version of what
    the client submitted under that id; every acknowledged transaction is in it;
    every other one is still in the outbox, in order, so nothing submitted is
    lost; without repairs the log is a prefix of the submissions, and when
    [flush] returns [True] it is all of them. *)
Theorem producer_exactly_once faulty w :
  protocol_reachable validate_events client_id faulty w ->
  let o := box (native (sys_client w)) in
  (forall i t, sys_log w !! i = Some t -> t_txn_id t = Z.of_nat i + 1 /\ exists v, sys_versions w !! i = Some v /\ t ∈ v)
  /\ last_acked o <= Z.of_nat (length (sys_log w)) <= Z.of_nat (length (sys_versions w))
  /\ map transaction_id (queue o) = seqZ (last_acked o + 1) (Z.of_nat (length (sys_versions w)) - last_acked o)
  /\ Forall (fun e => exists v, sys_versions w !! Z.to_nat (transaction_id e - 1) = Some v /\ payload e ∈ v) (queue o)
  /\ (Forall (fun v => length v = 1%nat) (sys_versions w) -> sys_log w = take (length (sys_log w)) (concat (sys_versions w)))
  /\ (flush_check (sys_client w) = Some (Ok true) -> length (sys_log w) = length (sys_versions w)).
Proof.
  intros H o. destruct (protocol_invariant _ _ H) as [[Hs Hv Ha Hq] _ _ Hl Hn _]. pose proof (so_box _ Hs) as Hb.
  unfold sys_progress in Ha. fold o in Hv, Ha, Hq, Hb. split_and!.
  - intros i t Ht. destruct (Hl i t Ht) as [Hid (_ & v & Hvi & Hin)]. split; [done|]. exists v.
    by replace (Z.to_nat (t_txn_id t - 1)) with i in Hvi by lia.
  - done.
  - lia.
  - rewrite (ok_ids o Hb). f_equal. lia.
  - eapply Forall_impl; [exact Hq|]. intros e [He (_ & v & Hvi & Hin)]. rewrite He in Hvi. by exists v.
  - intros H1. by apply (log_is_prefix (sys_versions w)).
  - unfold flush_check. destruct (failed (sys_client w)); [done|]. unfold session_empty. fold o.
    case_bool_decide as He; [|done]. intros _. pose proof (outbox_length o Hb) as Hlen. rewrite He in Hlen. simpl in Hlen. lia.
Qed.
End protocol_proofs.

(** ** Without failures nothing is refused *)

(** The acknowledgements of a stream from [lo] on: they never go back, and
    nothing is refused before a [RateLimited] ends the stream. *)
Fixpoint good (lo : Z) (ms : list server_message) : Prop :=
  match ms with
  | [] => True
  | HelloOk h :: ms => lo <= h_committed_through h /\ good (h_committed_through h) ms
  | TransactionResult r :: ms => r_acknowledged r = true /\ lo <= r_txn_id r /\ good (r_txn_id r) ms
  | RateLimited :: _ => True
  | _ :: ms => good lo ms
  end.
Fixpoint top (lo : Z) (ms : list server_message) : Z :=
  match ms with
  | [] => lo
  | HelloOk h :: ms => top (h_committed_through h) ms
  | TransactionResult r :: ms => top (r_txn_id r) ms
  | RateLimited :: _ => lo
  | _ :: ms => top lo ms
  end.

Lemma list_elem_of_take {A} (x : A) j l : x ∈ take j l -> x ∈ l.
Proof. intros (i & ? & _)%elem_of_take. by eapply list_elem_of_lookup_2. Qed.

Lemma good_app lo a b : RateLimited ∉ a -> (good lo (a ++ b) <-> good lo a /\ good (top lo a) b)
  /\ top lo (a ++ b) = top (top lo a) b.
Proof.
  revert lo; induction a as [|m a IH]; intros lo Hn; [by split; [split; [done|intros []]|]|].
  apply not_elem_of_cons in Hn as [Hm Hn]. destruct m as [h| | |r| |]; simpl; try done.
  - destruct (IH (h_committed_through h) Hn) as [-> ->]. tauto.
  - by apply IH.
  - by apply IH.
  - destruct (IH (r_txn_id r) Hn) as [-> ->]. tauto.
  - by apply IH.
Qed.
Lemma good_limited lo a b : RateLimited ∈ a -> good lo a -> good lo (a ++ b).
Proof.
  revert lo; induction a as [|m a IH]; intros lo Hin; [by apply not_elem_of_nil in Hin|].
  destruct m as [h| | |r| |]; simpl; try done;
    (apply elem_of_cons in Hin as [?|Hin]; [done|]); intros; destruct_and?; split_and?; auto.
Qed.
Lemma good_prefix lo a b : good lo (a ++ b) -> good lo a.
Proof.
  revert lo; induction a as [|m a IH]; intros lo; [done|].
  destruct m as [h| | |r| |]; simpl; try done; intros; destruct_and?; split_and?; eauto.
Qed.
Lemma good_top lo ms : good lo ms -> lo <= top lo ms.
Proof.
  revert lo; induction ms as [|m ms IH]; intros lo; [by simpl; lia|].
  destruct m as [h| | |r| |]; simpl; try (by intros; apply IH); try lia.
  - intros [H1 H2%IH]. lia.
  - intros (_ & H1 & H2%IH). lia.
Qed.
Lemma top_le lo ms n : lo <= n -> good lo ms -> Forall (message_ok n) ms -> top lo ms <= n.
Proof.
  revert lo; induction ms as [|m ms IH]; intros lo Hlo; [done|]. intros Hg [Hm Hms]%Forall_cons. revert Hg Hm.
  destruct m as [h| | |r| |]; simpl; try (by intros; apply IH); try done.
  - intros [_ H2] H3. by apply IH.
  - intros (Ha & _ & H2) H3. apply IH; [by apply H3|done|done].
Qed.

(** Ids that follow each other, or are committed already. *)
Fixpoint admissible (n : Z) (ts : list txn) : Prop :=
  match ts with
  | [] => True
  | t :: ts => t_txn_id t <= n + 1 /\ admissible (Z.max n (t_txn_id t)) ts
  end.
Definition reach (n : Z) (ts : list txn) : Z := foldl (fun m t => Z.max m (t_txn_id t)) n ts.

Lemma reach_mono n n' ts : n <= n' -> reach n ts <= reach n' ts.
Proof. unfold reach. revert n n'; induction ts as [|t ts IH]; intros n n' H; simpl; [done|]. apply IH. lia. Qed.
Lemma admissible_mono n n' ts : n <= n' -> admissible n ts -> admissible n' ts.
Proof.
  revert n n'; induction ts as [|t ts IH]; intros n n' H; simpl; [done|]. intros [H1 H2]. split; [lia|].
  eapply IH; [|exact H2]. lia.
Qed.
Lemma admissible_snoc n ts t : admissible n ts -> t_txn_id t <= reach n ts + 1 -> admissible n (ts ++ [t]).
Proof.
  unfold reach. revert n; induction ts as [|x ts IH]; intros n; simpl; [by intros _ ?|]. intros [H1 H2] H3. split; [done|by apply IH].
Qed.
Lemma reach_cons n t ts : reach n (t :: ts) = reach (Z.max n (t_txn_id t)) ts.
Proof. done. Qed.
Lemma reach_snoc n ts t : reach n (ts ++ [t]) = Z.max (reach n ts) (t_txn_id t).
Proof. unfold reach. by rewrite foldl_app. Qed.

Definition no_hello (ms : list server_message) : Prop := forall h, HelloOk h ∉ ms.

(** The connection in use: [ready] once the handshake is over, [lo] what the
    client knows to be durable, [nw] the next id it writes. *)
Record link_live (ready : bool) (lo n nw : Z) (l : link) : Prop := {
  ll_greeted : if ready then greeted l = true /\ no_hello (s2c l)
               else (greeted l = false -> s2c l = [] /\ resolved l = []) /\ no_hello (tail (s2c l));
  ll_good : good lo (s2c l);
  ll_up : up l = true -> RateLimited ∉ s2c l ->
          good lo (s2c l ++ (TransactionResult <$> resolved l))
          /\ admissible n (c2s l) /\ nw <= reach (top lo (s2c l ++ (TransactionResult <$> resolved l))) (c2s l) + 1;
}.

Lemma live_mono ready lo n n' nw l : link_live ready lo n nw l -> n <= n' -> link_live ready lo n' nw l.
Proof.
  intros [H1 H2 H3] Hn. split; [done..|]. intros Hu Hl. destruct (H3 Hu Hl) as (? & ? & ?). split_and!; [done| |done].
  by apply (admissible_mono n).
Qed.

Lemma live_greet lo n nw l m ready : link_live ready lo n nw l -> greeted l = false -> lo <= n ->
  (exists i sh, m = HelloOk (mk_hello_ok n i sh)) \/ m = AuthRejected \/ m = HelloRejected ->
  link_live ready lo n nw (greet (push [m] l)).
Proof.
  intros [H1 H2 H3] Hg Hlo Hm. destruct ready; [destruct H1 as [H1 _]; congruence|].
  destruct H1 as [H1 _]. destruct (H1 Hg) as [Hs Hr].
  unfold greet, push in *. destruct (up l) eqn:Hu; split; cbn [up greeted c2s resolved s2c]; rewrite ?Hs, ?Hr in *; simpl in *.
  - split; [done|]. by intros h ?%not_elem_of_nil.
  - destruct Hm as [(i & sh & ->)|[-> | ->]]; simpl; done.
  - intros _ _. destruct (H3 eq_refl) as (_ & Ha & Hn); [by apply not_elem_of_nil|].
    destruct Hm as [(i & sh & ->)|[-> | ->]]; simpl; split_and!; try done.
    etrans; [exact Hn|]. pose proof (reach_mono lo n (c2s l) Hlo). lia.
  - split; [done|]. by intros h ?%not_elem_of_nil.
  - done.
  - by rewrite Hu.
Qed.

Lemma no_hello_app a b : no_hello a -> no_hello b -> no_hello (a ++ b).
Proof. intros Ha Hb h [?|?]%elem_of_app; [by eapply Ha|by eapply Hb]. Qed.

Lemma tail_app_ne (a b : list server_message) : no_hello b -> no_hello (tail a) -> no_hello (tail (a ++ b)).
Proof.
  intros Hb Ha. destruct a as [|x a]; simpl; [|by apply no_hello_app]. intros h Hin. apply (Hb h). destruct b; [done|by right].
Qed.

Lemma live_pushed (ready : bool) (l : link) ms : greeted l = true -> no_hello ms ->
  (if ready then greeted l = true /\ no_hello (s2c l) else (greeted l = false -> s2c l = [] /\ resolved l = []) /\ no_hello (tail (s2c l))) ->
  if ready then greeted l = true /\ no_hello (s2c l ++ ms)
  else (greeted l = false -> s2c l ++ ms = [] /\ resolved l = []) /\ no_hello (tail (s2c l ++ ms)).
Proof.
  intros Hg Hn. destruct ready; [intros [? ?]; split; [done|by apply no_hello_app]|].
  intros [_ H]. split; [by rewrite Hg|by apply tail_app_ne].
Qed.

Lemma live_limit ready lo n nw l ts : link_live ready lo n nw l -> greeted l = true ->
  link_live ready lo n nw (push [RateLimited] (set_c2s ts l)).
Proof.
  intros [H1 H2 H3] Hg. unfold push. destruct (up (set_c2s ts l)) eqn:Hu; simpl in Hu; split; simpl.
  - apply (live_pushed ready l [RateLimited]); [done|by intros h Hh; apply list_elem_of_singleton in Hh|done].
  - destruct (decide (RateLimited ∈ s2c l)); [by apply good_limited|]. by apply good_app.
  - intros _ Hn. exfalso. apply Hn. set_solver.
  - destruct ready; [done|]. destruct H1 as [_ H1]. split; [by rewrite Hg|done].
  - done.
  - by rewrite Hu.
Qed.

Lemma live_process ready lo n n' nw l t ts r : link_live ready lo n nw l -> greeted l = true -> c2s l = t :: ts ->
  n <= n' -> r_acknowledged r = true -> r_txn_id r = n' -> t_txn_id t <= n' ->
  top lo (s2c l ++ (TransactionResult <$> resolved l)) <= n ->
  link_live ready lo n' nw (set_resolved (resolved l ++ [r]) (set_c2s ts l)).
Proof.
  intros [H1 H2 H3] Hg Hts Hn Ha Hr Hid Htop. split; simpl.
  - destruct ready; [done|]. destruct H1 as [_ H1]. split; [by rewrite Hg|done].
  - done.
  - intros Hu Hl. destruct (H3 Hu Hl) as (Hgd & Had & Hnw). rewrite Hts in Had, Hnw. rewrite reach_cons in Hnw.
    rewrite fmap_app, app_assoc. assert (RateLimited ∉ s2c l ++ (TransactionResult <$> resolved l)) as Hnl.
    { intros [?|(x & ? & _)%list_elem_of_fmap]%elem_of_app; done. }
    destruct (good_app lo _ (TransactionResult <$> [r]) Hnl) as [-> ->]. simpl. rewrite Hr. split_and!; [done|done|lia|done| |].
    + eapply admissible_mono; [|apply Had]. lia.
    + etrans; [exact Hnw|]. apply Z.add_le_mono_r, reach_mono. lia.
Qed.

Lemma batch_acked rs acc : Forall (fun r => r_acknowledged r = true) acc -> Forall (fun r => r_acknowledged r = true) rs ->
  foldl push_reply acc rs = match last rs with Some r => removelast acc ++ [r] | None => acc end.
Proof.
  revert acc; induction rs as [|r rs IH]; intros acc Hacc Hrs; [done|]. apply Forall_cons in Hrs as [Hr Hrs]. simpl foldl.
  assert (push_reply acc r = removelast acc ++ [r]) as ->.
  { unfold push_reply. destruct (last acc) as [y|] eqn:El.
    - apply last_Some in El as [l ->]. apply Forall_app in Hacc as [_ [Hy _]%Forall_cons]. by rewrite Hr, Hy.
    - apply last_None in El as ->. done. }
  rewrite IH; [|apply Forall_app; split; [|by apply Forall_singleton]|done].
  - rewrite removelast_last. destruct rs as [|r' rs]; [done|]. rewrite !last_cons. by destruct (last rs).
  - destruct acc as [|x acc'] using rev_ind; [constructor|]. rewrite removelast_last. by apply Forall_app in Hacc as [? _].
Qed.

Lemma good_acked lo rs : good lo (TransactionResult <$> rs) -> Forall (fun r => r_acknowledged r = true) rs.
Proof. revert lo; induction rs as [|r rs IH]; intros lo; simpl; [done|]. intros (? & _ & ?%IH). by constructor. Qed.

Lemma good_batch lo rs : rs ≠ [] -> good lo (TransactionResult <$> rs) ->
  good lo (TransactionResult <$> batch_replies rs)
  /\ top lo (TransactionResult <$> batch_replies rs) = top lo (TransactionResult <$> rs).
Proof.
  intros Hne Hg. unfold batch_replies. rewrite batch_acked; [|done|by eapply good_acked]. simpl.
  clear -Hne Hg. revert lo Hg; induction rs as [|r rs IH]; intros lo; [done|]. simpl. intros (H1 & H2 & H3).
  destruct rs as [|r' rs]; [done|]. destruct (IH ltac:(done) _ H3) as [IH1 IH2]. rewrite last_cons.
  destruct (last (r' :: rs)) as [x|] eqn:El; [|by apply last_None in El]. simpl in *. split; [|done].
  destruct IH1 as (? & ? & _). split_and!; [done|lia|done].
Qed.

Lemma live_results ready lo n nw l rs rest : link_live ready lo n nw l -> greeted l = true -> resolved l = rs ++ rest -> rs ≠ [] ->
  link_live ready lo n nw (push (TransactionResult <$> batch_replies rs) (set_resolved rest l)).
Proof.
  intros [H1 H2 H3] Hg Hrs Hne. unfold push. destruct (up (set_resolved rest l)) eqn:Hu; simpl in Hu.
  - assert (no_hello (TransactionResult <$> batch_replies rs)) as Hnh by (by intros h (x & ? & _)%list_elem_of_fmap).
    split; simpl.
    + destruct ready; [destruct H1; split; [done|by apply no_hello_app]|]. destruct H1 as [_ H1].
      split; [by rewrite Hg|by apply tail_app_ne].
    + destruct (decide (RateLimited ∈ s2c l)) as [Hl|Hl]; [by apply good_limited|].
      apply good_app; [done|]. split; [done|]. destruct (H3 Hu Hl) as (Hgd & _). rewrite Hrs, fmap_app, app_assoc in Hgd.
      apply good_prefix in Hgd. apply good_app in Hgd as [_ Hgd]; [|done]. by apply good_batch.
    + intros _ Hl. assert (RateLimited ∉ s2c l) as Hl' by set_solver. destruct (H3 Hu Hl') as (Hgd & Had & Hnw).
      rewrite Hrs, fmap_app in Hgd, Hnw.
      destruct (good_app lo (s2c l) ((TransactionResult <$> rs) ++ (TransactionResult <$> rest)) Hl') as [E1 E2].
      rewrite E2 in Hnw. apply E1 in Hgd as [_ Hgd].
      assert (forall l' : list transaction_result, RateLimited ∉ TransactionResult <$> l') as Hnl
        by (by intros l' (x & ? & _)%list_elem_of_fmap).
      destruct (good_app (top lo (s2c l)) (TransactionResult <$> rs) (TransactionResult <$> rest) (Hnl rs)) as [E3 E4].
      rewrite E4 in Hnw. apply E3 in Hgd as [Hg1 Hg2]. destruct (good_batch _ rs Hne Hg1) as [Hb1 Hb2].
      destruct (good_app lo (s2c l ++ (TransactionResult <$> batch_replies rs)) (TransactionResult <$> rest) Hl) as [-> ->].
      destruct (good_app lo (s2c l) (TransactionResult <$> batch_replies rs) Hl') as [-> ->]. rewrite Hb2. by split_and!.
  - split; simpl; [|done|by rewrite Hu]. destruct ready; [done|]. destruct H1 as [_ H1]. split; [by rewrite Hg|done].
Qed.

Lemma live_cut ready lo n nw l i j : link_live ready lo n nw l -> link_live ready lo n nw (cut i j l).
Proof.
  intros [H1 H2 H3]. split; simpl; [|by apply (good_prefix lo (take j (s2c l)) (drop j (s2c l))); rewrite take_drop|done].
  destruct ready.
  - destruct H1 as [? H1]. split; [done|]. intros h Hh. apply (H1 h). by eapply list_elem_of_take.
  - destruct H1 as [H1 H1']. split; [intros Hg; destruct (H1 Hg) as [-> ->]; by rewrite take_nil|].
    intros h Hh. apply (H1' h). destruct (s2c l) as [|m ms], j as [|j]; simpl in *; try done; [by apply not_elem_of_nil in Hh|].
    by eapply list_elem_of_take.
Qed.

(** The connection in use and the next id the client writes on it. *)
Definition current (w : system) : option Z :=
  match sys_connecting w with Some g => Some g | None => sock (sys_client w) end.
Definition is_ready (w : system) : bool := bool_decide (sys_connecting w = None).
Definition next_write (w : system) : Z :=
  let o := box (native (sys_client w)) in
  if background_send (sys_client w) || sys_replaying w || negb (is_ready w)
  then last_acked o + 1 + Z.of_nat (next_unsent o) else next_id o.

Definition live (w : system) (g : Z) (l : link) : Prop :=
  link_live (is_ready w) (last_acked (box (native (sys_client w)))) (sys_progress w) (next_write w) l.

Record live_ok (w : system) : Prop := {
  lv_base : protocol_ok w;
  lv_failed : failed (sys_client w) = None;
  lv_phase : phase (native (sys_client w)) ≠ RecoveryRequired;
  lv_sock g : sock (sys_client w) = Some g -> sys_connecting w = None /\ generation (native (sys_client w)) = g
              /\ socket_generation (sys_client w) = g /\ phase (native (sys_client w)) = Ready;
  lv_link g : current w = Some g -> exists l, sys_links w !! g = Some l /\ live w g l;
}.

Section live_proofs.
Context (validate_events : list event -> LayerMode -> result unit).
Context (client_id : string).

(** Other connections do not matter; the one in use keeps its invariant. *)
Lemma live_ok_set_link w g l l' : live_ok w -> sys_links w !! g = Some l -> protocol_ok (set_link g l' w) ->
  (current w = Some g -> live w g l -> live w g l') -> live_ok (set_link g l' w).
Proof.
  intros [H1 H2 H3 H4 H5] Hg Hb Hl. split; try done. intros g' Hc. change (current w = Some g') in Hc.
  destruct (H5 g' Hc) as (l0 & Hl0 & Hlive). cbn [sys_links set_link]. destruct (decide (g = g')) as [<-|Hne].
  - exists l'. rewrite lookup_insert_eq. split; [done|]. rewrite Hg in Hl0. injection Hl0 as <-. by apply Hl.
  - exists l0. by rewrite lookup_insert_ne.
Qed.

Lemma live_ok_log w t : live_ok w -> protocol_ok (log_txn t w) -> live_ok (log_txn t w).
Proof.
  intros [H1 H2 H3 H4 H5] Hb. split; try done. intros g Hg. destruct (H5 g Hg) as (l & Hl & Hlive).
  exists l. split; [done|]. eapply live_mono; [exact Hlive|]. unfold sys_progress. simpl. rewrite length_app. lia.
Qed.

Lemma server_step_live w w' : live_ok w -> server_step client_id false w w' -> live_ok w'.
Proof.
  intros H Hstep. pose proof (server_step_ok _ _ _ _ (lv_base _ H) Hstep) as Hb.
  pose proof (c_acked _ _ _ (p_client _ (lv_base _ H))) as Hlo.
  destruct Hstep as [w g l i sh Hg Hgr|w g l m Hmm Hg Hgr|w g l t ts Hg Hgr Hts|w g l t ts o n ck r Hg Hgr Hts Hsv Hnf Hr
    |w g l t ts e Hf|w g l rs rest Hg Hgr Hrs Hne|w g l i j Hg]; [..|done| |].
  - apply (live_ok_set_link w g l); [done..|]. intros _ Hl. apply live_greet; [done..|]. left. by eexists _, _.
  - apply (live_ok_set_link w g l); [done..|]. intros _ Hl. apply live_greet; [done..|]. by right.
  - apply (live_ok_set_link w g l); [done..|]. intros _ Hl. by apply live_limit.
  - assert (current w = Some g -> top (last_acked (box (native (sys_client w)))) (s2c l ++ (TransactionResult <$> resolved l)) <= sys_progress w
            \/ (up l = false \/ RateLimited ∈ s2c l)) as Htop.
    { intros Hc. destruct (lv_link _ H g Hc) as (l0 & Hl0 & Hlive). rewrite Hg in Hl0. injection Hl0 as <-.
      destruct (up l) eqn:Hu; [|by right; left]. destruct (decide (RateLimited ∈ s2c l)); [by right; right|]. left.
      destruct (p_links _ (lv_base _ H) g l Hg) as [_ L2 L3]. apply top_le; [done|by apply Hlive|].
      apply Forall_app. split; [done|]. by apply Forall_fmap. }
    assert (forall n' r', sys_progress w <= n' -> r_acknowledged r' = true -> r_txn_id r' = n' -> t_txn_id t <= n' ->
            current w = Some g -> live w g l ->
            link_live (is_ready w) (last_acked (box (native (sys_client w)))) n' (next_write w)
              (set_resolved (resolved l ++ [r']) (set_c2s ts l))) as Hlive.
    { intros n' r' Hn Ha Hr' Hid Hc Hl. destruct (Htop Hc) as [Ht|Hdown]; [by eapply live_process|].
      destruct Hl as [L1 L2 L3]. split; simpl; [destruct (is_ready w); [done|]; split; [by rewrite Hgr|by apply L1]|done|].
      intros Hu Hnl. by destruct Hdown as [Hd|Hd]; [rewrite Hd in Hu|]. }
    inversion Hsv as [o' Hk|c Hk Hst Hc|e Hk]; subst.
    + rewrite Z.eqb_refl in *. apply (live_ok_set_link w g l); [done..|]. intros Hcur Hl.
      unfold check_transaction_id in Hk. case_bool_decide as Hdup.
      * injection Hk as <-. simpl in Hr. injection Hr as <-. by apply Hlive.
      * case_bool_decide as Hexp; [|done]. destruct (Htop Hcur) as [Ht|Hdown].
        -- destruct (up l) eqn:Hu; [destruct (decide (RateLimited ∈ s2c l)) as [Hl'|Hl']|].
           ++ destruct Hl as [L1 L2 L3]. split; simpl; [destruct (is_ready w); [done|]; split; [by rewrite Hgr|by apply L1]|done|].
              intros _ Hnl. by apply Hnl in Hl'.
           ++ destruct (ll_up _ _ _ _ _ Hl Hu Hl') as (_ & Had & _). rewrite Hts in Had. simpl in Had, Hdup, Hexp. lia.
           ++ destruct Hl as [L1 L2 L3]. split; simpl; [destruct (is_ready w); [done|]; split; [by rewrite Hgr|by apply L1]|done|].
              by rewrite Hu.
        -- destruct Hl as [L1 L2 L3]. split; simpl; [destruct (is_ready w); [done|]; split; [by rewrite Hgr|by apply L1]|done|].
           intros Hu Hnl. by destruct Hdown as [Hd|Hd]; [rewrite Hd in Hu|].
    + simpl in *. pose proof (check_admits _ _ Hk) as Hn. simpl in Hn.
      replace (t_txn_id t =? sys_progress w) with false in * by (symmetry; apply Z.eqb_neq; lia).
      simpl in Hr. injection Hr as <-. assert (sys_progress (log_txn t w) = sys_progress w + 1) as Hp
        by (unfold sys_progress; simpl; rewrite length_app; simpl; lia).
      assert (submitted (sys_versions w) t) as Hsub.
      { destruct (p_links _ (lv_base _ H) g l Hg) as [L1 _ _]. rewrite Hts in L1. by apply Forall_cons in L1 as [? _]. }
      destruct (protocol_ok_log w t (lv_base _ H) Hsub Hn) as [Hbl _].
      apply (live_ok_set_link (log_txn t w) g l); [by apply live_ok_log|done|done|].
      intros Hcur Hl. unfold live in Hl |- *. change (is_ready (log_txn t w)) with (is_ready w) in *.
      change (next_write (log_txn t w)) with (next_write w) in *. rewrite Hp.
      apply Hlive; simpl; [lia|done|lia|lia|done|]. destruct (lv_link _ H g Hcur) as (l0 & Hl0 & Hlv). rewrite Hg in Hl0. by injection Hl0 as <-.
    + specialize (Hnf eq_refl). simpl in Hnf. congruence.
  - apply (live_ok_set_link w g l); [done..|]. intros _ Hl. by apply live_results.
  - apply (live_ok_set_link w g l); [done..|]. intros _ Hl. by apply live_cut.
Qed.

Lemma reach_ge n ts : n <= reach n ts.
Proof. revert n; induction ts as [|t ts IH]; intros n; [done|]. rewrite reach_cons. specialize (IH (Z.max n (t_txn_id t))). lia. Qed.

(** The value a message tells the client. *)
Definition value_of (m : server_message) : option Z :=
  match m with
  | HelloOk h => Some (h_committed_through h)
  | TransactionResult r => if r_acknowledged r then Some (r_txn_id r) else None
  | _ => None
  end.

Lemma live_value ready lo n nw nw' l m ms v : link_live ready lo n nw l -> s2c l = m :: ms -> value_of m = Some v ->
  nw' <= Z.max nw (v + 1) -> lo <= v /\ link_live true v n nw' (set_s2c ms l).
Proof.
  intros [H1 H2 H3] Hs Hv Hn. rewrite Hs in H1, H2, H3.
  assert (lo <= v /\ good v ms /\ (forall b, top lo (m :: b) = top v b) /\ (forall b, good lo (m :: b) -> good v b) /\ m ≠ RateLimited)
    as (Hlo & Hg & Ht & Hgb & Hm).
  { destruct m as [h| | |r| |]; try done; simpl in Hv, H2.
    - injection Hv as <-. destruct_and!. split_and!; try done. by intros b [_ ?].
    - destruct (r_acknowledged r); [|done]. injection Hv as <-. destruct_and!. split_and!; try done. by intros b (_ & _ & ?). }
  split; [done|]. split; simpl; [|done|].
  - destruct ready; [|destruct H1 as [H1 ?]; split; [|done]; destruct (greeted l); [done|by destruct (H1 eq_refl)]].
    destruct H1 as [? H1]. split; [done|]. intros h Hh. apply (H1 h). by right.
  - intros Hu Hl. destruct H3 as (Hgd & Had & Hnw); [done|by apply not_elem_of_cons|].
    simpl app in Hgd, Hnw. rewrite Ht in Hnw. split_and!; [by apply Hgb|done|].
    pose proof (good_top _ _ (Hgb _ Hgd)). pose proof (reach_ge (top v (ms ++ (TransactionResult <$> resolved l))) (c2s l)). lia.
Qed.

Lemma live_ignored lo n nw l m ms : link_live true lo n nw l -> s2c l = m :: ms -> value_of m = None -> m ≠ RateLimited ->
  link_live true lo n nw (set_s2c ms l).
Proof.
  intros [H1 H2 H3] Hs Hv Hm. rewrite Hs in H1, H2, H3.
  assert (forall b, (good lo (m :: b) <-> good lo b) /\ top lo (m :: b) = top lo b) as He.
  { intros b. destruct m as [h| | |r| |]; try done. simpl in Hv, H2 |- *. destruct H2 as [Ha _]. by rewrite Ha in Hv. }
  split; simpl.
  - destruct H1 as [? H1]. split; [done|]. intros h Hh. apply (H1 h). by right.
  - by apply He.
  - intros Hu Hl. destruct H3 as (Hgd & Had & Hnw); [done|apply not_elem_of_cons; split; [by intros <-|done]|]. simpl app in Hgd, Hnw.
    destruct (He (ms ++ (TransactionResult <$> resolved l))) as [Hg1 Ht1]. rewrite Ht1 in Hnw. by split_and!; [apply Hg1| |].
Qed.

Lemma live_write lo n nw l t : link_live true lo n nw l -> lo <= n -> Forall (message_ok n) (s2c l) -> Forall (result_ok n) (resolved l) ->
  t_txn_id t = nw -> link_live true lo n (nw + 1) (write t l).
Proof.
  intros [H1 H2 H3] Hlo Hm Hr Hid. unfold write. destruct (up l) eqn:Hu; [|split; [done|done|by rewrite Hu]].
  split; [done|done|]. cbn [up s2c c2s resolved]. intros _ Hl. destruct (H3 eq_refl Hl) as (Hgd & Had & Hnw). split_and!; [done| |].
  - apply admissible_snoc; [done|]. rewrite Hid. etrans; [exact Hnw|]. apply Z.add_le_mono_r, reach_mono, top_le; [done..|].
    apply Forall_app. split; [done|]. by apply Forall_fmap.
  - rewrite reach_snoc. lia.
Qed.

Lemma live_nw lo n nw nw' l ready : link_live ready lo n nw l -> nw' <= nw -> link_live ready lo n nw' l.
Proof. intros [H1 H2 H3] Hn. split; [done..|]. intros Hu Hl. destruct (H3 Hu Hl) as (? & ? & ?). split_and!; [done..|lia]. Qed.

(** The outbox after an acknowledgement, as the writer sees it. *)
Lemma ack_next o id : outbox_ok o -> last_acked o <= id < next_id o ->
  let o' := acknowledge_storage id o in
  last_acked o' = id /\ next_id o' = next_id o
  /\ last_acked o' + 1 + Z.of_nat (next_unsent o') <= Z.max (last_acked o + 1 + Z.of_nat (next_unsent o)) (id + 1).
Proof.
  intros Ho Hid o'. destruct (acknowledge_spec o id Ho Hid) as (pe & since & Ha & _). unfold o'. rewrite Ha.
  cbn [last_acked next_id next_unsent]. split_and!; [done|done|lia].
Qed.

(** Nothing is in use after the socket closes. *)
Lemma live_ok_idle w : protocol_ok w -> failed (sys_client w) = None -> phase (native (sys_client w)) ≠ RecoveryRequired ->
  sock (sys_client w) = None -> sys_connecting w = None -> live_ok w.
Proof. intros H1 H2 H3 H4 H5. split; try done; [by rewrite H4|]. intros g. unfold current. by rewrite H5, H4. Qed.

Lemma close_phase k c : failed c = None -> phase (native c) ≠ RecoveryRequired ->
  failed (close k c) = None /\ phase (native (close k c)) ≠ RecoveryRequired
  /\ (close k c = c \/ (is_Some (sock c) /\ sock (close k c) = None)).
Proof.
  intros Hf Hp. unfold close. destruct (sock c) as [g|]; [|by split_and!; [..|left]]. case_bool_decide; [|by split_and!; [..|left]].
  split_and!; [done| |by right]. destruct (disconnect_cases (socket_generation c) (native c)) as [Hd|Hd]; cbn [native set_native];
    cbn [native set_sock]; rewrite Hd; [done|]. simpl. by case_bool_decide.
Qed.

Lemma hello_in_range w g l m ms h : live_ok w -> current w = Some g -> sys_links w !! g = Some l -> s2c l = m :: ms ->
  value_of m = Some h -> validate_highwater h (native (sys_client w)) = Accepted
  /\ last_acked (box (native (sys_client w))) <= h < next_id (box (native (sys_client w))).
Proof.
  intros H Hc Hg Hs Hv. destruct (lv_link _ H g Hc) as (l0 & Hl0 & Hl). rewrite Hg in Hl0. injection Hl0 as <-.
  destruct (live_value _ _ _ _ (next_write w) _ _ _ _ Hl Hs Hv ltac:(lia)) as [Hlo _].
  destruct (p_links _ (lv_base _ H) g l Hg) as [_ _ L3]. rewrite Hs in L3. apply Forall_cons in L3 as [Hm _].
  assert (h <= sys_progress w) as Hn.
  { destruct m as [x| | |r| |]; try done; simpl in Hv, Hm; [by injection Hv as <-|].
    destruct (r_acknowledged r) eqn:Ea; [|done]. injection Hv as <-. by apply Hm. }
  destruct (p_client _ (lv_base _ H)) as [Cs Cn Ca _]. pose proof (p_len _ (lv_base _ H)).
  pose proof (so_box _ Cs) as Hb. pose proof (ok_next _ Hb). pose proof (ok_acked _ Hb). unfold sys_progress in *.
  split; [|lia]. unfold validate_highwater, highest_submitted. rewrite u64_small by lia.
  replace (next_id (box (native (sys_client w))) - 1 <? h) with false by (symmetry; apply Z.ltb_ge; lia).
  by replace (h <? last_acked (box (native (sys_client w)))) with false by (symmetry; apply Z.ltb_ge; lia).
Qed.

Lemma handshake_live w g l m ms c ok : live_ok w -> sys_connecting w = Some g -> sys_links w !! g = Some l -> s2c l = m :: ms ->
  connect_finish g m (sys_client w) = (c, ok) ->
  let w' := set_replaying (negb (background_send c)) (set_link g (set_s2c ms l) (set_connecting None (set_client c w))) in
  protocol_ok w' -> live_ok w'.
Proof.
  intros H Hcon Hg Hs Hf w' Hb. destruct (p_connecting _ (lv_base _ H) g Hcon) as (Hsk & Hp & Hgen).
  assert (current w = Some g) as Hcur by (unfold current; by rewrite Hcon).
  destruct (finish_cases g m (sys_client w) Hp Hgen) as [(h & i & k & -> & Hv & Heq)|(c' & n & Heq & Hs' & _ & _ & Hc)];
    rewrite Heq in Hf; injection Hf as <- <-.
  - destruct (hello_in_range w g l _ ms _ H Hcur Hg Hs eq_refl) as [_ Hr].
    destruct (lv_link _ H g Hcur) as (l0 & Hl0 & Hl). rewrite Hg in Hl0. injection Hl0 as <-.
    pose proof (so_box _ (c_session _ _ _ (p_client _ (lv_base _ H)))) as Hbox.
    destruct (ack_next _ _ Hbox Hr) as (A1 & A2 & A3).
    assert (next_unsent (box (native (sys_client w))) = 0%nat) as Hnu.
    { apply (so_unsent _ (c_session _ _ _ (p_client _ (lv_base _ H)))). by rewrite Hp. }
    split; [done|apply H|done| |].
    + intros g' [= <-]. by split_and!.
    + intros g' [= <-]. exists (set_s2c ms l). split; [apply lookup_insert_eq|]. unfold live, w'. cbn [is_ready sys_connecting].
      destruct (live_value _ _ _ _ (h_committed_through h + 1) _ _ _ _ Hl Hs eq_refl ltac:(lia)) as [_ Hl'].
      eapply (live_nw _ _ (h_committed_through h + 1)).
      * change (link_live true (last_acked (acknowledge_storage (h_committed_through h) (box (native (sys_client w))))) (sys_progress w) (h_committed_through h + 1) (set_s2c ms l)).
        by rewrite A1.
      * unfold next_write. cbn [sys_client set_replaying set_link set_connecting set_client native set_native set_checkpoint publish_socket background_send sys_replaying].
        destruct (background_send (sys_client w)); cbn [negb orb box set_phase set_box native]; rewrite Hnu in A3; lia.
  - apply live_ok_idle; try done.
    + destruct Hc as [[_ Hff]|(h & -> & Hv & _)]; [cbn; rewrite Hff; apply H|].
      destruct (hello_in_range w g l _ ms _ H Hcur Hg Hs eq_refl) as [Hv' _]. done.
    + destruct Hc as [[-> Hff]|(h & -> & Hv & _)].
      * cbn [sys_client w' set_replaying set_link set_connecting set_client native set_native].
        destruct (disconnect_cases g (native (sys_client w))) as [-> | ->]; [by rewrite Hp|]. simpl. by rewrite Hp.
      * destruct (hello_in_range w g l _ ms _ H Hcur Hg Hs eq_refl) as [Hv' _]. done.
    + cbn. by rewrite Hs'.
Qed.

(** The published socket is the connection in use. *)
Lemma sock_current w g : live_ok w -> sock (sys_client w) = Some g ->
  current w = Some g /\ is_ready w = true /\ sys_connecting w = None.
Proof.
  intros H Hs. destruct (lv_sock _ H g Hs) as (Hc & _). unfold current, is_ready. rewrite Hc. by split_and!.
Qed.

Lemma live_link_of w g l : live_ok w -> current w = Some g -> sys_links w !! g = Some l -> live w g l.
Proof. intros H Hc Hg. destruct (lv_link _ H g Hc) as (l0 & Hl0 & Hl). rewrite Hg in Hl0. by injection Hl0 as <-. Qed.

(** A write by the connected client. *)
Lemma write_live w g l t w1 : live_ok w -> sock (sys_client w) = Some g -> sys_links w !! g = Some l ->
  protocol_ok (set_link g (write t l) w1) -> sys_links w1 = sys_links w -> sys_progress w1 = sys_progress w ->
  sys_connecting w1 = sys_connecting w -> failed (sys_client w1) = None -> sock (sys_client w1) = Some g ->
  phase (native (sys_client w1)) = Ready -> generation (native (sys_client w1)) = g -> socket_generation (sys_client w1) = g ->
  last_acked (box (native (sys_client w1))) = last_acked (box (native (sys_client w))) ->
  t_txn_id t = next_write w -> next_write w1 = next_write w + 1 -> live_ok (set_link g (write t l) w1).
Proof.
  intros H Hsk Hg Hb Hl Hpr Hcon Hf Hsk1 Hp Hgen Hsg Hla Ht Hnw. destruct (sock_current _ _ H Hsk) as (Hcur & Hrd & Hc0).
  split; simpl; [done|done|by rewrite Hp| |].
  - intros g' Hg'. rewrite Hsk1 in Hg'. injection Hg' as <-. by rewrite Hcon.
  - intros g' Hg'. unfold current in Hg'. simpl in Hg'. rewrite Hcon, Hc0, Hsk1 in Hg'. injection Hg' as <-.
    exists (write t l). split; [apply lookup_insert_eq|]. unfold live.
    change (is_ready (set_link g (write t l) w1)) with (is_ready w1). change (next_write (set_link g (write t l) w1)) with (next_write w1).
    change (sys_progress (set_link g (write t l) w1)) with (sys_progress w1). cbn [sys_client set_link].
    rewrite Hnw, Hla, Hpr. unfold is_ready. rewrite Hcon, Hc0. pose proof (live_link_of _ _ _ H Hcur Hg) as Hlive.
    unfold live in Hlive. rewrite Hrd in Hlive. destruct (p_links _ (lv_base _ H) g l Hg).
    apply live_write; [exact Hlive|apply (p_client _ (lv_base _ H))|done..].
Qed.

Lemma read_live w g l m ms c b : live_ok w -> sys_connecting w ≠ Some g -> sys_links w !! g = Some l -> s2c l = m :: ms ->
  read_result g m (sys_client w) = (c, b) -> protocol_ok (set_link g (set_s2c ms l) (set_client c w)) ->
  live_ok (set_link g (set_s2c ms l) (set_client c w)).
Proof.
  intros H Hcon Hg Hs Hr Hb. destruct (decide (sock (sys_client w) = Some g)) as [Hsk|Hsk].
  - destruct (sock_current _ _ H Hsk) as (Hcur & Hrd & Hc0). destruct (lv_sock _ H g Hsk) as (_ & Hgen & Hsg & Hp).
    pose proof (live_link_of _ _ _ H Hcur Hg) as Hlive. unfold live in Hlive. rewrite Hrd in Hlive.
    assert (m = RateLimited -> c = close (Some g) (sys_client w)) as Hrl.
    { intros ->. simpl in Hr. rewrite bool_decide_true in Hr by done. by injection Hr as <- _. }
    destruct (decide (m = RateLimited)) as [Hm|Hm].
    { specialize (Hrl Hm). destruct (close_phase (Some g) (sys_client w) (lv_failed _ H) (lv_phase _ H)) as (F & P & [E|[_ E]]).
      - exfalso. revert E. unfold close. rewrite Hsk, bool_decide_true by by right. intros E. by rewrite <-E in Hsk.
      - rewrite Hrl in Hb |- *. by apply live_ok_idle. }
    assert ((value_of m = None /\ c = sys_client w) \/ (exists v k, value_of m = Some v
       /\ c = set_checkpoint (server_instance (sys_client w)) k (set_native (set_phase Ready (set_box
               (acknowledge_storage v (box (native (sys_client w)))) (native (sys_client w)))) (sys_client w)))) as [[Hv ->]|(v & k & Hv & Hc)].
    { pose proof (ll_good _ _ _ _ _ Hlive) as Hgood. rewrite Hs in Hgood.
      destruct m as [h| | |r| |]; try (left; simpl in Hr; injection Hr as <- _; done); [|].
      - exfalso. pose proof (ll_greeted _ _ _ _ _ Hlive) as [_ Hno]. apply (Hno h). rewrite Hs. by left.
      - right. simpl in Hgood. destruct Hgood as (Ha & _). assert (value_of (TransactionResult r) = Some (r_txn_id r)) as Hv by (simpl; by rewrite Ha).
        destruct (hello_in_range w g l _ ms _ H Hcur Hg Hs Hv) as [Hval _]. simpl in Hr.
        destruct (accept_result_cases r g (sys_client w) (p_quarantine _ (lv_base _ H))) as [[_ [Hx|[Hx|Hx]]]|[(_ & _ & _ & _ & _ & _ & k & E)|(_ & Hx & _)]].
        + congruence. + congruence. + congruence.
        + rewrite E in Hr. injection Hr as <- _. by exists (r_txn_id r), k.
        + by destruct (Hx Hp Ha Hval). }
    + apply (live_ok_set_link (set_client (sys_client w) w) g l); [by destruct w|done|done|]. intros _ Hl0. unfold live in Hl0 |- *.
      change (is_ready (set_client (sys_client w) w)) with (is_ready w) in *. rewrite Hrd in *. by apply (live_ignored _ _ _ _ m).
    + destruct (hello_in_range w g l _ ms _ H Hcur Hg Hs Hv) as [_ Hrange].
      pose proof (so_box _ (c_session _ _ _ (p_client _ (lv_base _ H)))) as Hbox.
      destruct (ack_next _ _ Hbox Hrange) as (A1 & A2 & A3). subst c. split; [done|apply H|done| |].
      * intros g' Hg'. cbn in Hg'. rewrite Hsk in Hg'. injection Hg' as <-. by split_and!.
      * intros g' Hg'. unfold current in Hg'. cbn in Hg'. rewrite Hc0, Hsk in Hg'. injection Hg' as <-.
        exists (set_s2c ms l). split; [apply lookup_insert_eq|]. unfold live. cbn [sys_client set_link set_client native set_native set_checkpoint box set_phase set_box].
        rewrite A1. unfold is_ready. cbn [sys_connecting set_link set_client]. rewrite Hc0.
        eapply live_value; [exact Hlive|done|done|]. unfold next_write, is_ready.
        cbn [sys_client set_link set_client native set_native set_checkpoint box set_phase set_box background_send sys_replaying sys_connecting].
        destruct (_ || _); [done|]. rewrite A2. lia.
  - assert (c = sys_client w) as ->.
    { destruct m as [h| | |r| |]; try (simpl in Hr; injection Hr as <- _; done); simpl in Hr.
      - destruct (accept_result_cases r g (sys_client w) (p_quarantine _ (lv_base _ H))) as [[E _]|[(Hns & Hgs & _)|(Hns & _ & f & s & E & _)]].
        + rewrite E in Hr. by injection Hr as <- _.
        + destruct (sock (sys_client w)) as [g'|] eqn:Eg; [|done]. destruct (lv_sock _ H g' Eg) as (_ & _ & Hsg & _). congruence.
        + exfalso. destruct (sock (sys_client w)) as [g'|] eqn:Eg; [|done]. destruct (lv_sock _ H g' Eg) as (_ & _ & Hsg & _).
          unfold accept_result in E. rewrite Eg, bool_decide_true in E by congruence. by injection E.
      - rewrite bool_decide_false in Hr by (by intros [_ ?]). by injection Hr as <- _. }
    apply (live_ok_set_link (set_client (sys_client w) w) g l); [by destruct w|done|done|]. intros Hcur. exfalso.
    unfold current in Hcur. cbn in Hcur. destruct (sys_connecting w); congruence.
Qed.

Lemma client_step_live w w' : live_ok w -> client_step validate_events w w' -> live_ok w'.
Proof.
  intros H Hstep. pose proof (client_step_ok _ _ _ (lv_base _ H) Hstep) as Hb. pose proof (p_client _ (lv_base _ H)) as Hc.
  pose proof (so_box _ (c_session _ _ _ Hc)) as Hbox.
  destruct Hstep as [w g c Hcon Hnew Hbc|w g Hcon|w g l m ms c ok Hcon Hg Hs Hf|w g l c t Hsk Hg Hact Hr
    |w g c Hsk Hbg Hrp Hr|w events layer c out Hbg Hn64 Hsend|w k|w g l m ms c b Hcon Hg Hs Hr|w events layer c r Hr].
  - unfold connect_begin in Hbc. destruct (sock (sys_client w)) eqn:Es; [done|]. apply bind_Some in Hbc as ([g' n] & Hbc & [= <- <-]).
    unfold begin_connection in Hbc. case_bool_decide; [done|]. injection Hbc as <- <-.
    split; [done|apply H|done|by cbn; rewrite Es|]. intros g [= <-]. exists new_link. split; [apply lookup_insert_eq|].
    split; [by split; [|by intros h ?%not_elem_of_nil]|done|]. intros _ _. split_and!; [done|done|].
    unfold next_write. cbn. rewrite orb_true_r. simpl. unfold reach. simpl. lia.
  - destruct (p_connecting _ (lv_base _ H) g Hcon) as (Hsk & Hp & _). apply live_ok_idle; [done|apply H| |done|done].
    cbn. destruct (disconnect_cases g (native (sys_client w))) as [-> | ->]; [by rewrite Hp|]. simpl. by rewrite Hp.
  - by eapply handshake_live.
  - destruct (replay_one_native _ _ _ _ Hr) as (_ & Hcl & _). destruct (Hcl t eq_refl) as (e & _ & He & -> & Hgen & Hp & Heq).
    destruct (lv_sock _ H g Hsk) as (Hcn & _ & Hsg & _). destruct (sock_current _ _ H Hsk) as (_ & Hrd & _).
    assert (background_send (sys_client w) || sys_replaying w || negb (is_ready w) = true) as Hmode
      by (destruct (background_send (sys_client w)); [done|by rewrite Hact]).
    pose proof (Forall_lookup_1 _ _ _ _ (c_queue _ _ _ Hc) He) as [Hid _]. rewrite (outbox_lookup _ _ _ Hbox He) in Hid.
    rewrite Heq in Hb |- *. apply (write_live w); try done; [apply H| |].
    + unfold next_write. by rewrite Hmode.
    + unfold next_write. cbn [sys_client set_client native set_native box set_box set_next_unsent next_unsent last_acked next_id background_send sys_replaying].
      change (is_ready (set_client _ w)) with (is_ready w). rewrite Hmode. lia.
  - destruct (replay_one_native _ _ _ _ Hr) as (_ & _ & Hno). destruct (Hno eq_refl) as (-> & _ & _ & Hnone).
    destruct (sock_current _ _ H Hsk) as (Hcur & Hrd & Hc0). split; [done|apply H|apply H|apply H|].
    intros g' Hg'. destruct (lv_link _ H g' Hg') as (l & Hl & Hlive). exists l. split; [done|]. eapply live_nw; [exact Hlive|].
    unfold next_write. cbn [sys_client set_replaying set_client sys_replaying]. change (is_ready (set_replaying _ _)) with (is_ready w).
    rewrite Hbg, Hrp, Hrd. simpl. apply lookup_ge_None in Hnone. pose proof (ok_unsent _ Hbox). pose proof (outbox_length _ Hbox). lia.
  - destruct (send_events_spec _ _ _ _ _ _ Hsend) as (g & Hsk & Hff & Hp & Heq & Hout). set (t := make_txn _ _ _) in *.
    destruct (sock_current _ _ H Hsk) as (Hcur & Hrd & Hc0). destruct (lv_sock _ H g Hsk) as (_ & Hgen & Hsg & _).
    clear Hsend. subst c out. destruct (background_send (sys_client w)) eqn:Hbs.
    + split; cbn; try done; [by rewrite Hp|by apply H|].
      intros g' Hg'. unfold current in Hg'. cbn in Hg'. destruct (lv_link _ H g' Hg') as (l & Hl & Hlive).
      exists l. split; [done|]. unfold live. cbn. eapply live_nw; [exact Hlive|]. unfold next_write. cbn. by rewrite Hbs.
    + destruct Hbg as [?|Hrp]; [done|]. destruct (lv_link _ H g Hcur) as (l & Hl & _). rewrite Hl in *.
      apply (write_live w); try done.
      * unfold next_write. by rewrite Hbs, Hrp, Hrd.
      * unfold next_write, is_ready. cbn. rewrite Hbs, Hrp, Hc0. simpl. apply u64_small.
        pose proof (ok_acked _ Hbox). lia.
  - destruct (close_phase k (sys_client w) (lv_failed _ H) (lv_phase _ H)) as (F & P & [E|[[g Hg] E]]).
    + rewrite E. by destruct w.
    + apply live_ok_idle; cbn; try done. by destruct (lv_sock _ H g Hg).
  - by eapply read_live.
  - destruct (repair_cases _ _ _ _ _ _ (p_quarantine _ (lv_base _ H)) Hr) as [(e & -> & Hcc)|(o & f & _ & Hp & _)];
      [|by destruct (lv_phase _ H)]. destruct Hcc as [-> | ->]; [by destruct w|].
    destruct (close_phase None (sys_client w) (lv_failed _ H) (lv_phase _ H)) as (F & P & [E|[[g Hg] E]]).
    + rewrite E. by destruct w.
    + apply live_ok_idle; cbn; try done. by destruct (lv_sock _ H g Hg).
Qed.

Lemma live_invariant w : protocol_reachable validate_events client_id false w -> live_ok w.
Proof.
  intros (cap & sid & mode & bg & Hr). assert (live_ok (system_init cap sid mode bg)) as H0.
  { split; [apply protocol_init_ok|done|done|done|]. intros g Hg. done. }
  revert H0. induction Hr as [|w1 w2 w3 [Hs|Hs] _ IH]; [done|intros H; apply IH; by eapply client_step_live|intros H; apply IH; by eapply server_step_live].
Qed.

(** C5: without server failures nothing is ever refused: however connections are
    cut, however late the server reads the ones given up, and whatever it rate
    limits, the session never needs recovery, no failure is recorded, and every
    result on its way over a usable connection is an acknowledgement. *)
Theorem producer_never_refused w : protocol_reachable validate_events client_id false w ->
  failed (sys_client w) = None /\ recovery_required (native (sys_client w)) = false
  /\ forall g l r, current w = Some g -> sys_links w !! g = Some l -> up l = true -> RateLimited ∉ s2c l ->
     TransactionResult r ∈ s2c l \/ r ∈ resolved l -> r_acknowledged r = true.
Proof.
  intros H%live_invariant. split_and!; [apply H|unfold recovery_required; apply bool_decide_eq_false, H|].
  intros g l r Hc Hg Hu Hl Hr. destruct (ll_up _ _ _ _ _ (live_link_of _ _ _ H Hc Hg) Hu Hl) as (Hgd & _).
  assert (TransactionResult r ∈ s2c l ++ (TransactionResult <$> resolved l)) as Hin.
  { apply elem_of_app. destruct Hr as [?|?]; [by left|right]. by apply list_elem_of_fmap_2. }
  assert (RateLimited ∉ s2c l ++ (TransactionResult <$> resolved l)) as Hn.
  { intros [?|(x & ? & _)%list_elem_of_fmap]%elem_of_app; done. }
  revert Hgd Hin Hn. generalize (last_acked (box (native (sys_client w)))) (s2c l ++ (TransactionResult <$> resolved l)).
  clear. intros lo ms; revert lo; induction ms as [|m ms IH]; intros lo Hg Hin Hn; [by apply not_elem_of_nil in Hin|].
  apply not_elem_of_cons in Hn as [Hm Hn]. apply elem_of_cons in Hin as [<-|Hin]; [by destruct Hg|].
  destruct m as [h| | |r'| |]; simpl in Hg; try done.
  - apply (IH (h_committed_through h)); [tauto|done..].
  - by apply (IH lo).
  - by apply (IH lo).
  - apply (IH (r_txn_id r')); [tauto|done..].
  - by apply (IH lo).
Qed.

(** *** Delivery *)

Definition connected (g : Z) (w : system) : Prop :=
  sock (sys_client w) = Some g /\ exists l, sys_links w !! g = Some l /\ up l = true /\ RateLimited ∉ s2c l.

(** The steps that happen on a connection, keep it, and submit nothing. *)
Definition on_connection (g : Z) (w w' : system) : Prop :=
  protocol_step validate_events client_id false w w' /\ connected g w' /\ w' ≠ w
  /\ sys_versions w' = sys_versions w /\ delete g (sys_links w') = delete g (sys_links w).

Definition in_flight (l : link) : Z :=
  3 * Z.of_nat (length (c2s l)) + 2 * Z.of_nat (length (resolved l)) + Z.of_nat (length (s2c l)).
Definition delivery_work (g : Z) (w : system) : Z :=
  4 * (next_id (box (native (sys_client w))) - next_write w) + (if sys_replaying w then 1 else 0)
  + match sys_links w !! g with Some l => in_flight l | None => 0 end.

Lemma next_write_le w : protocol_ok w -> next_write w <= next_id (box (native (sys_client w))).
Proof.
  intros H. pose proof (so_box _ (c_session _ _ _ (p_client _ H))) as Hb. pose proof (ok_unsent _ Hb). pose proof (outbox_length _ Hb).
  unfold next_write. destruct (_ || _); lia.
Qed.
Lemma delivery_work_pos g w : protocol_ok w -> 0 <= delivery_work g w.
Proof. intros H%next_write_le. unfold delivery_work, in_flight. destruct (sys_replaying w), (sys_links w !! g); lia. Qed.

Lemma other_link g g' (l l' : link) (m : gmap Z link) : g ≠ g' -> m !! g' = Some l -> delete g (<[g' := l']> m) = delete g m -> l' = l.
Proof.
  intros Hne Hl Hd. apply (f_equal (lookup g')) in Hd. rewrite !lookup_delete_ne in Hd by done.
  rewrite lookup_insert_eq, Hl in Hd. by injection Hd.
Qed.

Lemma batch_length rs : Forall (fun r => r_acknowledged r = true) rs -> (length (batch_replies rs) <= 1)%nat.
Proof. intros H. unfold batch_replies. rewrite batch_acked by done. destruct (last rs); simpl; lia. Qed.

Lemma replaying_irrelevant (w : system) : set_client (sys_client w) w = w.
Proof. by destruct w. Qed.

Lemma step_decreases g w w' : live_ok w -> connected g w -> on_connection g w w' -> delivery_work g w' < delivery_work g w.
Proof.
  intros H [Hsk (lg & Hlg & Hup & Hnl)] (Hstep & [Hsk' (lg' & Hlg' & Hup' & Hnl')] & Hne & Hvs & Hdel).
  destruct (sock_current _ _ H Hsk) as (Hcur & Hrd & Hc0). destruct (lv_sock _ H g Hsk) as (_ & Hgen & Hsg & Hp).
  pose proof (live_link_of _ _ _ H Hcur Hlg) as Hlive. unfold live in Hlive. rewrite Hrd in Hlive.
  pose proof (c_session _ _ _ (p_client _ (lv_base _ H))) as Hses. pose proof (so_box _ Hses) as Hbox.
  destruct Hstep as [Hstep|Hstep].
  - destruct Hstep as [w g' c Hcon Hnew Hb|w g' Hcon|w g' l m ms c ok Hcon|w g' l c t Hs2 Hg Hact Hr
      |w g' c Hs2 Hbg Hrp Hr|w events layer c out Hbg Hn64 Hsend|w k|w g' l m ms c b Hcon Hg Hs Hr|w events layer c r Hr].
    + unfold connect_begin in Hb. by rewrite Hsk in Hb.
    + congruence.
    + congruence.
    + rewrite Hsk in Hs2. injection Hs2 as <-. rewrite Hlg in Hg. injection Hg as <-.
      destruct (replay_one_native _ _ _ _ Hr) as (_ & Hcl & _). destruct (Hcl t eq_refl) as (e & _ & He & _ & _ & _ & ->).
      unfold delivery_work, next_write. cbn. rewrite lookup_insert_eq, Hlg. unfold write. rewrite Hup. unfold in_flight. cbn.
      rewrite length_app. simpl. assert (background_send (sys_client w) || sys_replaying w = true) as Hm
        by (destruct (background_send (sys_client w)); [done|by rewrite Hact]).
      change (is_ready (set_link _ _ _)) with (is_ready w). rewrite Hm. simpl. lia.
    + destruct (replay_one_native _ _ _ _ Hr) as (_ & _ & Hno). destruct (Hno eq_refl) as (-> & _ & _ & Hnone).
      rewrite Hsk in Hs2. injection Hs2 as <-. unfold delivery_work, next_write. cbn.
      change (is_ready (set_replaying _ _)) with (is_ready w). rewrite Hbg, Hrp, Hrd. simpl.
      apply lookup_ge_None in Hnone. pose proof (ok_unsent _ Hbox). pose proof (outbox_length _ Hbox). lia.
    + exfalso. assert (sys_versions w ++ [[make_txn events layer (next_id (box (native (sys_client w))))]] = sys_versions w) as Hbad.
      { destruct out as [[g' t]|]; [|done]. by destruct (sys_links w !! g'). }
      apply (f_equal length) in Hbad. rewrite length_app in Hbad. simpl in Hbad. lia.
    + exfalso. destruct (close_phase k (sys_client w) (lv_failed _ H) (lv_phase _ H)) as (_ & _ & [E|[_ E]]).
      * apply Hne. rewrite E. apply replaying_irrelevant.
      * cbn in Hsk'. congruence.
    + destruct (decide (g' = g)) as [->|Hgg].
      * rewrite Hlg in Hg. injection Hg as <-. pose proof (ll_good _ _ _ _ _ Hlive) as Hgood. rewrite Hs in Hgood.
        assert (m ≠ RateLimited) as Hmr by (intros ->; apply Hnl; rewrite Hs; by left).
        assert (next_id (box (native c)) = next_id (box (native (sys_client w))) /\ background_send c = background_send (sys_client w)
                /\ last_acked (box (native (sys_client w))) + 1 + Z.of_nat (next_unsent (box (native (sys_client w))))
                   <= last_acked (box (native c)) + 1 + Z.of_nat (next_unsent (box (native c)))) as (E1 & E2 & E3).
        { destruct m as [h| | |r| |]; try (simpl in Hr; injection Hr as <- _; done); try done. simpl in Hr.
          destruct (accept_result_cases r g (sys_client w) (p_quarantine _ (lv_base _ H))) as [[E _]|[(_ & _ & _ & _ & _ & Hv & k & E)|(_ & Hx & _)]].
          - rewrite E in Hr. by injection Hr as <- _.
          - rewrite E in Hr. injection Hr as <- _. cbn. apply validate_highwater_ok in Hv; [|done].
            destruct (acknowledge_spec _ _ Hbox Hv) as (pe & since & -> & _). cbn. split_and!; [done|done|lia].
          - exfalso. simpl in Hgood. destruct Hgood as (Ha & _).
            assert (value_of (TransactionResult r) = Some (r_txn_id r)) as Hv by (simpl; by rewrite Ha).
            destruct (hello_in_range w g lg _ ms _ H Hcur Hlg Hs Hv) as [Hval _]. by destruct (Hx Hp Ha Hval). }
        unfold delivery_work, next_write. cbn. rewrite lookup_insert_eq, Hlg. change (is_ready (set_link _ _ _)) with (is_ready w).
        rewrite E1, E2. unfold in_flight. cbn. rewrite Hs. simpl length. destruct (_ || _); lia.
      * exfalso. cbn in Hdel. apply (other_link g g' l) in Hdel; [|done|done].
        apply (f_equal (fun x => length (s2c x))) in Hdel. rewrite Hs in Hdel. simpl in Hdel. lia.
    + exfalso. destruct (repair_cases _ _ _ _ _ _ (p_quarantine _ (lv_base _ H)) Hr) as [(e & -> & Hcc)|(o & f & _ & Hp' & _)]; [|congruence].
      destruct Hcc as [-> | ->]; [apply Hne, replaying_irrelevant|].
      destruct (close_phase None (sys_client w) (lv_failed _ H) (lv_phase _ H)) as (_ & _ & [E|[_ E]]).
      * apply Hne. rewrite E. apply replaying_irrelevant.
      * cbn in Hsk'. congruence.
  - destruct Hstep as [w g' l i sh Hg Hgr|w g' l m Hmm Hg Hgr|w g' l t ts Hg Hgr Hts|w g' l t ts o n ck r Hg Hgr Hts Hsv Hnf Hr
      |w g' l t ts e Hf|w g' l rs rest Hg Hgr Hrs Hne'|w g' l i j Hg]; [..|done| |].
    + exfalso. destruct (decide (g' = g)) as [->|Hgg].
      * rewrite Hlg in Hg. injection Hg as <-. destruct (ll_greeted _ _ _ _ _ Hlive). congruence.
      * apply (other_link g g' l) in Hdel; [|done|done]. by rewrite <-Hdel in Hgr.
    + exfalso. destruct (decide (g' = g)) as [->|Hgg].
      * rewrite Hlg in Hg. injection Hg as <-. destruct (ll_greeted _ _ _ _ _ Hlive). congruence.
      * apply (other_link g g' l) in Hdel; [|done|done]. by rewrite <-Hdel in Hgr.
    + exfalso. destruct (decide (g' = g)) as [->|Hgg].
      * cbn in Hlg'. rewrite lookup_insert_eq in Hlg'. injection Hlg' as <-. rewrite Hlg in Hg. injection Hg as <-.
        unfold push in Hnl'. simpl in Hnl'. rewrite Hup in Hnl'. simpl in Hnl'. set_solver.
      * apply (other_link g g' l) in Hdel; [|done|done]. apply (f_equal (fun x => length (c2s x))) in Hdel.
        rewrite Hts in Hdel. unfold push in Hdel. simpl in Hdel. destruct (up l); simpl in Hdel; lia.
    + destruct (decide (g' = g)) as [->|Hgg].
      * rewrite Hlg in Hg. injection Hg as <-. unfold delivery_work. cbn. rewrite lookup_insert_eq.
        assert (forall b : bool, sys_links (if b then w else log_txn t w) = sys_links w) as Hls by (by intros []).
        assert (forall b : bool, sys_client (if b then w else log_txn t w) = sys_client w) as Hcs by (by intros []).
        assert (forall b : bool, sys_replaying (if b then w else log_txn t w) = sys_replaying w) as Hrs by (by intros []).
        assert (forall b : bool, next_write (set_link g (set_resolved (resolved lg ++ [r]) (set_c2s ts lg)) (if b then w else log_txn t w)) = next_write w) as Hnw by (by intros []).
        rewrite Hnw, Hcs, Hrs, Hlg. unfold in_flight. cbn. rewrite Hts, length_app. simpl length. lia.
      * exfalso. assert (sys_links (if n =? sys_progress w then w else log_txn t w) = sys_links w) as Hls by (by destruct (n =? sys_progress w)).
        cbn in Hdel. rewrite Hls in Hdel. apply (other_link g g' l) in Hdel; [|done|done].
        apply (f_equal (fun x => length (c2s x))) in Hdel. rewrite Hts in Hdel. simpl in Hdel. lia.
    + destruct (decide (g' = g)) as [->|Hgg].
      * rewrite Hlg in Hg. injection Hg as <-. unfold delivery_work. cbn. rewrite lookup_insert_eq, Hlg.
        change (next_write (set_link _ _ w)) with (next_write w). unfold push. simpl. rewrite Hup. unfold in_flight. cbn.
        destruct (ll_up _ _ _ _ _ Hlive Hup Hnl) as (Hgd & _). rewrite Hrs, fmap_app, app_assoc in Hgd. apply good_prefix in Hgd.
        apply good_app in Hgd as [_ Hgd]; [|done]. pose proof (batch_length rs (good_acked _ _ Hgd)).
        rewrite Hrs, !length_app, length_fmap. destruct rs; [done|]. simpl length in *. lia.
      * exfalso. apply (other_link g g' l) in Hdel; [|done|done]. apply (f_equal (fun x => length (resolved x))) in Hdel.
        rewrite Hrs in Hdel. unfold push in Hdel. simpl in Hdel. destruct (up l); simpl in Hdel; rewrite length_app in Hdel; destruct rs; simpl in *; done || lia.
    + exfalso. destruct (decide (g' = g)) as [->|Hgg].
      * cbn in Hlg'. rewrite lookup_insert_eq in Hlg'. by injection Hlg' as <-.
      * pose proof Hdel as Hd. apply (other_link g g' l) in Hd; [|done|done]. apply Hne. rewrite Hd. unfold set_link.
        rewrite insert_id by done. by destruct w.
Qed.

Lemma delete_link g l' (m : gmap Z link) : delete g (<[g := l']> m) = delete g m.
Proof. apply map_eq. intros k. destruct (decide (g = k)) as [->|]; [by rewrite !lookup_delete_eq|]. by rewrite !lookup_delete_ne, lookup_insert_ne by done. Qed.

(** A step that changes the connection in use. *)
Lemma link_step g w l l' w1 : sys_links w1 = sys_links w -> sys_versions w1 = sys_versions w -> sock (sys_client w1) = Some g ->
  sys_links w !! g = Some l -> l' ≠ l -> up l' = true -> RateLimited ∉ s2c l' ->
  protocol_step validate_events client_id false w (set_link g l' w1) -> on_connection g w (set_link g l' w1).
Proof.
  intros Hl Hv Hs Hg Hne Hu Hr Hst. split_and!; [done| | |done|].
  - split; [done|]. exists l'. split; [apply lookup_insert_eq|done].
  - intros E. apply Hne. apply (f_equal (fun x => sys_links x !! g)) in E. cbn in E. rewrite Hl, lookup_insert_eq, Hg in E. by injection E.
  - cbn. rewrite Hl. apply delete_link.
Qed.

Lemma step_possible g w : live_ok w -> connected g w -> session_empty (native (sys_client w)) = false ->
  exists w', on_connection g w w'.
Proof.
  intros H [Hsk (l & Hl & Hup & Hnl)] Hne. destruct (sock_current _ _ H Hsk) as (Hcur & Hrd & Hc0).
  destruct (lv_sock _ H g Hsk) as (_ & Hgen & Hsg & Hp). pose proof (live_link_of _ _ _ H Hcur Hl) as Hlive. unfold live in Hlive.
  rewrite Hrd in Hlive. pose proof (c_session _ _ _ (p_client _ (lv_base _ H))) as Hses. pose proof (so_box _ Hses) as Hbox.
  destruct (ll_greeted _ _ _ _ _ Hlive) as [Hgr Hnh]. destruct (ll_up _ _ _ _ _ Hlive Hup Hnl) as (Hgd & Had & Hnw).
  destruct (s2c l) as [|m ms] eqn:Hs.
  2: { (* a message to read *)
    destruct (read_result g m (sys_client w)) as [c b] eqn:Hr.
    assert (sock c = Some g) as Hsc.
    { destruct m as [h| | |r| |]; try (simpl in Hr; by injection Hr as <- _).
      - simpl in Hr. destruct (accept_result_cases r g (sys_client w) (p_quarantine _ (lv_base _ H))) as [[E _]|[(_ & _ & _ & _ & _ & Hv & k & E)|(_ & Hx & _)]].
        + rewrite E in Hr. by injection Hr as <- _.
        + rewrite E in Hr. by injection Hr as <- _.
        + exfalso. simpl in Hgd. destruct Hgd as (Ha & _). assert (value_of (TransactionResult r) = Some (r_txn_id r)) as Hv by (simpl; by rewrite Ha).
          destruct (hello_in_range w g l _ ms _ H Hcur Hl Hs Hv) as [Hval _]. by destruct (Hx Hp Ha Hval).
      - exfalso. apply Hnl. by left. }
    exists (set_link g (set_s2c ms l) (set_client c w)). apply (link_step g w l); try done.
    - intros E. apply (f_equal (fun x => length (s2c x))) in E. rewrite Hs in E. simpl in E. lia.
    - intros Hin. apply Hnl. by right.
    - left. by apply (cl_read validate_events w g l m ms c b); [by rewrite Hc0|..]. }
  destruct (resolved l) as [|r rs] eqn:Hres.
  2: { (* results to send *)
    exists (set_link g (push (TransactionResult <$> batch_replies (r :: rs)) (set_resolved [] l)) w). apply (link_step g w l); try done.
    - unfold push. simpl. rewrite Hup. intros E. apply (f_equal (fun x => length (resolved x))) in E. rewrite Hres in E. done.
    - unfold push. simpl. by rewrite Hup.
    - unfold push. cbn [up set_resolved]. rewrite Hup. cbn [s2c set_resolved]. rewrite Hs. by intros (x & ? & _)%list_elem_of_fmap.
    - right. apply (sv_results client_id false w g l (r :: rs) []); [done|done|by rewrite app_nil_r|done]. }
  destruct (c2s l) as [|t ts] eqn:Hts.
  2: { (* a transaction to commit *)
    simpl in Had. destruct Had as [Hid _].
    assert (exists o n r, serve (request_of client_id w t) (sys_progress w) o n
              /\ (false = false -> match o with Done _ => True | Failed _ => check_transaction_id (request_of client_id w t) (sys_progress w) = Some o end)
              /\ resolve_transaction_reply (t_txn_id t) None o = Ok r) as (o & n & r & Hsv & Hnf & Hr).
    { destruct (decide (t_txn_id t <= sys_progress w)) as [Hd|Hd].
      - eexists (Done (mk_commit duplicate (sys_progress w) [] None)), _, _. split; [|by split].
        apply serve_known. unfold check_transaction_id. by rewrite bool_decide_true.
      - eexists (Done (mk_commit committed (t_txn_id t) [] None)), _, _. split; [|by split].
        apply serve_commit; [|done|done]. unfold check_transaction_id. simpl. rewrite bool_decide_false by lia.
        by rewrite bool_decide_false by lia. }
    exists (set_link g (set_resolved (resolved l ++ [r]) (set_c2s ts l)) (if n =? sys_progress w then w else log_txn t w)).
    apply (link_step g w l); try (by destruct (n =? sys_progress w)); try done.
    - intros E. apply (f_equal (fun x => length (c2s x))) in E. rewrite Hts in E. simpl in E. lia.
    - cbn. by rewrite Hs.
    - right. by eapply (sv_process client_id false w g l t ts o n None r). }
  (* something to write *)
  simpl in Hnw. unfold reach in Hnw. simpl in Hnw.
  assert (exists e, queue (box (native (sys_client w))) !! 0%nat = Some e) as [e0 He0].
  { unfold session_empty in Hne. destruct (queue (box (native (sys_client w)))) as [|e q]; [done|]. by exists e. }
  apply lookup_lt_Some in He0. pose proof (outbox_length _ Hbox) as Hlen.
  assert (background_send (sys_client w) || sys_replaying w = true) as Hmode.
  { unfold next_write in Hnw. rewrite Hrd in Hnw. simpl in Hnw. rewrite orb_false_r in Hnw.
    destruct (background_send (sys_client w) || sys_replaying w); [done|]. lia. }
  unfold next_write in Hnw. rewrite Hmode in Hnw. simpl in Hnw.
  destruct (queue (box (native (sys_client w))) !! next_unsent (box (native (sys_client w)))) as [e|] eqn:He;
    [|apply lookup_ge_None in He; lia].
  destruct (replay_one g (sys_client w)) as [c r] eqn:Hr.
  assert (r = Ok (Some (payload e)) /\ sock c = Some g) as [-> Hsc].
  { revert Hr. unfold replay_one, claim_next_unsent, require_phase. rewrite Hgen, bool_decide_false by auto.
    rewrite Hp, bool_decide_false by done. rewrite bool_decide_true by done. unfold claim_storage. rewrite He. simpl. by intros [= <- <-]. }
  exists (set_link g (write (payload e) l) (set_client c w)). apply (link_step g w l); try done.
  - unfold write. rewrite Hup. intros E. apply (f_equal (fun x => length (c2s x))) in E. simpl in E. rewrite length_app in E. simpl in E. lia.
  - unfold write. by rewrite Hup.
  - unfold write. rewrite Hup. cbn. by rewrite Hs.
  - left. apply (cl_write validate_events w g l c); [done|done| |done].
    destruct (background_send (sys_client w)); [|done]. unfold writer_active. apply bool_decide_true. split_and!; [done|done|apply H].
Qed.

(** C6: delivery: on a usable connection, whatever the order of its steps (the
    client writing and reading, the server committing and answering), a bounded
    number of them happens, and when none is left every submitted transaction
    is durable and acknowledged, and [flush] returns [True]. *)
Theorem producer_delivers g w n w' :
  protocol_reachable validate_events client_id false w -> connected g w -> nsteps (on_connection g) n w w' ->
  Z.of_nat n <= delivery_work g w
  /\ ((forall w'', ~ on_connection g w' w'') ->
      flush_check (sys_client w') = Some (Ok true) /\ length (sys_log w') = length (sys_versions w)).
Proof.
  intros H%live_invariant Hcon Hst.
  assert (live_ok w' /\ connected g w' /\ sys_versions w' = sys_versions w /\ Z.of_nat n + delivery_work g w' <= delivery_work g w) as (H' & Hcon' & Hvs & Hwork).
  { induction Hst as [w|n w w1 w2 H1 _ IH]; [split_and!; [done..|lia]|]. pose proof (step_decreases _ _ _ H Hcon H1).
    destruct H1 as (Hp & Hc1 & _ & Hv1 & _). assert (live_ok w1) as Hl1 by (destruct Hp; [by eapply client_step_live|by eapply server_step_live]).
    destruct (IH Hl1 Hc1) as (? & ? & ? & ?). split_and!; [done|done|congruence|lia]. }
  pose proof (delivery_work_pos g w' (lv_base _ H')). split; [lia|]. intros Hstuck.
  destruct (session_empty (native (sys_client w'))) eqn:He; [|by destruct (step_possible g w' H' Hcon' He) as [w'' Hw]; destruct (Hstuck w'')].
  split; [unfold flush_check; by rewrite (lv_failed _ H'), He|]. rewrite <-Hvs.
  destruct (lv_base _ H') as [[Hses Hv Ha _] _ _ _ Hn _]. pose proof (outbox_length _ (so_box _ Hses)) as Hlen.
  unfold session_empty in He. apply bool_decide_eq_true in He. rewrite He in Hlen. simpl in Hlen. unfold sys_progress in Ha. lia.
Qed.
End live_proofs.
(** ** The server side is the transaction committer *)

Section committer.
Context {V L R Offset C St : Type}.
Context `{Rollback.SdfLayer V L} `{EqDecision Offset} `{Applying.UsdApply (Scene.stage (L := L) (R := R) (Offset := Offset)) C}.
Context `{EventStore St}.
Context (list_info_keys : L -> string -> option (list string)) (encode : wire_record -> result (list Byte.byte)).
Context (path_of : string -> list string) (text_of : list string -> string) (set_iter : gset string -> list string).

(** C13: the committer serves a producer session the way the protocol assumes: a
    commit that returns, or raises an [Exception], is one [serve] step on the
    producer's durable progress, which is left alone except by a new
    transaction with the next id. *)
Theorem commit_implements_serve i request (w : Commit.world (L := L) (R := R) (Offset := Offset) (C := C) (St := St)) :
  (i < length (w_events w))%nat -> jok (w_journal w) ->
  let '(w', r) := commit list_info_keys encode path_of text_of set_iter i request w in
  let n := durable (w_journal w) (req_producer request) in
  let n' := durable (w_journal w') (req_producer request) in
  match r with
  | Ok c => serve request n (Done c) n'
  | Err e => is_exception e = true -> serve request n (Failed e) n'
  end.
Proof.
  intros Hi Hj. pose proof (commit_meets_contract list_info_keys encode path_of text_of set_iter i request w Hi Hj) as Hc.
  destruct (commit list_info_keys encode path_of text_of set_iter i request w) as [w' [c|e]]; unfold commit_contract in Hc.
  - destruct Hc as (_ & Hck & Hc). set (n := durable (w_journal w) (req_producer request)) in *.
    destruct (tc_status c) eqn:Est.
    + destruct Hc as (Hid & Htc & _ & _ & _ & _ & Hpr).
      assert (durable (w_journal w') (req_producer request) = req_txn_id request) as ->.
      { rewrite durable_progress, Hpr, lookup_insert_eq. simpl. lia. }
      apply serve_commit; [|done|lia]. unfold check_transaction_id. rewrite bool_decide_false by lia.
      by rewrite bool_decide_false by (intros Hx; lia).
    + destruct Hc as (Hle & Htc & Hrec & Hst & _).
      assert (durable (w_journal w') (req_producer request) = n) as -> by (unfold durable; by rewrite Hst).
      apply serve_known. unfold check_transaction_id. rewrite bool_decide_true by done. destruct c as [st id recs ck].
      simpl in *. by subst.
  - intros n n' He. subst n n'. destruct (Hc He) as (_ & Hst & _ & Hun & Hlt). set (n := durable (w_journal w) (req_producer request)) in *.
    assert (durable (w_journal w') (req_producer request) = n) as -> by (unfold durable; by rewrite Hst).
    destruct (decide (req_txn_id request = n + 1)) as [Heq|Hne].
    + apply serve_failed. unfold check_transaction_id. rewrite bool_decide_false by lia. by rewrite bool_decide_false by lia.
    + apply serve_known. rewrite Hun by lia. unfold check_transaction_id. rewrite bool_decide_false by lia.
      by rewrite bool_decide_true by done.
Qed.
End committer.

(** ** Witnesses *)

Definition accept_all (_ : list event) (_ : LayerMode) : result unit := Ok ().

(** A client connects and sends one transaction, which the server commits. *)
Definition demo_event : event := {["k" := PStr K_ENSURE_PRIM]}.
Definition demo_txn : txn := make_txn [demo_event] "" 1.
Definition demo_connect (g : Z) (w : system) : option system :=
  '(g', c) ← connect_begin (sys_client w);
  if g' =? g then Some (set_link g new_link (set_connecting (Some g) (set_client c w))) else None.
Definition demo_hello (w : system) : server_message := HelloOk (mk_hello_ok (sys_progress w) "i" false).
Definition demo_handshake (g : Z) (w : system) : system :=
  let l := greet (push [demo_hello w] new_link) in
  let w := set_link g l w in
  let c := (connect_finish g (demo_hello w) (sys_client w)).1 in
  set_replaying (negb (background_send c)) (set_link g (set_s2c [] l) (set_connecting None (set_client c w))).
Definition demo_start : system := system_init 4 "s" MANAGED false.
Definition demo_connected : system := demo_handshake 1 (default demo_start (demo_connect 1 demo_start)).
Definition demo_sent : system :=
  let w := set_replaying false demo_connected in
  let c := (send_events accept_all [demo_event] "" (sys_client w)).1 in
  set_link 1 (write demo_txn (set_s2c [] (greet new_link))) (set_versions [[demo_txn]] (set_client c w)).
Definition demo_ack : transaction_result := mk_result 1 true 0 CODE_NONE None.
Definition demo_committed : system :=
  set_link 1 (set_resolved [demo_ack] (set_s2c [] (greet new_link))) (log_txn demo_txn demo_sent).
(** The acknowledgement is lost, and the client connects again. *)
Definition demo_lost : system :=
  set_client (close None (sys_client demo_committed)) (set_link 1 (cut 0 0 (set_resolved [demo_ack] (set_s2c [] (greet new_link)))) demo_committed).
Definition demo_again : system := demo_handshake 2 (default demo_lost (demo_connect 2 demo_lost)).

Lemma demo_serve : serve (request_of "c" demo_sent demo_txn) (sys_progress demo_sent) (Done (mk_commit committed 1 [] None)) 1.
Proof. by apply serve_commit. Qed.

Lemma demo_connect_reachable g w : sys_connecting w = None -> sys_links w !! g = None ->
  match demo_connect g w with Some _ => true | None => false end = true ->
  rtc (protocol_step accept_all "c" false) w (demo_handshake g (default w (demo_connect g w))).
Proof.
  intros Hc Hn Hd. destruct (demo_connect g w) as [w1|] eqn:E; [clear Hd; simpl default|done].
  unfold demo_connect in E. destruct (connect_begin (sys_client w)) as [[g' c]|] eqn:Hb; [|done]. simpl in E.
  destruct (Z.eqb_spec g' g) as [->|]; [|done]. injection E as <-.
  eapply rtc_l; [left; by apply (cl_connect accept_all w g c)|].
  eapply rtc_l; [right; apply (sv_greet "c" false _ g new_link "i" false); [apply lookup_insert_eq|done]|].
  apply rtc_once. left. eapply (cl_handshake accept_all _ g (greet (push [demo_hello _] new_link)) _ [] _ _); [done|apply lookup_insert_eq|done|].
  cbn [sys_client set_link set_connecting set_client]. apply surjective_pairing.
Qed.

Lemma demo_sent_reachable : rtc (protocol_step accept_all "c" false) demo_start demo_sent.
Proof.
  etrans; [exact (demo_connect_reachable 1 demo_start eq_refl eq_refl eq_refl)|].
  eapply rtc_l; [left; by apply (cl_replayed accept_all demo_connected 1 (sys_client demo_connected))|].
  apply rtc_once. left.
  by apply (cl_send accept_all (set_replaying false demo_connected) [demo_event] "" (sys_client demo_sent) (Some (1, demo_txn)) (or_intror eq_refl)).
Qed.

Lemma demo_committed_step : protocol_step accept_all "c" false demo_sent demo_committed.
Proof.
  right. by apply (sv_process "c" false demo_sent 1 (write demo_txn (set_s2c [] (greet new_link))) demo_txn [] _ 1 None demo_ack eq_refl eq_refl eq_refl demo_serve).
Qed.

Lemma demo_again_reachable : protocol_reachable accept_all "c" false demo_again.
Proof.
  exists 4, "s"%string, MANAGED, false. etrans; [apply demo_sent_reachable|]. eapply rtc_l; [apply demo_committed_step|].
  eapply rtc_l; [right; by apply (sv_cut "c" false demo_committed 1 (set_resolved [demo_ack] (set_s2c [] (greet new_link))) 0 0)|].
  eapply rtc_l; [left; apply (cl_close accept_all _ None)|].
  exact (demo_connect_reachable 2 demo_lost eq_refl eq_refl eq_refl).
Qed.

Lemma producer_exactly_once_witness : sys_versions demo_again = [[demo_txn]] /\ length (sys_log demo_again) = 1%nat.
Proof.
  destruct (producer_exactly_once accept_all "c" false demo_again demo_again_reachable) as (_ & _ & _ & _ & _ & H).
  split; [reflexivity|]. apply H. reflexivity.
Defined.

Lemma producer_never_refused_witness : failed (sys_client demo_again) = None.
Proof. apply (producer_never_refused accept_all "c" demo_again demo_again_reachable). Defined.

Lemma demo_sent_connected : connected 1 demo_sent.
Proof. split; [done|]. eexists. split; [done|]. split; [done|]. by apply not_elem_of_nil. Qed.

Lemma producer_delivers_witness : connected 1 demo_sent /\ delivery_work 1 demo_sent = 3
  /\ exists w', on_connection accept_all "c" 1 demo_sent w' /\ 1 <= delivery_work 1 demo_sent.
Proof.
  split_and!; [apply demo_sent_connected|reflexivity|]. exists demo_committed.
  assert (on_connection accept_all "c" 1 demo_sent demo_committed) as Hstep.
  { split_and!; [apply demo_committed_step| |intros E; apply (f_equal (fun w => length (sys_log w))) in E; done|done|done].
    split; [done|]. eexists. split; [done|]. split; [done|]. by apply not_elem_of_nil. }
  split; [done|]. apply (producer_delivers accept_all "c" 1 demo_sent 1 demo_committed).
  - exists 4, "s"%string, MANAGED, false. apply demo_sent_reachable.
  - apply demo_sent_connected.
  - by eapply nsteps_once.
Defined.

Definition demo_commit_world := demo_w [[Scene.demo_ensure_event "/A"]].

Lemma demo_commit_ok : is_ok (demo_commit 0 (demo_request 1) demo_commit_world).2 = true.
Proof. by vm_compute. Qed.
Lemma demo_commit_fresh : durable (w_journal demo_commit_world) (req_producer (demo_request 1)) = 0.
Proof. by vm_compute. Qed.

Lemma commit_implements_serve_witness :
  let '(w', r) := demo_commit 0 (demo_request 1) demo_commit_world in
  match r with
  | Ok c => serve (demo_request 1) 0 (Done c) (durable (w_journal w') (req_producer (demo_request 1)))
  | Err _ => False
  end.
Proof.
  pose proof (commit_implements_serve demo_keys demo_encode demo_path_of demo_text_of demo_iter 0 (demo_request 1)
    demo_commit_world (Nat.lt_succ_diag_r 0) demo_jok) as Hc.
  pose proof demo_commit_ok as Hok. rewrite <-demo_commit_fresh.
  destruct (demo_commit 0 (demo_request 1) demo_commit_world) as [w' [c|e]]; [exact Hc|discriminate Hok].
Defined.
