(* ===== verification/Inbox.v ===== *)
(** The ordered inbox of a receiver: [OrderedReceiverSession]
    ([native/client_core/.../receiver_session.h]), bound to Python as
    [ReceiverInbox].

    Generations, serials and epochs are [std::uint64_t] ([u64]); sequences are
    [std::int32_t], which the server's own [int32] sequences bound, so that the
    one increment ([last_received + 1]) stays in range
    ([inbox_sequences_bounded]).  The mutex makes every method one step. *)

From stdpp Require Import base gmap list option strings relations.
From Stdlib Require Import ZArith Lia.
From S2P Require Import Prelude Producer.
#[local] Set Default Goal Selector "!".
Open Scope Z_scope.

(** [ReceiverMessageKind] *)
Inductive message_kind : Type := EVENT | LAYER_GRAPH_STATE | RESYNC | OTHER.
(** [AcceptResult] *)
Inductive accept_result : Type :=
  ACCEPTED | STALE_GENERATION | QUEUE_FULL | DUPLICATE | SEQUENCE_GAP | INVALID_SEQUENCE.

#[export] Instance message_kind_eq_dec : EqDecision message_kind.
Proof. solve_decision. Defined.
#[export] Instance accept_result_eq_dec : EqDecision accept_result.
Proof. solve_decision. Defined.

Definition sequenced (k : message_kind) : bool :=
  match k with EVENT | LAYER_GRAPH_STATE => true | _ => false end.

(** [ReplayState] *)
Record replay_state := mk_replay_state {
  rs_generation : Z;
  rs_head_seq : Z;
  rs_epoch : Z;
  rs_serial : Z }.

(** [OrderedReceiverSession<Payload>] *)
Record inbox (P : Type) := mk_inbox {
  frames : list P;
  requested : option Z;
  pending : option replay_state;
  max_messages : nat;
  require_contiguous : bool;
  ib_generation : Z;
  incoming : Z;
  drained : Z;
  last_received : Z;
  last_applied : Z;
  replay_head : Z;
  ib_epoch : Z;
  ib_synchronized : bool;
  overflowed : bool }.
Arguments mk_inbox {P}.
Arguments frames {P}. Arguments requested {P}. Arguments pending {P}. Arguments max_messages {P}.
Arguments require_contiguous {P}. Arguments ib_generation {P}. Arguments incoming {P}. Arguments drained {P}.
Arguments last_received {P}. Arguments last_applied {P}. Arguments replay_head {P}. Arguments ib_epoch {P}.
Arguments ib_synchronized {P}. Arguments overflowed {P}.

Section inbox.
Context {P : Type}.
Implicit Types b : inbox P.

(** The constructor. *)
Definition inbox_init (sync_from : Z) (max : nat) (contiguous : bool) : inbox P :=
  mk_inbox [] None None max contiguous 0 0 0 (sync_from - 1) (sync_from - 1) 0 0 false false.
Definition is_valid_configuration (sync_from : Z) (max : nat) : bool := (1 <=? sync_from) && negb (max =? 0)%nat.

(** [ResetSynchronization] *)
Definition reset_synchronization (b : inbox P) : inbox P :=
  mk_inbox (frames b) (requested b) None (max_messages b) (require_contiguous b) (ib_generation b) (incoming b) (drained b)
    (last_received b) (last_applied b) (replay_head b) (ib_epoch b) false (overflowed b).

(** [BeginConnection]: the new generation and the cursor to request. *)
Definition begin_receiving (b : inbox P) : inbox P * (Z * Z) :=
  let b := reset_synchronization b in
  let g := u64 (ib_generation b + 1) in
  (mk_inbox (frames b) None (pending b) (max_messages b) (require_contiguous b) g (incoming b) (drained b)
     (last_received b) (last_applied b) (replay_head b) (ib_epoch b) (ib_synchronized b) (overflowed b),
   (g, default (last_received b + 1) (requested b))).

(** [Disconnect] *)
Definition disconnect_inbox (g : Z) (b : inbox P) : inbox P :=
  if g =? ib_generation b then reset_synchronization b else b.

(** What [Accept] does with a message it keeps. *)
Definition push_frame (k : message_kind) (seq : Z) (p : P) (b : inbox P) : inbox P :=
  let b := match k with
           | RESYNC =>
               reset_synchronization
                 (mk_inbox (frames b) (requested b) (pending b) (max_messages b) (require_contiguous b) (ib_generation b)
                    (incoming b) (drained b) 0 (last_applied b) (replay_head b) (ib_epoch b) (ib_synchronized b) (overflowed b))
           | EVENT | LAYER_GRAPH_STATE =>
               mk_inbox (frames b) (requested b) (pending b) (max_messages b) (require_contiguous b) (ib_generation b)
                 (incoming b) (drained b) (Z.max (last_received b) seq) (last_applied b) (replay_head b) (ib_epoch b)
                 (ib_synchronized b) (overflowed b)
           | OTHER => b
           end in
  mk_inbox (frames b ++ [p]) (requested b) (pending b) (max_messages b) (require_contiguous b) (ib_generation b)
    (u64 (incoming b + 1)) (drained b) (last_received b) (last_applied b) (replay_head b) (ib_epoch b)
    (ib_synchronized b) (overflowed b).

Definition set_overflowed (v : bool) (b : inbox P) : inbox P :=
  mk_inbox (frames b) (requested b) (pending b) (max_messages b) (require_contiguous b) (ib_generation b) (incoming b)
    (drained b) (last_received b) (last_applied b) (replay_head b) (ib_epoch b) (ib_synchronized b) v.

(** [Accept] *)
Definition accept (g : Z) (k : message_kind) (seq : Z) (p : P) (b : inbox P) : inbox P * accept_result :=
  if sequenced k && (seq <? 1) then (b, INVALID_SEQUENCE)
  else if negb (g =? ib_generation b) then (b, STALE_GENERATION)
  else if require_contiguous b && sequenced k && (seq <=? last_received b) then (b, DUPLICATE)
  else if require_contiguous b && sequenced k && negb (seq =? last_received b + 1) then (b, SEQUENCE_GAP)
  else if (length (frames b) =? max_messages b)%nat then (set_overflowed true b, QUEUE_FULL)
  else (push_frame k seq p b, ACCEPTED).

Definition set_pending (m : option replay_state) (b : inbox P) : inbox P :=
  mk_inbox (frames b) (requested b) m (max_messages b) (require_contiguous b) (ib_generation b) (incoming b)
    (drained b) (last_received b) (last_applied b) (replay_head b) (ib_epoch b) (ib_synchronized b) (overflowed b).

(** [AcceptReplayComplete] *)
Definition accept_replay_complete (g head epoch : Z) (b : inbox P) : inbox P * accept_result :=
  if head <? 0 then (b, INVALID_SEQUENCE)
  else if negb (g =? ib_generation b) then (b, STALE_GENERATION)
  else (set_pending (Some (mk_replay_state g head epoch (incoming b))) b, ACCEPTED).

(** [Drain] *)
Definition drain (max : option nat) (b : inbox P) : inbox P * list P :=
  let n := Nat.min (default (length (frames b)) max) (length (frames b)) in
  (mk_inbox (List.skipn n (frames b)) (requested b) (pending b) (max_messages b) (require_contiguous b) (ib_generation b)
     (incoming b) (u64 (drained b + Z.of_nat n)) (last_received b) (last_applied b) (replay_head b) (ib_epoch b)
     (ib_synchronized b) (overflowed b),
   List.firstn n (frames b)).

(** [TryPop] *)
Definition try_pop (b : inbox P) : inbox P * option P :=
  match frames b with
  | [] => (b, None)
  | p :: fs =>
      (mk_inbox fs (requested b) (pending b) (max_messages b) (require_contiguous b) (ib_generation b) (incoming b)
         (u64 (drained b + 1)) (last_received b) (last_applied b) (replay_head b) (ib_epoch b) (ib_synchronized b) (overflowed b),
       Some p)
  end.

Definition set_last_applied (n : Z) (b : inbox P) : inbox P :=
  mk_inbox (frames b) (requested b) (pending b) (max_messages b) (require_contiguous b) (ib_generation b) (incoming b)
    (drained b) (last_received b) n (replay_head b) (ib_epoch b) (ib_synchronized b) (overflowed b).

(** [MarkAppliedThrough] *)
Definition mark_applied_through (g seq : Z) (b : inbox P) : inbox P * bool :=
  if negb (g =? ib_generation b) || (seq <? last_applied b) || (last_received b <? seq) then (b, false)
  else (set_last_applied seq b, true).

(** The marker of [MarkReplayApplied] and [TryMarkReplayApplied], once every
    frame received before it has been drained. *)
Definition ready_marker (b : inbox P) : option replay_state :=
  match pending b with
  | Some m => if negb (rs_generation m =? ib_generation b) || (drained b <? rs_serial m) then None else Some m
  | None => None
  end.
Definition synchronize (m : replay_state) (applied : Z) (b : inbox P) : inbox P :=
  mk_inbox (frames b) (requested b) None (max_messages b) (require_contiguous b) (ib_generation b) (incoming b)
    (drained b) (last_received b) applied (rs_head_seq m) (rs_epoch m) true (overflowed b).

(** [MarkReplayApplied] *)
Definition mark_replay (b : inbox P) : inbox P * bool :=
  match ready_marker b with
  | Some m => (synchronize m (Z.max (last_applied b) (rs_head_seq m)) b, true)
  | None => (b, false)
  end.
(** [TryMarkReplayApplied] *)
Definition try_mark_replay (b : inbox P) : inbox P * bool :=
  match ready_marker b with
  | Some m => if last_applied b <? rs_head_seq m then (b, false) else (synchronize m (last_applied b) b, true)
  | None => (b, false)
  end.

(** [RequestReplayFrom] *)
Definition request_replay (seq : Z) (b : inbox P) : inbox P * bool :=
  if seq <? 1 then (b, false)
  else (mk_inbox [] (Some seq) None (max_messages b) (require_contiguous b) (u64 (ib_generation b + 1)) (incoming b)
          (incoming b) (seq - 1) (seq - 1) (replay_head b) (ib_epoch b) false false, true).

(** [ResetAppliedProgress] *)
Definition reset_applied_progress (b : inbox P) : inbox P :=
  mk_inbox (frames b) (requested b) (pending b) (max_messages b) (require_contiguous b) (ib_generation b) (incoming b)
    (drained b) (last_received b) 0 (replay_head b) (ib_epoch b) false (overflowed b).
Definition clear_overflow (b : inbox P) : inbox P := set_overflowed false b.

(** ** Invariants *)

(** Serials count the frames that came in and went out, the queue is bounded,
    and a pending marker is of the current connection and behind the last frame. *)
Record inbox_ok b : Prop := {
  ib_serials : incoming b = u64 (drained b + Z.of_nat (length (frames b)));
  ib_drained : drained b = u64 (drained b);
  ib_gen : ib_generation b = u64 (ib_generation b);
  ib_bounded : (length (frames b) <= max_messages b)%nat;
  ib_received : 0 <= last_received b;
  ib_applied : 0 <= last_applied b;
  ib_requested n : requested b = Some n -> last_received b = n - 1 /\ frames b = [];
  ib_marker m : pending b = Some m -> rs_generation m = ib_generation b /\ 0 <= rs_head_seq m;
}.

Lemma u64_u64 n : u64 (u64 n) = u64 n.
Proof. unfold u64. by rewrite Zmod_mod. Qed.

Lemma inbox_init_ok n max c : 1 <= n -> inbox_ok (inbox_init n max c).
Proof. intros. split; simpl; done || lia. Qed.

Lemma reset_synchronization_ok b : inbox_ok b -> inbox_ok (reset_synchronization b).
Proof. intros []. by split. Qed.

Lemma begin_receiving_ok b : inbox_ok b -> inbox_ok (begin_receiving b).1.
Proof. intros []. split; simpl; by rewrite ?u64_u64. Qed.

(** The cursor asked for is the one after the last frame received. *)
Lemma begin_receiving_cursor b : inbox_ok b -> (begin_receiving b).2.2 = last_received b + 1.
Proof.
  intros H. unfold begin_receiving. simpl. destruct (requested b) as [n|] eqn:E; [|done]. simpl.
  destruct (ib_requested b H n E) as [-> _]. lia.
Qed.

Lemma disconnect_inbox_ok g b : inbox_ok b -> inbox_ok (disconnect_inbox g b).
Proof. intros. unfold disconnect_inbox. destruct (g =? ib_generation b); [by apply reset_synchronization_ok|done]. Qed.

(** The counters of a pushed frame. *)
Lemma push_frame_serials p b : inbox_ok b ->
  u64 (incoming b + 1) = u64 (drained b + Z.of_nat (length (frames b ++ [p]))).
Proof. intros H. rewrite length_app, (ib_serials b H), u64_add_l. simpl. f_equal. lia. Qed.

Lemma push_frame_ok k seq p b : inbox_ok b -> requested b = None -> (length (frames b) < max_messages b)%nat ->
  inbox_ok (push_frame k seq p b).
Proof.
  intros H Hr Hl. pose proof (push_frame_serials p b H) as Hs. destruct H.
  destruct k; split; simpl; rewrite ?length_app; simpl; rewrite ?length_app in Hs; try done; try lia; try by rewrite Hr.
Qed.

Lemma accept_ok g k seq p b : inbox_ok b -> (g = ib_generation b -> requested b = None) -> inbox_ok (accept g k seq p b).1.
Proof.
  intros H Hr. unfold accept. destruct (sequenced k && (seq <? 1)); [done|].
  destruct (Z.eqb_spec g (ib_generation b)) as [->|]; [simpl|done]. specialize (Hr eq_refl).
  destruct (require_contiguous b && sequenced k && (seq <=? last_received b)); [done|].
  destruct (require_contiguous b && sequenced k && negb (seq =? last_received b + 1)); [done|].
  destruct (Nat.eqb_spec (length (frames b)) (max_messages b)); [by destruct H|]. simpl.
  apply push_frame_ok; [done..|]. pose proof (ib_bounded b H). lia.
Qed.

(** Sequences below [2^31 - 1] keep the cursor of the next connection an [int32]. *)
Lemma inbox_sequences_bounded g k seq p b : last_received b < 2 ^ 31 - 1 -> seq < 2 ^ 31 - 1 ->
  last_received (accept g k seq p b).1 + 1 < 2 ^ 31.
Proof.
  intros Hb Hs. unfold accept, set_overflowed. repeat case_match; simpl; try lia; unfold push_frame; destruct k; simpl; lia.
Qed.

Lemma accept_replay_complete_ok g head epoch b : inbox_ok b -> inbox_ok (accept_replay_complete g head epoch b).1.
Proof.
  intros H. unfold accept_replay_complete. destruct (Z.ltb_spec head 0); [done|].
  destruct (Z.eqb_spec g (ib_generation b)) as [->|]; [|done]. destruct H. split; simpl; try done.
  intros m [= <-]. done.
Qed.

Lemma drain_ok max b : inbox_ok b -> inbox_ok (drain max b).1.
Proof.
  intros H. unfold drain. set (n := Nat.min _ _). assert (n <= length (frames b))%nat by (subst n; lia).
  destruct H as [H1 H2 Hg H3 H4 H5 H6 H7]. split; simpl; try done.
  - rewrite H1, u64_add_l. rewrite (length_skipn n (frames b)). f_equal. lia.
  - by rewrite u64_u64.
  - rewrite (length_skipn n (frames b)). lia.
  - intros m E. destruct (H6 m E) as [? ->]. split; [done|by destruct n].
Qed.

(** What a drain takes, the serials below [2^64] not wrapping. *)
Lemma drain_spec max b : inbox_ok b -> incoming b = drained b + Z.of_nat (length (frames b)) ->
  exists n, (n <= length (frames b))%nat /\
  drain max b = (mk_inbox (drop n (frames b)) (requested b) (pending b) (max_messages b) (require_contiguous b) (ib_generation b)
    (incoming b) (drained b + Z.of_nat n) (last_received b) (last_applied b) (replay_head b) (ib_epoch b)
    (ib_synchronized b) (overflowed b), take n (frames b)).
Proof.
  intros H Hs. exists (Nat.min (default (length (frames b)) max) (length (frames b))). split; [lia|].
  unfold drain. repeat f_equal. apply u64_small. pose proof (ib_serials b H) as H1. pose proof (ib_drained b H) as H2.
  unfold u64 in *. pose proof (Z.mod_pos_bound (drained b + Z.of_nat (length (frames b))) (2 ^ 64) ltac:(lia)).
  pose proof (Z.mod_pos_bound (drained b) (2 ^ 64) ltac:(lia)). lia.
Qed.

Lemma mark_replay_ok b : inbox_ok b -> inbox_ok (mark_replay b).1.
Proof.
  intros H. unfold mark_replay, ready_marker. destruct (pending b) as [m|] eqn:E; [|done].
  destruct (negb _ || _); [done|]. destruct H as [H1 H2 Hg H3 H4 H5 H6 H7]. split; simpl; try done. lia.
Qed.

Lemma request_replay_ok seq b : inbox_ok b -> inbox_ok (request_replay seq b).1.
Proof.
  intros H. unfold request_replay. destruct (Z.ltb_spec seq 1); [done|]. destruct H as [H1 H2 Hg H3 H4 H5 H6 H7].
  split; simpl; try done; try lia.
  - by rewrite Z.add_0_r, H1, u64_u64.
  - by rewrite H1, u64_u64.
  - by rewrite u64_u64.
  - intros n [= <-]. done.
Qed.

Lemma clear_overflow_ok b : inbox_ok b -> inbox_ok (clear_overflow b).
Proof. intros []. by split. Qed.

Lemma try_pop_ok b : inbox_ok b -> inbox_ok (try_pop b).1.
Proof.
  intros H. unfold try_pop. destruct (frames b) as [|p fs] eqn:Ef; [done|]. destruct H as [H1 H2 Hg H3 H4 H5 H6 H7].
  rewrite Ef in *. simpl in *. split; simpl; try done; try lia.
  - rewrite H1, u64_add_l. f_equal. lia.
  - by rewrite u64_u64.
  - intros n Hn. by destruct (H6 n Hn).
Qed.

Lemma mark_applied_through_ok g seq b : inbox_ok b -> inbox_ok (mark_applied_through g seq b).1.
Proof.
  intros H. unfold mark_applied_through. destruct (negb (g =? ib_generation b)); [done|]. destruct (Z.ltb_spec seq (last_applied b)); [done|].
  destruct (last_received b <? seq); [done|]. destruct H. split; simpl; try done. lia.
Qed.

Lemma try_mark_replay_ok b : inbox_ok b -> inbox_ok (try_mark_replay b).1.
Proof.
  intros H. unfold try_mark_replay, ready_marker. destruct (pending b) as [m|]; [|done].
  destruct (negb _ || _); [done|]. destruct (last_applied b <? rs_head_seq m); [done|]. by destruct H.
Qed.

Lemma reset_applied_progress_ok b : inbox_ok b -> inbox_ok (reset_applied_progress b).
Proof. intros []. by split. Qed.

(** ** Use of an inbox

    [Accept] is called with generations [BeginConnection] gave out ([gs]); every
    other call may name any generation: the [connected] setter of [receiver.py]
    disconnects whatever generation is current.  The 64-bit generation counter does
    not wrap: 2^64 - 1 connections and replay requests are not reached. *)
Inductive inbox_step : list Z * inbox P -> list Z * inbox P -> Prop :=
  | is_begin gs b : ib_generation b < 2 ^ 64 - 1 -> inbox_step (gs, b) (gs ++ [(begin_receiving b).2.1], (begin_receiving b).1)
  | is_disconnect gs b g : inbox_step (gs, b) (gs, disconnect_inbox g b)
  | is_accept gs b g k seq p : g ∈ gs -> inbox_step (gs, b) (gs, (accept g k seq p b).1)
  | is_complete gs b g head epoch : inbox_step (gs, b) (gs, (accept_replay_complete g head epoch b).1)
  | is_drain gs b max : inbox_step (gs, b) (gs, (drain max b).1)
  | is_pop gs b : inbox_step (gs, b) (gs, (try_pop b).1)
  | is_applied gs b g seq : inbox_step (gs, b) (gs, (mark_applied_through g seq b).1)
  | is_mark gs b : inbox_step (gs, b) (gs, (mark_replay b).1)
  | is_try_mark gs b : inbox_step (gs, b) (gs, (try_mark_replay b).1)
  | is_request gs b seq : ib_generation b < 2 ^ 64 - 1 -> inbox_step (gs, b) (gs, (request_replay seq b).1)
  | is_reset gs b : inbox_step (gs, b) (gs, reset_applied_progress b)
  | is_clear gs b : inbox_step (gs, b) (gs, clear_overflow b).

(** A generation that was given out is an old one, or the current one with no replay requested since. *)
Definition issued_ok (gs : list Z) b : Prop := Forall (fun g => g <= ib_generation b /\ (g = ib_generation b -> requested b = None)) gs.

Lemma issued_same gs b b' : ib_generation b' = ib_generation b -> requested b' = requested b -> issued_ok gs b -> issued_ok gs b'.
Proof. intros H1 H2 H. eapply Forall_impl; [exact H|]. intros g. by rewrite H1, H2. Qed.

Lemma accept_generation g k seq p b : ib_generation (accept g k seq p b).1 = ib_generation b /\ requested (accept g k seq p b).1 = requested b.
Proof. unfold accept. repeat case_match; simpl; try done; unfold push_frame; by destruct k. Qed.

Lemma generation_range b : inbox_ok b -> 0 <= ib_generation b.
Proof. intros H. rewrite (ib_gen b H). unfold u64. apply Z.mod_pos_bound. lia. Qed.

Lemma inbox_step_ok gs b gs' b' : inbox_ok b -> issued_ok gs b -> inbox_step (gs, b) (gs', b') -> inbox_ok b' /\ issued_ok gs' b'.
Proof.
  intros H Hi Hs. pose proof (generation_range b H) as Hpos. inversion Hs; subst; clear Hs.
  - split; [by apply begin_receiving_ok|]. simpl. rewrite u64_small by lia. apply Forall_app. split; [|by repeat constructor; simpl; lia].
    eapply Forall_impl; [exact Hi|]. simpl. intros g [? _]. lia.
  - split; [by apply disconnect_inbox_ok|]. unfold disconnect_inbox. destruct (g =? ib_generation b); [|done]. by eapply issued_same.
  - unfold issued_ok in Hi. rewrite Forall_forall in Hi. destruct (accept_generation g k seq p b). split.
    + apply accept_ok; [done|]. by apply Hi.
    + eapply issued_same; [done..|]. by apply Forall_forall.
  - split; [by apply accept_replay_complete_ok|]. eapply issued_same; [| |exact Hi]; unfold accept_replay_complete; by repeat case_match.
  - split; [by apply drain_ok|]. by eapply issued_same.
  - split; [by apply try_pop_ok|]. eapply issued_same; [| |exact Hi]; unfold try_pop; by case_match.
  - split; [by apply mark_applied_through_ok|]. eapply issued_same; [| |exact Hi]; unfold mark_applied_through; by case_match.
  - split; [by apply mark_replay_ok|]. eapply issued_same; [| |exact Hi]; unfold mark_replay; by case_match.
  - split; [by apply try_mark_replay_ok|]. eapply issued_same; [| |exact Hi]; unfold try_mark_replay; by repeat case_match.
  - split; [by apply request_replay_ok|]. unfold request_replay. destruct (seq <? 1); [done|]. simpl. rewrite u64_small by lia.
    eapply Forall_impl; [exact Hi|]. simpl. intros g [? _]. lia.
  - split; [by apply reset_applied_progress_ok|]. by eapply issued_same.
  - split; [by apply clear_overflow_ok|]. by eapply issued_same.
Qed.

(** C38: an inbox made with a valid configuration stays well formed whatever
    sequence of calls is made on it, by any number of threads, as long as frames are
    accepted only for generations [BeginConnection] gave out (the other calls may
    name any generation) and before the 64-bit generation counter wraps: its queue
    never exceeds the bound, its serials count what came in and went out, its
    sequences are not negative, a requested cursor is the one after the last frame
    with nothing queued, and a completion waiting to be published belongs to the
    current connection. *)
Theorem inbox_stays_ok n max contiguous gs b : is_valid_configuration n max = true ->
  rtc inbox_step ([], inbox_init n max contiguous) (gs, b) -> inbox_ok b.
Proof.
  unfold is_valid_configuration. intros [Hn%Z.leb_le _]%andb_true_iff Hr.
  assert (forall x y, rtc inbox_step x y -> inbox_ok x.2 -> issued_ok x.1 x.2 -> inbox_ok y.2) as Hgen.
  { induction 1 as [|[gs1 b1] [gs2 b2] y Hs _ IH]; intros H Hi; [done|]. destruct (inbox_step_ok _ _ _ _ H Hi Hs). by apply IH. }
  apply (Hgen _ _ Hr); [by apply inbox_init_ok|constructor].
Qed.

(** That condition is needed: the generation a replay request moves to was given to
    nobody, and a frame accepted for it is queued beside the requested cursor. *)
Lemma unissued_generation_breaks n p b b' : request_replay n b = (b', true) -> max_messages b <> 0%nat ->
  ~ inbox_ok (accept (ib_generation b') OTHER 0 p b').1.
Proof.
  unfold request_replay. destruct (n <? 1); [done|]. intros [= <-] Hm [_ _ _ _ _ _ Hr _]. revert Hr. unfold accept. simpl.
  rewrite Z.eqb_refl, andb_false_r. simpl. destruct (max_messages b); [done|]. simpl. intros Hr. by destruct (Hr n eq_refl).
Qed.
End inbox.

Lemma inbox_stays_ok_witness : is_valid_configuration 1 4 = true
  /\ inbox_ok (accept 1 EVENT 1 "row" (begin_receiving (inbox_init 1 4 false)).1).1.
Proof.
  split; [reflexivity|]. apply (inbox_stays_ok 1 4 false [1]); [reflexivity|].
  eapply rtc_l; [by apply is_begin|]. eapply rtc_l; [|apply rtc_refl]. apply (is_accept [1] (begin_receiving (inbox_init 1 4 false)).1 1 EVENT 1 "row"). by left.
Defined.
