(* ===== verification/Receiver.v ===== *)
(** The receiver: [ReceiverThread] ([receiver.py]) on the native inbox
    ([Inbox.v]), the batch decoder ([codec.decode_messages]) and the consumer
    that drains and applies ([dispatcher.EventDispatcher.drain_and_apply]).

    Every critical section of [_replay_lock] is one function here.  What decodes
    a FlatBuffers table ([decode_received_event], ...) and what the consumer does
    to the stage are parameters: the state of the replica is the list of events
    its consumer has applied since the last reset.  Observer callbacks, the
    handshake event and log messages are left out; an exception that leaves a
    handler ends the connection, as in [run]. *)

From stdpp Require Import base gmap list option strings.
From Stdlib Require Import ZArith Lia.
From S2P Require Import Prelude Constants Producer Inbox.
#[local] Set Default Goal Selector "!".
Open Scope Z_scope.

(** ** Messages *)

(** The replay identity: the server instance and its history epoch. *)
Abbreviation replay_identity := (string * Z)%type.

(** [make_hello] of a receiver, the fields the server's replay reads. *)
Record hello := mk_hello {
  sync_from : Z;
  hl_instance : option string;
  hl_epoch : option Z;
  hl_layered : bool;
  hl_layer_mode : LayerMode }.

(** [hello_ok] *)
Record receiver_hello_ok := mk_rhello_ok {
  ho_instance : string;
  ho_replay_identity : bool;
  ho_epoch : option Z;
  ho_shared_stage : bool;
  ho_layered : bool;
  ho_token : string;
  ho_metadata : option event }.

(** The messages a receiver reads; [D] is an encoded table. *)
Inductive message (D : Type) : Type :=
  | HelloOkMsg (h : receiver_hello_ok)
  | AuthRejectedMsg (reason : string)
  | HelloRejectedMsg (code : Z) (reason : string)
  | BroadcastEvent (seq : Z) (d : D)
  | LayerGraphState (seq : Z) (d : D)
  | Resync
  | ReplayComplete (head_seq epoch : Z)
  | LayerStackState (d : D)
  | Ping
  | Playback (d : D)
  | RateLimitedMsg (retry_after : pyfloat)
  | OtherMsg (d : D).
Arguments HelloOkMsg {D}. Arguments AuthRejectedMsg {D}. Arguments HelloRejectedMsg {D}.
Arguments BroadcastEvent {D}. Arguments LayerGraphState {D}. Arguments Resync {D}. Arguments ReplayComplete {D}.
Arguments LayerStackState {D}. Arguments Ping {D}. Arguments Playback {D}. Arguments RateLimitedMsg {D}. Arguments OtherMsg {D}.

(** [payload_type_and_sequence] with [_MESSAGE_KIND_BY_PAYLOAD]. *)
Definition kind_and_sequence {D} (m : message D) : message_kind * Z :=
  match m with
  | BroadcastEvent seq _ => (EVENT, seq)
  | LayerGraphState seq _ => (LAYER_GRAPH_STATE, seq)
  | Resync => (RESYNC, 0)
  | _ => (OTHER, 0)
  end.

Definition LAYERED_REPLAY_REQUIRED : Z := 1.
Definition LAYER_MODE_MISMATCH : Z := 2.

(** ** [ReceiverThread] *)

(** What the thread knows of the history its received prefix belongs to. *)
Record replay_ids := mk_ids {
  id_received : option replay_identity;
  id_initial : option replay_identity;
  id_instance : string;
  id_supported : bool;
  id_hello_sent : bool;
  id_requested : bool;
  id_proven : bool;
  id_reset_on_hello : bool }.

(** The replay state last published to the application. *)
Record published_replay := mk_published {
  replay_head_seq : Z;
  replay_epoch : Z;
  published_instance : string }.

(** What the peer negotiated or rejected. *)
Record negotiated := mk_negotiated {
  n_auth_rejected : bool;
  n_hello_rejected : bool;
  n_code : Z;
  n_reason : string;
  n_layer_mode : LayerMode;
  n_layered : bool;
  n_token : string;
  n_metadata : event }.

Record receiver (D : Type) := mk_receiver {
  r_inbox : inbox (message D);
  connected : bool;
  synchronized_event : bool;
  ids : replay_ids;
  published : published_replay;
  peer : negotiated;
  (** [layered_replay], [layer_mode] and [reconnect] *)
  want_layered : bool;
  want_layer_mode : LayerMode;
  reconnect : bool }.
Arguments mk_receiver {D}. Arguments r_inbox {D}. Arguments connected {D}. Arguments synchronized_event {D}.
Arguments ids {D}. Arguments published {D}. Arguments peer {D}. Arguments want_layered {D}.
Arguments want_layer_mode {D}. Arguments reconnect {D}.

Section receiver.
Context {D : Type}.
Implicit Types r : receiver D.

(** [ReceiverThread.__init__]; its inbox accepts gaps ([require_contiguous] is
    the native default), the consumer detects them. *)
Definition receiver_init (from : Z) (max_queue : nat) (layered : bool) (mode : LayerMode) (again : bool) (token : string) : receiver D :=
  mk_receiver (inbox_init from max_queue false) false false
    (mk_ids None None "" false false false false false) (mk_published 0 0 "")
    (mk_negotiated false false 0 "" MANAGED false token ∅) layered mode again.

Definition set_box (b : inbox (message D)) r : receiver D :=
  mk_receiver b (connected r) (synchronized_event r) (ids r) (published r) (peer r) (want_layered r) (want_layer_mode r) (reconnect r).
Definition set_sync (v : bool) r : receiver D :=
  mk_receiver (r_inbox r) (connected r) v (ids r) (published r) (peer r) (want_layered r) (want_layer_mode r) (reconnect r).
Definition set_ids (i : replay_ids) r : receiver D :=
  mk_receiver (r_inbox r) (connected r) (synchronized_event r) i (published r) (peer r) (want_layered r) (want_layer_mode r) (reconnect r).
Definition set_peer (n : negotiated) r : receiver D :=
  mk_receiver (r_inbox r) (connected r) (synchronized_event r) (ids r) (published r) n (want_layered r) (want_layer_mode r) (reconnect r).
Definition set_published (p : published_replay) r : receiver D :=
  mk_receiver (r_inbox r) (connected r) (synchronized_event r) (ids r) p (peer r) (want_layered r) (want_layer_mode r) (reconnect r).

(** The [connected] setter. *)
Definition set_connected (value : bool) r : receiver D :=
  if value then
    mk_receiver (r_inbox r) true (synchronized_event r) (ids r) (published r) (peer r) (want_layered r) (want_layer_mode r) (reconnect r)
  else
    mk_receiver (disconnect_inbox (ib_generation (r_inbox r)) (r_inbox r)) false false (ids r) (published r) (peer r)
      (want_layered r) (want_layer_mode r) (reconnect r).

(** [synchronized] *)
Definition synchronized r : bool := connected r && synchronized_event r.

(** [mark_replay_applied] *)
Definition mark_replay_applied r : receiver D * bool :=
  let '(b, ok) := mark_replay (r_inbox r) in
  if ok then
    (set_sync true
       (set_published (mk_published (replay_head b) (ib_epoch b)
                         (match id_received (ids r) with Some (i, _) => i | None => "" end)) (set_box b r)), true)
  else (set_box b r, false).

(** [request_replay_from]; closing the socket ends the connection's reads, which
    the generation already refuses. *)
Definition request_replay_from (seq_start : Z) r : receiver D * result unit :=
  if seq_start <? 1 then (r, Err ValueError)
  else
    let i := ids r in
    let b := (request_replay seq_start (r_inbox r)).1 in
    (set_ids (mk_ids None None (id_instance i) (id_supported i) (id_hello_sent i) (id_requested i) (id_proven i)
                (if seq_start =? 1 then true else id_reset_on_hello i))
       (set_sync false (set_box b r)), Ok ()).

(** *** Connecting ([_connect_and_recv] up to the first read) *)

(** The generation, and the hello that is sent. *)
Definition connect_begin r : receiver D * (Z * hello) :=
  let '(b, (g, from)) := begin_receiving (r_inbox r) in
  let i := ids r in
  let requested := id_hello_sent i in
  let h := mk_hello from
             (if requested then Some (match id_received i with Some (s, _) => s | None => "" end) else None)
             (if requested then snd <$> id_received i else None)
             (want_layered r) (want_layer_mode r) in
  (set_ids (mk_ids (id_received i) (id_initial i) (id_instance i) (id_supported i) true requested (id_proven i) (id_reset_on_hello i))
     (set_sync false (set_box b r)), (g, h)).

(** After [send_msg(sock, hello)]. *)
Definition hello_was_sent r : receiver D :=
  let n := peer r in
  set_peer (mk_negotiated false false 0 "" (n_layer_mode n) (n_layered n) (n_token n) (n_metadata n)) r.

Definition reject_hello (code : Z) (reason : string) r : receiver D :=
  let n := peer r in
  set_peer (mk_negotiated (n_auth_rejected n) true code reason (n_layer_mode n) (n_layered n) (n_token n) (n_metadata n)) r.

(** [_connection_replay_identity] *)
Definition connection_replay_identity (epoch : option Z) (i : replay_ids) : option replay_identity :=
  if negb (id_supported i) || bool_decide (id_instance i = "") then None
  else match epoch with Some e => Some (id_instance i, e) | None => None end.

(** *** Reading *)

(** [_handle_control_message]: [None] for a message that is not one. *)
Definition handle_control_message (m : message D) (g : Z) r : receiver D * result (option bool) :=
  match m with
  | Ping | Playback _ => (r, Ok (Some true))
  | ReplayComplete head epoch =>
      let '(b, res) := accept_replay_complete g head epoch (r_inbox r) in
      let i := ids r in
      match res with
      | INVALID_SEQUENCE => (r, Err ValueError)
      | ACCEPTED =>
          (set_ids (mk_ids (if id_proven i then connection_replay_identity (Some epoch) i else None) None (id_instance i)
                      (id_supported i) (id_hello_sent i) (id_requested i) (id_proven i) (id_reset_on_hello i))
             (set_box b r), Ok (Some true))
      | STALE_GENERATION => (set_box b r, Ok (Some false))
      | _ => (set_box b r, Ok (Some true))
      end
  | _ => (r, Ok None)
  end.

(** [_handle_data_message] *)
Definition handle_data_message (m : message D) (g : Z) r : receiver D * result bool :=
  match handle_control_message m g r with
  | (r, Err e) => (r, Err e)
  | (r, Ok (Some handled)) => (r, Ok handled)
  | (r, Ok None) =>
      let '(kind, seq) := kind_and_sequence m in
      let '(b, res) := accept g kind seq m (r_inbox r) in
      let i := ids r in
      let r := set_box b r in
      match res with
      | INVALID_SEQUENCE => (r, Err ValueError)
      | ACCEPTED =>
          (if bool_decide (kind = RESYNC) then
             set_ids (mk_ids (id_initial i) None (id_instance i) (id_supported i) (id_hello_sent i) (id_requested i) true
                        (id_reset_on_hello i)) (set_sync false r)
           else r, Ok true)
      | STALE_GENERATION | QUEUE_FULL => (r, Ok false)
      | DUPLICATE => (r, Ok true)
      | SEQUENCE_GAP => ((request_replay_from (last_applied (r_inbox r) + 1) r).1, Ok false)
      end
  end.

(** The rest of the handshake under [_replay_lock]. *)
Definition complete_handshake (h : receiver_hello_ok) (from g : Z) r : receiver D * result bool :=
  if negb (g =? ib_generation (r_inbox r)) then (r, Ok false)
  else
    let i := ids r in
    let identity := connection_replay_identity (ho_epoch h) i in
    let received := match identity with None => None | Some _ => id_received i end in
    let r := set_ids (mk_ids received identity (id_instance i) (id_supported i) (id_hello_sent i)
                        (id_requested i) (id_proven i) (id_reset_on_hello i)) r in
    let '(r, ok) :=
      if id_reset_on_hello i then
        match handle_data_message Resync g r with
        | (r, Ok true) =>
            let j := ids r in
            (set_ids (mk_ids (id_received j) (id_initial j) (id_instance j) (id_supported j) (id_hello_sent j)
                        (id_requested j) (id_proven j) false) r, Ok true)
        | (r, res) => (r, res)
        end
      else (r, Ok true) in
    match ok with
    | Ok true =>
        let j := ids r in
        let matches_ := id_requested j && bool_decide (id_received j = identity) in
        let received := if bool_decide (identity ≠ None) && ((from =? 1) || matches_) then identity else id_received j in
        (set_connected true
           (set_ids (mk_ids received (id_initial j) (id_instance j) (id_supported j) (id_hello_sent j) (id_requested j)
                       (id_proven j) (id_reset_on_hello j)) r), Ok true)
    | _ => (r, ok)
    end.

(** [_handle_handshake_message] *)
Definition handle_handshake_message (m : message D) (from g : Z) r : receiver D * result bool :=
  let n := peer r in
  match m with
  | AuthRejectedMsg reason =>
      (set_peer (mk_negotiated true (n_hello_rejected n) (n_code n) reason (n_layer_mode n) (n_layered n) (n_token n) (n_metadata n)) r, Ok false)
  | HelloRejectedMsg code reason => (reject_hello code reason r, Ok false)
  | HelloOkMsg h =>
      let i := ids r in
      let r := set_ids (mk_ids (id_received i) (id_initial i) (ho_instance h) (ho_replay_identity h) (id_hello_sent i)
                          (id_requested i) ((from =? 1) || id_requested i) (id_reset_on_hello i)) r in
      let mode := if ho_shared_stage h then SHARED_STAGE else MANAGED in
      let r := set_peer (mk_negotiated (n_auth_rejected n) (n_hello_rejected n) (n_code n) (n_reason n) mode (n_layered n)
                           (n_token n) (n_metadata n)) r in
      if bool_decide (mode ≠ want_layer_mode r) then
        (reject_hello LAYER_MODE_MISMATCH "server did not negotiate requested layer mode" r, Ok false)
      else
        let layered := want_layered r && ho_layered h in
        let r := set_peer (mk_negotiated (n_auth_rejected n) (n_hello_rejected n) (n_code n) (n_reason n) mode layered
                             (n_token n) (n_metadata n)) r in
        if want_layered r && negb layered then
          (reject_hello LAYERED_REPLAY_REQUIRED "server did not negotiate requested layered replay" r, Ok false)
        else
          let r := set_peer (mk_negotiated (n_auth_rejected n) (n_hello_rejected n) (n_code n) (n_reason n) mode layered
                               (if bool_decide (ho_token h = "") then n_token n else ho_token h)
                               (match ho_metadata h with
                                | Some md => if bool_decide (md = ∅) then n_metadata n else md
                                | None => n_metadata n
                                end)) r in
          complete_handshake h from g r
  | _ => (r, Ok true)
  end.

(** One turn of the read loop of [_connect_and_recv]; [false] ends the connection. *)
Definition read_message (m : message D) (from g : Z) r : receiver D * bool :=
  if negb (g =? ib_generation (r_inbox r)) then (r, false)
  else
    let '(r, res) := if connected r then handle_data_message m g r else handle_handshake_message m from g r in
    (r, match res with Ok b => b | Err _ => false end).

(** [_should_stop_reconnecting], but for [stop()]. *)
Definition should_stop_reconnecting r : bool :=
  negb (reconnect r) || n_auth_rejected (peer r) || n_hello_rejected (peer r).

(** The end of one turn of [run]. *)
Definition end_connection r : receiver D :=
  let r := set_connected false r in
  if should_stop_reconnecting r then r
  else if overflowed (r_inbox r) then set_box (clear_overflow (r_inbox r)) r else r.

(** [drain_queue]; the inbox refuses a zero count. *)
Definition drain_queue (max : option nat) r : receiver D * result (list (message D)) :=
  if bool_decide (max = Some 0%nat) then (r, Err ValueError)
  else let '(b, ms) := drain max (r_inbox r) in (set_box b r, Ok ms).
End receiver.

(** ** Decoding a batch *)

Section decode.
Context {D Rec E : Type}.
Context (decode_received_event : D -> result Rec) (event_of : Rec -> option E).
Context (decode_state : D -> result E) (decode_other : D -> result unit).

(** [DecodeResult] *)
Record DecodeResult := mk_decoded {
  received : list E;
  received_records : list Rec;
  layer_stack_states : list E;
  layer_graph_states : list E;
  dr_last_seq : Z;
  resync_requested : bool;
  rate_limited_retry_after : option pyfloat;
  replay_complete : option (Z * Z);
  errors : list exn }.

Definition decoded_init (last_seq : Z) : DecodeResult := mk_decoded [] [] [] [] last_seq false None None [].

(** The cases of the loop body that end in [continue]. *)
Definition reset_decoded (clear : bool) (x : DecodeResult) : DecodeResult :=
  if clear then mk_decoded [] [] [] [] 0 true (rate_limited_retry_after x) (replay_complete x) (errors x)
  else mk_decoded (received x) (received_records x) (layer_stack_states x) (layer_graph_states x) 0 true
         (rate_limited_retry_after x) (replay_complete x) (errors x).
Definition add_stack_state (s : E) (x : DecodeResult) : DecodeResult :=
  mk_decoded (received x) (received_records x) (layer_stack_states x ++ [s]) (layer_graph_states x) (dr_last_seq x)
    (resync_requested x) (rate_limited_retry_after x) (replay_complete x) (errors x).
Definition set_rate_limited (f : pyfloat) (x : DecodeResult) : DecodeResult :=
  mk_decoded (received x) (received_records x) (layer_stack_states x) (layer_graph_states x) (dr_last_seq x)
    (resync_requested x) (Some f) (replay_complete x) (errors x).
Definition set_replay_complete (p : Z * Z) (x : DecodeResult) : DecodeResult :=
  mk_decoded (received x) (received_records x) (layer_stack_states x) (layer_graph_states x) (dr_last_seq x)
    (resync_requested x) (rate_limited_retry_after x) (Some p) (errors x).
Definition add_error (e : exn) (x : DecodeResult) : DecodeResult :=
  mk_decoded (received x) (received_records x) (layer_stack_states x) (layer_graph_states x) (dr_last_seq x)
    (resync_requested x) (rate_limited_retry_after x) (replay_complete x) (errors x ++ [e]).

(** The rest of the body, for a sequenced table. *)
Definition add_record (preserve : bool) (item : Rec + E) (x : DecodeResult) : DecodeResult :=
  match item with
  | inr state =>
      mk_decoded (received x) (received_records x) (layer_stack_states x) (layer_graph_states x ++ [state]) (dr_last_seq x)
        (resync_requested x) (rate_limited_retry_after x) (replay_complete x) (errors x)
  | inl record =>
      match event_of record with
      | None => x
      | Some ev =>
          mk_decoded (received x ++ [ev]) (if preserve then received_records x ++ [record] else received_records x)
            (layer_stack_states x) (layer_graph_states x) (dr_last_seq x)
            (resync_requested x) (rate_limited_retry_after x) (replay_complete x) (errors x)
      end
  end.
Definition set_last_seq (n : Z) (x : DecodeResult) : DecodeResult :=
  mk_decoded (received x) (received_records x) (layer_stack_states x) (layer_graph_states x) n
    (resync_requested x) (rate_limited_retry_after x) (replay_complete x) (errors x).
Definition SequenceGapError : exn := ValueError.

Definition decode_sequenced (contiguous preserve : bool) (seq : Z) (item : Rec + E) (x : DecodeResult) : result DecodeResult :=
  if negb (seq =? 0) && (seq <=? dr_last_seq x) then Ok x
  else if contiguous && negb (seq =? 0) && negb (seq =? dr_last_seq x + 1) then Err SequenceGapError
  else Ok (add_record preserve item (if seq =? 0 then x else set_last_seq seq x)).

(** One turn of the loop: the new result, or the exception that ends it. *)
Definition decode_one (clear contiguous preserve : bool) (m : message D) (x : DecodeResult) : result DecodeResult :=
  match m with
  | Resync => Ok (reset_decoded clear x)
  | LayerStackState d => s ← decode_state d; Ok (add_stack_state s x)
  | RateLimitedMsg f => Ok (set_rate_limited f x)
  | ReplayComplete h e => Ok (set_replay_complete (h, e) x)
  | BroadcastEvent seq d => rec ← decode_received_event d; decode_sequenced contiguous preserve seq (inl rec) x
  | LayerGraphState seq d => s ← decode_state d; decode_sequenced contiguous preserve seq (inr s) x
  | Playback d | OtherMsg d => _ ← decode_other d; Ok x
  | HelloOkMsg _ | AuthRejectedMsg _ | HelloRejectedMsg _ _ | Ping => Ok x
  end.

Fixpoint decode_loop (clear contiguous preserve : bool) (ms : list (message D)) (x : DecodeResult) : DecodeResult :=
  match ms with
  | [] => x
  | m :: ms =>
      match decode_one clear contiguous preserve m x with
      | Ok x => decode_loop clear contiguous preserve ms x
      | Err e => add_error e x
      end
  end.

(** [decode_messages] *)
Definition decode_messages (last_seq : Z) (clear contiguous preserve : bool) (ms : list (message D)) : DecodeResult :=
  decode_loop clear contiguous preserve ms (decoded_init last_seq).

(** ** The consumer *)

(** [EventDispatcher]: its cursor, the frames a drain has taken and not settled
    yet, and (a history variable) the events applied since the last reset. *)
Record consumer := mk_consumer {
  c_last_seq : Z;
  c_in_hand : option (list (message D));
  c_applied : list E }.

Definition consumer_init (from : Z) (snapshot : list E) : consumer := mk_consumer (from - 1) None snapshot.

(** [drain_and_apply] up to the drain. *)
Definition drain_begin (max : option nat) (r : receiver D) (c : consumer) : result (receiver D * consumer) :=
  match drain_queue max r with
  | (r, Ok ms) => Ok (r, mk_consumer (c_last_seq c) (Some ms) (c_applied c))
  | (_, Err e) => Err e
  end.

(** The rest of [drain_and_apply]; [outcome] is how applying the batch, the
    callbacks included, ended.  Without a batch nothing is applied. *)
Definition drain_finish (outcome : result unit) (r : receiver D) (c : consumer) : receiver D * consumer :=
  match c_in_hand c with
  | None => (r, c)
  | Some [] => ((mark_replay_applied r).1, mk_consumer (c_last_seq c) None (c_applied c))
  | Some ms =>
      let x := decode_messages (c_last_seq c) true true false ms in
      let recovery := if resync_requested x then 0 else c_last_seq c in
      let before := if resync_requested x then [] else c_applied c in
      match outcome with
      | Err e =>
          if is_exception e then
            ((request_replay_from (recovery + 1) r).1, mk_consumer recovery None before)
          else (r, mk_consumer (c_last_seq c) None (c_applied c))
      | Ok _ =>
          let c := mk_consumer (dr_last_seq x) None (before ++ received x) in
          match errors x with
          | [] => ((mark_replay_applied r).1, c)
          | _ => ((request_replay_from (dr_last_seq x + 1) r).1, c)
          end
      end
  end.

(** [drain_and_apply], without another thread in between. *)
Definition drain_and_apply (max : option nat) (outcome : result unit) (r : receiver D) (c : consumer) :
    result (receiver D * consumer) :=
  '(r, c) ← drain_begin max r c; Ok (drain_finish outcome r c).
End decode.
Arguments mk_consumer {D E}. Arguments c_last_seq {D E}. Arguments c_in_hand {D E}. Arguments c_applied {D E}.
Arguments consumer : clear implicits.
Arguments DecodeResult : clear implicits.
