(* ===== verification/Playback.v ===== *)
(** Playback leadership and playhead: [PlaybackController] ([server/playback.py]).
    Every method holds the lock for its whole body, so each is one step. *)

From stdpp Require Import base list option strings.
From Stdlib Require Import ZArith Lia.
From S2P Require Import Prelude.
#[local] Set Default Goal Selector "!".

(** [self.state]; [leader_client_id] is [None] while vacant. *)
Record playback := mk_playback {
  pb_time : pyfloat;
  playing : bool;
  rate : pyfloat;
  leader : option string }.

Definition float_of_Z (z : Z) : pyfloat := Fin (Qcanon.Q2Qc (QArith_base.inject_Z z)).
Definition playback_init : playback := mk_playback (float_of_Z 0) false (float_of_Z 1) None.

(** [self.state["leader_client_id"] or ""] *)
Definition leader_text (p : playback) : string := default "" (leader p).

(** The wire shape; the leader is a string. *)
Record playback_snapshot := mk_playback_snapshot {
  s_time : pyfloat; s_playing : bool; s_rate : pyfloat; s_leader : string }.
Definition snapshot (p : playback) : playback_snapshot :=
  mk_playback_snapshot (pb_time p) (playing p) (rate p) (leader_text p).

(** [claim]: the granted flag and the leader it reports. *)
Definition claim (client_id : string) (initial_time : option pyfloat) (p : playback) : playback * (bool * string) :=
  let current := leader_text p in
  if bool_decide (client_id = "") then (p, (false, current))
  else if negb (bool_decide (current = "")) && negb (bool_decide (current = client_id)) then (p, (false, current))
  else (mk_playback (default (pb_time p) initial_time) (playing p) (rate p) (Some client_id), (true, client_id)).

(** Why a control was refused. *)
Inductive control_rejection : Type := NotLeader (current : string) | UnknownAction (action : string).

(** What a leader's command does; [None] for an unknown action. *)
Definition perform (action : string) (time_value rate_value : pyfloat) (p : playback) : option playback :=
  if bool_decide (action = "play") then Some (mk_playback (pb_time p) true (rate p) (leader p))
  else if bool_decide (action = "pause") then Some (mk_playback (pb_time p) false (rate p) (leader p))
  else if bool_decide (action = "stop") then Some (mk_playback (float_of_Z 0) false (rate p) (leader p))
  else if bool_decide (action = "set_time") then Some (mk_playback time_value (playing p) (rate p) (leader p))
  else if bool_decide (action = "set_rate") then Some (mk_playback (pb_time p) (playing p) rate_value (leader p))
  else None.

(** [apply_control] *)
Definition apply_control (client_id action : string) (time_value rate_value : pyfloat) (p : playback) :
    playback * ((playback_snapshot + control_rejection) * string) :=
  let current := leader_text p in
  if negb (bool_decide (current = client_id)) then (p, (inr (NotLeader current), current))
  else match perform action time_value rate_value p with
       | Some p' => (p', (inl (snapshot p'), current))
       | None => (p, (inr (UnknownAction action), current))
       end.

(** [release] *)
Definition release (client_id : string) (p : playback) : playback * bool :=
  if bool_decide (client_id = "") then (p, false)
  else if bool_decide (leader p = Some client_id)
       then (mk_playback (pb_time p) (playing p) (rate p) None, true)
       else (p, false).

(** ** Leadership *)

(** One call, and the client that made it. *)
Inductive playback_call : Type :=
  | Claim (client_id : string) (initial_time : option pyfloat)
  | Control (client_id action : string) (time_value rate_value : pyfloat)
  | Release (client_id : string).
Definition caller (c : playback_call) : string :=
  match c with Claim i _ | Control i _ _ _ | Release i => i end.
Definition call (c : playback_call) (p : playback) : playback :=
  match c with
  | Claim i t => (claim i t p).1
  | Control i a t r => (apply_control i a t r p).1
  | Release i => (release i p).1
  end.

(** The leader is never the empty string. *)
Definition playback_ok (p : playback) : Prop := leader p ≠ Some "".

Lemma leader_text_Some p i : playback_ok p -> i ≠ "" -> (leader_text p = i <-> leader p = Some i).
Proof.
  unfold playback_ok, leader_text. intros Hok Hi. split; [|by intros ->].
  destruct (leader p); simpl; [by intros ->|by intros <-].
Qed.

Lemma leader_text_empty p : playback_ok p -> (leader_text p = "" <-> leader p = None).
Proof. unfold playback_ok, leader_text. intros Hok. destruct (leader p); simpl; split; [intros ->|..]; done. Qed.

Lemma perform_leader a t v p p' : perform a t v p = Some p' -> leader p' = leader p.
Proof. unfold perform. by repeat (case_bool_decide; [by intros [= <-]|]). Qed.

Lemma call_ok c p : playback_ok p -> playback_ok (call c p).
Proof.
  intros Hok. destruct c as [i t|i a t v|i]; simpl.
  - unfold claim. case_bool_decide; [done|]. destruct (negb _ && negb _); [done|]. unfold playback_ok. simpl. congruence.
  - unfold apply_control. destruct (negb _); [done|]. destruct (perform a t v p) as [p'|] eqn:E; [|done].
    unfold playback_ok. simpl. by rewrite (perform_leader _ _ _ _ _ E).
  - unfold release. case_bool_decide; [done|]. by case_bool_decide.
Qed.

(** With a leader, a call by anybody else changes nothing. *)
Lemma call_by_other c p i : playback_ok p -> leader p = Some i -> caller c ≠ i -> call c p = p.
Proof.
  intros Hok Hl Hc. assert (leader_text p = i) as Ht by (unfold leader_text; by rewrite Hl).
  assert (i ≠ "") as Hi by (unfold playback_ok in Hok; congruence).
  destruct c as [j t|j a t v|j]; simpl in *; unfold claim, apply_control, release; rewrite ?Ht.
  - case_bool_decide; [done|]. rewrite (bool_decide_eq_false_2 (i = "")) by done.
    by rewrite (bool_decide_eq_false_2 (i = j)) by congruence.
  - by rewrite (bool_decide_eq_false_2 (i = j)) by congruence.
  - case_bool_decide; [done|]. rewrite bool_decide_eq_false_2; [done|congruence].
Qed.

(** leadership is exclusive: whatever calls are made, in any order, while a
    client leads and has not released, calls of the other clients leave the whole
    playback state alone, and what its own calls leave is what they would leave
    without the others. *)
Theorem playback_leader_exclusive p i cs : playback_ok p -> leader p = Some i ->
  Forall (fun c => c ≠ Release i) cs ->
  let p' := foldl (flip call) p cs in
  leader p' = Some i /\ p' = foldl (flip call) p (filter (fun c => caller c = i) cs).
Proof.
  intros Hok Hl Hcs. revert p Hok Hl. induction Hcs as [|c cs Hc Hcs IH]; intros p Hok Hl; [done|].
  simpl. rewrite filter_cons. destruct (decide (caller c = i)) as [He|He].
  - simpl. change (flip call p c) with (call c p). apply IH; [by apply call_ok|].
    destruct c as [j t|j a t v|j]; simpl in *; subst j; [| |done].
    + unfold claim. rewrite bool_decide_eq_false_2 by (intros ->; by apply Hok).
      unfold leader_text. rewrite Hl. simpl. by rewrite (bool_decide_eq_true_2 (i = i)), andb_false_r.
    + unfold apply_control. destruct (negb _); [done|]. destruct (perform a t v p) as [p'|] eqn:E; [|done].
      simpl. by rewrite (perform_leader _ _ _ _ _ E).
  - change (flip call p c) with (call c p). rewrite (call_by_other c p i) by done. by apply IH.
Qed.

(** A vacant role can be taken by any named client, and only by a claim. *)
Lemma claim_granted i t p : playback_ok p -> i ≠ "" ->
  ((claim i t p).2.1 = true <-> leader p = None \/ leader p = Some i).
Proof.
  intros Hok Hi. unfold claim. rewrite (bool_decide_eq_false_2 (i = "")) by done.
  rewrite <-leader_text_empty, <-(leader_text_Some p i) by done.
  destruct (bool_decide_reflect (leader_text p = "")), (bool_decide_reflect (leader_text p = i)); simpl; naive_solver.
Qed.

(** A control that names no client is accepted while nobody leads: the vacant
    leader and the missing client id are both the empty string. *)
Lemma vacant_leader_accepts_anonymous : exists p',
  apply_control "" "play" (float_of_Z 0) (float_of_Z 1) playback_init = (p', (inl (snapshot p'), ""))
  /\ playing p' = true /\ leader p' = None.
Proof. by eexists. Qed.

Lemma playback_leader_exclusive_witness :
  let p := (claim "a" None playback_init).1 in
  leader p = Some "a" /\
  foldl (flip call) p [Control "b" "play" (float_of_Z 0) (float_of_Z 1); Control "a" "set_time" (float_of_Z 5) (float_of_Z 1); Release "b"; Claim "b" None]
  = foldl (flip call) p [Control "a" "set_time" (float_of_Z 5) (float_of_Z 1)].
Proof.
  split; [reflexivity|].
  apply (playback_leader_exclusive (claim "a" None playback_init).1 "a"
    [Control "b" "play" (float_of_Z 0) (float_of_Z 1); Control "a" "set_time" (float_of_Z 5) (float_of_Z 1); Release "b"; Claim "b" None]);
    [discriminate|reflexivity|repeat constructor; discriminate].
Defined.
