(* ===== verification/TornFrame.v ===== *)
(** Live delivery as bytes: [_send_to_receivers] and [_broadcast_loop]
    ([server/state.py]) over sockets whose [sendall] may accept part of a payload
    before it raises (the send timeout of [connection.py] leaves such a socket
    open), and what the receiver's [recv_framed] then reads.

    The rest of the development delivers whole frames; this file shows what that
    leaves out. *)

From stdpp Require Import base gmap list sets.
From Stdlib Require Import ZArith Lia.
From S2P Require Import Prelude Framing.
#[local] Set Default Goal Selector "!".

(** The bytes each receiver's socket accepted, and [self.receivers]. *)
Record egress := mk_egress {
  accepted : gmap Z bytes;
  live : gset Z }.

(** How one [sendall] ended: all of it, or an error after some bytes. *)
Definition send_fate : Type := option nat.

Definition sent_bytes (payload : bytes) (f : send_fate) : bytes :=
  match f with None => payload | Some k => take k payload end.

(** The body of the loop of [_send_to_receivers]: the sends, and the handlers
    whose send failed. *)
Definition send_one (payload : bytes) (fate : Z -> send_fate) (st : egress * list Z) (h : Z) : egress * list Z :=
  let '(e, dead) := st in
  (mk_egress (<[h := default [] (accepted e !! h) ++ sent_bytes payload (fate h)]> (accepted e)) (live e),
   match fate h with None => dead | Some _ => dead ++ [h] end).

(** [_send_to_receivers] with [_discard_unreachable_receivers]. *)
Definition send_to_receivers (payload : bytes) (targets : list Z) (fate : Z -> send_fate) (e : egress) : egress :=
  let '(e, dead) := foldl (send_one payload fate) (e, []) targets in
  mk_egress (accepted e) (live e ∖ list_to_set dead).

(** [_broadcast_loop] over the queued items: the targets of an item were chosen
    when it was enqueued. *)
Definition broadcast_loop (items : list (bytes * list Z * (Z -> send_fate))) (e : egress) : egress :=
  foldl (fun e '(payload, targets, fate) => send_to_receivers payload targets fate e) e items.

(** ** Lemmas *)

Definition on_wire (h : Z) (e : egress) : bytes := default [] (accepted e !! h).

Lemma send_fold_other payload fate targets st h : h ∉ targets ->
  on_wire h (foldl (send_one payload fate) st targets).1 = on_wire h st.1.
Proof.
  revert st. induction targets as [|g ts IH]; intros [e dead] Hh; simpl; [done|].
  apply not_elem_of_cons in Hh as [Hne Hh]. rewrite IH by done. unfold on_wire. simpl. by rewrite lookup_insert_ne.
Qed.

Lemma send_fold payload fate targets st h : NoDup targets -> h ∈ targets ->
  on_wire h (foldl (send_one payload fate) st targets).1 = on_wire h st.1 ++ sent_bytes payload (fate h).
Proof.
  intros Hn. revert st. induction Hn as [|g ts Hg Hn IH]; intros [e dead] Hh; simpl; [by apply elem_of_nil in Hh|].
  apply elem_of_cons in Hh as [->|Hh].
  - rewrite send_fold_other by done. unfold on_wire. simpl. by rewrite lookup_insert_eq.
  - rewrite IH by done. unfold on_wire. simpl. rewrite lookup_insert_ne by (by intros ->). done.
Qed.

Lemma send_fold_dead payload fate targets st h : h ∈ targets -> is_Some (fate h) -> h ∈ (foldl (send_one payload fate) st targets).2.
Proof.
  intros Hh [k Hk].
  assert (forall ts st, h ∈ st.2 -> h ∈ (foldl (send_one payload fate) st ts).2) as Hkeep.
  { induction ts as [|g ts IH]; intros [e dead] Hd; simpl in *; [done|]. apply IH. simpl. destruct (fate g); set_solver. }
  revert st. induction targets as [|g ts IH]; intros [e dead]; simpl; [by apply elem_of_nil in Hh|].
  apply elem_of_cons in Hh as [->|Hh]; [|by apply IH]. apply Hkeep. simpl. rewrite Hk. set_solver.
Qed.

Lemma sent_on_wire payload targets fate e h : NoDup targets -> h ∈ targets ->
  on_wire h (send_to_receivers payload targets fate e) = on_wire h e ++ sent_bytes payload (fate h).
Proof.
  intros Hn Hh. unfold send_to_receivers. pose proof (send_fold payload fate targets (e, []) h Hn Hh) as H.
  by destruct (foldl _ _ _) as [e' dead].
Qed.

Lemma failed_not_live payload targets fate e h : h ∈ targets -> is_Some (fate h) -> h ∉ live (send_to_receivers payload targets fate e).
Proof.
  intros Hh Hf. unfold send_to_receivers. pose proof (send_fold_dead payload fate targets (e, []) h Hh Hf) as H.
  destruct (foldl _ _ _) as [e' dead]. simpl in *. set_solver.
Qed.

(** A frame cut after its header, followed by other bytes, is read as a frame. *)
Lemma torn_frame_is_frame p k rest : frameable p -> HEADER_SIZE ≤ k -> k ≤ length (frame p) -> length (frame p) - k ≤ length rest ->
  take k (frame p) ++ rest
  = frame (take (k - HEADER_SIZE) p ++ take (length (frame p) - k) rest) ++ drop (length (frame p) - k) rest
  /\ length (take (k - HEADER_SIZE) p ++ take (length (frame p) - k) rest) = length p.
Proof.
  intros Hp Hk Hle Hrest. pose proof (frame_length p Hp) as Hlen.
  assert (length (take (k - HEADER_SIZE) p ++ take (length (frame p) - k) rest) = length p) as Hl
    by (rewrite length_app, !length_take; lia).
  split; [|done]. destruct (pack_Ok (Z.of_nat (length p))) as (hd & Hh & Hhl); [unfold frameable in Hp; lia|].
  rewrite (frame_pack (take (k - HEADER_SIZE) p ++ take (length (frame p) - k) rest) hd) by (by rewrite Hl).
  rewrite (frame_pack p hd Hh) at 1.
  rewrite take_app_ge by lia. rewrite Hhl, <-!app_assoc, take_drop. done.
Qed.

(** ** Properties *)

(** a send that fails inside a frame does not end the connection for the
    items queued behind it: the handler leaves [receivers], yet the next item
    that was addressed to it is still written, right after the torn frame.  The
    receiver then reads, without an error, a message nobody sent: the part of the
    first payload that got through, completed with the first bytes of the second
    frame, its header included. *)
Theorem torn_frame_mixes_payloads p1 p2 t1 t2 f1 f2 h k e chunks max_size :
  NoDup t1 -> NoDup t2 -> h ∈ t1 -> h ∈ t2 -> frameable p1 -> f1 h = Some k -> f2 h = None ->
  HEADER_SIZE ≤ k -> k ≤ length (frame p1) -> length (frame p1) - k ≤ length (frame p2) ->
  (Z.of_nat (length p1) ≤ max_size)%Z -> on_wire h e = [] ->
  h ∉ live (send_to_receivers (frame p1) t1 f1 e)
  /\ exists s', recv_framed (mk_sock (on_wire h (broadcast_loop [(frame p1, t1, f1); (frame p2, t2, f2)] e)) chunks) max_size
       = Ok (take (k - HEADER_SIZE) p1 ++ take (length (frame p1) - k) (frame p2), s').
Proof.
  intros N1 N2 H1 H2 Hp F1 F2 Hk Hle Hrest Hmax He. split; [apply failed_not_live; [done|by rewrite F1]|].
  unfold broadcast_loop. cbn [foldl]. rewrite !sent_on_wire, F1, F2, He by done. simpl.
  destruct (torn_frame_is_frame p1 k (frame p2) Hp Hk Hle Hrest) as [Heq Hl].
  set (q := take (k - HEADER_SIZE) p1 ++ _) in *. set (s := mk_sock _ chunks).
  destruct (recv_framed_frame s q (drop (length (frame p1) - k) (frame p2)) max_size) as (s' & Hr & _);
    [unfold frameable in *; by rewrite Hl|exact Heq|by rewrite Hl|by exists s'].
Qed.

(** Two messages of three bytes; the first is cut after two of them. *)
Lemma torn_frame_mixes_payloads_witness :
  let p1 := [Byte.x61; Byte.x62; Byte.x63] in
  let p2 := [Byte.x64; Byte.x65; Byte.x66] in
  let f1 := fun _ : Z => Some 6 in
  let f2 := fun _ : Z => @None nat in
  exists s', recv_framed (mk_sock (on_wire 1 (broadcast_loop [(frame p1, [1%Z], f1); (frame p2, [1%Z], f2)] (mk_egress ∅ {[1%Z]}))) []) 100
    = Ok ([Byte.x61; Byte.x62; Byte.x00], s').
Proof.
  intros p1 p2 f1 f2.
  refine (proj2 (torn_frame_mixes_payloads p1 p2 [1%Z] [1%Z] f1 f2 1%Z 6 (mk_egress ∅ {[1%Z]}) [] 100 _ _ _ _ _ _ _ _ _ _ _ _)).
  - apply NoDup_singleton.
  - apply NoDup_singleton.
  - by left.
  - by left.
  - done.
  - done.
  - done.
  - vm_compute. lia.
  - vm_compute. lia.
  - vm_compute. lia.
  - vm_compute. done.
  - done.
Defined.
