(* ===== verification/Delivery.v ===== *)
(** Receiver admission and live delivery: the part of [UsdSyncServer]
    ([server/state.py]) that publishes history to receivers, and the receiver
    branch of [ConnectionHandler.handle] ([server/connection.py]).

    The history is the list of persisted rows, the row of sequence [n] at
    position [n - 1] (sequences are consecutive from 1, [Journal.v]).  A handler
    is named by its connection.  What a function writes to sockets is part of
    its result: pairs of a handler and the messages written to it, in order.
    Frames carry whole messages ([Framing.v]).  What each lock protects is one
    function; [Replica.v] interleaves them. *)

From stdpp Require Import base gmap list option strings.
From Stdlib Require Import ZArith Lia.
From S2P Require Import Prelude Constants Framing Receiver Playback.
#[local] Set Default Goal Selector "!".
Open Scope Z_scope.

(** ** History *)

(** A persisted row: an authored event or a layer graph. *)
Inductive row (D : Type) : Type := EventRow (d : D) | GraphRow (d : D).
Arguments EventRow {D}. Arguments GraphRow {D}.

Section history.
Context {D : Type}.

Definition row_message (seq : Z) (x : row D) : message D :=
  match x with EventRow d => BroadcastEvent seq d | GraphRow d => LayerGraphState seq d end.

(** The rows as messages, the first one with sequence [from]. *)
Fixpoint number_rows (from : Z) (rows : list (row D)) : list (message D) :=
  match rows with
  | [] => []
  | x :: rows => row_message from x :: number_rows (from + 1) rows
  end.

(** [store.get_max_seq()] *)
Definition head_seq (rows : list (row D)) : Z := Z.of_nat (length rows).

(** [store.get_from_seq_bin(a, b)] *)
Definition get_rows (a b : Z) (rows : list (row D)) : list (message D) :=
  let from := Z.max 1 a in
  number_rows from (take (Z.to_nat (b + 1 - from)) (drop (Z.to_nat (from - 1)) rows)).
End history.

(** ** Receivers and the broadcast queue *)

(** What delivery reads of a [ConnectionHandler]. *)
Record handler := mk_handler {
  h_layered : bool;
  h_origin : option string;
  h_client_id : option string }.

Inductive audience : Type := AUDIENCE_ALL | AUDIENCE_FLAT | AUDIENCE_LAYERED.

(** The delivery state of [UsdSyncServer]. *)
Record delivery (D : Type) := mk_delivery {
  history : list (row D);
  d_epoch : Z;
  d_instance : string;
  receivers : gmap Z handler;
  broadcast_queue : list (list (message D) * list Z);
  d_playback : playback }.
Arguments mk_delivery {D}. Arguments history {D}. Arguments d_epoch {D}. Arguments d_instance {D}.
Arguments receivers {D}. Arguments broadcast_queue {D}. Arguments d_playback {D}.

Section delivery.
Context {D : Type} (playback_data : playback_snapshot -> D).
Implicit Types d : delivery D.

Definition delivery_init (instance : string) (rows : list (row D)) : delivery D :=
  mk_delivery rows 0 instance ∅ [] playback_init.

Definition set_history (rows : list (row D)) d : delivery D :=
  mk_delivery rows (d_epoch d) (d_instance d) (receivers d) (broadcast_queue d) (d_playback d).
Definition set_receivers (rs : gmap Z handler) d : delivery D :=
  mk_delivery (history d) (d_epoch d) (d_instance d) rs (broadcast_queue d) (d_playback d).
Definition set_queue (q : list (list (message D) * list Z)) d : delivery D :=
  mk_delivery (history d) (d_epoch d) (d_instance d) (receivers d) q (d_playback d).
Definition set_playback (p : playback) d : delivery D :=
  mk_delivery (history d) (d_epoch d) (d_instance d) (receivers d) (broadcast_queue d) p.

(** The filter of [_receiver_targets]. *)
Definition in_audience (exclude_origin : option string) (a : audience) (h : handler) : bool :=
  match a with
  | AUDIENCE_ALL => true
  | AUDIENCE_FLAT => negb (h_layered h)
  | AUDIENCE_LAYERED => h_layered h
  end
  && match exclude_origin with
     | Some o => bool_decide (o = "") || negb (bool_decide (h_origin h = Some o))
     | None => true
     end.

(** [_receiver_targets]; the order in which Python iterates the set is not
    visible to any one receiver. *)
Definition receiver_targets (exclude_origin : option string) (a : audience) d : list Z :=
  (filter (fun x => in_audience exclude_origin a x.2 = true) (map_to_list (receivers d))).*1.

Definition has_layered_receivers d : bool := existsb (fun x => h_layered x.2) (map_to_list (receivers d)).

(** [_enqueue_broadcast] *)
Definition enqueue_broadcast (payload : list (message D)) (exclude_origin : option string) (a : audience) d : delivery D :=
  match receiver_targets exclude_origin a d with
  | [] => d
  | targets => set_queue (broadcast_queue d ++ [(payload, targets)]) d
  end.

(** [broadcast_message] *)
Definition broadcast_message (m : message D) (exclude_origin : option string) (a : audience) d : delivery D :=
  enqueue_broadcast [m] exclude_origin a d.

(** [broadcast_transaction_group_views]: the records of every transaction as one item. *)
Definition broadcast_transaction_group_views (transactions : list (list (message D))) d : delivery D :=
  match concat transactions with
  | [] => d
  | all_records => enqueue_broadcast all_records None AUDIENCE_ALL d
  end.

(** [_publish_batch]: the committed records of a group, those of the transaction
    that loads a payload after the others. *)
Definition publish_batch (committed : list (list (message D))) (payload_load : option (list (message D))) d : delivery D :=
  let d := broadcast_transaction_group_views committed d in
  match payload_load with
  | Some records => broadcast_transaction_group_views [records] d
  | None => d
  end.

Definition playback_message (p : playback) : message D := Playback (playback_data (snapshot p)).

(** The loop of [_discard_unreachable_receivers] that releases the playback role. *)
Definition release_all (handlers : list handler) (p : playback) : playback * bool :=
  foldl (fun '(p, any) h =>
           match h_client_id h with
           | Some i => if bool_decide (i = "") then (p, any) else let '(p, b) := release i p in (p, any || b)
           | None => (p, any)
           end) (p, false) handlers.

(** [_discard_unreachable_receivers]; releasing the replay reservation is
    [Collaboration]'s. *)
Definition discard_unreachable_receivers (dead : list (Z * handler)) d : delivery D :=
  let d := set_receivers (foldl (fun m x => delete x.1 m) (receivers d) dead) d in
  let '(p, released_any) := release_all dead.*2 (d_playback d) in
  let d := set_playback p d in
  if released_any then broadcast_message (playback_message p) None AUDIENCE_ALL d else d.

(** [_broadcast_loop] and [_send_to_receivers]: the next send of the item at the
    head of the queue.  [failed] is whether [sendall] raised; the handler object
    is known to the item even when it has left [receivers].  The dead handlers
    of an item are discarded after its last send. *)
Inductive broadcast_turn : Type :=
  | SendTo (g : Z) (payload : list (message D)) (rest : list Z)
  | TaskDone
  | Idle.
Definition next_turn d : broadcast_turn :=
  match broadcast_queue d with
  | [] => Idle
  | (payload, g :: targets) :: _ => SendTo g payload targets
  | (_, []) :: _ => TaskDone
  end.
Definition sent_one d : delivery D :=
  match broadcast_queue d with
  | (payload, _ :: targets) :: q => set_queue ((payload, targets) :: q) d
  | _ => d
  end.
Definition task_done d : delivery D :=
  match broadcast_queue d with
  | (_, []) :: q => set_queue q d
  | _ => d
  end.

(** ** Admission *)

(** [_ReceiverReplay] *)
Record receiver_replay := mk_replay {
  rr_head_seq : Z;
  rr_epoch : Z;
  rr_records : list (message D);
  rr_resync : option string }.

(** The resume identity of a hello was given and is not the server's. *)
Definition resume_identity_changed (h : hello) (from : Z) d : bool :=
  (1 <? from)
  && match hl_instance h with
     | None => false
     | Some i => negb (bool_decide (i = d_instance d)) || negb (bool_decide (hl_epoch h = Some (d_epoch d)))
     end.

(** [hello.get("sync_from") or 1] *)
Definition hello_cursor (h : hello) : Z := if sync_from h =? 0 then 1 else sync_from h.

(** [receiver_replay_window] under the exclusive barrier. *)
Definition receiver_replay_window (g : Z) (hd : handler) (h : hello) d : delivery D * receiver_replay :=
  let from := hello_cursor h in
  let d := set_receivers (<[g := hd]> (receivers d)) d in
  let replay_end := head_seq (history d) in
  let identity_changed := resume_identity_changed h from d in
  let out_of_range := replay_end + 1 <? from in
  let reason := if identity_changed || out_of_range
                then Some (if identity_changed then "replay_identity_changed" else "seq_overflow") else None in
  let from := match reason with Some _ => 1 | None => from end in
  (d, mk_replay replay_end (d_epoch d) (get_rows from replay_end (history d)) reason).

(** The hello_ok of a receiver. *)
Definition receiver_hello_ok_of (hd : handler) (epoch : Z) (shared : bool) (token : string) (metadata : option event) d :
    receiver_hello_ok :=
  mk_rhello_ok (d_instance d) true (Some epoch) shared (h_layered hd && negb shared) token metadata.

(** What [handle] writes while it holds the send lock of the replay window. *)
Definition replay_stream (hello_ok : receiver_hello_ok) (layer_stack : option D) (rr : receiver_replay) d : list (message D) :=
  [HelloOkMsg hello_ok]
  ++ match rr_resync rr with Some _ => [Resync] | None => [] end
  ++ [playback_message (d_playback d)]
  ++ match layer_stack with Some s => [LayerStackState s] | None => [] end
  ++ rr_records rr
  ++ [ReplayComplete (rr_head_seq rr) (rr_epoch rr)].

(** ** Replaced history *)

(** [store.clear_and_rewrite] and [journal.reset_history] of a rewrite. *)
Definition rewrite_history (rows : list (row D)) d : delivery D :=
  mk_delivery rows (d_epoch d + 1) (d_instance d) (receivers d) (broadcast_queue d) (d_playback d).

(** The messages of [_resync_receivers] for one handler. *)
Definition resync_stream (hd : handler) (layer_stack : D) d : list (message D) :=
  let head := head_seq (history d) in
  let controls := [Resync] ++ (if h_layered hd then [LayerStackState layer_stack] else []) in
  if head =? 0 then controls ++ [ReplayComplete head (d_epoch d)]
  else controls ++ get_rows 1 head (history d) ++ [ReplayComplete head (d_epoch d)].

(** [_resync_receivers]; [unreachable] says which sends fail. *)
Definition resync_receivers (layer_stack : D) (unreachable : Z -> bool) d : delivery D * list (Z * list (message D)) :=
  let targets := map_to_list (receivers d) in
  let sends := (fun x => (x.1, resync_stream x.2 layer_stack d)) <$> filter (fun x => unreachable x.1 = false) targets in
  (discard_unreachable_receivers (filter (fun x => unreachable x.1 = true) targets) d, sends).

(** [_publish_snapshot] *)
Definition publish_snapshot d : delivery D :=
  let head := head_seq (history d) in
  enqueue_broadcast ([Resync] ++ get_rows 1 head (history d) ++ [ReplayComplete head (d_epoch d)]) None AUDIENCE_ALL d.

(** ** Facts *)

Lemma number_rows_length from (rows : list (row D)) : length (number_rows from rows) = length rows.
Proof. revert from. induction rows as [|x rows IH]; intros from; simpl; [done|]. by rewrite IH. Qed.

Lemma number_rows_lookup from (rows : list (row D)) i m : number_rows from rows !! i = Some m ->
  exists x, rows !! i = Some x /\ m = row_message (from + Z.of_nat i) x.
Proof.
  revert from i. induction rows as [|x rows IH]; intros from i; simpl; [done|]. destruct i as [|i]; simpl.
  - intros [= <-]. exists x. by rewrite Z.add_0_r.
  - intros (y & Hy & ->)%IH. exists y. split; [done|]. f_equal. lia.
Qed.

Lemma number_rows_app from (r1 r2 : list (row D)) :
  number_rows from (r1 ++ r2) = number_rows from r1 ++ number_rows (from + Z.of_nat (length r1)) r2.
Proof.
  revert from. induction r1 as [|x r1 IH]; intros from; simpl; [by rewrite Z.add_0_r|]. rewrite IH. do 3 f_equal. lia.
Qed.

(** The suffix after the first [n] rows. *)
Lemma get_rows_suffix (rows : list (row D)) n : 0 <= n <= head_seq rows ->
  get_rows (n + 1) (head_seq rows) rows = number_rows (n + 1) (drop (Z.to_nat n) rows).
Proof.
  unfold get_rows, head_seq. intros Hn. replace (Z.max 1 (n + 1)) with (n + 1) by lia.
  rewrite firstn_all2.
  - do 2 f_equal. lia.
  - rewrite length_drop. lia.
Qed.

Lemma get_rows_all (rows : list (row D)) : get_rows 1 (head_seq rows) rows = number_rows 1 rows.
Proof. apply (get_rows_suffix rows 0). unfold head_seq. lia. Qed.

Lemma receiver_targets_elem o a d g : g ∈ receiver_targets o a d ->
  exists h, receivers d !! g = Some h /\ in_audience o a h = true.
Proof.
  unfold receiver_targets. intros ([g' h] & -> & [Ha Hin]%list_elem_of_filter)%list_elem_of_fmap.
  exists h. split; [by apply elem_of_map_to_list|done].
Qed.

Lemma receiver_targets_all d g : g ∈ receiver_targets None AUDIENCE_ALL d <-> is_Some (receivers d !! g).
Proof.
  split; [by intros (h & ? & _)%receiver_targets_elem|]. intros [h Hh]. unfold receiver_targets.
  apply list_elem_of_fmap. exists (g, h). split; [done|]. apply list_elem_of_filter. split; [done|by apply elem_of_map_to_list].
Qed.

Lemma receiver_targets_NoDup o a d : NoDup (receiver_targets o a d).
Proof.
  unfold receiver_targets. eapply sublist_NoDup; [apply (NoDup_fst_map_to_list (receivers d))|].
  apply fmap_sublist, sublist_filter.
Qed.
End delivery.
