(* ===== verification/History.v ===== *)
(** The history that [Delivery.v] serves is the event store of [EventStore.v]: a
    store whose sequences are consecutive from 1 holds a list of rows, and the
    store's operations, whatever implements them, act on it as [Delivery.v] says. *)

From stdpp Require Import base gmap list sorting.
From Stdlib Require Import ZArith Lia.
From S2P Require Import Prelude Framing EventStore Receiver Delivery.
#[local] Set Default Goal Selector "!".
Open Scope Z_scope.

Section history.
Context {St : Type} `{EventStore St} {D : Type} (encode : message D -> bytes).
Implicit Types st : St.

(** The rows as stored records, the first one with sequence [from]. *)
Fixpoint entries (from : Z) (rows : list (row D)) : list (Z * bytes) :=
  match rows with
  | [] => []
  | x :: rows => (from, encode (row_message from x)) :: entries (from + 1) rows
  end.

(** The store holds exactly these rows. *)
Definition holds st (rows : list (row D)) : Prop := get_all_asc st = entries 1 rows.

(** The rows a commit hands to the store: numbered after those it has. *)
Definition stored_as (from : Z) (rows : list (row D)) (batch : list store_row) : Prop :=
  map (fun r => (row_seq r, row_bin r)) batch = entries from rows.

Lemma entries_app from r1 r2 : entries from (r1 ++ r2) = entries from r1 ++ entries (from + Z.of_nat (length r1)) r2.
Proof.
  revert from. induction r1 as [|x r1 IH]; intros from; simpl; [by rewrite Z.add_0_r|]. rewrite IH. do 3 f_equal. lia.
Qed.

Lemma entries_range from rows p : p ∈ entries from rows -> from <= p.1 < from + Z.of_nat (length rows).
Proof.
  revert from. induction rows as [|x rows IH]; intros from Hp; simpl in *; [by apply elem_of_nil in Hp|].
  apply elem_of_cons in Hp as [->|Hp]; [simpl; lia|]. specialize (IH _ Hp). lia.
Qed.

Lemma entries_mem from rows q : from <= q < from + Z.of_nat (length rows) -> exists b, (q, b) ∈ entries from rows.
Proof.
  revert from. induction rows as [|x rows IH]; intros from Hq; simpl in Hq; [lia|]. simpl.
  destruct (decide (q = from)) as [->|Hne]; [eexists; by left|]. destruct (IH (from + 1)) as [b Hb]; [lia|]. exists b. by right.
Qed.

Lemma holds_listing st rows : holds st rows -> map (fun p => (p.1, row_bin p.2)) (by_key (events_of st)) = entries 1 rows.
Proof. unfold holds. by rewrite get_all_asc_spec. Qed.

Lemma holds_keys st rows q : holds st rows -> is_Some (events_of st !! q) <-> 1 <= q < 1 + Z.of_nat (length rows).
Proof.
  intros Hh%holds_listing. split.
  - intros [r Hr]. apply elem_of_by_key in Hr. apply (entries_range 1 rows (q, row_bin r)). rewrite <-Hh.
    apply list_elem_of_fmap. by exists (q, r).
  - intros Hq. destruct (entries_mem 1 rows q Hq) as [b Hb].
    rewrite <-Hh in Hb. apply list_elem_of_fmap in Hb as ([k r] & [= -> ->] & Hr). exists r. by apply elem_of_by_key.
Qed.

Lemma head_holds st rows : holds st rows -> get_max_seq st = head_seq rows.
Proof.
  intros Hh. destruct (get_max_seq_spec st) as [Hle Hex]. unfold head_seq. destruct Hex as [[He ->]|Hs].
  - destruct rows as [|x rows]; [done|]. exfalso.
    destruct (proj2 (holds_keys st (x :: rows) 1 Hh)) as [r Hr]; [simpl; lia|]. by rewrite He in Hr.
  - apply (holds_keys st rows _ Hh) in Hs. destruct rows as [|x rows]; [simpl in Hs; lia|].
    assert (Z.of_nat (length (x :: rows)) <= get_max_seq st); [|lia]. apply Hle. apply (holds_keys _ _ _ Hh). simpl. lia.
Qed.

(** The window of a list of records. *)
Definition in_window (a b : Z) (p : Z * bytes) : Prop := a <= p.1 /\ p.1 <= b.
#[local] Instance in_window_dec a b p : Decision (in_window a b p).
Proof. unfold in_window. apply _. Defined.

Lemma window_none a b from rows : b < from -> filter (in_window a b) (entries from rows) = [].
Proof.
  revert from. induction rows as [|x rows IH]; intros from Hb; simpl; [done|]. rewrite filter_cons_False; [apply IH; lia|].
  unfold in_window. simpl. lia.
Qed.

Lemma window_entries a b from rows : 
  map snd (filter (in_window a b) (entries from rows))
  = map encode (number_rows (Z.max from a) (take (Z.to_nat (b + 1 - Z.max from a)) (drop (Z.to_nat (Z.max from a - from)) rows))).
Proof.
  revert from. induction rows as [|x rows IH]; intros from; simpl; [by rewrite drop_nil, take_nil|].
  destruct (decide (a <= from)) as [Ha|Ha].
  - replace (Z.max from a) with from by lia. rewrite Z.sub_diag. simpl. destruct (decide (from <= b)) as [Hb|Hb].
    + rewrite filter_cons_True by done. replace (Z.to_nat (b + 1 - from)) with (S (Z.to_nat (b - from))) by lia. simpl. f_equal.
      rewrite IH. replace (Z.max (from + 1) a) with (from + 1) by lia. rewrite Z.sub_diag. simpl. do 3 f_equal. lia.
    + rewrite filter_cons_False by (unfold in_window; simpl; lia). rewrite window_none by lia.
      by replace (Z.to_nat (b + 1 - from)) with 0%nat by lia.
  - rewrite filter_cons_False by (unfold in_window; simpl; lia). rewrite IH. replace (Z.max (from + 1) a) with a by lia.
    replace (Z.max from a) with a by lia. replace (Z.to_nat (a - from)) with (S (Z.to_nat (a - (from + 1)))) by lia. done.
Qed.

Lemma window_holds st rows a b : holds st rows -> get_from_seq_bin st a (Some b) = map encode (get_rows a b rows).
Proof.
  intros Hh%holds_listing. rewrite get_from_seq_bin_spec. simpl. unfold get_rows. rewrite <-(window_entries a b 1 rows), <-Hh.
  clear Hh. induction (by_key (events_of st)) as [|[k r] l IH]; [done|]. rewrite map_cons, !filter_cons. cbn [fst snd].
  destruct (decide (a <= k /\ k <= b)) as [Hd|Hd].
  - rewrite decide_True by exact Hd. simpl. by rewrite IH.
  - by rewrite decide_False by exact Hd.
Qed.

(** Inserting records after all others. *)
Lemma listing_append (m : gmap Z store_row) from rows batch : (forall q, is_Some (m !! q) -> q < from) -> stored_as from rows batch ->
  map (fun p => (p.1, row_bin p.2)) (by_key (foldl rows_insert m batch)) = map (fun p => (p.1, row_bin p.2)) (by_key m) ++ entries from rows.
Proof.
  unfold stored_as. revert m from rows. induction batch as [|r batch IH]; intros m from rows Hm Hs; simpl in Hs.
  - destruct rows; [|done]. simpl. by rewrite app_nil_r.
  - destruct rows as [|x rows]; [done|]. simpl in Hs. injection Hs as Hq Hb Hs. simpl. rewrite (IH _ (from + 1) rows).
    + unfold rows_insert. rewrite by_key_insert_last by (intros q Hq'; rewrite Hq; by apply Hm). rewrite map_app, <-app_assoc. simpl. by rewrite Hq, Hb.
    + intros q Hq'. unfold rows_insert in Hq'. destruct (decide (q = row_seq r)) as [->|Hne]; [lia|].
      rewrite lookup_insert_ne in Hq' by done. specialize (Hm q Hq'). lia.
    + done.
Qed.

(** C12: the store implements the history that receivers are served from: its
    highest sequence is the head, a window of it is the rows of the window,
    encoded, a durable batch numbered from the next sequence appends its rows, a
    rewrite numbered from one replaces them all, and a failed write leaves the
    history alone. *)
Theorem store_serves_history st rows : holds st rows ->
  get_max_seq st = head_seq rows
  /\ (forall a b, get_from_seq_bin st a (Some b) = map encode (get_rows a b rows))
  /\ (forall new batch pp li st' res, stored_as (head_seq rows + 1) new batch -> append_batch batch pp li st = (st', res) ->
        match res with Ok _ => holds st' (rows ++ new) | Err _ => holds st' rows end)
  /\ (forall new batch clear st' res, stored_as 1 new batch -> clear_and_rewrite batch clear st = (st', res) ->
        match res with Ok _ => holds st' new | Err _ => holds st' rows end).
Proof.
  intros Hh. split_and!; [by apply head_holds|intros; by apply window_holds|..].
  - intros new batch pp li st' [[]|e] Hb Ha.
    + destruct (append_batch_events _ _ _ _ _ Ha) as (_ & He & _). unfold holds. rewrite get_all_asc_spec, He.
      rewrite (listing_append (events_of st) (head_seq rows + 1) new batch); [|intros q Hq%(holds_keys st rows q Hh); unfold head_seq; lia|done].
      rewrite (holds_listing _ _ Hh), entries_app. unfold head_seq. by rewrite (Z.add_comm 1).
    + by rewrite (append_batch_atomic _ _ _ _ _ _ Ha).
  - intros new batch clear st' [[]|e] Hb Ha.
    + destruct (clear_and_rewrite_events _ _ _ _ Ha) as (_ & He & _). unfold holds. rewrite get_all_asc_spec, He.
      rewrite (listing_append ∅ 1 new batch); [by rewrite by_key_empty|by intros q [? ?]|done].
    + by rewrite (clear_and_rewrite_atomic _ _ _ _ _ Ha).
Qed.
End history.

(** The store of three rows serves any window of them. *)
Definition demo_rows : list (row bytes) := [EventRow []; EventRow []; EventRow []].
Definition demo_encode (m : message bytes) : bytes := match m with BroadcastEvent _ d => d | _ => [] end.

Lemma store_serves_history_witness : holds demo_encode demo_db demo_rows
  /\ get_from_seq_bin demo_db 2 (Some 9) = map demo_encode (get_rows 2 9 demo_rows) /\ length (get_rows 2 9 demo_rows) = 2%nat.
Proof.
  assert (holds demo_encode demo_db demo_rows) as Hh by (vm_compute; reflexivity). split_and!; [exact Hh| |vm_compute; reflexivity].
  exact (proj1 (proj2 (store_serves_history demo_encode demo_db demo_rows Hh)) 2 9).
Defined.
