(* ===== verification/Replica.v ===== *)
(** Replication end to end: the server's history and its delivery to receivers
    ([Delivery.v]), one [ReceiverThread] with its connections ([Receiver.v]) and
    the consumer that applies what it received.

    The server publishes in two steps (rows are persisted, then enqueued) and
    admits receivers and rewrites history only in between, which is what the
    maintenance barrier gives it ([Barrier.v]).  A connection may be cut at any
    point, a history may be replaced, and the server may be restarted with any
    history under an instance id of its own.  The receiver thread and the
    consumer interleave: what a drain took is settled in a later step.  Two
    things are outside: a send that fails in the middle of a frame on a
    connection that stays usable ([TornFrame.v]), and a [KeyboardInterrupt] in
    the consumer, which loses the frames it holds. *)

From stdpp Require Import base gmap list option strings relations.
From Stdlib Require Import ZArith Lia.
From S2P Require Import Prelude Constants Producer Inbox Receiver Playback Delivery.
#[local] Set Default Goal Selector "!".
Open Scope Z_scope.

(** ** The system *)

(** One history the server has had, with the identity receivers know it by. *)
Record version (D : Type) := mk_version {
  v_instance : string;
  v_epoch : Z;
  v_rows : list (row D) }.
Arguments mk_version {D}. Arguments v_instance {D}. Arguments v_epoch {D}. Arguments v_rows {D}.

Record rlink (D : Type) := mk_rlink {
  l_up : bool;
  l_greeted : bool;
  l_hello : hello;
  l_s2c : list (message D) }.
Arguments mk_rlink {D}. Arguments l_up {D}. Arguments l_greeted {D}. Arguments l_hello {D}. Arguments l_s2c {D}.

Section links.
Context {D : Type}.
Implicit Types l : rlink D.

(** What is written to a connection that is down is lost. *)
Definition push (ms : list (message D)) l : rlink D :=
  if l_up l then mk_rlink true (l_greeted l) (l_hello l) (l_s2c l ++ ms) else l.
Definition greet_link l : rlink D := mk_rlink (l_up l) true (l_hello l) (l_s2c l).
Definition cut_link (i : nat) l : rlink D := mk_rlink false (l_greeted l) (l_hello l) (take i (l_s2c l)).
Definition set_s2c (ms : list (message D)) l : rlink D := mk_rlink (l_up l) (l_greeted l) (l_hello l) ms.
Definition deliver (sends : list (Z * list (message D))) (ls : gmap Z (rlink D)) : gmap Z (rlink D) :=
  foldl (fun ls x => alter (push x.2) x.1 ls) ls sends.
End links.

Record replication (D E : Type) := mk_replication {
  s_server : delivery D;
  (** history variable: the versions before the current one *)
  s_past : list (version D);
  (** rows persisted and not enqueued yet *)
  s_publishing : option (list (message D));
  s_links : gmap Z (rlink D);
  s_receiver : receiver D;
  (** the connection [_connect_and_recv] reads, and the cursor it asked for *)
  s_conn : option Z;
  s_from : Z;
  s_consumer : consumer D E }.
Arguments mk_replication {D E}. Arguments s_server {D E}. Arguments s_past {D E}. Arguments s_publishing {D E}.
Arguments s_links {D E}. Arguments s_receiver {D E}. Arguments s_conn {D E}. Arguments s_from {D E}. Arguments s_consumer {D E}.

Section replica.
Context {D Rec E : Type} (playback_data : playback_snapshot -> D).
Context (decode_received_event : D -> result Rec) (event_of : Rec -> option E).
Context (decode_state : D -> result E) (decode_other : D -> result unit).
Implicit Types w : replication D E.
Implicit Types vs : list (version D).
Implicit Types r : receiver D.
Implicit Types c : consumer D E.

Definition current_version (d : delivery D) : version D := mk_version (d_instance d) (d_epoch d) (Delivery.history d).
Definition versions w : list (version D) := s_past w ++ [current_version (s_server w)].

Definition on_server (d : delivery D) (p : option (list (message D))) (ls : gmap Z (rlink D)) w : replication D E :=
  mk_replication d (s_past w) p ls (s_receiver w) (s_conn w) (s_from w) (s_consumer w).
(** A new history: the current version becomes a past one. *)
Definition new_version (d : delivery D) (ls : gmap Z (rlink D)) w : replication D E :=
  mk_replication d (versions w) None ls (s_receiver w) (s_conn w) (s_from w) (s_consumer w).
Definition on_client (r : receiver D) (conn : option Z) (from : Z) (c : consumer D E) (ls : gmap Z (rlink D)) w : replication D E :=
  mk_replication (s_server w) (s_past w) (s_publishing w) ls r conn from c.

(** Control messages, which carry no history and are not the answer to a hello. *)
Definition is_control (m : message D) : bool :=
  match m with
  | HelloOkMsg _ | BroadcastEvent _ _ | LayerGraphState _ _ | Resync | ReplayComplete _ _ => false
  | _ => true
  end.

(** *** The server; [faulty] allows the enqueueing of a commit to fail *)

Inductive server_step (faulty : bool) : replication D E -> replication D E -> Prop :=
  | sv_refuse w g l m : s_links w !! g = Some l -> l_greeted l = false -> is_control m = true ->
      server_step faulty w (on_server (s_server w) (s_publishing w)
        (<[g := cut_link (S (length (l_s2c l))) (greet_link (push [m] l))]> (s_links w)) w)
  | sv_join w g l hd shared token metadata stack d rr : s_publishing w = None ->
      s_links w !! g = Some l -> l_greeted l = false -> l_up l = true -> h_layered hd = hl_layered (l_hello l) ->
      receiver_replay_window g hd (l_hello l) (s_server w) = (d, rr) ->
      server_step faulty w (on_server d None
        (<[g := greet_link (push (replay_stream playback_data
                  (receiver_hello_ok_of hd (rr_epoch rr) shared token metadata d) stack rr d) l)]> (s_links w)) w)
  | sv_persist w rows : s_publishing w = None ->
      server_step faulty w (on_server (set_history (Delivery.history (s_server w) ++ rows) (s_server w))
        (Some (number_rows (head_seq (Delivery.history (s_server w)) + 1) rows)) (s_links w) w)
  | sv_publish w ms : s_publishing w = Some ms ->
      server_step faulty w (on_server (broadcast_transaction_group_views [ms] (s_server w)) None (s_links w) w)
  | sv_publish_failed w ms : faulty = true -> s_publishing w = Some ms ->
      server_step faulty w (on_server (s_server w) None (s_links w) w)
  | sv_control w m exclude a : is_control m = true ->
      server_step faulty w (on_server (broadcast_message m exclude a (s_server w)) (s_publishing w) (s_links w) w)
  | sv_send w g payload rest : next_turn (s_server w) = SendTo g payload rest ->
      server_step faulty w (on_server (sent_one (s_server w)) (s_publishing w) (alter (push payload) g (s_links w)) w)
  | sv_task_done w : next_turn (s_server w) = TaskDone ->
      server_step faulty w (on_server (task_done (s_server w)) (s_publishing w) (s_links w) w)
  | sv_disconnect w g l h : s_links w !! g = Some l -> l_up l = false -> receivers (s_server w) !! g = Some h ->
      server_step faulty w (on_server (discard_unreachable_receivers playback_data [(g, h)] (s_server w))
        (s_publishing w) (s_links w) w)
  | sv_rewrite w rows stack unreachable d sends : s_publishing w = None -> broadcast_queue (s_server w) = [] ->
      resync_receivers playback_data stack unreachable (rewrite_history rows (s_server w)) = (d, sends) ->
      server_step faulty w (new_version d
        (deliver sends (map_imap (fun g l => Some (if unreachable g then cut_link (length (l_s2c l)) l else l)) (s_links w))) w)
  | sv_snapshot w rows : s_publishing w = None -> broadcast_queue (s_server w) = [] ->
      server_step faulty w (new_version (publish_snapshot (rewrite_history rows (s_server w))) (s_links w) w)
  | sv_restart w instance rows : instance ≠ "" -> Forall (fun v => v_instance v ≠ instance) (versions w) ->
      server_step faulty w (new_version (delivery_init instance rows) ((fun l => cut_link (length (l_s2c l)) l) <$> s_links w) w)
  | sv_cut w g l i : s_links w !! g = Some l ->
      server_step faulty w (on_server (s_server w) (s_publishing w) (<[g := cut_link i l]> (s_links w)) w).

(** *** The receiver thread and the consumer *)

Inductive client_step : replication D E -> replication D E -> Prop :=
  | rc_connect w r g h : s_conn w = None -> ib_generation (r_inbox (s_receiver w)) < 2 ^ 64 - 1 ->
      connect_begin (s_receiver w) = (r, (g, h)) -> s_links w !! g = None ->
      client_step w (on_client (hello_was_sent r) (Some g) (sync_from h) (s_consumer w)
        (<[g := mk_rlink true false h []]> (s_links w)) w)
  | rc_read w g l m ms r ok : s_conn w = Some g -> s_links w !! g = Some l -> l_s2c l = m :: ms ->
      incoming (r_inbox (s_receiver w)) < 2 ^ 64 - 1 ->
      read_message m (s_from w) g (s_receiver w) = (r, ok) ->
      client_step w (on_client (if ok then r else end_connection r) (if ok then Some g else None) (s_from w) (s_consumer w)
        (<[g := set_s2c ms l]> (s_links w)) w)
  | rc_end w g : s_conn w = Some g ->
      client_step w (on_client (end_connection (s_receiver w)) None (s_from w) (s_consumer w) (s_links w) w)
  | rc_drain w max r c : c_in_hand (s_consumer w) = None ->
      drain_begin max (s_receiver w) (s_consumer w) = Ok (r, c) ->
      client_step w (on_client r (s_conn w) (s_from w) c (s_links w) w)
  | rc_finish w ms outcome r c : c_in_hand (s_consumer w) = Some ms ->
      ib_generation (r_inbox (s_receiver w)) < 2 ^ 64 - 1 ->
      match outcome with Err e => is_exception e = true | Ok _ => True end ->
      drain_finish decode_received_event event_of decode_state decode_other outcome (s_receiver w) (s_consumer w) = (r, c) ->
      client_step w (on_client r (s_conn w) (s_from w) c (s_links w) w)
  | rc_request w : c_in_hand (s_consumer w) = None -> ib_generation (r_inbox (s_receiver w)) < 2 ^ 64 - 1 ->
      client_step w (on_client (request_replay_from (c_last_seq (s_consumer w) + 1) (s_receiver w)).1
        (s_conn w) (s_from w) (s_consumer w) (s_links w) w).

Definition replica_step (faulty : bool) w w' : Prop := client_step w w' \/ server_step faulty w w'.

Definition replica_init (instance : string) (rows : list (row D)) (max_queue : nat) (layered : bool) (mode : LayerMode)
    (again : bool) (token : string) : replication D E :=
  mk_replication (delivery_init instance rows) [] None ∅ (receiver_init 1 max_queue layered mode again token) None 1
    (consumer_init 1 []).
Definition replica_reachable (faulty : bool) w : Prop :=
  exists instance rows max_queue layered mode again token, instance ≠ "" /\ (0 < max_queue)%nat /\
    rtc (replica_step faulty) (replica_init instance rows max_queue layered mode again token) w.

(** The event a row stands for. *)
Definition row_event (x : row D) : option E :=
  match x with
  | EventRow d => match decode_received_event d with Ok rec => event_of rec | Err _ => None end
  | GraphRow _ => None
  end.

(** ** Versions *)

Definition rows_at vs (k : nat) : list (row D) := match vs !! k with Some v => v_rows v | None => [] end.
Definition ident vs (k : nat) : option replay_identity := (fun v => (v_instance v, v_epoch v)) <$> vs !! k.

(** Versions are only added, and only extended. *)
Definition vs_le vs vs' : Prop := forall k v, vs !! k = Some v -> exists v', vs' !! k = Some v'
  /\ v_instance v' = v_instance v /\ v_epoch v' = v_epoch v /\ v_rows v `prefix_of` v_rows v'.

Lemma vs_le_refl vs : vs_le vs vs.
Proof. intros k v H. by exists v. Qed.
Lemma ident_mono vs vs' k i : vs_le vs vs' -> ident vs k = Some i -> ident vs' k = Some i.
Proof.
  unfold ident. intros Hle (v & Hv & ->)%fmap_Some. destruct (Hle k v Hv) as (v' & -> & Hi & He & _).
  simpl. by rewrite Hi, He.
Qed.
Lemma rows_mono vs vs' k : vs_le vs vs' -> rows_at vs k `prefix_of` rows_at vs' k.
Proof.
  intros Hle. unfold rows_at. destruct (vs !! k) as [v|] eqn:E1; [|apply prefix_nil].
  destruct (Hle k v E1) as (v' & -> & _ & _ & ?). done.
Qed.
Lemma row_mono vs vs' k i x : vs_le vs vs' -> rows_at vs k !! i = Some x -> rows_at vs' k !! i = Some x.
Proof. intros Hle H. eapply prefix_lookup_Some; [exact H|]. by apply rows_mono. Qed.

Lemma vs_le_snoc vs v : vs_le vs (vs ++ [v]).
Proof. intros k u H. exists u. split_and!; [by apply lookup_app_l_Some|done..]. Qed.
Lemma vs_le_extend past v v' : v_instance v' = v_instance v -> v_epoch v' = v_epoch v -> v_rows v `prefix_of` v_rows v' ->
  vs_le (past ++ [v]) (past ++ [v']).
Proof.
  intros H1 H2 H3 k u [Hu|[Hk Hu]]%lookup_app_Some.
  - exists u. split_and!; [by apply lookup_app_l_Some|done..].
  - apply list_lookup_singleton_Some in Hu as [? <-]. exists v'. split_and!; [|done..].
    rewrite lookup_app_r by done. by replace (k - length past)%nat with 0%nat.
Qed.

(** ** Where a stream leads

    A position is a version and how many of its rows have been received; [path]
    follows frames to the position after them.  At position zero every version
    looks the same. *)
Definition other (m : message D) : Prop :=
  match m with BroadcastEvent _ _ | LayerGraphState _ _ | Resync => False | _ => True end.

Inductive path vs : nat -> Z -> list (message D) -> nat -> Z -> Prop :=
  | path_nil k n : path vs k n [] k n
  | path_row k n seq x ms k' n' : 1 <= seq -> rows_at vs k !! Z.to_nat (seq - 1) = Some x ->
      path vs k (Z.max n seq) ms k' n' -> path vs k n (row_message seq x :: ms) k' n'
  | path_reset k n j ms k' n' : path vs j 0 ms k' n' -> path vs k n (Resync :: ms) k' n'
  | path_other k n m ms k' n' : other m -> path vs k n ms k' n' -> path vs k n (m :: ms) k' n'
  | path_zero k j ms k' n' : path vs j 0 ms k' n' -> path vs k 0 ms k' n'.

(** [flow] follows a connection of a server instance.  [i] is the version whose
    reset the handshake may still announce; completions name the version. *)
Inductive flow vs (inst : string) : option nat -> nat -> Z -> list (message D) -> option nat -> nat -> Z -> Prop :=
  | flow_nil i k n : flow vs inst i k n [] i k n
  | flow_row i k n seq x ms i' k' n' : 1 <= seq -> rows_at vs k !! Z.to_nat (seq - 1) = Some x ->
      flow vs inst i k (Z.max n seq) ms i' k' n' -> flow vs inst i k n (row_message seq x :: ms) i' k' n'
  | flow_reset i k n j e ms i' k' n' : ident vs j = Some (inst, e) -> (i = None \/ i = Some j) ->
      flow vs inst None j 0 ms i' k' n' -> flow vs inst i k n (Resync :: ms) i' k' n'
  | flow_complete i k n head e ms i' k' n' : ident vs k = Some (inst, e) -> 0 <= head <= n ->
      flow vs inst None k n ms i' k' n' -> flow vs inst i k n (ReplayComplete head e :: ms) i' k' n'
  | flow_control i k n m ms i' k' n' : is_control m = true -> flow vs inst i k n ms i' k' n' ->
      flow vs inst i k n (m :: ms) i' k' n'.

Lemma path_app vs k n a k1 n1 b k2 n2 : path vs k n a k1 n1 -> path vs k1 n1 b k2 n2 -> path vs k n (a ++ b) k2 n2.
Proof. induction 1; intros Hb; simpl; try (by econstructor; eauto); done. Qed.

Lemma path_app_inv vs k n a b k2 n2 : path vs k n (a ++ b) k2 n2 -> exists k1 n1, path vs k n a k1 n1 /\ path vs k1 n1 b k2 n2.
Proof.
  remember (a ++ b) as ms eqn:Hms. intros H. revert a Hms.
  induction H as [k n|k n seq x ms k' n' Hs Hx H IH|k n j ms k' n' H IH|k n m ms k' n' Ho H IH|k j ms k' n' H IH]; intros a Hms.
  - symmetry in Hms. apply app_eq_nil in Hms as [-> ->]. exists k, n. split; constructor.
  - destruct a as [|m a]; simpl in Hms; [subst b; exists k, n; split; [constructor|by econstructor]|].
    injection Hms as <- ->. destruct (IH a eq_refl) as (k1 & n1 & ? & ?). exists k1, n1. split; [by econstructor|done].
  - destruct a as [|m a]; simpl in Hms; [subst b; exists k, n; split; [constructor|by econstructor]|].
    injection Hms as <- ->. destruct (IH a eq_refl) as (k1 & n1 & ? & ?). exists k1, n1. split; [by econstructor|done].
  - destruct a as [|m' a]; simpl in Hms; [subst b; exists k, n; split; [constructor|by constructor]|].
    injection Hms as <- ->. destruct (IH a eq_refl) as (k1 & n1 & ? & ?). exists k1, n1. split; [by constructor|done].
  - destruct (IH a Hms) as (k1 & n1 & ? & ?). exists k1, n1. split; [by econstructor|done].
Qed.

Lemma path_mono vs vs' k n ms k' n' : vs_le vs vs' -> path vs k n ms k' n' -> path vs' k n ms k' n'.
Proof. intros Hle. induction 1; econstructor; eauto using row_mono. Qed.

(** At position zero the version of the end may be changed too. *)
Lemma path_end_zero vs k n ms k' j : path vs k n ms k' 0 -> path vs k n ms j 0.
Proof. intros H. rewrite <-(app_nil_r ms). eapply path_app; [exact H|]. eapply path_zero, path_nil. Qed.

Lemma flow_app vs inst i k n a i1 k1 n1 b i2 k2 n2 : flow vs inst i k n a i1 k1 n1 -> flow vs inst i1 k1 n1 b i2 k2 n2 ->
  flow vs inst i k n (a ++ b) i2 k2 n2.
Proof. induction 1; intros Hb; simpl; try (by econstructor; eauto); done. Qed.

Lemma flow_app_inv vs inst i k n a b i2 k2 n2 : flow vs inst i k n (a ++ b) i2 k2 n2 ->
  exists i1 k1 n1, flow vs inst i k n a i1 k1 n1 /\ flow vs inst i1 k1 n1 b i2 k2 n2.
Proof.
  revert i k n. induction a as [|m a IH]; intros i k n H; simpl in H; [exists i, k, n; split; [constructor|done]|].
  inversion H; subst;
    match goal with Hf : flow _ _ _ _ _ (a ++ b) _ _ _ |- _ => destruct (IH _ _ _ Hf) as (i1 & k1 & n1 & ? & ?) end;
    exists i1, k1, n1; (split; [by econstructor; eauto|done]).
Qed.

Lemma flow_mono vs vs' inst i k n ms i' k' n' : vs_le vs vs' -> flow vs inst i k n ms i' k' n' -> flow vs' inst i k n ms i' k' n'.
Proof. intros Hle. induction 1; econstructor; eauto using row_mono, ident_mono. Qed.

Lemma flow_controls vs inst i k n ms : Forall (fun m => is_control m = true) ms -> flow vs inst i k n ms i k n.
Proof. induction 1; [constructor|by constructor]. Qed.

(** A control message may be inserted anywhere. *)
Lemma flow_insert vs inst i k n a m b i' k' n' : is_control m = true ->
  flow vs inst i k n (a ++ b) i' k' n' -> flow vs inst i k n (a ++ m :: b) i' k' n'.
Proof.
  intros Hm (i1 & k1 & n1 & Ha & Hb)%flow_app_inv. eapply flow_app; [exact Ha|by constructor].
Qed.

Lemma flow_None_end vs inst k n ms i' k' n' : flow vs inst None k n ms i' k' n' -> i' = None.
Proof. remember None as i eqn:Hi. intros H. revert Hi. induction H; intros; subst; auto. Qed.

(** The handshake's reset may be forgotten once the receiver has reset itself. *)
Lemma flow_forget vs inst i k n ms i' k' n' : flow vs inst i k n ms i' k' n' -> flow vs inst None k n ms None k' n'.
Proof.
  induction 1 as [i k n|i k n seq x ms i' k' n' Hs Hx H IH|i k n j' e ms i' k' n' Hj Hi H IH|i k n head e ms i' k' n' Hk Hh H IH|i k n m ms i' k' n' Hm H IH];
    econstructor; eauto.
Qed.

(** ** The consumer

    What has been applied is what the first [n] rows of version [k] say. *)
Definition prefix_at vs (k : nat) (n : Z) (applied : list E) : Prop :=
  0 <= n <= head_seq (rows_at vs k) /\ applied = omap row_event (take (Z.to_nat n) (rows_at vs k)).

Lemma prefix_zero vs k j applied : prefix_at vs k 0 applied -> prefix_at vs j 0 applied.
Proof. intros [_ ->]. split; [unfold head_seq; lia|done]. Qed.

Lemma prefix_next vs k n x applied : prefix_at vs k n applied -> rows_at vs k !! Z.to_nat n = Some x ->
  prefix_at vs k (n + 1) (applied ++ option_list (row_event x)).
Proof.
  intros [Hn ->] Hx. pose proof (lookup_lt_Some _ _ _ Hx). unfold prefix_at, head_seq in *. split; [lia|].
  replace (Z.to_nat (n + 1)) with (S (Z.to_nat n)) by lia. rewrite (take_S_r _ _ x Hx), omap_app.
  f_equal.
Qed.

Lemma prefix_mono vs vs' k n applied : vs_le vs vs' -> prefix_at vs k n applied -> prefix_at vs' k n applied.
Proof.
  intros Hle [Hn ->]. destruct (rows_mono _ _ k Hle) as [rest Hr]. unfold prefix_at, head_seq in *. rewrite Hr, length_app.
  split; [lia|]. rewrite take_app_le by lia. done.
Qed.

(** The events so far: those before the batch, unless it holds a reset. *)
Definition so_far (base : list E) (x : DecodeResult Rec E) : list E :=
  (if resync_requested x then [] else base) ++ received x.

Abbreviation decode_one' := (decode_one decode_received_event event_of decode_state decode_other true true false).
Abbreviation decode_loop' := (decode_loop decode_received_event event_of decode_state decode_other true true false).

Lemma decode_one_other m x x' : other m -> decode_one' m x = Ok x' ->
  dr_last_seq x' = dr_last_seq x /\ (forall base, so_far base x' = so_far base x) /\ errors x' = errors x.
Proof.
  destruct m; simpl; try done; intros _ H; simplify_eq; try done.
  - destruct (decode_state d); simpl in H; [|done]. by simplify_eq.
  - destruct (decode_other d); simpl in H; [|done]. by simplify_eq.
  - destruct (decode_other d); simpl in H; [|done]. by simplify_eq.
Qed.

(** A row already applied is skipped, the next one is applied, a gap is an error. *)
Lemma decode_one_row vs k seq y x x' base : 1 <= seq -> rows_at vs k !! Z.to_nat (seq - 1) = Some y ->
  prefix_at vs k (dr_last_seq x) (so_far base x) -> decode_one' (row_message seq y) x = Ok x' ->
  dr_last_seq x' = Z.max (dr_last_seq x) seq /\ prefix_at vs k (dr_last_seq x') (so_far base x') /\ errors x' = errors x.
Proof.
  intros Hs Hy Hp H.
  assert (exists item, decode_sequenced event_of true false seq item x = Ok x'
    /\ option_list (row_event y) = match item with inl rec => option_list (event_of rec) | inr _ => [] end) as (item & Hd & He).
  { destruct y as [d|d]; simpl in H |- *.
    - destruct (decode_received_event d) as [rec|]; simpl in H; [|done]. by exists (inl rec).
    - destruct (decode_state d) as [st|]; simpl in H; [|done]. by exists (inr st). }
  unfold decode_sequenced in Hd. rewrite (proj2 (Z.eqb_neq seq 0)) in Hd by lia. simpl in Hd.
  destruct (Z.leb_spec seq (dr_last_seq x)) as [Hle|Hlt]; [injection Hd as <-; split_and!; [lia|done|done]|].
  destruct (Z.eqb_spec seq (dr_last_seq x + 1)) as [->|]; [|done]. simpl in Hd. injection Hd as <-.
  rewrite Z.add_simpl_r in Hy. pose proof (prefix_next _ _ _ _ _ Hp Hy) as Hn. rewrite He in Hn. unfold so_far in *.
  destruct item as [rec|st]; simpl in *; [destruct (event_of rec); simpl in *|]; rewrite ?app_assoc, ?app_nil_r in *;
    (split_and!; [lia|done|done]).
Qed.

Lemma decode_path vs k n ms k1 n1 x base : path vs k n ms k1 n1 -> dr_last_seq x = n -> errors x = [] ->
  prefix_at vs k n (so_far base x) ->
  (exists k2, prefix_at vs k2 (dr_last_seq (decode_loop' ms x)) (so_far base (decode_loop' ms x)))
  /\ (errors (decode_loop' ms x) = [] -> dr_last_seq (decode_loop' ms x) = n1 /\ prefix_at vs k1 n1 (so_far base (decode_loop' ms x))).
Proof.
  intros H. revert x.
  induction H as [k n|k n seq y ms k' n' Hs Hy H IH|k n j ms k' n' H IH|k n m ms k' n' Ho H IH|k j ms k' n' H IH]; intros x Hx He Hp.
  - simpl. subst n. split; [by exists k|done].
  - simpl. subst n. destruct (decode_one' (row_message seq y) x) as [x'|e] eqn:E1.
    + destruct (decode_one_row vs k seq y x x' base Hs Hy Hp E1) as (Hl & Hp' & He'). rewrite Hl in Hp'.
      apply IH; [done|congruence|done].
    + simpl. split; [by exists k|]. by rewrite He.
  - simpl. apply IH; [done|done|]. split; [unfold head_seq; lia|done].
  - simpl. destruct (decode_one' m x) as [x'|e] eqn:E1.
    + destruct (decode_one_other m x x' Ho E1) as (Hl & Hs & He'). apply IH; [congruence|congruence|by rewrite Hs].
    + simpl. subst n. split; [by exists k|]. by rewrite He.
  - apply IH; [done|done|by eapply prefix_zero].
Qed.

(** ** The receiver's invariant *)

(** The sequence reached after some frames. *)
Definition seq_after (n : Z) (m : message D) : Z :=
  match m with BroadcastEvent seq _ | LayerGraphState seq _ => Z.max n seq | Resync => 0 | _ => n end.
Definition end_seq (n : Z) (ms : list (message D)) : Z := foldl seq_after n ms.

(** Frames without a reset, all of one version. *)
Definition steady vs (k : nat) (ms : list (message D)) : Prop :=
  Forall (fun m => other m \/ exists seq x, m = row_message seq x /\ 1 <= seq /\ rows_at vs k !! Z.to_nat (seq - 1) = Some x) ms.

Lemma seq_after_row n seq x : seq_after n (row_message seq x) = Z.max n seq.
Proof. by destruct x. Qed.
Lemma seq_after_other n m : other m -> seq_after n m = n.
Proof. by destruct m. Qed.
Lemma end_seq_app n a b : end_seq n (a ++ b) = end_seq (end_seq n a) b.
Proof. apply foldl_app. Qed.
Lemma path_end vs k n ms k' n' : path vs k n ms k' n' -> n' = end_seq n ms.
Proof.
  induction 1; simpl; rewrite ?seq_after_row, ?seq_after_other by done; done.
Qed.

Lemma steady_path vs k n ms : steady vs k ms -> path vs k n ms k (end_seq n ms).
Proof.
  intros H. revert n. induction H as [|m ms [Ho|(seq & x & -> & Hs & Hx)] H IH]; intros n; simpl; [constructor|..].
  - rewrite seq_after_other by done. constructor; [done|apply IH].
  - rewrite seq_after_row. econstructor; [done..|apply IH].
Qed.
Lemma steady_ge vs k n ms : steady vs k ms -> n <= end_seq n ms.
Proof.
  intros H. revert n. induction H as [|m ms [Ho|(seq & x & -> & _)] H IH]; intros n; simpl; [lia|..].
  - rewrite seq_after_other by done. apply IH.
  - rewrite seq_after_row. specialize (IH (Z.max n seq)). lia.
Qed.
Lemma steady_no_reset vs k : ~ steady vs k [Resync].
Proof. intros H. inversion H as [|? ? [Ho|(seq & x & Heq & _)] _]; [done|]. by destruct x. Qed.
Lemma steady_app vs k a b : steady vs k (a ++ b) <-> steady vs k a /\ steady vs k b.
Proof. apply Forall_app. Qed.
Lemma steady_mono vs vs' k ms : vs_le vs vs' -> steady vs k ms -> steady vs' k ms.
Proof.
  intros Hle H. eapply Forall_impl; [exact H|]. intros m [?|(seq & x & ? & ? & ?)]; [by left|right]. exists seq, x. eauto using row_mono.
Qed.

(** A completion that has been read and not settled: the frames before it, and
    those after it. *)
Definition marker_ok vs (r : receiver D) (c : consumer D E) (kc kr : nat) (m : replay_state) : Prop :=
  exists F1 F2 nm, default [] (c_in_hand c) ++ frames (r_inbox r) = F1 ++ F2
  /\ path vs kc (c_last_seq c) F1 kr nm /\ steady vs kr F2 /\ last_received (r_inbox r) = end_seq nm F2
  /\ id_received (ids r) = Some (id_instance (ids r), rs_epoch m) /\ rs_head_seq m <= nm
  /\ Z.of_nat (length F1) <= Z.max 0 (Z.of_nat (length (default [] (c_in_hand c))) + rs_serial m - drained (r_inbox r)).

(** What the application is told once it is synchronized. *)
Definition synced_ok vs (r : receiver D) (c : consumer D E) (kc kr : nat) : Prop :=
  kc = kr /\ steady vs kr (default [] (c_in_hand c) ++ frames (r_inbox r))
  /\ last_received (r_inbox r) = end_seq (c_last_seq c) (default [] (c_in_hand c) ++ frames (r_inbox r))
  /\ ident vs kr = Some (published_instance (published r), replay_epoch (published r))
  /\ replay_head_seq (published r) <= c_last_seq c.

(** Nothing received: before the first connection, and until the reset a
    request to replay from one asks for. *)
Definition quiet (r : receiver D) (c : consumer D E) : Prop :=
  last_received (r_inbox r) = 0 /\ frames (r_inbox r) = [] /\ c_last_seq c = 0 /\ default [] (c_in_hand c) = [].

Record rx_ok vs (r : receiver D) (c : consumer D E) (kc kr : nat) : Prop := {
  rx_inbox : inbox_ok (r_inbox r);
  rx_contiguous : require_contiguous (r_inbox r) = false;
  rx_serial : incoming (r_inbox r) = drained (r_inbox r) + Z.of_nat (length (frames (r_inbox r)));
  rx_prefix : prefix_at vs kc (c_last_seq c) (c_applied c);
  rx_path : path vs kc (c_last_seq c) (default [] (c_in_hand c) ++ frames (r_inbox r)) kr (last_received (r_inbox r));
  rx_ident i : id_received (ids r) = Some i -> ident vs kr = Some i;
  rx_reset : id_reset_on_hello (ids r) = true -> quiet r c;
  rx_first : id_hello_sent (ids r) = false -> quiet r c;
  rx_marker m : pending (r_inbox r) = Some m -> marker_ok vs r c kc kr m;
  rx_synced : synchronized_event r = true -> synced_ok vs r c kc kr;
}.

Lemma marker_mono vs vs' r c kc kr m : vs_le vs vs' -> marker_ok vs r c kc kr m -> marker_ok vs' r c kc kr m.
Proof. intros Hle (F1 & F2 & nm & ? & ? & ? & ?). exists F1, F2, nm.
  split_and!; try done; try tauto; eauto using path_mono, steady_mono.
Qed.
Lemma synced_mono vs vs' r c kc kr : vs_le vs vs' -> synced_ok vs r c kc kr -> synced_ok vs' r c kc kr.
Proof. intros Hle (? & ? & ? & ? & ?). split_and!; eauto using steady_mono, ident_mono.
Qed.
Lemma rx_mono vs vs' r c kc kr : vs_le vs vs' -> rx_ok vs r c kc kr -> rx_ok vs' r c kc kr.
Proof.
  intros Hle []. split; eauto using prefix_mono, path_mono, ident_mono, marker_mono, synced_mono.
Qed.

(** *** The consumer's steps *)

(** Nothing of the connection changes. *)
Definition same_conn (r r' : receiver D) : Prop :=
  ids r' = ids r /\ connected r' = connected r /\ last_received (r_inbox r') = last_received (r_inbox r)
  /\ ib_generation (r_inbox r') = ib_generation (r_inbox r) /\ requested (r_inbox r') = requested (r_inbox r)
  /\ want_layered r' = want_layered r /\ want_layer_mode r' = want_layer_mode r
  /\ (pending (r_inbox r) = None -> pending (r_inbox r') = None /\ synchronized_event r' = synchronized_event r).

Lemma rx_drain vs r c kc kr max r' c' : rx_ok vs r c kc kr -> c_in_hand c = None -> drain_begin max r c = Ok (r', c') ->
  rx_ok vs r' c' kc kr /\ same_conn r r'.
Proof.
  intros H Hc. unfold drain_begin, drain_queue. case_bool_decide; [done|].
  pose proof (drain_ok max _ (rx_inbox _ _ _ _ _ H)) as Hok.
  destruct (drain_spec max _ (rx_inbox _ _ _ _ _ H) (rx_serial _ _ _ _ _ H)) as (n & Hn & Hd). rewrite Hd in *.
  intros [= <- <-]. split_and!; try done. simpl in Hok.
  pose proof (take_drop n (frames (r_inbox r))) as Htd.
  destruct H as [H1 H2 H3 H4 H5 H6 H7 H8 H9 H10]. rewrite Hc in *. simpl in H5.
  split; simpl; rewrite ?length_drop, ?Htd; try done; try lia.
  - intros Hq. destruct (H7 Hq) as (? & Hf & ? & ?). unfold quiet. simpl. rewrite Hf. by destruct n.
  - intros Hq. destruct (H8 Hq) as (? & Hf & ? & ?). unfold quiet. simpl. rewrite Hf. by destruct n.
  - intros m Hm. destruct (H9 m Hm) as (F1 & F2 & nm & Hf & ? & ? & ? & ? & ? & Hl). exists F1, F2, nm. rewrite Hc in Hf, Hl.
    simpl in Hf, Hl |- *. rewrite Htd. split_and!; try done. rewrite length_take. lia.
  - intros Hs. destruct (H10 Hs) as (? & Hst & Hlr & ? & ?). rewrite Hc in Hst, Hlr. unfold synced_ok. simpl in *. by rewrite Htd.
Qed.

(** A marker that the batch has passed stands at the batch's end. *)
Lemma marker_inside vs r c kc kr m ms F1 F2 nm applied : ms = F1 ++ F2 -> steady vs kr F2 -> steady vs kr (frames (r_inbox r)) ->
  path vs kc (c_last_seq c) F1 kr nm -> rs_head_seq m <= nm -> id_received (ids r) = Some (id_instance (ids r), rs_epoch m) ->
  last_received (r_inbox r) = end_seq (end_seq (c_last_seq c) ms) (frames (r_inbox r)) ->
  marker_ok vs r (mk_consumer (end_seq (c_last_seq c) ms) None applied) kr kr m.
Proof.
  intros -> HF2 Hst HF1 Hhd Hid Hlr. exists [], (frames (r_inbox r)), (end_seq (c_last_seq c) (F1 ++ F2)).
  split_and!; simpl; [done|constructor|done..| |lia].
  rewrite end_seq_app, <-(path_end _ _ _ _ _ _ HF1). pose proof (steady_ge vs kr nm F2 HF2). lia.
Qed.

(** A marker that the batch has not reached yet. *)
Lemma marker_ahead vs r c kr m ms G F2 nm k1 applied : c_in_hand c = Some ms -> frames (r_inbox r) = G ++ F2 ->
  path vs k1 (end_seq (c_last_seq c) ms) G kr nm -> steady vs kr F2 -> last_received (r_inbox r) = end_seq nm F2 ->
  id_received (ids r) = Some (id_instance (ids r), rs_epoch m) -> rs_head_seq m <= nm ->
  Z.of_nat (length (ms ++ G)) <= Z.max 0 (Z.of_nat (length ms) + rs_serial m - drained (r_inbox r)) ->
  marker_ok vs r (mk_consumer (end_seq (c_last_seq c) ms) None applied) k1 kr m.
Proof. intros Hh Hf HG HF2 Hlr Hid Hhd Hl. rewrite length_app in Hl. exists G, F2, nm. split_and!; simpl; done || lia. Qed.

Lemma settle_marker vs r c kc kr ms m : rx_ok vs r c kc kr -> c_in_hand c = Some ms -> pending (r_inbox r) = Some m ->
  exists k1, let n1 := end_seq (c_last_seq c) ms in
  path vs kc (c_last_seq c) ms k1 n1 /\ path vs k1 n1 (frames (r_inbox r)) kr (last_received (r_inbox r))
  /\ forall applied, marker_ok vs r (mk_consumer n1 None applied) k1 kr m.
Proof.
  intros H Hh Em. destruct (rx_marker _ _ _ _ _ H m Em) as (F1 & F2 & nm & Hf & HF1 & HF2 & Hlr & Hid & Hhd & Hl).
  rewrite Hh in Hf, Hl. simpl in Hf, Hl. destruct (app_eq_inv _ _ _ _ Hf) as [(G & -> & ->)|(G & -> & Hg)].
  - apply steady_app in HF2 as [HG HFr]. exists kr. pose proof (path_end _ _ _ _ _ _ HF1) as ->.
    assert (path vs kc (c_last_seq c) (F1 ++ G) kr (end_seq (c_last_seq c) (F1 ++ G))) as P1
      by (rewrite end_seq_app; eapply path_app; [done|by apply steady_path]).
    rewrite end_seq_app, <-(end_seq_app _ F1 G) in Hlr. split_and!; [done|rewrite Hlr; by apply steady_path|].
    intros applied. by eapply marker_inside.
  - destruct (path_app_inv _ _ _ _ _ _ _ HF1) as (k1 & n1 & P1 & P2). pose proof (path_end _ _ _ _ _ _ P1) as ->.
    exists k1. split_and!; [done|rewrite Hg, Hlr; eapply path_app; [exact P2|by apply steady_path]|]. intros applied. by eapply marker_ahead.
Qed.

Lemma settle_synced vs r c kc kr ms : rx_ok vs r c kc kr -> c_in_hand c = Some ms -> synchronized_event r = true ->
  exists k1, let n1 := end_seq (c_last_seq c) ms in
  path vs kc (c_last_seq c) ms k1 n1 /\ path vs k1 n1 (frames (r_inbox r)) kr (last_received (r_inbox r))
  /\ forall applied, (forall m, pending (r_inbox r) = Some m -> marker_ok vs r (mk_consumer n1 None applied) k1 kr m)
     /\ (true = true -> synced_ok vs r (mk_consumer n1 None applied) k1 kr).
Proof.
  intros H Hh Es. destruct (rx_synced _ _ _ _ _ H Es) as (-> & Hst & Hlr & Hid & Hhd). rewrite Hh in Hst, Hlr. simpl in Hst, Hlr.
  apply steady_app in Hst as [Hst1 Hst2]. exists kr. rewrite end_seq_app in Hlr.
  split_and!; [by apply steady_path|rewrite Hlr; by apply steady_path|]. intros applied. split.
  - intros m Hm. destruct (rx_marker _ _ _ _ _ H m Hm) as (F1 & F2 & nm & Hf & HF1 & HF2 & Hlr' & Hid' & Hhd' & Hl).
    rewrite Hh in Hf, Hl. simpl in Hf, Hl. destruct (app_eq_inv _ _ _ _ Hf) as [(G & Hms & HG)|(G & -> & Hg)].
    + subst F2. apply steady_app in HF2 as [HG _]. by eapply marker_inside.
    + assert (steady vs kr G) as HG by (rewrite Hg in Hst2; by apply steady_app in Hst2 as [? _]).
      eapply marker_ahead; try done. rewrite (path_end _ _ _ _ _ _ HF1), end_seq_app. by apply steady_path.
  - intros _. split_and!; try done. simpl. pose proof (steady_ge vs kr (c_last_seq c) ms Hst1). lia.
Qed.

(** Settling a batch: the position after it, where the marker and the published
    state have one too. *)
Lemma settle_position vs r c kc kr ms : rx_ok vs r c kc kr -> c_in_hand c = Some ms ->
  exists k1, let n1 := end_seq (c_last_seq c) ms in
  path vs kc (c_last_seq c) ms k1 n1 /\ path vs k1 n1 (frames (r_inbox r)) kr (last_received (r_inbox r))
  /\ forall applied, (forall m, pending (r_inbox r) = Some m -> marker_ok vs r (mk_consumer n1 None applied) k1 kr m)
     /\ (synchronized_event r = true -> synced_ok vs r (mk_consumer n1 None applied) k1 kr).
Proof.
  intros H Hh. pose proof (rx_path _ _ _ _ _ H) as Hp. rewrite Hh in Hp. simpl in Hp.
  destruct (synchronized_event r) eqn:Es; [|destruct (pending (r_inbox r)) as [m|] eqn:Em].
  - by apply settle_synced.
  - destruct (settle_marker vs r c kc kr ms m H Hh Em) as (k1 & P1 & P2 & Hm). exists k1. split_and!; [done..|].
    intros applied. split; [|done]. intros m' [= <-]. apply Hm.
  - destruct (path_app_inv _ _ _ _ _ _ _ Hp) as (k1 & n1 & P1 & P2). pose proof (path_end _ _ _ _ _ _ P1) as ->. by exists k1.
Qed.

(** Asking for a replay from the next row: the position is the consumer's. *)
Lemma rx_request vs r c n k applied kc kr : rx_ok vs r c kc kr -> prefix_at vs k n applied ->
  (id_reset_on_hello (ids r) = true \/ id_hello_sent (ids r) = false -> n = 0) ->
  let r' := (request_replay_from (n + 1) r).1 in
  rx_ok vs r' (mk_consumer n None applied) k k /\ connected r' = connected r
  /\ ib_generation (r_inbox r') = u64 (ib_generation (r_inbox r) + 1) /\ max_messages (r_inbox r') = max_messages (r_inbox r).
Proof.
  intros H Hp Hq. pose proof (proj1 Hp) as Hn. pose proof (request_replay_ok (n + 1) _ (rx_inbox _ _ _ _ _ H)) as Hok.
  unfold request_replay_from, request_replay in *. destruct (Z.ltb_spec (n + 1) 1); [lia|]. simpl in *.
  split_and!; [|done..]. split; simpl; try done.
  - apply H.
  - lia.
  - replace (n + 1 - 1) with n by lia. constructor.
  - intros Hr. assert (n = 0) as -> by (destruct (Z.eqb_spec (n + 1) 1); [lia|auto]). done.
  - intros Hr. assert (n = 0) as -> by auto. done.
Qed.

(** Without frames the position stays, but for the version at zero. *)
Lemma prefix_stay vs k n k' n' applied : path vs k n [] k' n' -> prefix_at vs k n applied -> prefix_at vs k' n' applied.
Proof.
  remember [] as ms eqn:Hms. induction 1; intros Hp; try done. apply IHpath; [done|]. by eapply prefix_zero.
Qed.

(** Publishing a completed replay. *)
Lemma rx_mark vs r c kc kr : rx_ok vs r c kc kr -> c_in_hand c = None ->
  exists kc', rx_ok vs (mark_replay_applied r).1 c kc' kr /\ same_conn r (mark_replay_applied r).1.
Proof.
  intros H Hh. pose proof (mark_replay_ok _ (rx_inbox _ _ _ _ _ H)) as Hok. unfold mark_replay_applied, mark_replay, ready_marker in *.
  destruct (pending (r_inbox r)) as [m|] eqn:Em; [|exists kc; by destruct r].
  destruct (negb (rs_generation m =? ib_generation (r_inbox r)) || (drained (r_inbox r) <? rs_serial m)) eqn:Eg; [by exists kc; destruct r|].
  apply orb_false_iff in Eg as [_ Hd%Z.ltb_ge]. exists kr. split; [|split_and!; try done; simpl; by rewrite Em].
  destruct (rx_marker _ _ _ _ _ H m Em) as (F1 & F2 & nm & Hf & HF1 & HF2 & Hlr & Hid & Hhd & Hl). rewrite Hh in Hf, Hl. simpl in Hf, Hl.
  assert (F1 = []) as -> by (destruct F1; [done|simpl in Hl; lia]). simpl in Hf. subst F2.
  pose proof (path_end _ _ _ _ _ _ HF1) as Hnm. simpl in Hnm. subst nm.
  assert (prefix_at vs kr (c_last_seq c) (c_applied c)) as Hp.
  { eapply prefix_stay; [exact HF1|apply H]. }
  destruct H as [H1 H2 H3 H4 H5 H6 H7 H8 H9 H10]. rewrite Hh in *. split; simpl; try done.
  - rewrite Hh, Hlr. simpl. by apply steady_path.
  - intros _. unfold synced_ok. simpl. rewrite Hh, Hid. simpl. split_and!; try done. by apply H6.
Qed.

Lemma rx_finish vs r c kc kr ms outcome r' c' : rx_ok vs r c kc kr -> c_in_hand c = Some ms ->
  match outcome with Err e => is_exception e = true | Ok _ => True end ->
  drain_finish decode_received_event event_of decode_state decode_other outcome r c = (r', c') ->
  (exists kc', rx_ok vs r' c' kc' kr /\ same_conn r r')
  \/ (exists k, rx_ok vs r' c' k k /\ connected r' = connected r /\ ib_generation (r_inbox r') = u64 (ib_generation (r_inbox r) + 1)
              /\ max_messages (r_inbox r') = max_messages (r_inbox r)).
Proof.
  intros H Hh Hout. unfold drain_finish. rewrite Hh.
  destruct (settle_position vs r c kc kr ms H Hh) as (k1 & P1 & P2 & Hms).
  assert (forall applied, prefix_at vs k1 (end_seq (c_last_seq c) ms) applied ->
            rx_ok vs r (mk_consumer (end_seq (c_last_seq c) ms) None applied) k1 kr) as Hsettled.
  { intros applied Hp. destruct (Hms applied) as [Hm Hs]. destruct H as [H1 H2 H3 H4 H5 H6 H7 H8 H9 H10].
    split; simpl; try done.
    - intros Hq. destruct (H7 Hq) as (? & ? & Hc & Hhd). rewrite Hh in Hhd. simpl in Hhd. subst ms. done.
    - intros Hq. destruct (H8 Hq) as (? & ? & Hc & Hhd). rewrite Hh in Hhd. simpl in Hhd. subst ms. done. }
  destruct ms as [|m0 ms0].
  { intros [= <- <-]. left. eapply rx_mark; [|done]. apply (Hsettled (c_applied c)). eapply prefix_stay; [exact P1|apply H]. }
  set (ms := m0 :: ms0) in *. set (x := decode_messages _ _ _ _ _ _ _ _ _).
  assert (prefix_at vs kc (c_last_seq c) (so_far (c_applied c) (decoded_init (c_last_seq c)))) as Hp0
    by (unfold so_far; simpl; rewrite app_nil_r; apply H).
  destruct (decode_path vs kc (c_last_seq c) ms k1 _ (decoded_init (c_last_seq c)) (c_applied c) P1 eq_refl eq_refl Hp0)
    as [(k2 & Hk2) Hok]. change (decode_loop' ms (decoded_init (c_last_seq c))) with x in Hk2, Hok.
  assert (forall n : Z, id_reset_on_hello (ids r) = true \/ id_hello_sent (ids r) = false -> n = 0) as Hq.
  { intros n [Hr|Hr]; [destruct (rx_reset _ _ _ _ _ H Hr) as (_ & _ & _ & E0)|destruct (rx_first _ _ _ _ _ H Hr) as (_ & _ & _ & E0)];
      rewrite Hh in E0; by subst ms. }
  destruct outcome as [u|e]; [destruct (errors x) eqn:Ee|rewrite Hout]; intros [= <- <-].
  - left. destruct (Hok eq_refl) as [Hl Hp]. rewrite Hl in *. eapply rx_mark; [|done]. by apply Hsettled.
  - right. exists k2. apply (rx_request vs r c _ k2 _ kc kr H Hk2). auto.
  - right. destruct (resync_requested x).
    + exists 0%nat. eapply rx_request; [done| |by auto]. split; [unfold head_seq; lia|done].
    + exists kc. eapply rx_request; [done|apply H|by auto].
Qed.

(** *** Reading on an open connection *)

Lemma incoming_nonneg r c vs kc kr : rx_ok vs r c kc kr -> 0 <= incoming (r_inbox r).
Proof.
  intros H. pose proof (ib_serials _ (rx_inbox _ _ _ _ _ H)) as ->. unfold u64. apply Z.mod_pos_bound. lia.
Qed.

Lemma push_steady m (b : inbox (message D)) : m ≠ Resync ->
  push_frame (kind_and_sequence m).1 (kind_and_sequence m).2 m b
  = mk_inbox (frames b ++ [m]) (requested b) (pending b) (max_messages b) (require_contiguous b) (ib_generation b)
      (u64 (incoming b + 1)) (drained b) (seq_after (last_received b) m) (last_applied b) (replay_head b) (ib_epoch b)
      (ib_synchronized b) (overflowed b).
Proof. by destruct m. Qed.

(** A frame of the version being received. *)
Lemma rx_push vs r c kc kr m : rx_ok vs r c kc kr -> id_reset_on_hello (ids r) = false -> id_hello_sent (ids r) = true ->
  requested (r_inbox r) = None -> (length (frames (r_inbox r)) < max_messages (r_inbox r))%nat -> incoming (r_inbox r) < 2 ^ 64 - 1 ->
  steady vs kr [m] -> rx_ok vs (set_box (push_frame (kind_and_sequence m).1 (kind_and_sequence m).2 m (r_inbox r)) r) c kc kr.
Proof.
  intros H Hr Hf Hq Hlen Hin Hm. pose proof (push_frame_ok (kind_and_sequence m).1 (kind_and_sequence m).2 m _ (rx_inbox _ _ _ _ _ H) Hq Hlen) as Hok.
  assert (m ≠ Resync) as Hne.
  { intros ->. by apply steady_no_reset in Hm. }
  rewrite push_steady in * by done. pose proof (incoming_nonneg _ _ _ _ _ H) as Hpos. rewrite u64_small in * by lia.
  destruct H as [H1 H2 H3 H4 H5 H6 H7 H8 H9 H10]. split; cbn [set_box r_inbox ids] in *; simpl; try done; try congruence.
  - rewrite length_app. simpl. lia.
  - rewrite app_assoc. eapply path_app; [exact H5|]. by apply steady_path.
  - intros mk Hmk. destruct (H9 mk Hmk) as (F1 & F2 & nm & E1 & P1 & S2 & L & I & Hd & Hl). exists F1, (F2 ++ [m]), nm.
    simpl. rewrite !app_assoc, E1. split_and!; try done; [by apply steady_app|]. by rewrite end_seq_app, <-L.
  - intros Hs. destruct (H10 Hs) as (E1 & S2 & L & I & Hd). split_and!; simpl; try done.
    + rewrite app_assoc. by apply steady_app.
    + by rewrite app_assoc, end_seq_app, <-L.
Qed.

(** A reset: everything after it is of the version the server reset to. *)
Lemma rx_resync vs r c kc kr j : rx_ok vs r c kc kr -> id_hello_sent (ids r) = true ->
  requested (r_inbox r) = None -> (length (frames (r_inbox r)) < max_messages (r_inbox r))%nat -> incoming (r_inbox r) < 2 ^ 64 - 1 ->
  (forall i, id_initial (ids r) = Some i -> ident vs j = Some i) ->
  let i := ids r in
  rx_ok vs (set_ids (mk_ids (id_initial i) None (id_instance i) (id_supported i) (id_hello_sent i) (id_requested i) true false)
    (set_sync false (set_box (push_frame RESYNC 0 Resync (r_inbox r)) r))) c kc j.
Proof.
  intros H Hf Hq Hlen Hin Hj. pose proof (push_frame_ok RESYNC 0 Resync _ (rx_inbox _ _ _ _ _ H) Hq Hlen) as Hok.
  pose proof (incoming_nonneg _ _ _ _ _ H) as Hpos. destruct H as [H1 H2 H3 H4 H5 H6 H7 H8 H9 H10].
  split; simpl in *; try done; try congruence.
  - rewrite u64_small by lia. rewrite length_app. simpl. lia.
  - rewrite app_assoc. eapply path_app; [exact H5|]. eapply path_reset, path_nil.
Qed.

(** A completion. *)
Lemma rx_complete vs r c kc kr head e : rx_ok vs r c kc kr -> 0 <= head <= last_received (r_inbox r) ->
  ident vs kr = Some (id_instance (ids r), e) ->
  let i := ids r in
  rx_ok vs (set_ids (mk_ids (Some (id_instance i, e)) None (id_instance i) (id_supported i) (id_hello_sent i) (id_requested i) (id_proven i)
              (id_reset_on_hello i))
    (set_box (set_pending (Some (mk_replay_state (ib_generation (r_inbox r)) head e (incoming (r_inbox r)))) (r_inbox r)) r)) c kc kr.
Proof.
  intros H Hh Hi. pose proof (accept_replay_complete_ok (ib_generation (r_inbox r)) head e _ (rx_inbox _ _ _ _ _ H)) as Hok.
  unfold accept_replay_complete in Hok. destruct (Z.ltb_spec head 0); [lia|]. rewrite Z.eqb_refl in Hok. simpl in Hok.
  destruct H as [H1 H2 H3 H4 H5 H6 H7 H8 H9 H10]. split; simpl in *; try done.
  - by intros i [= <-].
  - intros m [= <-]. exists (default [] (c_in_hand c) ++ frames (r_inbox r)), [], (last_received (r_inbox r)).
    simpl. rewrite app_nil_r. split_and!; try done; [constructor|lia|]. rewrite length_app. lia.
Qed.

Lemma rx_overflow vs r c kc kr v : rx_ok vs r c kc kr -> rx_ok vs (set_box (set_overflowed v (r_inbox r)) r) c kc kr.
Proof. intros [[] ? ? ? ? ? ? ? ? ?]. split; try done. Qed.

(** The end of a connection. *)
Lemma rx_end vs r c kc kr : rx_ok vs r c kc kr -> rx_ok vs (end_connection r) c kc kr.
Proof.
  intros H. unfold end_connection, set_connected, disconnect_inbox. rewrite Z.eqb_refl.
  assert (rx_ok vs (mk_receiver (reset_synchronization (r_inbox r)) false false (ids r) (published r) (peer r) (want_layered r)
    (want_layer_mode r) (reconnect r)) c kc kr) as He.
  { pose proof (reset_synchronization_ok _ (rx_inbox _ _ _ _ _ H)) as Hok. destruct H. by split. }
  destruct (should_stop_reconnecting _); [done|]. destruct (overflowed _); [|done]. by apply (rx_overflow _ _ _ _ _ false).
Qed.

(** A connection that has been answered; [i] is the version its handshake announced. *)
Record open_ok vs r (i : option nat) : Prop := {
  op_connected : connected r = true;
  op_supported : id_supported (ids r) = true;
  op_instance : id_instance (ids r) ≠ "";
  op_proven : id_proven (ids r) = true;
  op_reset : id_reset_on_hello (ids r) = false;
  op_sent : id_hello_sent (ids r) = true;
  op_requested : requested (r_inbox r) = None;
  op_initial : id_initial (ids r) = i ≫= ident vs;
}.

Lemma open_mono vs vs' r i : vs_le vs vs' -> (forall j, i = Some j -> is_Some (vs !! j)) -> open_ok vs r i -> open_ok vs' r i.
Proof.
  intros Hle Hi []. split; try done. rewrite op_initial0. destruct i as [j|]; [|done]. simpl.
  destruct (Hi j eq_refl) as [v Hv]. assert (ident vs j = Some (v_instance v, v_epoch v)) as Hid by (unfold ident; by rewrite Hv).
  by rewrite Hid, (ident_mono _ _ _ _ Hle Hid).
Qed.

(** What a message read on an open connection comes to. *)
Definition read_outcome vs c kc kr r i (r' : receiver D) (res : result bool) (ms : list (message D)) i' k' n' : Prop :=
  (res = Ok true /\ exists kr' i1, rx_ok vs r' c kc kr' /\ open_ok vs r' i1 /\ (i1 = i \/ i1 = None)
     /\ flow vs (id_instance (ids r')) i1 kr' (last_received (r_inbox r')) ms i' k' n' /\ ib_generation (r_inbox r') = ib_generation (r_inbox r))
  \/ (res ≠ Ok true /\ rx_ok vs r' c kc kr).

Lemma accept_current g kind seq m (b : inbox (message D)) : require_contiguous b = false -> g = ib_generation b ->
  (sequenced kind = true -> 1 <= seq) ->
  accept g kind seq m b = if (length (frames b) =? max_messages b)%nat then (set_overflowed true b, QUEUE_FULL)
                          else (push_frame kind seq m b, ACCEPTED).
Proof.
  intros Hc -> Hs. unfold accept. rewrite Hc, Z.eqb_refl. simpl. destruct (sequenced kind) eqn:E1; [|done].
  specialize (Hs eq_refl). destruct (Z.ltb_spec seq 1); [lia|done].
Qed.

(** A message that is kept as a frame of the current version. *)
Lemma read_frame vs r c kc kr i m ms i' k' n' r' res : rx_ok vs r c kc kr -> open_ok vs r i -> incoming (r_inbox r) < 2 ^ 64 - 1 ->
  steady vs kr [m] -> (sequenced (kind_and_sequence m).1 = true -> 1 <= (kind_and_sequence m).2) ->
  handle_control_message m (ib_generation (r_inbox r)) r = (r, Ok None) ->
  flow vs (id_instance (ids r)) i kr (seq_after (last_received (r_inbox r)) m) ms i' k' n' ->
  handle_data_message m (ib_generation (r_inbox r)) r = (r', res) -> read_outcome vs c kc kr r i r' res ms i' k' n'.
Proof.
  intros H Ho Hin Hst Hseq Hctl Hfl. assert (m ≠ Resync) as Hne by (intros ->; by apply steady_no_reset in Hst).
  unfold handle_data_message. rewrite Hctl. destruct (kind_and_sequence m) as [kind seq] eqn:Ek. simpl in Hseq.
  rewrite (accept_current _ _ _ _ _ (rx_contiguous _ _ _ _ _ H) eq_refl Hseq).
  destruct (Nat.eqb_spec (length (frames (r_inbox r))) (max_messages (r_inbox r))) as [Hfull|Hfull]; intros [= <- <-].
  { right. split; [done|]. by apply rx_overflow. }
  left. split; [done|]. rewrite bool_decide_eq_false_2 by (intros ->; destruct m; simpl in Ek; congruence).
  exists kr, i. pose proof (ib_bounded _ (rx_inbox _ _ _ _ _ H)).
  pose proof (rx_push vs r c kc kr m H (op_reset _ _ _ Ho) (op_sent _ _ _ Ho) (op_requested _ _ _ Ho) ltac:(lia) Hin Hst) as Hr.
  pose proof (push_steady m (r_inbox r) Hne) as Hp. rewrite Ek in Hr, Hp. cbn [fst snd] in Hr, Hp. rewrite Hp in Hr |- *. destruct Ho.
  split_and!; [done|by split|by left|done|done].
Qed.

Lemma read_open vs r c kc kr i m ms i' k' n' r' res : rx_ok vs r c kc kr -> open_ok vs r i -> incoming (r_inbox r) < 2 ^ 64 - 1 ->
  flow vs (id_instance (ids r)) i kr (last_received (r_inbox r)) (m :: ms) i' k' n' ->
  handle_data_message m (ib_generation (r_inbox r)) r = (r', res) -> read_outcome vs c kc kr r i r' res ms i' k' n'.
Proof.
  intros H Ho Hin Hfl Hh. inversion Hfl as [|? ? ? seq x ? ? ? ? Hs Hx Hf|? ? ? j e ? ? ? ? Hj Hi Hf|? ? ? head e ? ? ? ? Hk Hhd Hf|? ? ? m0 ? ? ? ? Hm Hf]; subst.
  - eapply (read_frame _ _ _ _ _ i (row_message seq x)); [done..| | | |by rewrite seq_after_row|done].
    + constructor; [right; by exists seq, x|constructor].
    + by destruct x.
    + by destruct x.
  - unfold handle_data_message in Hh. simpl in Hh.
    rewrite (accept_current _ _ _ _ _ (rx_contiguous _ _ _ _ _ H) eq_refl) in Hh by done.
    destruct (Nat.eqb_spec (length (frames (r_inbox r))) (max_messages (r_inbox r))) as [Hfull|Hfull]; injection Hh as <- <-.
    { right. split; [done|]. by apply rx_overflow. }
    left. split; [done|]. exists j, None. pose proof (ib_bounded _ (rx_inbox _ _ _ _ _ H)).
    cbn [ids set_box]. rewrite (op_reset _ _ _ Ho).
    split_and!; [|by destruct Ho; split|by right|done|done].
    apply (rx_resync vs r c kc kr j H (op_sent _ _ _ Ho) (op_requested _ _ _ Ho)); [lia|done|].
    intros id Hid. rewrite (op_initial _ _ _ Ho) in Hid. destruct Hi as [->| ->]; [done|exact Hid].
  - unfold handle_data_message, handle_control_message, accept_replay_complete in Hh.
    destruct (Z.ltb_spec head 0); [lia|]. rewrite Z.eqb_refl in Hh. simpl in Hh. injection Hh as <- <-. left. split; [done|].
    exists kr, None. pose proof (rx_complete vs r c kc kr head e H Hhd Hk) as Hc. simpl in Hc.
    unfold connection_replay_identity. rewrite (op_proven _ _ _ Ho), (op_supported _ _ _ Ho) in *. simpl.
    rewrite bool_decide_eq_false_2 by apply Ho. split_and!; [done|by destruct Ho; split|by right|done|done].
  - assert ((m = Ping \/ exists d, m = Playback d) \/ ~ (m = Ping \/ exists d, m = Playback d)) as [Hp|Hp]
      by (destruct m; first [left; by left|left; right; by eexists|right; intros [?|[? ?]]; done]).
    + assert (handle_data_message m (ib_generation (r_inbox r)) r = (r, Ok true)) as Hr by (by destruct Hp as [->|[d ->]]).
      rewrite Hr in Hh. injection Hh as <- <-. left. split; [done|]. exists kr, i. split_and!; try done. by left.
    + eapply (read_frame _ _ _ _ _ i m); [done..| | | | |done].
      * constructor; [left; by destruct m|constructor].
      * by destruct m.
      * destruct m; try done; exfalso; apply Hp; [by left|right; by eexists].
      * rewrite seq_after_other; [done|by destruct m].
Qed.

(** *** The handshake

    A connection that has not been answered: its hello says what has been
    received, and of which version. *)
Definition hello_of r : hello :=
  let i := ids r in
  mk_hello (last_received (r_inbox r) + 1)
    (if id_requested i then Some (match id_received i with Some (s, _) => s | None => "" end) else None)
    (if id_requested i then snd <$> id_received i else None) (want_layered r) (want_layer_mode r).

Record wait_ok r (from : Z) (h : hello) : Prop := {
  wa_connected : connected r = false;
  wa_requested : requested (r_inbox r) = None;
  wa_pending : pending (r_inbox r) = None;
  wa_sync : synchronized_event r = false;
  wa_sent : id_hello_sent (ids r) = true;
  wa_from : from = last_received (r_inbox r) + 1;
  wa_validated : id_requested (ids r) = true \/ from = 1;
  wa_hello : h = hello_of r;
}.

Lemma rx_ids vs r c kc kr k1 (i : replay_ids) : rx_ok vs r c kc kr -> pending (r_inbox r) = None -> synchronized_event r = false ->
  (k1 = kr \/ last_received (r_inbox r) = 0) -> (forall id, id_received i = Some id -> ident vs k1 = Some id) ->
  (id_reset_on_hello i = true -> quiet r c) -> (id_hello_sent i = false -> quiet r c) -> rx_ok vs (set_ids i r) c kc k1.
Proof.
  intros [H1 H2 H3 H4 H5 H6 H7 H8 H9 H10] Hp Hs Hk Hi Hr Hf. split; simpl; try done; [|by rewrite Hp|by rewrite Hs].
  destruct Hk as [->|Hz]; [done|]. rewrite Hz in *. by eapply path_end_zero.
Qed.
Lemma rx_peer vs r c kc kr n : rx_ok vs r c kc kr -> rx_ok vs (set_peer n r) c kc kr.
Proof. by intros []. Qed.
Lemma rx_connected vs r c kc kr : rx_ok vs r c kc kr -> rx_ok vs (set_connected true r) c kc kr.
Proof. by intros []. Qed.

(** What a completed or refused handshake leaves. *)
Definition hello_outcome vs c kc r kj (r' : receiver D) (res : result bool) (ms : list (message D)) i' k' n' : Prop :=
  (res = Ok true /\ exists kr' i1 i2, rx_ok vs r' c kc kr' /\ open_ok vs r' i1 /\ (i1 = Some kj \/ i1 = None) /\ (i2 = i' \/ i2 = None)
     /\ flow vs (id_instance (ids r')) i1 kr' (last_received (r_inbox r')) ms i2 k' n' /\ ib_generation (r_inbox r') = ib_generation (r_inbox r))
  \/ (res ≠ Ok true /\ exists kr', rx_ok vs r' c kc kr').

(** A receiver that has been told the version [kj] of the connection. *)
Record told_ok vs r inst e (kj : nat) : Prop := {
  to_ident : ident vs kj = Some (inst, e);
  to_instance : inst ≠ "";
  to_ids : id_instance (ids r) = inst;
  to_supported : id_supported (ids r) = true;
  to_proven : id_proven (ids r) = true;
}.

Lemma handshake_plain vs r c kc kr h from inst e kj ks ms i' k' n' r' res hl :
  rx_ok vs r c kc kr -> wait_ok r from hl -> told_ok vs r inst e kj -> ho_epoch h = Some e ->
  id_reset_on_hello (ids r) = false -> (ks = kr \/ last_received (r_inbox r) = 0) -> (last_received (r_inbox r) = 0 -> ks = kj) ->
  flow vs inst (Some kj) ks (last_received (r_inbox r)) ms i' k' n' ->
  complete_handshake h from (ib_generation (r_inbox r)) r = (r', res) -> hello_outcome vs c kc r kj r' res ms i' k' n'.
Proof.
  intros H Hw Ht He Hreset Hks Hz Hfl. unfold complete_handshake. rewrite Z.eqb_refl. simpl. rewrite Hreset.
  unfold connection_replay_identity. rewrite (to_supported _ _ _ _ _ Ht), He, (to_ids _ _ _ _ _ Ht).
  rewrite (bool_decide_eq_false_2 (inst = "")) by apply Ht. simpl. intros [= <- <-]. left. split; [done|].
  exists ks, (Some kj), i'. set (rec := if (from =? 1) || _ then _ else _).
  assert (forall id, rec = Some id -> ident vs ks = Some id) as Hrec.
  { intros id. subst rec. pose proof (wa_from _ _ _ Hw) as Hfrom. pose proof (rx_ident _ _ _ _ _ H) as Hid.
    destruct (Z.eqb_spec from 1) as [->|Hne]; simpl.
    - intros [= <-]. rewrite (Hz ltac:(lia)). apply Ht.
    - assert (ks = kr) as -> by (destruct Hks; [done|lia]). destruct (id_requested (ids r)); simpl; [|by auto].
      case_bool_decide as Hm; [rewrite <-Hm|]; auto. }
  split_and!; [|by destruct Hw, Ht; split|by left|by left|done|done].
  apply (rx_connected vs (set_ids (mk_ids rec (Some (inst, e)) inst true (id_hello_sent (ids r)) (id_requested (ids r)) (id_proven (ids r)) false) r)).
  eapply (rx_ids vs r c kc kr ks); [done|apply Hw|apply Hw|done|done|done|]. simpl. by rewrite (wa_sent _ _ _ Hw).
Qed.

Lemma handshake_reset vs r c kc kr h from inst e kj ms i' k' n' r' res hl :
  rx_ok vs r c kc kr -> wait_ok r from hl -> told_ok vs r inst e kj -> ho_epoch h = Some e -> incoming (r_inbox r) < 2 ^ 64 - 1 ->
  id_reset_on_hello (ids r) = true -> flow vs inst (Some kj) kj 0 ms i' k' n' ->
  complete_handshake h from (ib_generation (r_inbox r)) r = (r', res) -> hello_outcome vs c kc r kj r' res ms i' k' n'.
Proof.
  intros H Hw Ht He Hin Hreset Hfl. destruct (rx_reset _ _ _ _ _ H Hreset) as (Hz & Hfr & Hc & Hhd).
  unfold complete_handshake. rewrite Z.eqb_refl. simpl. rewrite Hreset.
  unfold connection_replay_identity. rewrite (to_supported _ _ _ _ _ Ht), He, (to_ids _ _ _ _ _ Ht).
  rewrite (bool_decide_eq_false_2 (inst = "")) by apply Ht. simpl.
  set (r1 := set_ids _ r). assert (rx_ok vs r1 c kc kr) as H1.
  { eapply rx_ids; [done|apply Hw|apply Hw|by left|by apply H|done|]. simpl. by rewrite (wa_sent _ _ _ Hw). }
  unfold handle_data_message. simpl. rewrite (accept_current _ _ _ _ _ (rx_contiguous _ _ _ _ _ H) eq_refl) by done.
  destruct (Nat.eqb_spec (length (frames (r_inbox r))) (max_messages (r_inbox r))) as [Hfull|Hfull]; intros [= <- <-].
  { right. split; [done|]. exists kr. by apply (rx_overflow vs r1). }
  left. split; [done|]. exists kj, None, None. pose proof (ib_bounded _ (rx_inbox _ _ _ _ _ H)).
  pose proof (rx_resync vs r1 c kc kr kj H1 (wa_sent _ _ _ Hw) (wa_requested _ _ _ Hw) ltac:(simpl; lia) Hin
    ltac:(simpl; intros id [= <-]; apply Ht)) as H2.
  rewrite (bool_decide_eq_true_2 (Some (inst, e) = Some (inst, e))) by done. rewrite andb_true_r.
  assert ((from =? 1) = true) as -> by (rewrite (wa_from _ _ _ Hw), Hz; done). simpl.
  split_and!; [by apply rx_connected in H2|by destruct Hw, Ht; split|by right|by right| |done].
  by eapply flow_forget.
Qed.

(** ** Connections

    Where the messages on their way over a usable connection end: at the current
    version, and without failed publications at its last row. *)
Definition ends (faulty : bool) vs (up : bool) (inst : string) (i : option nat) (k : nat) (n : Z) : Prop :=
  up = true -> i = None /\ S k = length vs /\ (exists e, ident vs k = Some (inst, e)) /\ (faulty = false -> n = head_seq (rows_at vs k)).

Inductive conn_ok (faulty : bool) vs r (kr : nat) (from : Z) (l : rlink D) (coming : list (message D)) : Prop :=
  | conn_open i i' k' n' : open_ok vs r i -> l_greeted l = true -> (forall j, i = Some j -> is_Some (vs !! j)) ->
      flow vs (id_instance (ids r)) i kr (last_received (r_inbox r)) coming i' k' n' ->
      ends faulty vs (l_up l) (id_instance (ids r)) i' k' n' -> conn_ok faulty vs r kr from l coming
  | conn_wait : wait_ok r from (l_hello l) -> l_greeted l = false -> coming = [] -> conn_ok faulty vs r kr from l coming
  | conn_refused : wait_ok r from (l_hello l) -> l_greeted l = true -> l_up l = false -> Forall (fun m => is_control m = true) coming ->
      conn_ok faulty vs r kr from l coming
  | conn_answered h rest e kj ks i' k' n' : wait_ok r from (l_hello l) -> l_greeted l = true -> coming = HelloOkMsg h :: rest ->
      ident vs kj = Some (ho_instance h, e) -> ho_instance h ≠ "" -> ho_replay_identity h = true -> ho_epoch h = Some e ->
      flow vs (ho_instance h) (Some kj) ks (last_received (r_inbox r)) rest i' k' n' ->
      (ks = kr \/ last_received (r_inbox r) = 0) -> (last_received (r_inbox r) = 0 -> ks = kj) ->
      ends faulty vs (l_up l) (ho_instance h) i' k' n' -> conn_ok faulty vs r kr from l coming.

Lemma ident_lookup vs k id : ident vs k = Some id -> is_Some (vs !! k).
Proof. unfold ident. by intros (v & -> & _)%fmap_Some. Qed.

(** More messages on a usable connection, from newer versions. *)
Lemma conn_extend faulty vs vs' r kr from l l' coming extra : vs_le vs vs' ->
  l_up l' = l_up l -> l_greeted l' = l_greeted l -> l_hello l' = l_hello l -> (l_up l = false \/ l_greeted l = false -> extra = []) ->
  (l_up l = true -> l_greeted l = true -> forall inst k n, S k = length vs -> (exists e, ident vs k = Some (inst, e)) ->
     (faulty = false -> n = head_seq (rows_at vs k)) ->
     exists k1 n1, flow vs' inst None k n extra None k1 n1 /\ ends faulty vs' true inst None k1 n1) ->
  conn_ok faulty vs r kr from l coming -> conn_ok faulty vs' r kr from l' (coming ++ extra).
Proof.
  intros Hle Hup Hg Hhl Hno Hex.
  assert (forall inst i k n ms i' k' n', l_greeted l = true -> flow vs inst i k n ms i' k' n' -> ends faulty vs (l_up l) inst i' k' n' ->
    exists i1 k1 n1, flow vs' inst i k n (ms ++ extra) i1 k1 n1 /\ ends faulty vs' (l_up l') inst i1 k1 n1) as Hflow.
  { intros inst i k n ms i' k' n' Hgr Hf He. apply (flow_mono _ _ _ _ _ _ _ _ _ _ Hle) in Hf. destruct (l_up l) eqn:Eu.
    - destruct (He eq_refl) as (-> & Hk & Hi & Hn). destruct (Hex eq_refl Hgr inst k' n' Hk Hi Hn) as (k1 & n1 & Hf' & He').
      exists None, k1, n1. split; [by eapply flow_app|by rewrite Hup].
    - rewrite Hno by auto. rewrite app_nil_r. exists i', k', n'. split; [done|by rewrite Hup]. }
  intros [i i' k' n' Ho Hgr Hi Hf He|Hw Hgr ->|Hw Hgr Hu Hall|h rest e kj ks i' k' n' Hw Hgr -> Hid Hin Hsup Hep Hf Hks Hz He].
  - destruct (Hflow _ _ _ _ _ _ _ _ Hgr Hf He) as (i1 & k1 & n1 & Hf' & He').
    eapply conn_open; [by eapply open_mono|congruence| |done|done].
    intros j Hj. destruct (Hi j Hj) as [v Hv]. destruct (Hle j v Hv) as (v' & ? & _). by exists v'.
  - apply conn_wait; [by rewrite Hhl|congruence|]. simpl. apply Hno. by right.
  - apply conn_refused; [by rewrite Hhl|congruence|congruence|]. rewrite Hno by auto. by rewrite app_nil_r.
  - destruct (Hflow _ _ _ _ _ _ _ _ Hgr Hf He) as (i1 & k1 & n1 & Hf' & He').
    eapply (conn_answered _ _ _ _ _ _ _ h (rest ++ extra) e kj ks); [by rewrite Hhl|congruence|done|by eapply ident_mono|done..].
Qed.

(** A connection that goes down keeps some of its unread messages. *)
Lemma conn_cut faulty vs vs' r kr from l l' coming coming' : vs_le vs vs' -> l_up l' = false -> l_greeted l' = l_greeted l ->
  l_hello l' = l_hello l -> coming' `prefix_of` coming -> conn_ok faulty vs r kr from l coming -> conn_ok faulty vs' r kr from l' coming'.
Proof.
  intros Hle Hup Hg Hhl [lost ->].
  intros [i i' k' n' Ho Hgr Hi Hf He|Hw Hgr Hc|Hw Hgr Hu Hall|h rest e kj ks i' k' n' Hw Hgr Hc Hid Hin Hsup Hep Hf Hks Hz He].
  - apply flow_app_inv in Hf as (i1 & k1 & n1 & Hf & _). eapply conn_open; [by eapply open_mono|congruence| |by eapply flow_mono|by rewrite Hup].
    intros j Hj. destruct (Hi j Hj) as [v Hv]. destruct (Hle j v Hv) as (v' & ? & _). by exists v'.
  - apply app_eq_nil in Hc as [-> ->]. apply conn_wait; [by rewrite Hhl|congruence|done].
  - apply Forall_app in Hall as [Hall _]. apply conn_refused; [by rewrite Hhl|congruence|done|done].
  - destruct coming' as [|m coming']; [apply conn_refused; [by rewrite Hhl|congruence|done|constructor]|].
    injection Hc as -> <-. apply flow_app_inv in Hf as (i1 & k1 & n1 & Hf & _).
    eapply (conn_answered _ _ _ _ _ _ _ h coming' e kj ks); [by rewrite Hhl|congruence|done|by eapply ident_mono|done|done|done|by eapply flow_mono|done|done|by rewrite Hup].
Qed.

(** A control message in between, after what has been written. *)
Lemma conn_insert faulty vs r kr from l a m b : is_control m = true -> l_greeted l = true -> l_up l = true ->
  (forall h, head b ≠ Some (HelloOkMsg h)) ->
  conn_ok faulty vs r kr from l (a ++ b) -> conn_ok faulty vs r kr from l (a ++ m :: b).
Proof.
  intros Hm Hg Hup Ha. intros [i i' k' n' Ho Hgr Hi Hf He|Hw Hgr Hc|Hw Hgr Hu Hall|h rest e kj ks i' k' n' Hw Hgr Hc Hid Hin Hsup Hep Hf Hks Hz He].
  - eapply conn_open; [done|done|done|by apply flow_insert|done].
  - congruence.
  - congruence.
  - destruct a as [|m' a]; [simpl in Hc; by destruct (Ha h); rewrite Hc|].
    injection Hc as -> <-. eapply (conn_answered _ _ _ _ _ _ _ h (a ++ m :: b) e kj ks); try done. by apply flow_insert.
Qed.

(** Numbered rows of a version. *)
Lemma flow_rows vs inst i k n rows from :
  (forall p x, rows !! p = Some x -> rows_at vs k !! (Z.to_nat (from - 1) + p)%nat = Some x) -> 1 <= from ->
  flow vs inst i k n (number_rows from rows) i k (end_seq n (number_rows from rows)).
Proof.
  revert from n. induction rows as [|x rows IH]; intros from n Hr Hf; simpl; [constructor|]. rewrite seq_after_row. econstructor; [lia| |].
  - specialize (Hr 0%nat x eq_refl). by rewrite Nat.add_0_r in Hr.
  - apply IH; [|lia]. intros p z Hp. specialize (Hr (S p) z Hp).
    by replace (Z.to_nat (from + 1 - 1) + p)%nat with (Z.to_nat (from - 1) + S p)%nat by lia.
Qed.
Lemma end_seq_rows n from rows : from - 1 <= n -> end_seq n (number_rows from rows) = Z.max n (from - 1 + Z.of_nat (length rows)).
Proof.
  revert from n. induction rows as [|x rows IH]; intros from n Hn; simpl; [lia|]. rewrite seq_after_row, IH by lia. lia.
Qed.
Lemma flow_rows_inv vs inst i k n from rows i' k' n' : flow vs inst i k n (number_rows from rows) i' k' n' -> i' = i /\ k' = k.
Proof.
  revert from n. induction rows as [|x rows IH]; intros from n H; simpl in H; [by inversion H|].
  inversion H; subst; [by eapply IH|by destruct x..].
Qed.

(** ** The system's invariant *)

Definition in_queue (g : Z) (q : list (list (message D) * list Z)) : list (message D) :=
  concat ((fun item => if bool_decide (g ∈ item.2) then item.1 else []) <$> q).
Definition publish_for (g : Z) w : list (message D) :=
  match s_publishing w, receivers (s_server w) !! g with Some ms, Some _ => ms | _, _ => [] end.
(** What is still to be read on a connection. *)
Definition to_come w (g : Z) (l : rlink D) : list (message D) :=
  l_s2c l ++ (if l_up l then in_queue g (broadcast_queue (s_server w)) ++ publish_for g w else []).

Definition identity_of (v : version D) : replay_identity := (v_instance v, v_epoch v).

Record server_ok w : Prop := {
  so_versions : NoDup (identity_of <$> versions w);
  so_epochs : Forall (fun v => v_instance v = d_instance (s_server w) -> v_epoch v <= d_epoch (s_server w)) (versions w);
  so_instance : d_instance (s_server w) ≠ "";
  so_queue : Forall (fun item => NoDup item.2 /\ Forall (fun g => exists l, s_links w !! g = Some l /\ l_greeted l = true) item.2)
               (broadcast_queue (s_server w));
  so_receivers g h : receivers (s_server w) !! g = Some h -> exists l, s_links w !! g = Some l /\ l_greeted l = true;
  so_greeted g l : s_links w !! g = Some l -> l_up l = true -> l_greeted l = true -> is_Some (receivers (s_server w) !! g);
  so_publishing ms : s_publishing w = Some ms -> exists from rows, ms = number_rows from rows;
}.

(** What a step of the server does to the connections. *)
Definition links_refine (faulty : bool) w w' : Prop :=
  forall g l, s_links w !! g = Some l -> exists l', s_links w' !! g = Some l' /\
    forall r kr from, 0 <= last_received (r_inbox r) -> (forall id, id_received (ids r) = Some id -> ident (versions w) kr = Some id) ->
      conn_ok faulty (versions w) r kr from l (to_come w g l) -> conn_ok faulty (versions w') r kr from l' (to_come w' g l').

Definition server_moves (faulty : bool) w w' : Prop :=
  server_ok w' /\ vs_le (versions w) (versions w') /\ links_refine faulty w w'.

Lemma vs_le_trans vs1 vs2 vs3 : vs_le vs1 vs2 -> vs_le vs2 vs3 -> vs_le vs1 vs3.
Proof.
  intros H1 H2 k v Hv. destruct (H1 k v Hv) as (v' & Hv' & Hi & He & Hr). destruct (H2 k v' Hv') as (u & Hu & Hi' & He' & Hr').
  exists u. split_and!; [done|congruence|congruence|by etrans].
Qed.

Lemma moves_trans faulty w1 w2 w3 : server_moves faulty w1 w2 -> server_moves faulty w2 w3 -> server_moves faulty w1 w3.
Proof.
  intros (_ & L1 & R1) (S3 & L2 & R2). split_and!; [done|by eapply vs_le_trans|].
  intros g l Hg. destruct (R1 g l Hg) as (l2 & Hg2 & C1). destruct (R2 g l2 Hg2) as (l3 & Hg3 & C2).
  exists l3. split; [done|]. intros r kr from Hnr Hid Hc. apply C2; [done|by eauto using ident_mono|by apply C1].
Qed.

Lemma current_lookup w : versions w !! length (s_past w) = Some (current_version (s_server w)).
Proof. unfold versions. by rewrite lookup_app_r, Nat.sub_diag by done. Qed.
Lemma current_index w k : S k = length (versions w) -> k = length (s_past w).
Proof. unfold versions. rewrite length_app. simpl. lia. Qed.
Lemma current_ident w k : S k = length (versions w) -> ident (versions w) k = Some (d_instance (s_server w), d_epoch (s_server w)).
Proof. intros ->%current_index. unfold ident. by rewrite current_lookup. Qed.
Lemma current_rows w k : S k = length (versions w) -> rows_at (versions w) k = Delivery.history (s_server w).
Proof. intros ->%current_index. unfold rows_at. by rewrite current_lookup. Qed.

(** An identity names one version. *)
Lemma ident_unique w j k id : server_ok w -> ident (versions w) j = Some id -> ident (versions w) k = Some id -> j = k.
Proof.
  intros H Hj Hk. apply (NoDup_lookup _ _ _ id (so_versions w H)); unfold ident in *; by rewrite list_lookup_fmap.
Qed.

Lemma in_queue_cons g p ts q : in_queue g ((p, ts) :: q) = (if bool_decide (g ∈ ts) then p else []) ++ in_queue g q.
Proof. done. Qed.
Lemma in_queue_app g q1 q2 : in_queue g (q1 ++ q2) = in_queue g q1 ++ in_queue g q2.
Proof. unfold in_queue. by rewrite fmap_app, concat_app. Qed.

(** Nobody else is addressed. *)
Lemma in_queue_none w g : server_ok w -> (forall l, s_links w !! g = Some l -> l_greeted l = false) ->
  in_queue g (broadcast_queue (s_server w)) = [] /\ receivers (s_server w) !! g = None.
Proof.
  intros H Hg. split.
  - pose proof (so_queue w H) as Hq. induction Hq as [|[p ts] q [_ Hts] _ IH]; [done|].
    rewrite in_queue_cons, IH. simpl in *. rewrite bool_decide_eq_false_2; [done|]. intros Hin. rewrite Forall_forall in Hts. destruct (Hts g Hin) as (l & Hl & Hgr).
    by rewrite (Hg l Hl) in Hgr.
  - destruct (receivers (s_server w) !! g) as [h|] eqn:E1; [|done]. destruct (so_receivers w H g h E1) as (l & Hl & Hgr).
    by rewrite (Hg l Hl) in Hgr.
Qed.

(** *** Steps that leave the history alone *)

(** A new delivery state with the same history and identity. *)
Definition same_history (d d' : delivery D) : Prop :=
  Delivery.history d' = Delivery.history d /\ d_epoch d' = d_epoch d /\ d_instance d' = d_instance d.

Lemma versions_on_server d p ls w : same_history (s_server w) d -> versions (on_server d p ls w) = versions w.
Proof. intros (Hh & He & Hi). unfold versions, on_server, current_version. simpl. by rewrite Hh, He, Hi. Qed.

(** The static part, for links that only lose connections. *)
Lemma server_ok_on_server d p ls w : server_ok w -> same_history (s_server w) d ->
  (forall g l, s_links w !! g = Some l -> exists l', ls !! g = Some l' /\ (l_greeted l = true -> l_greeted l' = true)) ->
  Forall (fun item => NoDup item.2 /\ Forall (fun g => exists l, ls !! g = Some l /\ l_greeted l = true) item.2) (broadcast_queue d) ->
  (forall g h, receivers d !! g = Some h -> exists l, ls !! g = Some l /\ l_greeted l = true) ->
  (forall g l, ls !! g = Some l -> l_up l = true -> l_greeted l = true -> is_Some (receivers d !! g)) ->
  (forall ms, p = Some ms -> exists from rows, ms = number_rows from rows) ->
  server_ok (on_server d p ls w).
Proof.
  intros [H1 H2 H3 H4 H5 H6 H7] Hs Hl Hq Hr Hg Hp. pose proof (versions_on_server d p ls w Hs) as Hv.
  destruct Hs as (Hh & He & Hi). split; rewrite ?Hv; simpl; rewrite ?He, ?Hi; done.
Qed.

Lemma queue_links (ls ls' : gmap Z (rlink D)) (q : list (list (message D) * list Z)) :
  (forall g l, ls !! g = Some l -> exists l', ls' !! g = Some l' /\ (l_greeted l = true -> l_greeted l' = true)) ->
  Forall (fun item => NoDup item.2 /\ Forall (fun g => exists l, ls !! g = Some l /\ l_greeted l = true) item.2) q ->
  Forall (fun item => NoDup item.2 /\ Forall (fun g => exists l, ls' !! g = Some l /\ l_greeted l = true) item.2) q.
Proof.
  intros Hl Hq. eapply Forall_impl; [exact Hq|]. intros [ps ts] [Hn Hts]. split; [done|]. eapply Forall_impl; [exact Hts|].
  intros g (l & Hg & Hgr). destruct (Hl g l Hg) as (l' & ? & ?). exists l'. auto.
Qed.

Lemma queue_enqueue payload o a (d : delivery D) : exists ts, NoDup ts /\ (forall g, g ∈ ts -> is_Some (receivers d !! g))
  /\ (a = AUDIENCE_ALL -> o = None -> forall g, is_Some (receivers d !! g) -> g ∈ ts)
  /\ same_history d (enqueue_broadcast payload o a d) /\ receivers (enqueue_broadcast payload o a d) = receivers d
  /\ (broadcast_queue (enqueue_broadcast payload o a d) = broadcast_queue d ++ [(payload, ts)]
       \/ ts = [] /\ broadcast_queue (enqueue_broadcast payload o a d) = broadcast_queue d).
Proof.
  exists (receiver_targets o a d). unfold enqueue_broadcast. pose proof (receiver_targets_NoDup o a d) as Hn.
  assert (forall g, g ∈ receiver_targets o a d -> is_Some (receivers d !! g)) as He
    by (intros g (h & ? & _)%receiver_targets_elem; by exists h).
  assert (a = AUDIENCE_ALL -> o = None -> forall g, is_Some (receivers d !! g) -> g ∈ receiver_targets o a d) as Ha
    by (intros -> -> g; apply receiver_targets_all).
  destruct (receiver_targets o a d) as [|t ts] eqn:Et; split_and!; try done; first [by right|by left].
Qed.

(** What an enqueued payload adds to what a connection will read. *)
Lemma in_queue_enqueue payload o a (d : delivery D) g :
  exists ms, in_queue g (broadcast_queue (enqueue_broadcast payload o a d)) = in_queue g (broadcast_queue d) ++ ms
  /\ (ms = [] \/ ms = payload /\ is_Some (receivers d !! g)) /\ (a = AUDIENCE_ALL -> o = None -> is_Some (receivers d !! g) -> ms = payload).
Proof.
  destruct (queue_enqueue payload o a d) as (ts & _ & Hts & Hall & _ & _ & Hq).
  destruct Hq as [->|[-> ->]].
  - rewrite in_queue_app, in_queue_cons. exists (if bool_decide (g ∈ ts) then payload else []). split; [by rewrite app_nil_r|].
    case_bool_decide as Hg; [split; [right; auto|done]|split; [by left|]]. intros Ha Ho Hr. destruct Hg. by apply Hall.
  - exists []. rewrite app_nil_r. split_and!; [done|by left|]. intros Ha Ho Hr. specialize (Hall Ha Ho g Hr). by apply not_elem_of_nil in Hall.
Qed.

Lemma queue_ok_enqueue payload o a w : server_ok w ->
  Forall (fun item => NoDup item.2 /\ Forall (fun g => exists l, s_links w !! g = Some l /\ l_greeted l = true) item.2)
    (broadcast_queue (enqueue_broadcast payload o a (s_server w))).
Proof.
  intros H. destruct (queue_enqueue payload o a (s_server w)) as (ts & Hn & Hts & _ & _ & _ & [->|[_ ->]]); [|by apply H].
  apply Forall_app. split; [apply H|]. constructor; [|constructor]. split; [done|]. apply Forall_forall. intros g Hg.
  destruct (Hts g Hg) as [h Hh]. by eapply so_receivers.
Qed.

Lemma enqueue_ok payload o a p w : server_ok w -> (forall ms, p = Some ms -> exists from rows, ms = number_rows from rows) ->
  server_ok (on_server (enqueue_broadcast payload o a (s_server w)) p (s_links w) w).
Proof.
  intros H Hp. destruct (queue_enqueue payload o a (s_server w)) as (_ & _ & _ & _ & Hs & Hr & _).
  apply server_ok_on_server; try done; [intros g l Hg; by exists l|by apply queue_ok_enqueue|rewrite Hr; apply H|rewrite Hr; apply H].
Qed.

Lemma number_rows_no_hello from rows h : head (number_rows from rows) ≠ Some (HelloOkMsg (D := D) h).
Proof. destruct rows as [|[] rows]; done. Qed.

(** A control message is broadcast. *)
Lemma control_moves faulty w m o a : server_ok w -> is_control m = true ->
  server_moves faulty w (on_server (broadcast_message m o a (s_server w)) (s_publishing w) (s_links w) w).
Proof.
  intros H Hm. unfold broadcast_message. destruct (queue_enqueue [m] o a (s_server w)) as (_ & _ & _ & _ & Hs & Hr & _).
  pose proof (versions_on_server _ (s_publishing w) (s_links w) w Hs) as Hv.
  split_and!; [apply enqueue_ok; [done|by apply H]|rewrite Hv; apply vs_le_refl|].
  intros g l Hg. exists l. split; [done|]. intros r kr from _ _ Hc. rewrite Hv.
  destruct (in_queue_enqueue [m] o a (s_server w) g) as (ms & Hq & Hms & _).
  unfold to_come, publish_for, on_server in *. cbn [s_server s_publishing s_links] in *. rewrite Hq, Hr. destruct (l_up l) eqn:Eu; [|done].
  destruct Hms as [->|[-> [h Hh]]]; [by rewrite app_nil_r|]. rewrite <-!app_assoc. simpl. rewrite app_assoc in Hc |- *.
  apply conn_insert; try done.
  - destruct (so_receivers w H g h Hh) as (l0 & Hl0 & Hg0). congruence.
  - intros h0. destruct (s_publishing w) as [ms|] eqn:Ep; [|done]. rewrite Hh. destruct (so_publishing w H ms Ep) as (from0 & rows & ->).
    apply number_rows_no_hello.
Qed.

Lemma broadcast_one (ms : list (message D)) d : broadcast_transaction_group_views [ms] d
  = match ms with [] => d | _ => enqueue_broadcast ms None AUDIENCE_ALL d end.
Proof. unfold broadcast_transaction_group_views. simpl. rewrite app_nil_r. by destruct ms. Qed.

(** The rows of a commit are enqueued. *)
Lemma publish_moves faulty w ms : server_ok w -> s_publishing w = Some ms ->
  server_moves faulty w (on_server (broadcast_transaction_group_views [ms] (s_server w)) None (s_links w) w).
Proof.
  intros H Hp. rewrite broadcast_one.
  set (d := match ms with [] => _ | _ => _ end).
  assert (same_history (s_server w) d /\ receivers d = receivers (s_server w) /\ server_ok (on_server d None (s_links w) w)
    /\ forall g, in_queue g (broadcast_queue d) = in_queue g (broadcast_queue (s_server w)) ++ publish_for g w) as (Hs & Hr & Hok & Hq).
  { unfold publish_for. rewrite Hp. subst d. destruct ms as [|m ms].
    - split_and!; [done|done| |intros g; destruct (receivers (s_server w) !! g); by rewrite app_nil_r].
      apply server_ok_on_server; try done; [intros g l Hg; by exists l|apply H..].
    - destruct (queue_enqueue (m :: ms) None AUDIENCE_ALL (s_server w)) as (_ & _ & _ & _ & Hs & Hr & _).
      split_and!; [done|done|by apply enqueue_ok|]. intros g.
      destruct (in_queue_enqueue (m :: ms) None AUDIENCE_ALL (s_server w) g) as (ms' & -> & Hms & Hall).
      destruct (receivers (s_server w) !! g) as [h|] eqn:E1; [by rewrite Hall|]. destruct Hms as [->|[_ [? ?]]]; done. }
  pose proof (versions_on_server d None (s_links w) w Hs) as Hv. split_and!; [done|rewrite Hv; apply vs_le_refl|].
  intros g l Hg. exists l. split; [done|]. intros r kr from _ _ Hc. rewrite Hv. unfold to_come, publish_for at 1. simpl.
  rewrite app_nil_r, Hq. exact Hc.
Qed.

(** The enqueueing of a commit failed. *)
Lemma conn_drop vs r kr from l a p rows : conn_ok true vs r kr from l (a ++ number_rows p rows) -> conn_ok true vs r kr from l a.
Proof.
  intros [i i' k' n' Ho Hgr Hi Hf He|Hw Hgr Hc|Hw Hgr Hu Hall|h rest e kj ks i' k' n' Hw Hgr Hc Hid Hin Hsup Hep Hf Hks Hz He].
  - apply flow_app_inv in Hf as (i1 & k1 & n1 & Hf & [-> ->]%flow_rows_inv). eapply conn_open; try done.
    intros Hu. destruct (He Hu) as (? & ? & ? & _). done.
  - apply app_eq_nil in Hc as [-> _]. by apply conn_wait.
  - apply Forall_app in Hall as [Hall _]. by apply conn_refused.
  - destruct a as [|m a]; [by destruct (number_rows_no_hello p rows h); simpl in Hc; rewrite Hc|]. injection Hc as -> <-.
    apply flow_app_inv in Hf as (i1 & k1 & n1 & Hf & [-> ->]%flow_rows_inv).
    eapply (conn_answered _ _ _ _ _ _ _ h a e kj ks); try done. intros Hu. destruct (He Hu) as (? & ? & ? & _). done.
Qed.

Lemma publish_failed_moves w ms : server_ok w -> s_publishing w = Some ms ->
  server_moves true w (on_server (s_server w) None (s_links w) w).
Proof.
  intros H Hp. assert (same_history (s_server w) (s_server w)) as Hs by done.
  pose proof (versions_on_server _ None (s_links w) w Hs) as Hv. split_and!; [|rewrite Hv; apply vs_le_refl|].
  - apply server_ok_on_server; try done; [intros g l Hg; by exists l|apply H..].
  - intros g l Hg. exists l. split; [done|]. intros r kr from _ _ Hc. rewrite Hv. unfold to_come, publish_for in *. rewrite Hp in Hc. simpl.
    rewrite app_nil_r. destruct (l_up l); [|done]. destruct (so_publishing w H ms Hp) as (p & rows & ->).
    destruct (receivers (s_server w) !! g); [|by rewrite app_nil_r in Hc]. rewrite app_assoc in Hc. by eapply conn_drop.
Qed.

(** The broadcast thread sends to one receiver. *)
Lemma push_stays ms (l : rlink D) : l_greeted (push ms l) = l_greeted l /\ l_up (push ms l) = l_up l /\ l_hello (push ms l) = l_hello l.
Proof. unfold push. by destruct (l_up l) eqn:E1. Qed.

Lemma alter_links ms g (ls : gmap Z (rlink D)) g' l : ls !! g' = Some l ->
  alter (push ms) g ls !! g' = Some (if bool_decide (g = g') then push ms l else l).
Proof.
  intros Hl. destruct (decide (g = g')) as [->|Hne].
  - rewrite bool_decide_eq_true_2 by done. by rewrite lookup_alter_eq, Hl.
  - rewrite bool_decide_eq_false_2 by done. by rewrite lookup_alter_ne.
Qed.
Lemma alter_links_inv ms g (ls : gmap Z (rlink D)) g' l' : alter (push ms) g ls !! g' = Some l' ->
  exists l, ls !! g' = Some l /\ l_greeted l' = l_greeted l /\ l_up l' = l_up l.
Proof.
  destruct (ls !! g') as [l|] eqn:E1.
  - rewrite (alter_links ms g ls g' l E1). intros [= <-]. exists l. pose proof (push_stays ms l) as (? & ? & ?). by case_bool_decide.
  - destruct (decide (g = g')) as [->|Hne]; [rewrite lookup_alter_eq, E1|rewrite lookup_alter_ne, E1 by done]; done.
Qed.

Lemma send_moves faulty w g payload rest : server_ok w -> next_turn (s_server w) = SendTo g payload rest ->
  server_moves faulty w (on_server (sent_one (s_server w)) (s_publishing w) (alter (push payload) g (s_links w)) w).
Proof.
  intros H. unfold next_turn, sent_one. destruct (broadcast_queue (s_server w)) as [|[p [|g0 ts]] q] eqn:Eq; try done. intros [= -> -> ->].
  pose proof (so_queue w H) as Hqs. rewrite Eq in Hqs. inversion Hqs as [|? ? [Hnd Hts] Hqs']; subst. simpl in Hnd, Hts.
  apply NoDup_cons in Hnd as [Hg Hnd]. inversion Hts as [|? ? _ Hts']; subst. set (d := set_queue _ _).
  assert (same_history (s_server w) d) as Hs by done. pose proof (versions_on_server d (s_publishing w) (alter (push payload) g (s_links w)) w Hs) as Hv.
  assert (forall g' l, s_links w !! g' = Some l -> exists l', alter (push payload) g (s_links w) !! g' = Some l' /\ (l_greeted l = true -> l_greeted l' = true)) as Hl.
  { intros g' l Hl. eexists. split; [by apply alter_links|]. pose proof (push_stays payload l) as (? & ? & ?). case_bool_decide; congruence. }
  split_and!; [|rewrite Hv; apply vs_le_refl|].
  - apply server_ok_on_server; [done|done|done| | | |apply H].
    + eapply queue_links; [exact Hl|]. by constructor.
    + intros g' h Hh. destruct (so_receivers w H g' h Hh) as (l & Hl1 & Hgr). destruct (Hl g' l Hl1) as (l' & ? & ?). exists l'. auto.
    + intros g' l' (l & Hl1 & Hgr & Hup)%alter_links_inv Hu Hgr'. apply (so_greeted w H g' l); congruence.
  - intros g' l Hl1. eexists. split; [by apply alter_links|]. intros r kr from _ _ Hc. rewrite Hv.
    assert (to_come (on_server d (s_publishing w) (alter (push payload) g (s_links w)) w) g' (if bool_decide (g = g') then push payload l else l)
            = to_come w g' l) as Ht.
    { unfold to_come, publish_for. simpl. rewrite Eq, !in_queue_cons. case_bool_decide as Hgg.
      - subst g'. rewrite (bool_decide_eq_false_2 (g ∈ rest)) by done. rewrite (bool_decide_eq_true_2 (g ∈ g :: rest)) by (by left).
        unfold push. destruct (l_up l) eqn:Eu; simpl; [by rewrite <-!app_assoc|by rewrite Eu].
      - destruct (bool_decide_reflect (g' ∈ rest)) as [Hin|Hin].
        + by rewrite (bool_decide_eq_true_2 (g' ∈ g :: rest)) by (by right).
        + rewrite (bool_decide_eq_false_2 (g' ∈ g :: rest)); [done|]. intros [->|?]%elem_of_cons; done. }
    rewrite Ht, <-(app_nil_r (to_come w g' l)). pose proof (push_stays payload l) as (? & ? & ?).
    eapply (conn_extend faulty (versions w) (versions w) r kr from l); [apply vs_le_refl|by case_bool_decide..|done| |done].
    intros _ _ inst k n Hk Hi Hn. exists k, n. split; [constructor|done].
Qed.

(** Connections that stay as they are, or go down with what they had. *)
Definition link_stays w w' (g : Z) (l l' : rlink D) : Prop :=
  versions w' = versions w /\ l' = l /\ to_come w' g l = to_come w g l
  \/ l_up l' = false /\ l_greeted l' = l_greeted l /\ l_hello l' = l_hello l /\ to_come w' g l' `prefix_of` to_come w g l.

Lemma stay_moves faulty w w' : server_ok w' -> vs_le (versions w) (versions w') ->
  (forall g l, s_links w !! g = Some l -> exists l', s_links w' !! g = Some l' /\ link_stays w w' g l l') -> server_moves faulty w w'.
Proof.
  intros H Hle Hl. split_and!; [done..|]. intros g l Hg. destruct (Hl g l Hg) as (l' & Hg' & Hs). exists l'. split; [done|].
  intros r kr from _ _ Hc. destruct Hs as [(Hv & -> & ->)|(Hu & Hgr & Hh & Hp)]; [by rewrite Hv|]. by eapply conn_cut.
Qed.

Lemma task_done_moves faulty w : server_ok w -> next_turn (s_server w) = TaskDone ->
  server_moves faulty w (on_server (task_done (s_server w)) (s_publishing w) (s_links w) w).
Proof.
  intros H. unfold next_turn, task_done. destruct (broadcast_queue (s_server w)) as [|[p [|g ts]] q] eqn:Eq; try done. intros _.
  set (d := set_queue q _). assert (same_history (s_server w) d) as Hs by done.
  pose proof (versions_on_server d (s_publishing w) (s_links w) w Hs) as Hv. pose proof (so_queue w H) as Hq. rewrite Eq in Hq.
  apply stay_moves; [|rewrite Hv; apply vs_le_refl|].
  - apply server_ok_on_server; try done; [intros g l Hg; by exists l|by inversion Hq|apply H..].
  - intros g l Hg. exists l. split; [done|]. left. split_and!; [done..|]. unfold to_come, publish_for. simpl. rewrite Eq.
    by rewrite in_queue_cons, bool_decide_eq_false_2 by apply not_elem_of_nil.
Qed.

Lemma cut_moves faulty w g l i : server_ok w -> s_links w !! g = Some l ->
  server_moves faulty w (on_server (s_server w) (s_publishing w) (<[g := cut_link i l]> (s_links w)) w).
Proof.
  intros H Hg. set (ls := <[g := _]> _). assert (same_history (s_server w) (s_server w)) as Hs by done.
  pose proof (versions_on_server _ (s_publishing w) ls w Hs) as Hv.
  assert (forall g' l', s_links w !! g' = Some l' -> exists l2, ls !! g' = Some l2 /\ (l2 = l' \/ g' = g /\ l2 = cut_link i l')) as Hl.
  { intros g' l' Hl'. subst ls. destruct (decide (g = g')) as [->|Hne].
    - assert (l' = l) as -> by congruence. eexists. split; [apply lookup_insert_eq|by right].
    - exists l'. rewrite lookup_insert_ne by done. split; [done|by left]. }
  apply stay_moves; [|rewrite Hv; apply vs_le_refl|].
  - apply server_ok_on_server; try done; [| | | |apply H].
    + intros g' l' Hl'. destruct (Hl g' l' Hl') as (l2 & ? & [->|[_ ->]]); by eexists.
    + eapply queue_links; [|apply H]. intros g' l' Hl'. destruct (Hl g' l' Hl') as (l2 & ? & [->|[_ ->]]); by eexists.
    + intros g' h Hh. destruct (so_receivers w H g' h Hh) as (l' & Hl' & ?). destruct (Hl g' l' Hl') as (l2 & ? & [->|[_ ->]]); by eexists.
    + subst ls. intros g' l2. destruct (decide (g = g')) as [->|Hne]; [rewrite lookup_insert_eq; by intros [= <-]|].
      rewrite lookup_insert_ne by done. apply H.
  - intros g' l' Hl'. destruct (Hl g' l' Hl') as (l2 & Hl2 & Hc). exists l2. split; [done|].
    destruct Hc as [->|[-> ->]]; [by left|right]. split_and!; [done..|]. unfold to_come, cut_link. simpl. rewrite app_nil_r.
    apply prefix_app_r. exists (drop i (l_s2c l')). by rewrite take_drop.
Qed.

(** A receiver whose connection is down is forgotten. *)
Lemma forget_moves faulty w g l p : server_ok w -> s_links w !! g = Some l -> l_up l = false ->
  server_moves faulty w (on_server (set_playback p (set_receivers (delete g (receivers (s_server w))) (s_server w)))
    (s_publishing w) (s_links w) w).
Proof.
  intros H Hg Hu. set (d := set_playback p _). assert (same_history (s_server w) d) as Hs by done.
  pose proof (versions_on_server d (s_publishing w) (s_links w) w Hs) as Hv.
  apply stay_moves; [|rewrite Hv; apply vs_le_refl|].
  - apply server_ok_on_server; try done; [intros g' l' Hg'; by exists l'|apply H| | |apply H].
    + simpl. intros g' h [_ Hh]%lookup_delete_Some. by eapply so_receivers.
    + simpl. intros g' l' Hl' Hu' Hgr. rewrite lookup_delete_ne by congruence. by eapply so_greeted.
  - intros g' l' Hl'. exists l'. split; [done|]. left. split_and!; [done..|]. unfold to_come, publish_for. simpl.
    destruct (decide (g = g')) as [->|Hne]; [assert (l' = l) as -> by congruence; by rewrite Hu|by rewrite lookup_delete_ne].
Qed.

(** An announcement may follow. *)
Lemma announce_moves faulty w w1 (b : bool) m : is_control m = true -> server_moves faulty w w1 ->
  server_moves faulty w (on_server (if b then broadcast_message m None AUDIENCE_ALL (s_server w1) else s_server w1)
    (s_publishing w1) (s_links w1) w1).
Proof.
  intros Hc Hm. destruct b; [|by destruct w1]. eapply moves_trans; [exact Hm|]. by apply control_moves; [apply Hm|].
Qed.

Lemma disconnect_moves faulty w g l h : server_ok w -> s_links w !! g = Some l -> l_up l = false ->
  server_moves faulty w (on_server (discard_unreachable_receivers playback_data [(g, h)] (s_server w)) (s_publishing w) (s_links w) w).
Proof.
  intros H Hg Hu. unfold discard_unreachable_receivers.
  destruct (release_all _ _) as [p any] eqn:Ep.
  exact (announce_moves faulty w _ any (playback_message playback_data p) eq_refl (forget_moves faulty w g l p H Hg Hu)).
Qed.

(** A greeted link replaces an ungreeted one. *)
Lemma insert_links (ls : gmap Z (rlink D)) g l l' : ls !! g = Some l -> (l_greeted l = true -> l_greeted l' = true) ->
  forall g1 l1, ls !! g1 = Some l1 -> exists l2, <[g := l']> ls !! g1 = Some l2 /\ (l_greeted l1 = true -> l_greeted l2 = true).
Proof.
  intros Hl Hg g1 l1 H1. destruct (decide (g = g1)) as [->|Hne].
  - exists l'. rewrite lookup_insert_eq. assert (l1 = l) as -> by congruence. done.
  - exists l1. by rewrite lookup_insert_ne.
Qed.

Lemma receivers_links (ls : gmap Z (rlink D)) w :
  (forall g l, s_links w !! g = Some l -> exists l', ls !! g = Some l' /\ (l_greeted l = true -> l_greeted l' = true)) ->
  server_ok w -> forall g h, receivers (s_server w) !! g = Some h -> exists l, ls !! g = Some l /\ l_greeted l = true.
Proof. intros Hl H g h Hh. destruct (so_receivers w H g h Hh) as (l & Hg & Hgr). destruct (Hl g l Hg) as (l' & ? & ?). exists l'. auto. Qed.

(** An unanswered connection has nothing to read. *)
Lemma unanswered faulty w r kr from g l : conn_ok faulty (versions w) r kr from l (to_come w g l) -> l_greeted l = false ->
  wait_ok r from (l_hello l) /\ l_s2c l = [].
Proof.
  intros [i i' k' n' Ho Hgr Hi Hf He|Hw Hgr Hc|Hw Hgr Hu Hall|h rest e kj ks i' k' n' Hw Hgr Hc Hid Hin Hsup Hep Hf Hks Hz He] Hl;
    try congruence. split; [done|]. unfold to_come in Hc. by apply app_eq_nil in Hc as [? _].
Qed.

Lemma refuse_moves faulty w g l m : server_ok w -> s_links w !! g = Some l -> l_greeted l = false -> is_control m = true ->
  server_moves faulty w (on_server (s_server w) (s_publishing w)
        (<[g := cut_link (S (length (l_s2c l))) (greet_link (push [m] l))]> (s_links w)) w).
Proof.
  intros H Hg Hgr Hm. set (l' := cut_link _ _). set (ls := <[g := l']> _).
  assert (same_history (s_server w) (s_server w)) as Hs by done.
  pose proof (versions_on_server _ (s_publishing w) ls w Hs) as Hv.
  pose proof (insert_links (s_links w) g l l' Hg ltac:(done)) as Hl. split_and!; [|rewrite Hv; apply vs_le_refl|].
  - apply server_ok_on_server; try done; [eapply queue_links; [exact Hl|apply H]|by apply receivers_links| |apply H].
    subst ls. intros g1 l1 [[<- <-]|[_ H1]]%lookup_insert_Some; [done|]. by eapply so_greeted.
  - intros g1 l1 H1. subst ls. destruct (decide (g = g1)) as [<-|Hne].
    + assert (l1 = l) as -> by congruence. exists l'. cbn [on_server s_links]. rewrite lookup_insert_eq. split; [done|].
      intros r kr from _ _ Hc. destruct (unanswered _ _ _ _ _ _ _ Hc Hgr) as [Hw Hnil]. rewrite Hv.
      unfold to_come. subst l'. unfold cut_link, greet_link, push. rewrite Hnil.
      apply conn_refused; [by destruct (l_up l)|done|done|]. simpl. rewrite app_nil_r. destruct (l_up l); simpl; [by repeat constructor|by rewrite Hnil].
    + exists l1. cbn [on_server s_links]. rewrite lookup_insert_ne by done. split; [done|]. intros r kr from _ _. by rewrite Hv.
Qed.

(** Rows are appended to the current version. *)
Lemma persist_versions w rows ls p :
  versions (on_server (set_history (Delivery.history (s_server w) ++ rows) (s_server w)) p ls w)
  = s_past w ++ [mk_version (d_instance (s_server w)) (d_epoch (s_server w)) (Delivery.history (s_server w) ++ rows)].
Proof. done. Qed.

Lemma persist_ok w rows : server_ok w ->
  server_ok (on_server (set_history (Delivery.history (s_server w) ++ rows) (s_server w))
        (Some (number_rows (head_seq (Delivery.history (s_server w)) + 1) rows)) (s_links w) w).
Proof.
  intros [H1 H2 H3 H4 H5 H6 H7]. split; rewrite ?persist_versions; simpl; try done.
  - unfold versions in H1. by rewrite fmap_app in H1 |- *.
  - unfold versions in H2. apply Forall_app in H2 as [H2 _]. apply Forall_app. split; [done|]. by repeat constructor.
  - intros ms [= <-]. by eexists _, _.
Qed.

Lemma persist_flow faulty w rows inst k n vs' : S k = length (versions w) -> (exists e, ident (versions w) k = Some (inst, e)) ->
  vs' = s_past w ++ [mk_version (d_instance (s_server w)) (d_epoch (s_server w)) (Delivery.history (s_server w) ++ rows)] ->
  (faulty = false -> n = head_seq (rows_at (versions w) k)) -> vs_le (versions w) vs' ->
  exists k1 n1, flow vs' inst None k n (number_rows (head_seq (Delivery.history (s_server w)) + 1) rows) None k1 n1
    /\ ends faulty vs' true inst None k1 n1.
Proof.
  intros Hk [e He] -> Hn Hle. set (vs' := s_past w ++ [_]).
  assert (rows_at vs' k = Delivery.history (s_server w) ++ rows) as Hr.
  { rewrite (current_index w k Hk). unfold rows_at, vs'. by rewrite lookup_app_r, Nat.sub_diag by done. }
  eexists k, _. split; [apply flow_rows|].
  - intros p x Hx. unfold head_seq. rewrite Z.add_simpl_r, Nat2Z.id, Hr, lookup_app_r by lia.
    by replace (length (Delivery.history (s_server w)) + p - length (Delivery.history (s_server w)))%nat with p by lia.
  - unfold head_seq. lia.
  - intros _. split_and!; [done|unfold vs'; rewrite length_app; by rewrite (current_index w k Hk), Nat.add_1_r| |].
    + exists e. by eapply ident_mono.
    + intros Hf. rewrite (Hn Hf), Hr, (current_rows w k Hk). rewrite end_seq_rows by lia. unfold head_seq. rewrite length_app. lia.
Qed.

Lemma persist_moves faulty w rows : server_ok w -> s_publishing w = None ->
  server_moves faulty w (on_server (set_history (Delivery.history (s_server w) ++ rows) (s_server w))
        (Some (number_rows (head_seq (Delivery.history (s_server w)) + 1) rows)) (s_links w) w).
Proof.
  intros H Hp. assert (vs_le (versions w) (s_past w ++ [mk_version (d_instance (s_server w)) (d_epoch (s_server w))
    (Delivery.history (s_server w) ++ rows)])) as Hle by (apply vs_le_extend; [done..|by exists rows]).
  split_and!; [by apply persist_ok|done|].
  intros g l Hg. exists l. split; [done|]. intros r kr from _ _ Hc. rewrite persist_versions.
  set (extra := if l_up l then match receivers (s_server w) !! g with
    Some _ => number_rows (head_seq (Delivery.history (s_server w)) + 1) rows | None => [] end else []).
  assert (to_come (on_server (set_history (Delivery.history (s_server w) ++ rows) (s_server w))
        (Some (number_rows (head_seq (Delivery.history (s_server w)) + 1) rows)) (s_links w) w) g l = to_come w g l ++ extra) as ->.
  { unfold to_come, publish_for, extra. rewrite Hp. simpl. destruct (l_up l); rewrite <-?app_assoc; simpl; [|by rewrite app_nil_r].
    by destruct (receivers (s_server w) !! g). }
  eapply conn_extend; [exact Hle|done..| | |exact Hc]; subst extra.
  - intros [->|Hgr]; [done|]. destruct (receivers (s_server w) !! g) as [h|] eqn:E1; [|by destruct (l_up l)].
    destruct (so_receivers w H g h E1) as (? & ? & ?). congruence.
  - intros Hu Hgr inst k n Hk Hi Hn. rewrite Hu. destruct (so_greeted w H g l Hg Hu Hgr) as [h ->]. by eapply persist_flow.
Qed.

(** *** Steps that replace the history *)

(** Replaying a whole version. *)
Lemma all_rows vs inst i k rest : rows_at vs k = rest -> flow vs inst i k 0 (get_rows 1 (head_seq rest) rest) i k (head_seq rest).
Proof.
  intros Hr. rewrite get_rows_all. replace (head_seq rest) with (end_seq 0 (number_rows 1 rest)).
  - apply flow_rows; [|lia]. intros p x Hx. by rewrite Hr.
  - rewrite end_seq_rows by lia. unfold head_seq. lia.
Qed.

Lemma reset_flow vs inst e j k n rest pre : ident vs j = Some (inst, e) -> rows_at vs j = rest -> Forall (fun m => is_control m = true) pre ->
  flow vs inst None k n (Resync :: pre ++ get_rows 1 (head_seq rest) rest ++ [ReplayComplete (head_seq rest) e]) None j (head_seq rest).
Proof.
  intros Hi Hr Hp. eapply flow_reset; [exact Hi|by left|]. eapply flow_app; [by apply flow_controls|].
  eapply flow_app; [by apply all_rows|]. eapply flow_complete; [exact Hi|unfold head_seq; lia|constructor].
Qed.

Lemma resync_stream_spec hd stack (d : delivery D) : exists pre, Forall (fun m => is_control m = true) pre /\
  resync_stream hd stack d = Resync :: pre ++ get_rows 1 (head_seq (Delivery.history d)) (Delivery.history d)
    ++ [ReplayComplete (head_seq (Delivery.history d)) (d_epoch d)].
Proof.
  exists (if h_layered hd then [LayerStackState stack] else []). split; [destruct (h_layered hd); by repeat constructor|].
  unfold resync_stream. destruct (Z.eqb_spec (head_seq (Delivery.history d)) 0) as [Hz|_]; [|done].
  assert (Delivery.history d = []) as -> by (apply length_zero_iff_nil; unfold head_seq in Hz; lia). done.
Qed.

Lemma new_versions d ls w : versions (new_version d ls w) = versions w ++ [current_version d].
Proof. done. Qed.
Lemma new_ident d ls w : ident (versions (new_version d ls w)) (length (versions w)) = Some (d_instance d, d_epoch d).
Proof. rewrite new_versions. unfold ident. by rewrite lookup_app_r, Nat.sub_diag by done. Qed.
Lemma new_rows d ls w : rows_at (versions (new_version d ls w)) (length (versions w)) = Delivery.history d.
Proof. rewrite new_versions. unfold rows_at. by rewrite lookup_app_r, Nat.sub_diag by done. Qed.

(** A receiver that reads the reset is at the end of the new version. *)
Lemma new_ends faulty d ls w inst k n pre : inst = d_instance d -> Forall (fun m => is_control m = true) pre ->
  exists k1 n1, flow (versions (new_version d ls w)) inst None k n
      (Resync :: pre ++ get_rows 1 (head_seq (Delivery.history d)) (Delivery.history d) ++ [ReplayComplete (head_seq (Delivery.history d)) (d_epoch d)])
      None k1 n1
    /\ ends faulty (versions (new_version d ls w)) true inst None k1 n1.
Proof.
  intros -> Hp. exists (length (versions w)), (head_seq (Delivery.history d)). pose proof (new_ident d ls w) as Hi. split.
  - apply reset_flow; [done|apply new_rows|done].
  - intros _. split_and!; [done|rewrite new_versions, length_app; simpl; lia|by exists (d_epoch d)|]. by rewrite new_rows.
Qed.

Lemma new_version_ok d ls w : server_ok w -> Forall (fun v => identity_of v ≠ (d_instance d, d_epoch d)) (versions w) ->
  Forall (fun v => v_instance v = d_instance d -> v_epoch v <= d_epoch d) (versions w) -> d_instance d ≠ "" ->
  Forall (fun item => NoDup item.2 /\ Forall (fun g => exists l, ls !! g = Some l /\ l_greeted l = true) item.2) (broadcast_queue d) ->
  (forall g h, receivers d !! g = Some h -> exists l, ls !! g = Some l /\ l_greeted l = true) ->
  (forall g l, ls !! g = Some l -> l_up l = true -> l_greeted l = true -> is_Some (receivers d !! g)) ->
  server_ok (new_version d ls w).
Proof.
  intros [H1 _ _ _ _ _ _] Hf He Hi Hq Hr Hg. split; rewrite ?new_versions; simpl; try done.
  - rewrite fmap_app. apply NoDup_app. split_and!; [done| |apply NoDup_singleton].
    intros id (v & -> & Hv)%list_elem_of_fmap Hin. apply list_elem_of_singleton in Hin.
    rewrite Forall_forall in Hf. by apply (Hf v Hv).
  - apply Forall_app. split; [done|]. by repeat constructor.
Qed.

(** A rewritten history has an epoch of its own. *)
Lemma rewrite_fresh w : server_ok w -> Forall (fun v => identity_of v ≠ (d_instance (s_server w), d_epoch (s_server w) + 1)) (versions w)
  /\ Forall (fun v => v_instance v = d_instance (s_server w) -> v_epoch v <= d_epoch (s_server w) + 1) (versions w).
Proof.
  intros H. pose proof (so_epochs w H) as He. split; eapply Forall_impl; [exact He| |exact He|].
  - intros v Hv [= Hi Hep]. specialize (Hv Hi). lia.
  - intros v Hv Hi. specialize (Hv Hi). lia.
Qed.

Lemma restart_moves faulty w instance rest : server_ok w -> instance ≠ "" -> Forall (fun v => v_instance v ≠ instance) (versions w) ->
  server_moves faulty w (new_version (delivery_init instance rest) ((fun l => cut_link (length (l_s2c l)) l) <$> s_links w) w).
Proof.
  intros H Hi Hf. apply stay_moves; [|rewrite new_versions; apply vs_le_snoc|].
  - apply new_version_ok; simpl; try done.
    + eapply Forall_impl; [exact Hf|]. intros v Hv [= ? ?]. done.
    + eapply Forall_impl; [exact Hf|]. intros v Hv ?. done.
    + intros g l. rewrite lookup_fmap. intros (l0 & _ & ->)%fmap_Some. done.
  - intros g l Hg. eexists. simpl. rewrite lookup_fmap, Hg. split; [done|]. right. split_and!; [done..|].
    unfold to_come, cut_link. simpl. rewrite app_nil_r, take_ge by done. by apply prefix_app_r.
Qed.

(** Nothing is waiting to be sent. *)
Lemma to_come_quiet w g l : s_publishing w = None -> broadcast_queue (s_server w) = [] -> to_come w g l = l_s2c l.
Proof. intros Hp Hq. unfold to_come, publish_for. rewrite Hp, Hq. simpl. destruct (l_up l); by rewrite app_nil_r. Qed.

Lemma snapshot_moves faulty w rest : server_ok w -> s_publishing w = None -> broadcast_queue (s_server w) = [] ->
  server_moves faulty w (new_version (publish_snapshot (rewrite_history rest (s_server w))) (s_links w) w).
Proof.
  intros H Hp Hq. set (d0 := rewrite_history rest (s_server w)). set (payload := [Resync] ++ get_rows 1 (head_seq (Delivery.history d0)) (Delivery.history d0)
    ++ [ReplayComplete (head_seq (Delivery.history d0)) (d_epoch d0)]).
  change (publish_snapshot d0) with (enqueue_broadcast payload None AUDIENCE_ALL d0).
  destruct (queue_enqueue payload None AUDIENCE_ALL d0) as (ts & Hn & Hts & Hall & (Hh & He & Hi) & Hr & Hbq).
  set (d := enqueue_broadcast payload None AUDIENCE_ALL d0) in *. destruct (rewrite_fresh w H) as [F1 F2].
  split_and!; [|rewrite new_versions; apply vs_le_snoc|].
  - apply new_version_ok; rewrite ?Hi, ?He, ?Hr; simpl; try done; [apply H| |apply H|apply H].
    destruct Hbq as [->|[_ ->]]; simpl; rewrite Hq; [|done]. repeat constructor; [done|]. simpl.
    apply Forall_forall. intros g Hg. destruct (Hts g Hg) as [h ?]. by eapply (so_receivers w H).
  - intros g l Hg. exists l. split; [done|]. intros r kr from _ _ Hc. rewrite to_come_quiet in Hc by done.
    destruct (in_queue_enqueue payload None AUDIENCE_ALL d0 g) as (ms & Hiq & Hms & Hms').
    assert (to_come (new_version d (s_links w) w) g l = l_s2c l ++ (if l_up l then ms else [])) as ->.
    { unfold to_come, publish_for. simpl. unfold d. rewrite Hiq. simpl. rewrite Hq. simpl. by destruct (l_up l); rewrite ?app_nil_r. }
    eapply conn_extend; [|done..| | |exact Hc]; [rewrite new_versions; apply vs_le_snoc| |].
    + intros [->|Hgr]; [done|]. destruct (l_up l); [|done]. destruct Hms as [->|[_ [h Hh']]]; [done|].
      destruct (so_receivers w H g h Hh') as (? & ? & ?). congruence.
    + intros Hu Hgr inst k n Hk [e Hie] _. rewrite Hu. rewrite (Hms' eq_refl eq_refl (so_greeted w H g l Hg Hu Hgr)).
      rewrite (current_ident w k Hk) in Hie. injection Hie as <- _.
      unfold payload. rewrite <-Hh, <-He. by apply (new_ends faulty d (s_links w) w _ k n []).
Qed.

(** What the resync delivers. *)
Lemma deliver_none sends (ls : gmap Z (rlink D)) g : g ∉ sends.*1 -> deliver sends ls !! g = ls !! g.
Proof.
  unfold deliver. revert ls. induction sends as [|[g0 ms] sends IH]; intros ls Hg; simpl in *; [done|].
  apply not_elem_of_cons in Hg as [? ?]. rewrite IH by done. by rewrite lookup_alter_ne.
Qed.
Lemma deliver_one sends (ls : gmap Z (rlink D)) g ms : NoDup sends.*1 -> (g, ms) ∈ sends -> deliver sends ls !! g = push ms <$> ls !! g.
Proof.
  unfold deliver. revert ls. induction sends as [|[g0 m0] sends IH]; intros ls Hn Hin; simpl in *; [by apply elem_of_nil in Hin|].
  apply NoDup_cons in Hn as [Hg0 Hn]. apply elem_of_cons in Hin as [[= <- <-]|Hin].
  - change (deliver sends (alter (push ms) g ls) !! g = push ms <$> ls !! g). by rewrite deliver_none, lookup_alter_eq.
  - rewrite IH by done. rewrite lookup_alter_ne; [done|]. intros ->. apply Hg0. apply list_elem_of_fmap. by exists (g, ms).
Qed.

Lemma removed_lookup (dead : list (Z * handler)) (m : gmap Z handler) g :
  foldl (fun m x => delete x.1 m) m dead !! g = if bool_decide (g ∈ dead.*1) then None else m !! g.
Proof.
  revert m. induction dead as [|[g0 h] dead IH]; intros m; simpl; [done|]. rewrite IH. destruct (decide (g = g0)) as [->|Hne].
  - rewrite lookup_delete_eq, (bool_decide_eq_true_2 (g0 ∈ g0 :: _)) by (by left). by case_bool_decide.
  - rewrite lookup_delete_ne by done. case_bool_decide as H1; case_bool_decide as H2; first [done|set_solver].
Qed.

Lemma unreachable_lookup (unreachable : Z -> bool) (m : gmap Z handler) g :
  foldl (fun m x => delete x.1 m) m (filter (fun x => unreachable x.1 = true) (map_to_list m)) !! g
  = if unreachable g then None else m !! g.
Proof.
  rewrite removed_lookup. destruct (m !! g) as [h|] eqn:Em; [|by case_bool_decide; destruct (unreachable g)].
  destruct (unreachable g) eqn:Eu.
  - rewrite bool_decide_eq_true_2; [done|]. apply list_elem_of_fmap. exists (g, h). split; [done|].
    apply list_elem_of_filter. split; [done|by apply elem_of_map_to_list].
  - rewrite bool_decide_eq_false_2; [done|]. intros ([g' h'] & -> & [Hu _]%list_elem_of_filter)%list_elem_of_fmap. simpl in *. congruence.
Qed.

Lemma resync_sends stack (unreachable : Z -> bool) (d : delivery D) (ls : gmap Z (rlink D)) g :
  deliver ((fun x => (x.1, resync_stream x.2 stack d)) <$> filter (fun x => unreachable x.1 = false) (map_to_list (receivers d))) ls !! g
  = match receivers d !! g with
    | Some h => if unreachable g then ls !! g else push (resync_stream h stack d) <$> ls !! g
    | None => ls !! g
    end.
Proof.
  set (sends := _ <$> filter _ _).
  assert (forall g' ms, (g', ms) ∈ sends <-> exists h, receivers d !! g' = Some h /\ unreachable g' = false /\ ms = resync_stream h stack d) as Hin.
  { intros g' ms. unfold sends. rewrite list_elem_of_fmap. split.
    - intros ([g0 h] & [= -> ->] & [Hu Hm]%list_elem_of_filter). exists h. split; [by apply elem_of_map_to_list|done].
    - intros (h & Hh & Hu & ->). exists (g', h). split; [done|]. apply list_elem_of_filter. split; [done|by apply elem_of_map_to_list]. }
  assert (NoDup sends.*1) as Hn.
  { unfold sends. rewrite <-list_fmap_compose. eapply sublist_NoDup; [apply (NoDup_fst_map_to_list (receivers d))|].
    apply (fmap_sublist fst), sublist_filter. }
  destruct (receivers d !! g) as [h|] eqn:Eh; [destruct (unreachable g) eqn:Eu|].
  - apply deliver_none. intros ([g' ms] & -> & (h' & ? & ? & _)%Hin)%list_elem_of_fmap. simpl in *. congruence.
  - apply deliver_one; [done|]. apply Hin. by exists h.
  - apply deliver_none. intros ([g' ms] & -> & (h' & ? & ? & _)%Hin)%list_elem_of_fmap. simpl in *. congruence.
Qed.

(** What a rewrite leaves of a connection. *)
Definition rewritten_link stack (unreachable : Z -> bool) (d : delivery D) (g : Z) (l : rlink D) : rlink D :=
  if unreachable g then cut_link (length (l_s2c l)) l
  else match receivers d !! g with Some h => push (resync_stream h stack d) l | None => l end.

Lemma rewrite_links stack (unreachable : Z -> bool) (d : delivery D) (ls : gmap Z (rlink D)) g :
  deliver ((fun x => (x.1, resync_stream x.2 stack d)) <$> filter (fun x => unreachable x.1 = false) (map_to_list (receivers d)))
    (map_imap (fun g l => Some (if unreachable g then cut_link (length (l_s2c l)) l else l)) ls) !! g
  = rewritten_link stack unreachable d g <$> ls !! g.
Proof.
  rewrite resync_sends, map_lookup_imap. unfold rewritten_link. destruct (ls !! g) as [l|]; simpl;
    destruct (receivers d !! g); destruct (unreachable g); done.
Qed.

Lemma rewritten_stays stack unreachable (d : delivery D) g l : let l' := rewritten_link stack unreachable d g l in
  l_greeted l' = l_greeted l /\ l_hello l' = l_hello l /\ l_up l' = l_up l && negb (unreachable g).
Proof.
  unfold rewritten_link. destruct (unreachable g); simpl; [by rewrite andb_false_r|]. rewrite andb_true_r.
  destruct (receivers d !! g); [|done]. match goal with |- context [push ?ms l] => by destruct (push_stays ms l) as (? & ? & ?) end.
Qed.

Lemma rewritten_conn faulty w d ls rest stack unreachable g l r kr from : server_ok w -> s_links w !! g = Some l ->
  same_history (rewrite_history rest (s_server w)) d -> broadcast_queue d = [] ->
  conn_ok faulty (versions w) r kr from l (l_s2c l) ->
  let l' := rewritten_link stack unreachable (rewrite_history rest (s_server w)) g l in
  conn_ok faulty (versions (new_version d ls w)) r kr from l' (to_come (new_version d ls w) g l').
Proof.
  intros H Hg (Hh & He & Hi) Hq Hc l'. rewrite to_come_quiet by done. pose proof (vs_le_snoc (versions w) (current_version d)) as Hle.
  pose proof (rewritten_stays stack unreachable (rewrite_history rest (s_server w)) g l) as (Hgr & Hhl & Hu). fold l' in Hgr, Hhl, Hu.
  destruct (l_up l') eqn:Eu.
  - symmetry in Hu. apply andb_true_iff in Hu as [Hu Hn]. unfold l', rewritten_link in *. destruct (unreachable g); [done|]. simpl in *.
    destruct (receivers (s_server w) !! g) as [h|] eqn:Eh.
    + unfold push at 1 2. rewrite Hu. simpl. destruct (so_receivers w H g h Eh) as (l0 & Hl0 & Hg0). assert (l0 = l) as -> by congruence.
      eapply conn_extend; [exact Hle|done..|intros [?|?]; congruence| |exact Hc].
      intros _ _ inst k n Hk [e Hie] _. rewrite (current_ident w k Hk) in Hie. injection Hie as <- _.
      destruct (resync_stream_spec h stack (rewrite_history rest (s_server w))) as (pre & Hpre & ->).
      pose proof (new_ends faulty d ls w (d_instance d) k n pre eq_refl Hpre) as Hx. by rewrite Hh, He, Hi in Hx.
    + rewrite <-(app_nil_r (l_s2c l)). eapply conn_extend; [exact Hle|done..| |exact Hc]. intros _ Hg1.
      destruct (so_greeted w H g l Hg Hu Hg1) as [? ?]. congruence.
  - eapply conn_cut; [exact Hle|done..| |exact Hc]. unfold l', rewritten_link in *. destruct (unreachable g); simpl in *; [by rewrite take_ge|].
    rewrite andb_true_r in Hu. destruct (receivers (s_server w) !! g); [|done]. unfold push. by rewrite <-Hu.
Qed.

Lemma rewrite_moves faulty w rest stack unreachable d sends : server_ok w -> s_publishing w = None -> broadcast_queue (s_server w) = [] ->
  resync_receivers playback_data stack unreachable (rewrite_history rest (s_server w)) = (d, sends) ->
  server_moves faulty w (new_version d
        (deliver sends (map_imap (fun g l => Some (if unreachable g then cut_link (length (l_s2c l)) l else l)) (s_links w))) w).
Proof.
  intros H Hp Hq Hd. unfold resync_receivers in Hd. injection Hd as <- <-. set (d0 := rewrite_history rest (s_server w)).
  set (ls := deliver _ _). unfold discard_unreachable_receivers. destruct (release_all _ _) as [p any].
  set (d1 := set_playback p (set_receivers _ _)).
  assert (forall g, receivers d1 !! g = if unreachable g then None else receivers (s_server w) !! g) as Hr1
    by (intros g; apply unreachable_lookup).
  assert (forall g, ls !! g = rewritten_link stack unreachable d0 g <$> s_links w !! g) as Hls by (intros g; exact (rewrite_links stack unreachable d0 (s_links w) g)).
  assert (same_history d0 d1 /\ broadcast_queue d1 = []) as [(Hh & He & Hi) Hbq] by done.
  clearbody ls d1. assert (server_moves faulty w (new_version d1 ls w)) as Hm; [|exact (announce_moves faulty w _ any (playback_message playback_data p) eq_refl Hm)].
  destruct (rewrite_fresh w H) as [F1 F2]. split_and!; [|rewrite new_versions; apply vs_le_snoc|].
  - apply new_version_ok; rewrite ?Hi, ?He, ?Hbq; try done; [by apply H| |].
    + intros g h. rewrite Hr1. destruct (unreachable g) eqn:Eu; [done|]. intros Hg. destruct (so_receivers w H g h Hg) as (l & Hl & Hgr).
      rewrite Hls, Hl. eexists. split; [done|]. by destruct (rewritten_stays stack unreachable d0 g l) as (-> & _).
    + intros g l'. rewrite Hls, Hr1. intros (l & Hl & ->)%fmap_Some. destruct (rewritten_stays stack unreachable d0 g l) as (-> & _ & ->).
      intros [Hu Hn]%andb_true_iff Hgr. destruct (unreachable g); [done|]. by eapply so_greeted.
  - intros g l Hg. exists (rewritten_link stack unreachable d0 g l). cbn [new_version s_links]. rewrite Hls, Hg. split; [done|].
    intros r kr from _ _ Hc. rewrite to_come_quiet in Hc by done. by apply rewritten_conn.
Qed.

(** *** Joining *)

(** A receiver that may resume holds rows of the current version. *)
Lemma resume_same w r from h kr : server_ok w -> wait_ok r from h -> 0 <= last_received (r_inbox r) ->
  (forall id, id_received (ids r) = Some id -> ident (versions w) kr = Some id) ->
  resume_identity_changed h (hello_cursor h) (s_server w) = false -> last_received (r_inbox r) ≠ 0 -> kr = length (s_past w).
Proof.
  intros H Hw Hn Hid Hc Hne. rewrite (wa_hello _ _ _ Hw) in Hc. destruct (wa_validated _ _ _ Hw) as [Hv|Hf]; [|pose proof (wa_from _ _ _ Hw); lia].
  unfold resume_identity_changed, hello_cursor, hello_of in Hc. simpl in Hc. rewrite Hv in Hc.
  destruct (Z.eqb_spec (last_received (r_inbox r) + 1) 0); [lia|]. destruct (Z.ltb_spec 1 (last_received (r_inbox r) + 1)); [|lia].
  simpl in Hc. apply orb_false_iff in Hc as [H1%negb_false_iff%bool_decide_eq_true H2%negb_false_iff%bool_decide_eq_true].
  destruct (id_received (ids r)) as [[i e]|] eqn:Er; simpl in *; [|by destruct (so_instance w H)].
  injection H2 as ->. subst i. eapply (ident_unique w); [done|by apply Hid|]. by rewrite current_ident by (unfold versions; rewrite length_app; simpl; lia).
Qed.

(** What the server's answer replays: from the receiver's position when that is a
    position of the current version, else everything after a reset. *)
Lemma window_flow w g hd h d rr stack r from kr : server_ok w -> wait_ok r from h -> 0 <= last_received (r_inbox r) ->
  (forall id, id_received (ids r) = Some id -> ident (versions w) kr = Some id) ->
  receiver_replay_window g hd h (s_server w) = (d, rr) ->
  rr_epoch rr = d_epoch (s_server w) /\ d = set_receivers (<[g := hd]> (receivers (s_server w))) (s_server w)
  /\ let kj := length (s_past w) in exists ks i', (ks = kr \/ last_received (r_inbox r) = 0) /\ (last_received (r_inbox r) = 0 -> ks = kj)
  /\ forall hok, exists rest, replay_stream playback_data hok stack rr d = HelloOkMsg hok :: rest
     /\ flow (versions w) (d_instance (s_server w)) (Some kj) ks (last_received (r_inbox r)) rest i' kj (head_seq (Delivery.history (s_server w)))
     /\ i' = None.
Proof.
  intros H Hw Hn Hid Hwin. unfold receiver_replay_window in Hwin. injection Hwin as <- <-. split; [done|]. split; [done|].
  set (kj := length (s_past w)). set (vs := versions w). set (head := head_seq (Delivery.history (s_server w))).
  assert (S kj = length vs) as Hkj by (unfold vs, versions; rewrite length_app; simpl; lia).
  pose proof (current_ident w kj Hkj) as Hki. pose proof (current_rows w kj Hkj) as Hkr. fold vs in Hki, Hkr.
  change (resume_identity_changed h (hello_cursor h) (set_receivers (<[g:=hd]> (receivers (s_server w))) (s_server w)))
    with (resume_identity_changed h (hello_cursor h) (s_server w)). cbn [Delivery.history d_epoch set_receivers]. fold head.
  assert (hello_cursor h = last_received (r_inbox r) + 1) as Hcur.
  { rewrite (wa_hello _ _ _ Hw). unfold hello_cursor, hello_of. simpl. destruct (Z.eqb_spec (last_received (r_inbox r) + 1) 0); lia. }
  assert (0 <= head) as Hhead by (unfold head, head_seq; lia).
  assert (forall (pre rest : list (message D)) n, Forall (fun m => is_control m = true) pre -> forall i ks,
    flow vs (d_instance (s_server w)) i ks n rest i kj head ->
    flow vs (d_instance (s_server w)) i ks n (pre ++ rest ++ [ReplayComplete head (d_epoch (s_server w))]) None kj head) as Htail.
  { intros pre rest n Hp i ks Hf. eapply flow_app; [by apply flow_controls|]. eapply flow_app; [exact Hf|].
    eapply flow_complete; [exact Hki|lia|constructor]. }
  set (pre := playback_message playback_data (d_playback (s_server w)) :: match stack with Some s => [LayerStackState s] | None => [] end).
  assert (Forall (fun m => is_control m = true) pre) as Hpre by (unfold pre; destruct stack; by repeat constructor).
  destruct (resume_identity_changed h (hello_cursor h) (s_server w)) eqn:Ec; [|destruct (Z.ltb_spec (head + 1) (hello_cursor h)) as [Ho|Ho]]; simpl.
  1,2: exists (if last_received (r_inbox r) =? 0 then kj else kr), None; split_and!; [destruct (Z.eqb_spec (last_received (r_inbox r)) 0); auto
    |intros ->; done|]; intros hok; eexists; split; [reflexivity|split; [|done]];
    eapply flow_reset; [exact Hki|by right|]; unfold replay_stream, pre in *; cbn [rr_records rr_head_seq rr_epoch];
    apply (Htail pre); [done|by apply all_rows].
  exists kj, None. split_and!; [|done|].
  { destruct (decide (last_received (r_inbox r) = 0)); [by right|left]. symmetry. by eapply resume_same. }
  intros hok. eexists. split; [reflexivity|split; [|done]]. apply (Htail pre); [done|]. rewrite Hcur. unfold head.
  rewrite get_rows_suffix by lia. set (n := last_received (r_inbox r)) in *.
  replace (head_seq (Delivery.history (s_server w))) with (end_seq n (number_rows (n + 1) (drop (Z.to_nat n) (Delivery.history (s_server w))))).
  - apply flow_rows; [|lia]. intros p x. rewrite lookup_drop, Hkr, Z.add_simpl_r. done.
  - rewrite end_seq_rows by lia. rewrite length_drop. unfold head, head_seq in *. lia.
Qed.

Lemma join_moves faulty w g l hd shared token metadata stack d rr : server_ok w -> s_publishing w = None ->
  s_links w !! g = Some l -> l_greeted l = false -> l_up l = true ->
  receiver_replay_window g hd (l_hello l) (s_server w) = (d, rr) ->
  server_moves faulty w (on_server d None
        (<[g := greet_link (push (replay_stream playback_data
                  (receiver_hello_ok_of hd (rr_epoch rr) shared token metadata d) stack rr d) l)]> (s_links w)) w).
Proof.
  intros H Hp Hg Hgr Hu Hwin. set (l' := greet_link _). set (ls := <[g := l']> _).
  assert (d = set_receivers (<[g := hd]> (receivers (s_server w))) (s_server w)) as Hd by (unfold receiver_replay_window in Hwin; congruence).
  assert (same_history (s_server w) d) as Hs by (by rewrite Hd).
  pose proof (versions_on_server d None ls w Hs) as Hv. pose proof (insert_links (s_links w) g l l' Hg ltac:(done)) as Hl.
  destruct (in_queue_none w g H ltac:(intros ? ?; congruence)) as [Hiq _]. split_and!; [|rewrite Hv; apply vs_le_refl|].
  - apply server_ok_on_server; [done|done|done| | | |done].
    + rewrite Hd. eapply queue_links; [exact Hl|apply H].
    + rewrite Hd. simpl. intros g1 h1 [[<- <-]|[_ H1]]%lookup_insert_Some; [|by eapply receivers_links].
      exists l'. subst ls. by rewrite lookup_insert_eq.
    + rewrite Hd. simpl. subst ls. intros g1 l1 [[<- <-]|[? H1]]%lookup_insert_Some; [by rewrite lookup_insert_eq|].
      rewrite lookup_insert_ne by done. by eapply so_greeted.
  - intros g1 l1 H1. subst ls. destruct (decide (g = g1)) as [<-|Hne].
    + assert (l1 = l) as -> by congruence. exists l'. cbn [on_server s_links]. rewrite lookup_insert_eq. split; [done|].
      intros r kr from Hn Hid Hc. destruct (unanswered _ _ _ _ _ _ _ Hc Hgr) as [Hw Hnil]. rewrite Hv.
      destruct (window_flow w g hd (l_hello l) d rr stack r from kr H Hw Hn Hid Hwin) as (He & _ & ks & i' & Hks & Hz & Hf).
      destruct (Hf (receiver_hello_ok_of hd (rr_epoch rr) shared token metadata d)) as (rest & Hst & Hfl & ->).
      assert (S (length (s_past w)) = length (versions w)) as Hk by (unfold versions; rewrite length_app; simpl; lia).
      eapply (conn_answered _ _ _ _ _ _ _ (receiver_hello_ok_of hd (rr_epoch rr) shared token metadata d) rest (d_epoch (s_server w)) (length (s_past w)) ks).
      * subst l'. unfold greet_link, push. by rewrite Hu.
      * done.
      * unfold to_come, publish_for. cbn [on_server s_publishing s_server]. rewrite Hd. simpl. rewrite Hiq. subst l'. unfold greet_link, push.
        rewrite Hu, <-Hd, Hst. simpl. by rewrite Hnil, app_nil_r.
      * simpl. rewrite Hd. by apply current_ident.
      * simpl. rewrite Hd. apply H.
      * done.
      * simpl. by rewrite He.
      * simpl. rewrite Hd. exact Hfl.
      * done.
      * done.
      * intros _. simpl. rewrite Hd. split_and!; [done|done|by eexists; apply current_ident|]. intros _. by rewrite current_rows.
    + exists l1. cbn [on_server s_links]. rewrite lookup_insert_ne by done. split; [done|]. intros r kr from _ _ Hc. rewrite Hv.
      unfold to_come, publish_for in *. rewrite Hp in Hc. rewrite Hd. exact Hc.
Qed.

Lemma server_step_moves faulty w w' : server_ok w -> server_step faulty w w' -> server_moves faulty w w'.
Proof.
  intros H Hs. revert H. destruct Hs; intros Hok; eauto using refuse_moves, join_moves, persist_moves, publish_moves, control_moves, send_moves,
    task_done_moves, disconnect_moves, rewrite_moves, snapshot_moves, restart_moves, cut_moves.
  subst. by eapply publish_failed_moves.
Qed.

(** *** The client's steps *)

(** What the receiver thread is doing, the frames it received being of version [kr]. *)
Definition conn_now (faulty : bool) w (kr : nat) : Prop :=
  match s_conn w with
  | None => connected (s_receiver w) = false
  | Some g => g <= ib_generation (r_inbox (s_receiver w)) /\
      (g = ib_generation (r_inbox (s_receiver w)) -> exists l, s_links w !! g = Some l
         /\ conn_ok faulty (versions w) (s_receiver w) kr (s_from w) l (to_come w g l))
  end.

Record system_ok (faulty : bool) w : Prop := {
  sy_server : server_ok w;
  sy_client : exists kc kr, rx_ok (versions w) (s_receiver w) (s_consumer w) kc kr /\ conn_now faulty w kr;
}.

Lemma generation_nonneg vs r c kc kr : rx_ok vs r c kc kr -> 0 <= ib_generation (r_inbox r).
Proof. intros H. rewrite (ib_gen _ (rx_inbox _ _ _ _ _ H)). unfold u64. apply Z.mod_pos_bound. lia. Qed.

Lemma versions_on_client r conn from c ls w : versions (on_client r conn from c ls w) = versions w.
Proof. done. Qed.

Lemma server_ok_on_client r conn from c ls w : server_ok w ->
  (forall g l, s_links w !! g = Some l -> exists l', ls !! g = Some l' /\ (l_greeted l = true -> l_greeted l' = true)) ->
  (forall g l, ls !! g = Some l -> l_up l = true -> l_greeted l = true -> is_Some (receivers (s_server w) !! g)) ->
  server_ok (on_client r conn from c ls w).
Proof.
  intros H Hl Hg. pose proof (receivers_links ls w Hl H) as Hr. destruct H as [H1 H2 H3 H4 H5 H6 H7].
  split; rewrite ?versions_on_client; simpl; try done. by eapply queue_links.
Qed.

Lemma server_ok_client_same r conn from c w : server_ok w -> server_ok (on_client r conn from c (s_links w) w).
Proof. intros H. apply server_ok_on_client; [done| |apply H]. intros g l Hg. by exists l. Qed.

Lemma conn_same faulty vs r r' kr from l coming : same_conn r r' -> conn_ok faulty vs r kr from l coming -> conn_ok faulty vs r' kr from l coming.
Proof.
  intros (Hids & Hc & Hl & Hg & Hq & Hw1 & Hw2 & Hp).
  assert (forall h, wait_ok r from h -> wait_ok r' from h) as Hwait.
  { intros h [W1 W2 W3 W4 W5 W6 W7 W8]. destruct (Hp W3) as [? ?]. split; rewrite ?Hids, ?Hl; try congruence.
    unfold hello_of in *. by rewrite Hids, Hl, Hw1, Hw2. }
  intros [i i' k' n' [] Hgr Hi Hf He|Hw Hgr Hcm|Hw Hgr Hu Hall|h rest e kj ks i' k' n' Hw Hgr Hcm Hid Hin Hsup Hep Hf Hks Hz He].
  - rewrite <-Hids, <-Hl in Hf. eapply (conn_open _ _ _ _ _ _ _ i); [split; congruence|done|done|exact Hf|by rewrite Hids].
  - by apply conn_wait; [apply Hwait|..].
  - by apply conn_refused; [apply Hwait|..].
  - eapply (conn_answered _ _ _ _ _ _ _ h rest e kj ks); rewrite ?Hl; try done. by apply Hwait.
Qed.

(** Neither the connections nor the generation changed. *)
Lemma client_same faulty w r c kc kr kc' : system_ok faulty w -> rx_ok (versions w) r c kc' kr ->
  (rx_ok (versions w) (s_receiver w) (s_consumer w) kc kr) -> conn_now faulty w kr -> same_conn (s_receiver w) r ->
  system_ok faulty (on_client r (s_conn w) (s_from w) c (s_links w) w).
Proof.
  intros [Hs _] Hr _ Hn Hsame. pose proof Hsame as (_ & Hc & _ & Hgen & _). split.
  - by apply server_ok_client_same.
  - exists kc', kr. split; [done|]. unfold conn_now in *. cbn [on_client s_receiver s_conn s_links s_from] in *.
    destruct (s_conn w) as [g|]; [|by rewrite Hc]. rewrite Hgen. destruct Hn as [Hle Hn]. split; [done|]. intros ->.
    destruct (Hn eq_refl) as (l & Hl & Hco). exists l. split; [done|]. by eapply conn_same.
Qed.

(** A new generation: whatever the current connection still brings is ignored. *)
Lemma client_request faulty w r c k : system_ok faulty w -> rx_ok (versions w) r c k k -> connected r = connected (s_receiver w) ->
  ib_generation (r_inbox (s_receiver w)) < 2 ^ 64 - 1 ->
  ib_generation (r_inbox r) = u64 (ib_generation (r_inbox (s_receiver w)) + 1) ->
  system_ok faulty (on_client r (s_conn w) (s_from w) c (s_links w) w).
Proof.
  intros [Hs (kc & kr & Hr0 & Hn)] Hr Hc Hlt Hgen. pose proof (generation_nonneg _ _ _ _ _ Hr0). rewrite u64_small in Hgen by lia. split.
  - by apply server_ok_client_same.
  - exists k, k. split; [done|]. unfold conn_now in *. cbn [on_client s_receiver s_conn] in *.
    destruct (s_conn w) as [g|]; [|congruence]. destruct Hn as [Hle _]. split; lia.
Qed.

(** The connection is over. *)
Lemma client_end faulty w r kc kr ls : rx_ok (versions w) r (s_consumer w) kc kr ->
  server_ok (on_client (end_connection r) None (s_from w) (s_consumer w) ls w) ->
  system_ok faulty (on_client (end_connection r) None (s_from w) (s_consumer w) ls w).
Proof.
  intros Hr Hs. assert (connected (end_connection r) = false) as Hc.
  { unfold end_connection, set_connected. by destruct (should_stop_reconnecting _); [|destruct (overflowed _)]. }
  split; [done|]. exists kc, kr. split; [by apply rx_end|]. done.
Qed.

Lemma drain_step faulty w max r c : system_ok faulty w -> c_in_hand (s_consumer w) = None ->
  drain_begin max (s_receiver w) (s_consumer w) = Ok (r, c) ->
  system_ok faulty (on_client r (s_conn w) (s_from w) c (s_links w) w).
Proof.
  intros H Hh Hd. destruct (sy_client _ _ H) as (kc & kr & Hr & Hn). destruct (rx_drain _ _ _ _ _ _ _ _ Hr Hh Hd). by eapply client_same.
Qed.

Lemma finish_step faulty w ms outcome r c : system_ok faulty w -> c_in_hand (s_consumer w) = Some ms ->
  ib_generation (r_inbox (s_receiver w)) < 2 ^ 64 - 1 ->
  match outcome with Err e => is_exception e = true | Ok _ => True end ->
  drain_finish decode_received_event event_of decode_state decode_other outcome (s_receiver w) (s_consumer w) = (r, c) ->
  system_ok faulty (on_client r (s_conn w) (s_from w) c (s_links w) w).
Proof.
  intros H Hh Hlt Ho Hd. destruct (sy_client _ _ H) as (kc & kr & Hr & Hn).
  destruct (rx_finish _ _ _ _ _ _ _ _ _ Hr Hh Ho Hd) as [(kc' & Hr' & Hs)|(k & Hr' & Hc & Hg & _)]; [by eapply client_same|by eapply client_request].
Qed.

Lemma request_step faulty w : system_ok faulty w -> ib_generation (r_inbox (s_receiver w)) < 2 ^ 64 - 1 ->
  c_in_hand (s_consumer w) = None ->
  system_ok faulty (on_client (request_replay_from (c_last_seq (s_consumer w) + 1) (s_receiver w)).1
    (s_conn w) (s_from w) (s_consumer w) (s_links w) w).
Proof.
  intros H Hlt Hh. destruct (sy_client _ _ H) as (kc & kr & Hr & Hn).
  destruct (rx_request _ _ _ (c_last_seq (s_consumer w)) kc (c_applied (s_consumer w)) kc kr Hr (rx_prefix _ _ _ _ _ Hr)) as (Hr' & Hc & Hg & _).
  { intros [Hq|Hq]; [by destruct (rx_reset _ _ _ _ _ Hr Hq) as (_ & _ & ? & _)|by destruct (rx_first _ _ _ _ _ Hr Hq) as (_ & _ & ? & _)]. }
  eapply client_request; try done. destruct (s_consumer w) as [n hd ap]. simpl in *. by subst hd.
Qed.

(** The receiver right after it has sent its hello. *)
Lemma rx_connect vs r c kc kr r' g h : rx_ok vs r c kc kr -> ib_generation (r_inbox r) < 2 ^ 64 - 1 ->
  connected r = false -> connect_begin r = (r', (g, h)) ->
  rx_ok vs (hello_was_sent r') c kc kr /\ wait_ok (hello_was_sent r') (sync_from h) h
  /\ ib_generation (r_inbox (hello_was_sent r')) = g /\ g = ib_generation (r_inbox r) + 1.
Proof.
  intros H Hlt Hc. pose proof (generation_nonneg _ _ _ _ _ H). unfold connect_begin. pose proof (begin_receiving_ok _ (rx_inbox _ _ _ _ _ H)) as Hok.
  pose proof (begin_receiving_cursor _ (rx_inbox _ _ _ _ _ H)) as Hcur. unfold begin_receiving in *. cbn [fst snd] in *.
  rewrite Hcur. intros [= <- <- <-]. cbn [ib_generation reset_synchronization] in *. rewrite u64_small in * by lia.
  destruct H as [H1 H2 H3 H4 H5 H6 H7 H8 H9 H10]. split_and!; [|split; try done|done|done].
  - by split.
  - simpl. destruct (id_hello_sent (ids r)) eqn:Eh; [by left|right]. destruct (H8 eq_refl) as (-> & _). lia.
Qed.

Lemma connect_step faulty w r g h : system_ok faulty w -> s_conn w = None -> ib_generation (r_inbox (s_receiver w)) < 2 ^ 64 - 1 ->
  connect_begin (s_receiver w) = (r, (g, h)) -> s_links w !! g = None ->
  system_ok faulty (on_client (hello_was_sent r) (Some g) (sync_from h) (s_consumer w) (<[g := mk_rlink true false h []]> (s_links w)) w).
Proof.
  intros H Hc Hlt Hb Hg. destruct (sy_client _ _ H) as (kc & kr & Hr & Hn). unfold conn_now in Hn. rewrite Hc in Hn.
  destruct (rx_connect _ _ _ _ _ _ _ _ Hr Hlt Hn Hb) as (Hr' & Hw & Hgen & Hg1).
  pose proof (in_queue_none w g (sy_server _ _ H) ltac:(congruence)) as [Hiq Hrc]. split.
  - apply server_ok_on_client; [apply H| |].
    + intros g' l' Hl'. exists l'. rewrite lookup_insert_ne by congruence. done.
    + intros g' l'. intros [[<- <-]|[_ Hl']]%lookup_insert_Some; [done|]. by apply (so_greeted w (sy_server _ _ H)).
  - exists kc, kr. split; [done|]. unfold conn_now. cbn [on_client s_receiver s_conn s_links s_from]. split; [lia|]. intros _.
    eexists. rewrite lookup_insert_eq. split; [done|]. apply conn_wait; [done|done|].
    unfold to_come, publish_for. simpl. rewrite Hiq, Hrc. by destruct (s_publishing w).
Qed.

(** The rest of a connection after one message. *)
Lemma to_come_read w g l m ms r conn from c ls : l_s2c l = m :: ms ->
  to_come w g l = m :: to_come (on_client r conn from c ls w) g (set_s2c ms l).
Proof. intros Hm. unfold to_come, publish_for. simpl. by rewrite Hm. Qed.

Lemma server_ok_read r conn from c w g l ms : server_ok w -> s_links w !! g = Some l ->
  server_ok (on_client r conn from c (<[g := set_s2c ms l]> (s_links w)) w).
Proof.
  intros H Hg. apply server_ok_on_client; [done|by eapply insert_links|].
  intros g' l' [[<- <-]|[_ Hl']]%lookup_insert_Some; [exact (so_greeted w H _ l Hg)|]. by apply (so_greeted w H).
Qed.

(** What a turn of the read loop makes of a receiver. *)
Definition turn_ok (faulty : bool) vs r c (kc : nat) (r' : receiver D) (ok : bool) (from : Z) (l : rlink D) (coming : list (message D)) : Prop :=
  exists kr', rx_ok vs r' c kc kr' /\
    (ok = true -> ib_generation (r_inbox r') = ib_generation (r_inbox r) /\ conn_ok faulty vs r' kr' from l coming).

Lemma turn_open faulty vs r c kc kr i i' k' n' from l m coming r' ok : rx_ok vs r c kc kr -> open_ok vs r i -> l_greeted l = true ->
  (forall j, i = Some j -> is_Some (vs !! j)) -> incoming (r_inbox r) < 2 ^ 64 - 1 ->
  flow vs (id_instance (ids r)) i kr (last_received (r_inbox r)) (m :: coming) i' k' n' ->
  ends faulty vs (l_up l) (id_instance (ids r)) i' k' n' ->
  (id_instance (ids r') = id_instance (ids r)) ->
  handle_data_message m (ib_generation (r_inbox r)) r = (r', ok) ->
  turn_ok faulty vs r c kc r' (match ok with Ok b => b | Err _ => false end) from l coming.
Proof.
  intros H Ho Hg Hi Hin Hf He Hsame Hr. destruct (read_open vs r c kc kr i m coming i' k' n' r' ok H Ho Hin Hf Hr) as [(-> & kr' & i1 & Hr' & Ho' & Hi1 & Hf' & Hgen)|[Hne Hr']].
  - exists kr'. split; [done|]. intros _. split; [done|]. rewrite <-Hsame in He. eapply conn_open; [exact Ho'|done| |exact Hf'|exact He].
    intros j ->. apply Hi. destruct Hi1; congruence.
  - exists kr. split; [done|]. intros Ht. destruct ok as [[]|]; done.
Qed.

(** Neither accepting a message nor completing a handshake changes the server instance. *)
Lemma data_instance m g r r' ok : handle_data_message m g r = (r', ok) -> id_instance (ids r') = id_instance (ids r).
Proof.
  unfold handle_data_message, request_replay_from, handle_control_message. destruct m; simpl;
    repeat (case_match; simpl in *; simplify_eq/=); intros; by simplify_eq/=.
Qed.

Lemma handshake_instance h from g r r' ok : complete_handshake h from g r = (r', ok) -> id_instance (ids r') = id_instance (ids r).
Proof.
  unfold complete_handshake. destruct (negb _); [by intros [= <- _]|]. set (r1 := set_ids _ r). change (id_instance (ids r)) with (id_instance (ids r1)).
  clearbody r1. destruct (id_reset_on_hello (ids r)); [|by intros [= <- _]].
  destruct (handle_data_message Resync g r1) as [r2 res] eqn:Ed. pose proof (data_instance _ _ _ _ _ Ed) as <-.
  destruct res as [[]|]; by intros [= <- _].
Qed.

(** The answer to the hello. *)
Lemma turn_answered faulty vs r c kc kr h rest e kj ks i' k' n' from l m coming r' ok : rx_ok vs r c kc kr -> wait_ok r from (l_hello l) ->
  l_greeted l = true -> m :: coming = HelloOkMsg h :: rest ->
  ident vs kj = Some (ho_instance h, e) -> ho_instance h ≠ "" -> ho_replay_identity h = true -> ho_epoch h = Some e ->
  flow vs (ho_instance h) (Some kj) ks (last_received (r_inbox r)) rest i' k' n' ->
  (ks = kr \/ last_received (r_inbox r) = 0) -> (last_received (r_inbox r) = 0 -> ks = kj) ->
  ends faulty vs (l_up l) (ho_instance h) i' k' n' -> incoming (r_inbox r) < 2 ^ 64 - 1 ->
  handle_handshake_message m from (ib_generation (r_inbox r)) r = (r', ok) ->
  turn_ok faulty vs r c kc r' (match ok with Ok b => b | Err _ => false end) from l coming.
Proof.
  intros H Hw Hg [= -> ->] Hid Hin Hsup Hep Hf Hks Hz He Hinc. simpl.
  set (r1 := set_ids _ r). assert (rx_ok vs r1 c kc kr) as H1.
  { eapply rx_ids; [done|apply Hw|apply Hw|by left|apply H|apply H|apply H]. }
  assert (rx_ok vs r1 c kc kr -> forall n, turn_ok faulty vs r c kc (set_peer n r1) false from l rest) as Hrej.
  { intros _ n. exists kr. split; [by apply rx_peer|done]. }
  case_bool_decide; [intros [= <- <-]; by apply (Hrej H1)|].
  destruct (want_layered r && negb _); [intros [= <- <-]; by apply (Hrej H1)|].
  match goal with |- complete_handshake _ _ _ ?r0 = _ -> _ => set (r2 := r0) end. intros Hc.
  assert (rx_ok vs r2 c kc kr) as H2 by (unfold r2; by repeat apply rx_peer).
  assert (wait_ok r2 from (l_hello l)) as Hw2 by (by destruct Hw; split).
  assert (told_ok vs r2 (ho_instance h) e kj) as Ht.
  { split; try done. simpl. destruct (wa_validated _ _ _ Hw) as [->| ->]; [by rewrite orb_true_r|done]. }
  pose proof (handshake_instance _ _ _ _ _ _ Hc) as Hsame. change (id_instance (ids r2)) with (ho_instance h) in Hsame.
  assert (hello_outcome vs c kc r2 kj r' ok rest i' k' n') as Ho.
  { destruct (id_reset_on_hello (ids r2)) eqn:Er; [|by eapply (handshake_plain vs r2 c kc kr h from _ e kj ks)].
    destruct (rx_reset _ _ _ _ _ H2 Er) as (Hlr & _). change (r_inbox r2) with (r_inbox r) in Hlr. rewrite Hlr, (Hz Hlr) in Hf.
    by eapply (handshake_reset vs r2 c kc kr h from _ e kj). }
  destruct Ho as [(-> & kr' & i1 & i2 & Hr' & Ho' & Hi1 & Hi2 & Hf' & Hgen)|[Hne (kr' & Hr')]].
  - exists kr'. split; [done|]. intros _. split; [done|]. rewrite Hsame in Hf'. eapply conn_open; [exact Ho'|done| |by rewrite Hsame|].
    + intros j ->. destruct Hi1 as [[= ->]|?]; [by eapply ident_lookup|done].
    + rewrite Hsame. intros Hu. destruct (He Hu) as (-> & ? & ? & ?). split_and!; try done. by destruct Hi2.
  - exists kr'. split; [done|]. destruct ok as [[]|]; done.
Qed.

Lemma read_turn faulty vs r c kc kr from l m coming r' ok : rx_ok vs r c kc kr -> conn_ok faulty vs r kr from l (m :: coming) ->
  incoming (r_inbox r) < 2 ^ 64 - 1 -> read_message m from (ib_generation (r_inbox r)) r = (r', ok) ->
  turn_ok faulty vs r c kc r' ok from l coming.
Proof.
  intros H Hc Hin. unfold read_message. rewrite Z.eqb_refl. simpl.
  destruct Hc as [i i' k' n' Ho Hgr Hi Hf He|Hw Hgr Hcm|Hw Hgr Hu Hall|h rest e kj ks i' k' n' Hw Hgr Hcm Hid Hins Hsup Hep Hf Hks Hz He]; [|done|..].
  - rewrite (op_connected _ _ _ Ho). destruct (handle_data_message _ _ _) as [r1 res] eqn:Ed. intros [= <- <-].
    eapply turn_open; try done. by eapply data_instance.
  - rewrite (wa_connected _ _ _ Hw). apply Forall_cons in Hall as [Hm Hall].
    assert ((exists n, handle_handshake_message m from (ib_generation (r_inbox r)) r = (set_peer n r, Ok false))
      \/ handle_handshake_message m from (ib_generation (r_inbox r)) r = (r, Ok true)) as [[n ->]| ->]
      by (destruct m; try done; first [by right|left; by eexists]); intros [= <- <-].
    + exists kr. split; [by apply rx_peer|done].
    + exists kr. split; [done|]. intros _. split; [done|]. by apply conn_refused.
  - rewrite (wa_connected _ _ _ Hw). destruct (handle_handshake_message _ _ _ _) as [r1 res] eqn:Ed. intros [= <- <-].
    by eapply turn_answered.
Qed.

Lemma conn_s2c faulty vs r kr from l ms coming : conn_ok faulty vs r kr from l coming -> conn_ok faulty vs r kr from (set_s2c ms l) coming.
Proof. intros []; [by eapply conn_open|by apply conn_wait|by apply conn_refused|by eapply conn_answered]. Qed.

Lemma read_step faulty w g l m ms r ok : system_ok faulty w -> s_conn w = Some g -> s_links w !! g = Some l -> l_s2c l = m :: ms ->
  incoming (r_inbox (s_receiver w)) < 2 ^ 64 - 1 -> read_message m (s_from w) g (s_receiver w) = (r, ok) ->
  system_ok faulty (on_client (if ok then r else end_connection r) (if ok then Some g else None) (s_from w) (s_consumer w)
        (<[g := set_s2c ms l]> (s_links w)) w).
Proof.
  intros [Hs (kc & kr & Hr & Hn)] Hc Hl Hm Hin Hread. unfold conn_now in Hn. rewrite Hc in Hn. destruct Hn as [Hle Hn].
  destruct (decide (g = ib_generation (r_inbox (s_receiver w)))) as [->|Hne].
  - destruct (Hn eq_refl) as (l1 & Hl1 & Hco). assert (l1 = l) as -> by congruence.
    rewrite (to_come_read w _ l m ms r None (s_from w) (s_consumer w) (<[ib_generation (r_inbox (s_receiver w)) := set_s2c ms l]> (s_links w)) Hm) in Hco.
    destruct (read_turn _ _ _ _ _ _ _ _ _ _ _ _ Hr Hco Hin Hread) as (kr' & Hr' & Hok). destruct ok.
    + destruct (Hok eq_refl) as [Hgen Hco']. split; [by apply server_ok_read|]. exists kc, kr'. split; [done|].
      unfold conn_now. cbn [on_client s_conn s_receiver s_links s_from]. rewrite Hgen. split; [done|]. intros _. eexists. rewrite lookup_insert_eq.
      split; [done|]. by apply conn_s2c.
    + eapply client_end; [exact Hr'|by apply server_ok_read].
  - unfold read_message in Hread. rewrite (proj2 (Z.eqb_neq _ _) Hne) in Hread. injection Hread as <- <-.
    eapply client_end; [exact Hr|by apply server_ok_read].
Qed.

Lemma replica_client_ok faulty w w' : system_ok faulty w -> client_step w w' -> system_ok faulty w'.
Proof.
  intros H Hs. revert H. destruct Hs; intros Hok.
  - by eapply connect_step.
  - by eapply read_step.
  - destruct (sy_client _ _ Hok) as (kc & kr & Hr & _). eapply client_end; [exact Hr|]. apply server_ok_client_same, Hok.
  - by eapply drain_step.
  - by eapply finish_step.
  - by apply request_step.
Qed.

Lemma moves_client faulty w w' : server_step faulty w w' -> s_receiver w' = s_receiver w /\ s_conn w' = s_conn w /\ s_from w' = s_from w
  /\ s_consumer w' = s_consumer w.
Proof. by destruct 1. Qed.

Lemma replica_server_ok faulty w w' : system_ok faulty w -> server_step faulty w w' -> system_ok faulty w'.
Proof.
  intros [Hs (kc & kr & Hr & Hn)] Hst. destruct (moves_client _ _ _ Hst) as (E1 & E2 & E3 & E4).
  destruct (server_step_moves _ _ _ Hs Hst) as (Hs' & Hle & Hl). split; [done|]. exists kc, kr. rewrite E1, E4. split; [by eapply rx_mono|].
  unfold conn_now in *. rewrite E1, E2, E3. destruct (s_conn w) as [g|]; [|done]. destruct Hn as [Hg Hn]. split; [done|]. intros Heq.
  destruct (Hn Heq) as (l & Hgl & Hc). destruct (Hl g l Hgl) as (l' & Hgl' & Hc'). exists l'. split; [done|]. apply Hc'; [|apply Hr|done].
  apply (ib_received _ (rx_inbox _ _ _ _ _ Hr)).
Qed.

Lemma init_system_ok faulty instance rest max_queue layered mode again token : instance ≠ "" ->
  system_ok faulty (replica_init instance rest max_queue layered mode again token).
Proof.
  intros Hi. split.
  - split; simpl; try done; [apply NoDup_singleton|by repeat constructor].
  - exists 0%nat, 0%nat. split; [|done]. split; simpl; try done.
    + by apply inbox_init_ok.
    + split; [unfold head_seq; lia|done].
    + constructor.
Qed.

Lemma replica_invariant faulty w : replica_reachable faulty w -> system_ok faulty w.
Proof.
  intros (instance & rest & max_queue & layered & mode & again & token & Hi & _ & Hr). pose proof (init_system_ok faulty instance rest max_queue layered mode again token Hi) as H.
  revert H. induction Hr as [|w1 w2 w3 [Hs|Hs] _ IH]; intros H; [done|..]; apply IH; [by eapply replica_client_ok|by eapply replica_server_ok].
Qed.

(** *** The theorems *)

(** C3: what a replica has applied since its last reset is, at any time and
    whatever happened to its connections, to the server and to the history, a
    prefix of one history the server has had: exactly the events of its first
    [n] rows, in order, each once, [n] being the cursor the consumer keeps.  And
    when the receiver reports it is synchronized, that history is the one whose
    instance and epoch it published, and the prefix reaches the published head. *)
Theorem replica_prefix faulty w : replica_reachable faulty w ->
  exists v n, v ∈ versions w /\ c_last_seq (s_consumer w) = Z.of_nat n /\ (n <= length (v_rows v))%nat
  /\ c_applied (s_consumer w) = omap row_event (take n (v_rows v))
  /\ (synchronized (s_receiver w) = true ->
       v_instance v = published_instance (published (s_receiver w)) /\ v_epoch v = replay_epoch (published (s_receiver w))
       /\ replay_head_seq (published (s_receiver w)) <= Z.of_nat n).
Proof.
  intros [Hs (kc & kr & Hr & _)]%replica_invariant. pose proof (rx_prefix _ _ _ _ _ Hr) as [Hn Happ].
  assert (exists v, v ∈ versions w /\ rows_at (versions w) kc `prefix_of` v_rows v
    /\ (ident (versions w) kc ≠ None -> ident (versions w) kc = Some (identity_of v))) as (v & Hv & Hpre & Hid).
  { unfold rows_at, ident. destruct (versions w !! kc) as [v|] eqn:E1.
    - exists v. split_and!; [by eapply list_elem_of_lookup_2|done|done].
    - exists (current_version (s_server w)). split_and!; [apply elem_of_app; right; by left|apply prefix_nil|done]. }
  exists v, (Z.to_nat (c_last_seq (s_consumer w))). destruct Hpre as [rest Hrest]. unfold head_seq in Hn.
  split_and!; [done|lia|rewrite Hrest, length_app; lia|rewrite Hrest, take_app_le by lia; done|].
  intros [_ Hsync]%andb_true_iff. destruct (rx_synced _ _ _ _ _ Hr Hsync) as (-> & _ & _ & Hi & Hh).
  rewrite Hid in Hi by congruence. injection Hi as -> ->. split_and!; [done..|lia].
Qed.

(** C4: no committed row is lost: when no publication failed, a receiver whose
    current connection the server serves, and that has read, drained and applied
    everything there is, has applied the whole current history: every row the
    server holds, in order.  If it reports it is synchronized, it names the
    server's own instance and epoch. *)
Theorem replica_converges w g l : replica_reachable false w -> s_conn w = Some g -> g = ib_generation (r_inbox (s_receiver w)) ->
  s_links w !! g = Some l -> l_up l = true -> connected (s_receiver w) = true ->
  to_come w g l = [] -> frames (r_inbox (s_receiver w)) = [] -> c_in_hand (s_consumer w) = None ->
  c_applied (s_consumer w) = omap row_event (Delivery.history (s_server w))
  /\ c_last_seq (s_consumer w) = head_seq (Delivery.history (s_server w))
  /\ (synchronized (s_receiver w) = true ->
       published_instance (published (s_receiver w)) = d_instance (s_server w) /\ replay_epoch (published (s_receiver w)) = d_epoch (s_server w)).
Proof.
  intros [Hs (kc & kr & Hr & Hn)]%replica_invariant Hc Hg Hl Hu Hcon Hcm Hfr Hh. unfold conn_now in Hn. rewrite Hc in Hn.
  destruct (proj2 Hn Hg) as (l1 & Hl1 & Hco). assert (l1 = l) as -> by congruence. rewrite Hcm in Hco.
  destruct Hco as [i i' k' n' Ho Hgr Hi Hf He|Hw|Hw|h rest e kj ks i' k' n' Hw _ Hx];
    [|by rewrite (wa_connected _ _ _ Hw) in Hcon..]. inversion Hf; subst. destruct (He Hu) as (_ & Hk & _ & Hend). specialize (Hend eq_refl).
  pose proof (rx_path _ _ _ _ _ Hr) as Hp. rewrite Hfr, Hh in Hp. simpl in Hp.
  pose proof (path_end _ _ _ _ _ _ Hp) as Hcl. simpl in Hcl.
  pose proof (prefix_stay _ _ _ _ _ _ Hp (rx_prefix _ _ _ _ _ Hr)) as [_ Happ].
  rewrite (current_rows w k' Hk) in *. rewrite Hend in Happ. unfold head_seq in *.
  rewrite Nat2Z.id, take_ge in Happ by done. split_and!; [done|congruence|].
  intros [_ Hsync]%andb_true_iff. destruct (rx_synced _ _ _ _ _ Hr Hsync) as (_ & _ & _ & Hid & _).
  rewrite (current_ident w k' Hk) in Hid. by injection Hid as -> ->.
Qed.
End replica.

(** ** A run

    The server has one row; a receiver joins, another row is committed, delivered
    and applied. *)
Module ReplicaDemo.
Abbreviation world := (replication nat nat).
Definition data (p : playback_snapshot) : nat := 0%nat.
Abbreviation step := (replica_step data Ok (@Some nat) Ok (fun _ => Ok ()) false).

Definition connect (w : world) : option world :=
  let '(r, (g, h)) := connect_begin (s_receiver w) in
  if bool_decide (s_conn w = None /\ s_links w !! g = None) && (ib_generation (r_inbox (s_receiver w)) <? 2 ^ 64 - 1)
  then Some (on_client (hello_was_sent r) (Some g) (sync_from h) (s_consumer w) (<[g := mk_rlink true false h []]> (s_links w)) w) else None.
Definition join (g : Z) (w : world) : option world :=
  match s_links w !! g with
  | Some l =>
      let hd := mk_handler (hl_layered (l_hello l)) None None in
      let '(d, rr) := receiver_replay_window g hd (l_hello l) (s_server w) in
      if bool_decide (s_publishing w = None) && negb (l_greeted l) && l_up l then
        Some (on_server d None
          (<[g := greet_link (push (replay_stream data
                  (receiver_hello_ok_of hd (rr_epoch rr) false "" None d) None rr d) l)]> (s_links w)) w)
      else None
  | None => None
  end.
Definition persist (rows : list (row nat)) (w : world) : option world :=
  if bool_decide (s_publishing w = None) then
    Some (on_server (set_history (Delivery.history (s_server w) ++ rows) (s_server w))
        (Some (number_rows (head_seq (Delivery.history (s_server w)) + 1) rows)) (s_links w) w)
  else None.
Definition publish (w : world) : option world :=
  match s_publishing w with
  | Some ms => Some (on_server (broadcast_transaction_group_views [ms] (s_server w)) None (s_links w) w)
  | None => None
  end.
Definition send (w : world) : option world :=
  match next_turn (s_server w) with
  | SendTo g payload _ => Some (on_server (sent_one (s_server w)) (s_publishing w) (alter (push payload) g (s_links w)) w)
  | _ => None
  end.
Definition read (g : Z) (w : world) : option world :=
  match s_links w !! g with
  | Some l =>
      match l_s2c l with
      | m :: ms =>
          let '(r, ok) := read_message m (s_from w) g (s_receiver w) in
          if bool_decide (s_conn w = Some g) && (incoming (r_inbox (s_receiver w)) <? 2 ^ 64 - 1) then
            Some (on_client (if ok then r else end_connection r) (if ok then Some g else None) (s_from w) (s_consumer w)
              (<[g := set_s2c ms l]> (s_links w)) w)
          else None
      | [] => None
      end
  | None => None
  end.
Definition take_batch (w : world) : option world :=
  match drain_begin None (s_receiver w) (s_consumer w) with
  | Ok (r, c) => if bool_decide (c_in_hand (s_consumer w) = None) then Some (on_client r (s_conn w) (s_from w) c (s_links w) w) else None
  | Err _ => None
  end.
Definition apply_batch (w : world) : option world :=
  let '(r, c) := drain_finish Ok (@Some nat) Ok (fun _ => Ok ()) (Ok ()) (s_receiver w) (s_consumer w) in
  if bool_decide (is_Some (c_in_hand (s_consumer w))) && (ib_generation (r_inbox (s_receiver w)) <? 2 ^ 64 - 1)
  then Some (on_client r (s_conn w) (s_from w) c (s_links w) w) else None.

Lemma connect_sound w w' : connect w = Some w' -> step w w'.
Proof.
  unfold connect. destruct (connect_begin _) as [r [g h]] eqn:E1. case_bool_decide as Hc; [|done]. destruct Hc as [? ?].
  destruct (Z.ltb_spec (ib_generation (r_inbox (s_receiver w))) (2 ^ 64 - 1)); [|done]. intros [= <-]. left. by eapply rc_connect.
Qed.
Lemma join_sound g w w' : join g w = Some w' -> step w w'.
Proof.
  unfold join. destruct (s_links w !! g) as [l|] eqn:El; [|done]. destruct (receiver_replay_window _ _ _ _) as [d rr] eqn:Ew.
  case_bool_decide; [|done]. destruct (l_greeted l) eqn:Eg; [done|]. destruct (l_up l) eqn:Eu; [|done]. intros [= <-]. right. by eapply sv_join.
Qed.
Lemma persist_sound rows w w' : persist rows w = Some w' -> step w w'.
Proof. unfold persist. case_bool_decide; [|done]. intros [= <-]. right. by apply sv_persist. Qed.
Lemma publish_sound w w' : publish w = Some w' -> step w w'.
Proof. unfold publish. destruct (s_publishing w) eqn:E1; [|done]. intros [= <-]. right. by apply sv_publish. Qed.
Lemma send_sound w w' : send w = Some w' -> step w w'.
Proof. unfold send. destruct (next_turn _) eqn:E1; try done. intros [= <-]. right. by eapply sv_send. Qed.
Lemma read_sound g w w' : read g w = Some w' -> step w w'.
Proof.
  unfold read. destruct (s_links w !! g) as [l|] eqn:El; [|done]. destruct (l_s2c l) as [|m ms] eqn:Em; [done|].
  destruct (read_message _ _ _ _) as [r ok] eqn:Er. case_bool_decide; [|done].
  destruct (Z.ltb_spec (incoming (r_inbox (s_receiver w))) (2 ^ 64 - 1)); [|done]. intros [= <-]. left. by eapply rc_read.
Qed.
Lemma take_batch_sound w w' : take_batch w = Some w' -> step w w'.
Proof. unfold take_batch. destruct (drain_begin _ _ _) as [[r c]|] eqn:E1; [|done]. case_bool_decide; [|done]. intros [= <-]. left. by eapply rc_drain. Qed.
Lemma apply_batch_sound w w' : apply_batch w = Some w' -> step w w'.
Proof.
  unfold apply_batch. destruct (drain_finish _ _ _ _ _ _ _) as [r c] eqn:E1. case_bool_decide as Hh; [|done]. destruct Hh as [ms Hms].
  destruct (Z.ltb_spec (ib_generation (r_inbox (s_receiver w))) (2 ^ 64 - 1)); [|done]. intros [= <-]. left. by eapply rc_finish with (outcome := Ok ()).
Qed.

Definition run (steps : list (world -> option world)) (w : world) : option world := foldl (fun o f => o ≫= f) (Some w) steps.
Definition sound (f : world -> option world) : Prop := forall w w', f w = Some w' -> step w w'.
Lemma run_sound steps w w' : Forall sound steps -> run steps w = Some w' -> rtc step w w'.
Proof.
  unfold run. intros H. revert w. induction H as [|f steps Hf _ IH]; intros w; simpl; [by intros [= <-]; constructor|].
  destruct (f w) as [w1|] eqn:E1; simpl; [intros Hr; eapply rtc_l; [by apply Hf|by apply IH]|].
  clear. by induction steps.
Qed.

Definition start : world := replica_init "server" [EventRow 7%nat] 16 false MANAGED true "".
Definition steps : list (world -> option world) :=
  [connect; join 1; read 1; read 1; read 1; read 1; take_batch; apply_batch;
   persist [EventRow 8%nat; GraphRow 9%nat]; publish; send; read 1; read 1; take_batch; apply_batch].
Definition final : world := default start (run steps start).

Lemma steps_sound : Forall sound steps.
Proof.
  unfold steps. repeat (apply Forall_cons_2; [first [exact connect_sound|exact (join_sound _)|exact (persist_sound _)|exact publish_sound
    |exact send_sound|exact (read_sound _)|exact take_batch_sound|exact apply_batch_sound]|]). apply Forall_nil_2.
Qed.
Lemma final_reachable : replica_reachable data Ok (@Some nat) Ok (fun _ => Ok ()) false final.
Proof.
  exists "server", [EventRow 7%nat], 16%nat, false, MANAGED, true, "". split; [done|]. split; [lia|].
  apply (run_sound steps); [apply steps_sound|vm_compute; reflexivity].
Qed.
End ReplicaDemo.

Lemma replica_prefix_witness : synchronized (s_receiver ReplicaDemo.final) = true
  /\ exists v n, v ∈ versions ReplicaDemo.final /\ c_last_seq (s_consumer ReplicaDemo.final) = Z.of_nat n /\ (n <= length (v_rows v))%nat
  /\ c_applied (s_consumer ReplicaDemo.final) = omap (row_event Ok (@Some nat)) (take n (v_rows v))
  /\ (synchronized (s_receiver ReplicaDemo.final) = true ->
       v_instance v = published_instance (published (s_receiver ReplicaDemo.final))
       /\ v_epoch v = replay_epoch (published (s_receiver ReplicaDemo.final))
       /\ replay_head_seq (published (s_receiver ReplicaDemo.final)) <= Z.of_nat n).
Proof. split; [vm_compute; reflexivity|]. exact (replica_prefix _ _ _ _ _ _ _ ReplicaDemo.final_reachable). Defined.

Lemma replica_converges_witness : c_applied (s_consumer ReplicaDemo.final) = [7; 8]%nat
  /\ c_applied (s_consumer ReplicaDemo.final) = omap (row_event Ok (@Some nat)) (Delivery.history (s_server ReplicaDemo.final)).
Proof.
  split; [vm_compute; reflexivity|].
  destruct (s_links ReplicaDemo.final !! 1) as [l|] eqn:El; [|by vm_compute in El].
  refine (proj1 (replica_converges _ _ _ _ _ ReplicaDemo.final 1 l ReplicaDemo.final_reachable _ _ El _ _ _ _ _)).
  - vm_compute. reflexivity.
  - vm_compute. reflexivity.
  - vm_compute in El. by injection El as <-.
  - vm_compute. reflexivity.
  - vm_compute in El. injection El as <-. vm_compute. reflexivity.
  - vm_compute. reflexivity.
  - vm_compute. reflexivity.
Defined.

