(* ===== verification/LayerGraph.v ===== *)
(** * LayerGraph: routing of a shared stage's authored layers
    ([openusdconnect/shared_layer_graph.py], [layer_key_router.py])

    [SharedLayerGraph] on the server (authoritative) and on a replica: portable
    layer keys, the sublayer list declared for each key, the revision of each
    parent, and the keys every local layer ever had.  With it the part of the
    local process it edits: the authored sublayer lists of the layers.  A layer is
    its identifier; [resolve] is what opening an authored path relative to a layer
    gives, and [new_key n] the n-th key the process mints.  Sublayer entries are
    those of decoded messages, so their types hold.

    Theorems: reachability is exact and always computed; a failing transaction
    restores the routing state; a replica that applies what the server logged
    follows it, provided no layer falls out of the graph and comes back within one
    edit; when one does, every replica, and the server after a restart, loses its
    revision and finds its next record stale. *)

From Stdlib Require Import QArith.Qcanon.
From stdpp Require Import pretty.
From S2P Require Import Prelude.
#[local] Set Default Proof Using "Type".
#[local] Set Proof Using Clear Unused.

(** ** Entries *)

Record entry := mk_entry { en_path : string; en_offset : pyfloat; en_scale : pyfloat; en_key : string }.

#[global] Instance entry_eq_dec : EqDecision entry.
Proof. solve_decision. Defined.

Definition finite (f : pyfloat) : bool := match f with Fin _ => true | _ => false end.

(** The entry without its key, as a layer stores it. *)
Definition authored (e : entry) : entry := mk_entry (en_path e) (en_offset e) (en_scale e) "".
Definition with_key (key : string) (e : entry) : entry := mk_entry (en_path e) (en_offset e) (en_scale e) key.

(** [event] of kind [K_SET_SUBLAYERS]; [PreparedSublayers] *)
Record sub_event := mk_sub_event { se_generation : string; se_revision : Z; se_sublayers : list entry }.
Record prepared_sublayers := mk_prepared_sublayers {
  pr_parent : string; pr_event : sub_event; pr_mappings : list (string * string) }.

(** [MSG_LAYER_GRAPH_STATE] *)
Record graph_layer := mk_graph_layer { gl_key : string; gl_revision : Z; gl_sublayers : list entry }.
Record graph_state := mk_graph_state {
  gs_generation : string; gs_revision : Z; gs_root : string; gs_layers : list graph_layer }.

Abbreviation topology := (gmap string (list entry)).

(** ** Reachability *)

Definition child_keys (st : topology) (k : string) : list string :=
  filter (fun c => c ≠ "") (map en_key (default [] (st !! k))).

Fixpoint bfs (st : topology) (fuel : nat) (queue : list string) (visited : gset string) (reachable : list string) : option (list string) :=
  match queue with
  | [] => Some reachable
  | k :: queue =>
      match fuel with
      | O => None
      | S fuel =>
          if bool_decide (k ∈ visited) then bfs st fuel queue visited reachable
          else bfs st fuel (queue ++ child_keys st k) ({[k]} ∪ visited) (reachable ++ [k])
      end
  end.

(** The entries of keys not visited bound the turns. *)
Definition weight (st : topology) (visited : gset string) : nat :=
  sum_list (map (fun kv => length kv.2) (filter (fun kv => kv.1 ∉ visited) (map_to_list st))).

Definition reachable_from (st : topology) (root : string) : list string :=
  default [] (bfs st (S (weight st ∅)) [root] ∅ []).

Lemma weight_list (l : list (string * list entry)) (visited : gset string) k : NoDup l.*1 -> k ∉ visited ->
  sum_list (map (fun kv => length kv.2) (filter (fun kv => kv.1 ∉ {[k]} ∪ visited) l)) + length (default [] (dict_get k l))
  = sum_list (map (fun kv => length kv.2) (filter (fun kv => kv.1 ∉ visited) l)).
Proof.
  intros Hnd Hk. induction l as [|[k1 es] l IH]; [done|]. cbn [fmap list_fmap fst] in Hnd. apply NoDup_cons in Hnd as [Hni Hnd]. specialize (IH Hnd).
  rewrite !filter_cons. cbn [fst]. cbn [dict_get]. case_bool_decide as Hk1.
  - subst k1. rewrite decide_False by set_solver. rewrite decide_True by done. cbn. rewrite <-IH.
    assert (dict_get k l = None) as -> by (by apply dict_get_None). cbn. lia.
  - destruct (decide (k1 ∉ visited)).
    + rewrite decide_True by set_solver. cbn. rewrite <-IH. lia.
    + rewrite decide_False by set_solver. exact IH.
Qed.

Lemma dict_get_map_to_list {A} (m : gmap string A) k : dict_get k (map_to_list m) = m !! k.
Proof.
  destruct (m !! k) as [a|] eqn:E1.
  - apply elem_dict_get; [apply NoDup_fst_map_to_list|]. by apply elem_of_map_to_list.
  - apply dict_get_None. intros ([k' a] & -> & Hin)%list_elem_of_fmap. apply elem_of_map_to_list in Hin. cbn in E1; by rewrite E1 in Hin.
Qed.

Lemma weight_visit st visited k : k ∉ visited -> weight st ({[k]} ∪ visited) + length (child_keys st k) ≤ weight st visited.
Proof.
  intros Hk. unfold weight. rewrite <-(weight_list (map_to_list st) visited k); [|apply NoDup_fst_map_to_list|done].
  rewrite dict_get_map_to_list. apply Nat.add_le_mono_l. unfold child_keys. etrans; [apply length_filter|]. by rewrite length_map.
Qed.

Lemma bfs_total st fuel queue visited acc : length queue + weight st visited ≤ fuel -> is_Some (bfs st fuel queue visited acc).
Proof.
  revert queue visited acc. induction fuel as [|fuel IH]; intros [|k queue] visited acc Hf; try (by eexists); cbn in *; [lia|].
  case_bool_decide as Hk; apply IH; [lia|]. rewrite length_app. pose proof (weight_visit st visited k Hk). lia.
Qed.

(** An edge of the declared graph. *)
Definition edge (st : topology) (a b : string) : Prop := b ∈ child_keys st a.

Record bfs_inv (st : topology) (root : string) (queue : list string) (visited : gset string) (acc : list string) : Prop := {
  bi_nodup : NoDup acc;
  bi_visited k : k ∈ visited <-> k ∈ acc;
  bi_sound k : k ∈ acc \/ k ∈ queue -> rtc (edge st) root k;
  bi_closed a b : a ∈ acc -> edge st a b -> b ∈ acc \/ b ∈ queue;
  bi_root : root ∈ acc \/ root ∈ queue;
}.

Lemma bfs_done st root visited acc : bfs_inv st root [] visited acc -> NoDup acc /\ forall k, k ∈ acc <-> rtc (edge st) root k.
Proof.
  intros [K1 K2 K3 K4 K5]. split; [done|]. intros x. split; [intros Hx; apply K3; by left|].
  destruct K5 as [K5|K5]; [|by apply elem_of_nil in K5]. clear K3. intros Hr. induction Hr as [|a b c Hab _ IHr]; [done|].
  apply IHr. by destruct (K4 a b K5 Hab) as [?|?%elem_of_nil].
Qed.

Lemma bfs_exact st root fuel queue visited acc r : bfs_inv st root queue visited acc -> bfs st fuel queue visited acc = Some r ->
  NoDup r /\ forall k, k ∈ r <-> rtc (edge st) root k.
Proof.
  revert queue visited acc. induction fuel as [|fuel IH]; intros [|k queue] visited acc Hi Hb; cbn in Hb;
    [injection Hb as <-; by apply (bfs_done _ _ visited)|done|injection Hb as <-; by apply (bfs_done _ _ visited)|].
  case_bool_decide as Hk.
  - apply (IH queue visited acc); [|done]. destruct Hi as [K1 K2 K3 K4 K5]. pose proof (proj1 (K2 k) Hk) as Hka. split; [done|done| | |].
    + intros x Hx. apply K3. set_solver.
    + intros a b Ha Hab. destruct (K4 a b Ha Hab) as [?|[->|?]%elem_of_cons]; auto.
    + destruct K5 as [?|[->|?]%elem_of_cons]; auto.
  - apply IH in Hb; [done|]. destruct Hi as [K1 K2 K3 K4 K5].
    assert (rtc (edge st) root k) as Hrk by (apply K3; set_solver). split.
    + apply NoDup_app. split_and!; [done| |apply NoDup_singleton]. intros x Hx ->%list_elem_of_singleton. by apply Hk, K2.
    + intros x. rewrite elem_of_union, elem_of_app, elem_of_singleton, list_elem_of_singleton, K2. tauto.
    + intros x. rewrite !elem_of_app, list_elem_of_singleton. intros [[?| ->]|[?|Hx]]; [apply K3; auto|done|apply K3; set_solver|].
      eapply rtc_r; [exact Hrk|exact Hx].
    + intros a b. rewrite !elem_of_app, !list_elem_of_singleton. intros [Ha| ->] Hab; [|by right; right].
      destruct (K4 a b Ha Hab) as [?|[->|?]%elem_of_cons]; auto.
    + rewrite !elem_of_app, list_elem_of_singleton. destruct K5 as [?|[->|?]%elem_of_cons]; auto.
Qed.

(** Every key reachable through declared entries, each once. *)
Lemma reachable_exact st root : NoDup (reachable_from st root) /\ forall k, k ∈ reachable_from st root <-> rtc (edge st) root k.
Proof.
  unfold reachable_from. destruct (bfs_total st (S (weight st ∅)) [root] ∅ []) as [r Hr]; [done|]. rewrite Hr. eapply bfs_exact; [|exact Hr].
  split; [constructor|set_solver| | |by right; left].
  - intros k [Hk|Hk]; [by apply elem_of_nil in Hk|]. by apply list_elem_of_singleton in Hk as ->.
  - intros a b Ha. by apply elem_of_nil in Ha.
Qed.

(** ** State *)

Record lg := mk_lg {
  generation : string;
  revision : Z;
  ready : bool;
  authoritative : bool;
  root_layer_key : string;
  (** [_layers] and [_keys_by_identifier] *)
  layers : gmap string string;
  keys_by_identifier : gmap string string;
  (** [_states] and [_parent_revisions] *)
  states : topology;
  parent_revisions : gmap string Z;
  (** [_identity_keys_by_identifier] and its inverse *)
  identity_keys : gmap string string;
  identity_identifiers : gmap string string;
  (** the process: authored sublayer lists by identifier, keys minted *)
  files : gmap string (list entry);
  minted : nat }.

Definition set_version (g : string) (r : Z) (root : string) (s : lg) : lg :=
  mk_lg g r (ready s) (authoritative s) root (layers s) (keys_by_identifier s) (states s) (parent_revisions s)
    (identity_keys s) (identity_identifiers s) (files s) (minted s).
Definition set_ready (b : bool) (s : lg) : lg :=
  mk_lg (generation s) (revision s) b (authoritative s) (root_layer_key s) (layers s) (keys_by_identifier s) (states s) (parent_revisions s)
    (identity_keys s) (identity_identifiers s) (files s) (minted s).
Definition set_maps (ls kbi ik ii : gmap string string) (s : lg) : lg :=
  mk_lg (generation s) (revision s) (ready s) (authoritative s) (root_layer_key s) ls kbi (states s) (parent_revisions s)
    ik ii (files s) (minted s).
Definition set_topology (st : topology) (pr : gmap string Z) (s : lg) : lg :=
  mk_lg (generation s) (revision s) (ready s) (authoritative s) (root_layer_key s) (layers s) (keys_by_identifier s) st pr
    (identity_keys s) (identity_identifiers s) (files s) (minted s).
Definition set_files (f : gmap string (list entry)) (s : lg) : lg :=
  mk_lg (generation s) (revision s) (ready s) (authoritative s) (root_layer_key s) (layers s) (keys_by_identifier s) (states s) (parent_revisions s)
    (identity_keys s) (identity_identifiers s) f (minted s).
Definition set_minted (n : nat) (s : lg) : lg :=
  mk_lg (generation s) (revision s) (ready s) (authoritative s) (root_layer_key s) (layers s) (keys_by_identifier s) (states s) (parent_revisions s)
    (identity_keys s) (identity_identifiers s) (files s) n.

Definition reachable_layer_keys (s : lg) : list string := if ready s then reachable_from (states s) (root_layer_key s) else [].
Definition layer_for (key : string) (s : lg) : option string := layers s !! key.
Definition key_for (ident : string) (s : lg) : option string := keys_by_identifier s !! ident.
Definition parent_revision (key : string) (s : lg) : Z := default 0%Z (parent_revisions s !! key).
Definition sublayers_for (key : string) (s : lg) : option (list entry) := states s !! key.
Definition identity_records (s : lg) : list (string * string) := sorted_items (identity_keys s).
Definition identifier_for_key (key : string) (s : lg) : option string := identity_identifiers s !! key.

(** [read_sublayer_entries]: layers without an authored list have none. *)
Definition read_sublayer_entries (ident : string) (s : lg) : list entry := default [] (files s !! ident).

(** A conflicting binding: the map has the key, with another value. *)
Definition conflicts (m : gmap string string) (k v : string) : bool :=
  match m !! k with Some v' => negb (bool_decide (v' = v)) | None => false end.

(** [_bind_key] of the router under [_bind_key] of the graph *)
Definition bind_key (key ident : string) : M lg unit := fun s =>
  if conflicts (identity_keys s) ident key || conflicts (identity_identifiers s) key ident
     || conflicts (layers s) key ident || conflicts (keys_by_identifier s) ident key
  then (s, Err ValueError)
  else (set_maps (<[key := ident]> (layers s)) (<[ident := key]> (keys_by_identifier s))
          (<[ident := key]> (identity_keys s)) (<[key := ident]> (identity_identifiers s)) s, Ok ()).

(** [restore_identity_records] *)
Definition restore_identity (record : string * string) : M lg unit := fun s =>
  let '(ident, key) := record in
  if bool_decide (ident = "") || bool_decide (key = "") || conflicts (identity_keys s) ident key || conflicts (identity_identifiers s) key ident
  then (s, Err ValueError)
  else (set_maps (layers s) (keys_by_identifier s) (<[ident := key]> (identity_keys s)) (<[key := ident]> (identity_identifiers s)) s, Ok ()).
Definition restore_identity_records : list (string * string) -> M lg unit := iterM restore_identity.

Definition start_new_generation (new_generation : string) : M lg unit := fun s =>
  if negb (ready s) then (s, Err RuntimeError)
  else
    let s := set_version new_generation 1 (root_layer_key s) s in
    (set_topology (states s) (list_to_map (map (fun k => (k, 1%Z)) (reachable_layer_keys s))) s, Ok ()).

(** [with transaction(): body]: routing state only. *)
Definition restore_routing (old s : lg) : lg :=
  mk_lg (generation old) (revision old) (ready s) (authoritative s) (root_layer_key old) (layers old) (keys_by_identifier old)
    (states old) (parent_revisions old) (identity_keys old) (identity_identifiers old) (files s) (minted s).
Definition transaction {A} (body : M lg A) : M lg A := fun s =>
  match body s with
  | (s', Err e) => ((if is_exception e then restore_routing s s' else s'), Err e)
  | r => r
  end.

(** [_prune_unreachable_states] *)
Definition prune_map {A} (keys : gset string) (m : gmap string A) : gmap string A := filter (fun kv => kv.1 ∈ keys) m.
Definition prune_unreachable_states (s : lg) : lg :=
  let reachable := list_to_set (reachable_layer_keys s) in
  set_topology (prune_map reachable (states s)) (prune_map reachable (parent_revisions s)) s.

Section graph.
(** [_resolve]; the portability test of an authored path; minted keys. *)
Context (resolve : string -> string -> option string) (portable : string -> bool) (new_key : nat -> string).
(** the identifier of [stage.GetRootLayer()] *)
Context (root_identifier : string).

(** [normalize_sublayer_entries] *)
Definition normalize_sublayer_entries (entries : list entry) : result (list entry) :=
  _ ← foldR (fun seen e =>
    _ ← raise_if (bool_decide (en_path e = "") || negb (portable (en_path e))) ValueError;
    _ ← raise_if (bool_decide (en_path e ∈ seen)) ValueError;
    _ ← raise_if (negb (finite (en_offset e)) || negb (finite (en_scale e))) ValueError;
    Ok (en_path e :: seen)) [] entries;
  Ok entries.

(** [apply_sublayer_entries] *)
Definition apply_sublayer_entries (ident : string) (entries : list entry) : M lg unit :=
  normalized ← lift (normalize_sublayer_entries entries);
  modify (fun s => set_files (<[ident := map authored normalized]> (files s)) s).

Definition mint : M lg string := fun s => (set_minted (S (minted s)) s, Ok (new_key (minted s))).

(** One entry of [_entries_for_layer]. *)
Definition entry_for_layer (layer : string) (assign_keys : bool) (e : entry) : M lg (entry * option string) :=
  match resolve layer (en_path e) with
  | None => mret (e, None)
  | Some child =>
      known ← gets (key_for child);
      match known with
      | Some key => mret (with_key key e, Some child)
      | None =>
          if assign_keys then key ← mint; _ ← bind_key key child; mret (with_key key e, Some child)
          else mret (e, Some child)
      end
  end.

Definition entries_for_layer (layer : string) (assign_keys : bool) : M lg (list entry * list string) :=
  read ← gets (read_sublayer_entries layer);
  entries ← lift (normalize_sublayer_entries read);
  found ← mapM' (entry_for_layer layer assign_keys) entries;
  mret (map fst found, omap snd found).

(** [describe_sublayers] *)
Definition describe_sublayers (layer : string) : M lg sub_event :=
  s ← gets id;
  match key_for layer s with
  | Some key =>
      if bool_decide (key = "") || negb (ready s) then raise ValueError
      else
        found ← entries_for_layer layer false;
        mret (mk_sub_event (generation s) (parent_revision key s) found.1)
  | None => raise ValueError
  end.

(** [layer_key and supplied_key and ...]: a missing key is [""]. *)
Definition stale_supplied (supplied key : string) : bool :=
  negb (bool_decide (supplied = "")) && negb (bool_decide (key = "")) && negb (bool_decide (supplied = key)).

(** [self.key_for(child) or pending.get(...) or identity.get(...)] *)
Definition known_key (pending : gmap string string) (child : string) (s : lg) : option string :=
  match key_for child s with
  | Some key => Some key
  | None => match pending !! child with Some key => Some key | None => identity_keys s !! child end
  end.

(** The loop of [canonicalize_sublayers]: pending keys, mappings, entries. *)
Fixpoint canonical_entries (parent : string) (pending : gmap string string) (entries : list entry) :
    M lg (list entry * list (string * string)) :=
  match entries with
  | [] => mret ([], [])
  | e :: rest =>
      match resolve parent (en_path e) with
      | None => found ← canonical_entries parent pending rest; mret (with_key "" e :: found.1, found.2)
      | Some child =>
          known ← gets (known_key pending child);
          match known with
          | Some key =>
              if stale_supplied (en_key e) key then raise StaleLayerGraphError
              else found ← canonical_entries parent pending rest; mret (with_key key e :: found.1, (child, key) :: found.2)
          | None =>
              key ← mint;
              found ← canonical_entries parent (<[child := key]> pending) rest;
              mret (with_key key e :: found.1, (child, key) :: found.2)
          end
      end
  end.

(** [canonicalize_sublayers] *)
Definition canonicalize_sublayers (parent_key : string) (ev : sub_event) : M lg prepared_sublayers :=
  s ← gets id;
  if negb (authoritative s) then raise RuntimeError
  else if negb (bool_decide (se_generation ev = generation s)) then raise StaleLayerGraphError
  else match layer_for parent_key s with
  | None => raise StaleLayerGraphError
  | Some parent =>
      if negb (bool_decide (parent_key ∈ reachable_layer_keys s)) then raise StaleLayerGraphError
      else if negb (bool_decide (se_revision ev = parent_revision parent_key s)) then raise StaleLayerGraphError
      else
        entries ← lift (normalize_sublayer_entries (se_sublayers ev));
        found ← canonical_entries parent ∅ entries;
        mret (mk_prepared_sublayers parent_key
                (mk_sub_event (generation s) (parent_revision parent_key s + 1) found.1) found.2)
  end.

(** [accept_sublayers] *)
Definition accept_sublayers (p : prepared_sublayers) : M lg unit :=
  s ← gets id;
  let ev := pr_event p in
  if negb (bool_decide (se_generation ev = generation s)) then raise StaleLayerGraphError
  else if negb (bool_decide (se_revision ev = parent_revision (pr_parent p) s + 1)%Z) then raise StaleLayerGraphError
  else
    _ ← iterM (fun m => bind_key m.2 m.1) (pr_mappings p);
    entries ← lift (normalize_sublayer_entries (se_sublayers ev));
    modify (fun s =>
      set_version (generation s) (revision s + 1) (root_layer_key s)
        (set_topology (<[pr_parent p := entries]> (states s)) (<[pr_parent p := se_revision ev]> (parent_revisions s)) s)).

(** The loop of [discover_sublayer_states]; [None]: the fuel ran out. *)
Fixpoint discover_loop (fuel : nat) (queue : list (string * string)) (visited : gset string) (s : lg) :
    option (lg * result (list (string * sub_event))) :=
  match queue with
  | [] => Some (s, Ok [])
  | (layer, key) :: queue =>
      match fuel with
      | O => None
      | S fuel =>
          if bool_decide (key ∈ visited) || bool_decide (is_Some (states s !! key)) then discover_loop fuel queue visited s
          else
            match (ev ← describe_sublayers layer; p ← canonicalize_sublayers key ev; _ ← accept_sublayers p; mret p) s with
            | (s, Err e) => Some (s, Err e)
            | (s, Ok p) =>
                match discover_loop fuel (queue ++ pr_mappings p) ({[key]} ∪ visited) s with
                | Some (s, Ok records) => Some (s, Ok ((key, pr_event p) :: records))
                | r => r
                end
            end
      end
  end.

(** The entries on disk bound the turns. *)
Definition discover_fuel (mappings : list (string * string)) (s : lg) : nat :=
  length mappings + sum_list (map (fun kv => length kv.2) (map_to_list (files s))).

Definition discover_sublayer_states (mappings : list (string * string)) : M lg (list (string * sub_event)) := fun s =>
  if negb (authoritative s) then (s, Err RuntimeError) else
  match discover_loop (discover_fuel mappings s) mappings ∅ s with
  | Some (s, Ok records) => (prune_unreachable_states s, Ok records)
  | Some (s, Err e) => (s, Err e)
  | None => (s, Err RuntimeError)
  end.

(** One parent of [refresh_resolved_sublayers]. *)
Definition refresh_parent (parent_key : string) : M lg (list (string * sub_event)) :=
  s ← gets id;
  match layer_for parent_key s with
  | None => mret []
  | Some parent =>
      let current := default [] (states s !! parent_key) in
      if negb (existsb (fun e => bool_decide (en_key e = "")) current) then mret []
      else
        ev ← describe_sublayers parent;
        p ← canonicalize_sublayers parent_key ev;
        if bool_decide (se_sublayers (pr_event p) = current) then mret []
        else
          _ ← accept_sublayers p;
          found ← discover_sublayer_states (pr_mappings p);
          mret ((parent_key, pr_event p) :: found)
  end.
Definition refresh_resolved_sublayers : M lg (list (string * sub_event)) :=
  s ← gets id;
  if negb (authoritative s) then raise RuntimeError else
  found ← mapM' refresh_parent (reachable_layer_keys s);
  _ ← modify prune_unreachable_states;
  mret (concat found).

(** [apply_sublayers] on a replica, or on a restarting server. *)
Definition child_mapping (parent : string) (e : entry) : option (string * string) :=
  if bool_decide (en_key e = "") then None else (fun child => (child, en_key e)) <$> resolve parent (en_path e).

Definition apply_sublayers (parent_key : string) (ev : sub_event) : M lg unit :=
  s ← gets id;
  if negb (bool_decide (se_generation ev = generation s)) then raise StaleLayerGraphError
  else if negb (bool_decide (parent_key ∈ reachable_layer_keys s)) then raise StaleLayerGraphError
  else if negb (bool_decide (se_revision ev = parent_revision parent_key s + 1)%Z) then raise StaleLayerGraphError
  else
    entries ← lift (normalize_sublayer_entries (se_sublayers ev));
    mappings ← match layer_for parent_key s with
      | Some parent => _ ← apply_sublayer_entries parent entries; mret (omap (child_mapping parent) entries)
      | None => mret []
      end;
    _ ← accept_sublayers (mk_prepared_sublayers parent_key ev mappings);
    modify prune_unreachable_states.

(** [state_message] *)
Definition state_message : M lg graph_state :=
  s ← gets id;
  if negb (ready s) then raise RuntimeError else
  let keys := reachable_layer_keys s in
  if existsb (fun k => bool_decide (states s !! k = None)) keys then raise RuntimeError
  else
    rows ← mapM' (fun k => match parent_revisions s !! k with
      | Some r => mret (mk_graph_layer k r (default [] (states s !! k)))
      | None => raise (KeyError k)
      end) keys;
    mret (mk_graph_state (generation s) (revision s) (root_layer_key s) rows).

(** [_validate_topology] *)
Definition validate_topology (m : graph_state) : result (topology * gmap string Z) :=
  _ ← raise_if (bool_decide (gs_generation m = "")) ValueError;
  _ ← raise_if (bool_decide (gs_root m = "")) ValueError;
  _ ← raise_if (gs_revision m <? 1)%Z ValueError;
  maps ← foldR (fun maps row =>
    _ ← raise_if (bool_decide (gl_key row = "") || bool_decide (is_Some (maps.1 !! gl_key row))) ValueError;
    entries ← normalize_sublayer_entries (gl_sublayers row);
    _ ← raise_if (gl_revision row <? 1)%Z ValueError;
    Ok (<[gl_key row := entries]> maps.1, <[gl_key row := gl_revision row]> maps.2)) (∅ : topology, ∅ : gmap string Z) (gs_layers m);
  _ ← raise_if (bool_decide (maps.1 !! gs_root m = None)) ValueError;
  _ ← raise_if (existsb (fun kv => existsb (fun e => negb (bool_decide (en_key e = "")) && bool_decide (maps.1 !! en_key e = None)) kv.2)
                  (map_to_list maps.1)) ValueError;
  Ok maps.
(** The loop of [_capture_reachable] over local layers. *)
Fixpoint capture_loop (assign_keys : bool) (fuel : nat) (queue : list string) (visited : gset string) (st : topology) (s : lg) :
    option (lg * result topology) :=
  match queue with
  | [] => Some (s, Ok st)
  | layer :: queue =>
      match fuel with
      | O => None
      | S fuel =>
          if bool_decide (layer ∈ visited) then capture_loop assign_keys fuel queue visited st s
          else
            let visited := {[layer]} ∪ visited in
            match key_for layer s, assign_keys with
            | None, false => capture_loop assign_keys fuel queue visited st s
            | known, _ =>
                match (key ← match known with Some key => mret key | None => key ← mint; _ ← bind_key key layer; mret key end;
                       found ← entries_for_layer layer assign_keys; mret (key, found)) s with
                | (s, Err e) => Some (s, Err e)
                | (s, Ok (key, found)) => capture_loop assign_keys fuel (queue ++ found.2) visited (<[key := found.1]> st) s
                end
            end
      end
  end.

Definition capture_reachable (assign_keys : bool) : M lg unit := fun s =>
  match layer_for (root_layer_key s) s with
  | None => (s, Err RuntimeError)
  | Some root =>
      match capture_loop assign_keys (discover_fuel [("", "")] s) [root] ∅ ∅ s with
      | Some (s, Ok st) => (set_topology st (map_imap (fun k _ => Some (default 1%Z (parent_revisions s !! k))) st) s, Ok ())
      | Some (s, Err e) => (s, Err e)
      | None => (s, Err RuntimeError)
      end
  end.

(** [__init__] of a replica and of the authoritative graph *)
Definition graph_init (local : gmap string (list entry)) : lg := mk_lg "" (-1) false false "" ∅ ∅ ∅ ∅ ∅ ∅ local 0.
Definition graph_init_authoritative (new_generation : string) (local : gmap string (list entry)) : M lg unit :=
  _ ← modify (fun _ => mk_lg new_generation 1 true true "" ∅ ∅ ∅ ∅ ∅ ∅ local 0);
  root_key ← mint;
  _ ← modify (fun s => set_version new_generation 1 root_key s);
  _ ← bind_key root_key root_identifier;
  capture_reachable true.

(** [with atomic_apply(stage): body], the edit target being one layer: its authored
    list is put back if the body raises. *)
Definition atomic_layer {A} (ident : string) (body : M lg A) : M lg A := fun s =>
  match body s with
  | (s', Err e) => (set_files (partial_alter (fun _ => files s !! ident) ident (files s')) s', Err e)
  | r => r
  end.

(** The topology part of [_commit_shared] ([server/commit.py]) for one event: what
    is logged, in order. *)
Definition commit_sublayers (layer_key : string) (ev : sub_event) : M lg (list (string * sub_event)) :=
  s ← gets id;
  match layer_for layer_key s with
  | None => raise StaleLayerGraphError
  | Some target =>
      if negb (bool_decide (layer_key ∈ reachable_layer_keys s)) then raise StaleLayerGraphError else
      p ← canonicalize_sublayers layer_key ev;
      transaction (atomic_layer target
        (_ ← apply_sublayer_entries target (se_sublayers (pr_event p));
         _ ← accept_sublayers p;
         found ← discover_sublayer_states (pr_mappings p);
         mret ((layer_key, pr_event p) :: found)))
  end.

(** A record of the log of a shared stage, as a receiver or a restart applies it. *)
Inductive graph_record : Type :=
  | GraphBaseline (m : graph_state)
  | GraphEvent (layer_key : string) (ev : sub_event).

(** The loop of [_materialize_states]: the queue of parents, the backups of what
    they authored, the keys that got a layer. *)
Definition materialize_child (parent : string) (e : entry) : M lg (option (string * bool)) :=
  match child_mapping parent e with
  | None => mret None
  | Some (child, key) =>
      known ← gets (layer_for key);
      _ ← bind_key key child;
      mret (Some (key, bool_decide (known = None)))
  end.

Fixpoint materialize_loop (fuel : nat) (queue : list string) (visited : gset string) (backups : gmap string (list entry)) (s : lg) :
    option (lg * gmap string (list entry) * result (list string)) :=
  match queue with
  | [] => Some (s, backups, Ok [])
  | parent_key :: queue =>
      match fuel with
      | O => None
      | S fuel =>
          if bool_decide (parent_key ∈ visited) then materialize_loop fuel queue visited backups s
          else
            let visited := {[parent_key]} ∪ visited in
            match layer_for parent_key s with
            | None => materialize_loop fuel queue visited backups s
            | Some parent =>
                match states s !! parent_key with
                | None => Some (s, backups, Err ValueError)
                | Some entries =>
                    let backups := match backups !! parent with Some _ => backups | None => <[parent := read_sublayer_entries parent s]> backups end in
                    match (_ ← apply_sublayer_entries parent entries; mapM' (materialize_child parent) entries) s with
                    | (s, Err e) => Some (s, backups, Err e)
                    | (s, Ok found) =>
                        let mapped := omap id found in
                        match materialize_loop fuel (queue ++ map fst mapped) visited backups s with
                        | Some (s, backups, Ok newly) => Some (s, backups, Ok (map fst (filter (fun x => x.2 = true) mapped) ++ newly))
                        | r => r
                        end
                    end
                end
            end
      end
  end.
Definition materialize_states (s : lg) : lg * gmap string (list entry) * result (list string) :=
  default (s, ∅, Err RuntimeError) (materialize_loop (S (weight (states s) ∅)) [root_layer_key s] ∅ ∅ s).

(** [refresh_dependencies], the resolver having been refreshed *)
Definition refresh_dependencies : M lg (list string) := fun s =>
  let '(s, _, r) := materialize_states s in (s, r).

(** Undo the authored lists written before a failure. *)
Definition restore_backups (backups : gmap string (list entry)) : M lg unit :=
  iterM (fun kv => apply_sublayer_entries kv.1 kv.2) (map_to_list backups).

(** [_apply_state_inner] *)
Definition apply_state_inner (m : graph_state) : M lg unit := fun old =>
  match validate_topology m with
  | Err e => (old, Err e)
  | Ok (st, pr) =>
      let s := set_topology st pr (set_maps ∅ ∅ ∅ ∅ (set_version (gs_generation m) (gs_revision m) (gs_root m) old)) in
      match bind_key (gs_root m) root_identifier s with
      | (s, Err e) => (s, Err e)
      | (s, Ok _) =>
          match materialize_states s with
          | (s, _, Ok _) => (s, Ok ())
          | (s, backups, Err e) =>
              if is_exception e then
                match restore_backups backups s with
                | (s, Err e') => (s, Err e')
                | (s, Ok _) => (restore_routing old s, Err e)
                end
              else (s, Err e)
          end
      end
  end.

(** [apply_state] *)
Definition apply_state (m : graph_state) : M lg bool := fun s =>
  if (gs_revision m <? 0)%Z then (s, Err ValueError)
  else if bool_decide (gs_generation m = generation s) && (gs_revision m <=? revision s)%Z then (s, Ok false)
  else match apply_state_inner m s with
  | (s, Ok _) => (set_ready true (set_version (gs_generation m) (gs_revision m) (root_layer_key s) s), Ok true)
  | (s, Err e) => (s, Err e)
  end.

(** The graph records of [_replay_shared_log], and of a receiver's updates. *)
Definition apply_graph_record (r : graph_record) : M lg unit :=
  match r with
  | GraphBaseline m => _ ← apply_state m; mret ()
  | GraphEvent key ev => apply_sublayers key ev
  end.
Definition replay_graph : list graph_record -> M lg unit := iterM apply_graph_record.
End graph.

(** ** What a failing operation raises *)

Definition raises_only {S A} (P : exn -> Prop) (m : M S A) : Prop := forall s s' e, m s = (s', Err e) -> P e.

Lemma raises_bind {S A B} P (m : M S A) (f : A -> M S B) : raises_only P m -> (forall a, raises_only P (f a)) -> raises_only P (x ← m; f x).
Proof. intros Hm Hf s s' e [He|(s1 & a & _ & He)]%M_bind_Err; [by eapply Hm|by eapply Hf]. Qed.
Lemma raises_gets {S A} P (f : S -> A) : raises_only P (gets f). Proof. by intros s s' e. Qed.
Lemma raises_ret {S A} P (a : A) : raises_only P (mret a : M S A). Proof. by intros s s' e. Qed.
Lemma raises_modify {S} P (f : S -> S) : raises_only P (modify f). Proof. by intros s s' e. Qed.
Lemma raises_iterM {S A} P (f : A -> M S unit) l : (forall a, raises_only P (f a)) -> raises_only P (iterM f l).
Proof. intros Hf. induction l as [|a l IH]; [apply raises_ret|]. apply raises_bind; [done|]. by intros _. Qed.
Lemma raises_mapM {S A B} P (f : A -> M S B) l : (forall a, raises_only P (f a)) -> raises_only P (mapM' f l).
Proof.
  intros Hf. induction l as [|a l IH]; [apply raises_ret|]. apply raises_bind; [done|]. intros b. apply raises_bind; [done|]. intros bs. apply raises_ret.
Qed.

(** ** What the operations do to the declared graph *)

(** Everything but the bindings of keys to layers, the layers and the counter of
    minted keys. *)
Record same_graph (s s' : lg) : Prop := {
  sg_generation : generation s' = generation s;
  sg_revision : revision s' = revision s;
  sg_ready : ready s' = ready s;
  sg_authoritative : authoritative s' = authoritative s;
  sg_root : root_layer_key s' = root_layer_key s;
  sg_states : states s' = states s;
  sg_revisions : parent_revisions s' = parent_revisions s;
}.
#[local] Instance same_graph_preorder : PreOrder same_graph.
Proof. split; [by split|]. intros a b c [] []. split; congruence. Qed.

Definition steady {A} (m : M lg A) : Prop := forall s, same_graph s (m s).1.

Lemma steady_bind {A B} (m : M lg A) (f : A -> M lg B) : steady m -> (forall a, steady (f a)) -> steady (x ← m; f x).
Proof.
  intros Hm Hf s. unfold mbind, M_bind. specialize (Hm s). destruct (m s) as [s1 [a|e]]; cbn in *; [|done]. etrans; [exact Hm|apply Hf].
Qed.
Lemma steady_ret {A} (a : A) : steady (mret a). Proof. done. Qed.
Lemma steady_raise {A} e : steady (raise (A := A) e). Proof. done. Qed.
Lemma steady_gets {A} (f : lg -> A) : steady (gets f). Proof. done. Qed.
Lemma steady_lift {A} (r : result A) : steady (lift r). Proof. done. Qed.
Lemma steady_bind_key key ident : steady (bind_key key ident).
Proof. intros s. unfold bind_key. by destruct (_ || _). Qed.
Lemma steady_mint new_key : steady (mint new_key). Proof. done. Qed.
Create HintDb steady.
#[local] Hint Resolve steady_bind steady_ret steady_raise steady_gets steady_lift steady_bind_key steady_mint : steady.

Lemma steady_iterM {A} (f : A -> M lg unit) l : (forall a, steady (f a)) -> steady (iterM f l).
Proof. intros Hf. induction l as [|a l IH]; cbn; eauto with steady. Qed.
Lemma steady_mapM {A B} (f : A -> M lg B) l : (forall a, steady (f a)) -> steady (mapM' f l).
Proof. intros Hf. induction l as [|a l IH]; cbn; eauto 10 with steady. Qed.
#[local] Hint Resolve steady_iterM steady_mapM : steady.

Lemma raises_bind_key key ident : raises_only (.= ValueError) (bind_key key ident).
Proof. intros s s' e. unfold bind_key. by destruct (_ || _); [intros [= _ <-]|]. Qed.

Section facts.
Context (resolve : string -> string -> option string) (portable : string -> bool) (new_key : nat -> string).

Lemma normalize_ok entries r : normalize_sublayer_entries portable entries = Ok r -> r = entries.
Proof. unfold normalize_sublayer_entries. intros Hn. inv_bind Hn. by injection Hn. Qed.

Lemma normalize_error entries e : normalize_sublayer_entries portable entries = Err e -> e = ValueError.
Proof.
  unfold normalize_sublayer_entries. rewrite bind_Err. intros [Hn|(? & _ & [=])]. revert Hn. generalize (@nil string) as seen.
  induction entries as [|x entries IH]; intros seen Hn; [done|]. cbn [foldR] in Hn. apply bind_Err in Hn as [Hn|(seen' & _ & Hn)]; [|by apply IH in Hn].
  unfold raise_if in Hn. by repeat (case_match; simplify_eq/=).
Qed.

(** Normalising looks at paths and offsets only. *)
Lemma normalize_keys entries entries' : map authored entries' = map authored entries ->
  normalize_sublayer_entries portable entries = Ok entries -> normalize_sublayer_entries portable entries' = Ok entries'.
Proof.
  unfold normalize_sublayer_entries. intros Ha Hn. inv_bind Hn. apply bind_Ok. exists x. split; [|done]. clear Hn. revert Hn0. generalize (@nil string) as seen.
  revert entries Ha. induction entries' as [|e' entries' IH]; intros [|e entries] Ha seen; cbn in Ha; try done. injection Ha as Hp Ho Hs Ha. cbn [foldR]. rewrite Hp, Ho, Hs.
  intros Hf. inv_bind Hf. rewrite Hf0. cbn. by eapply IH.
Qed.

Lemma canonical_entries_authored parent pending entries s s' found :
  canonical_entries resolve new_key parent pending entries s = (s', Ok found) -> map authored found.1 = map authored entries.
Proof.
  revert pending s s' found. induction entries as [|e entries IH]; intros pending s s' found Hc; cbn in Hc; [by injection Hc as _ <-|].
  destruct (resolve parent (en_path e)) as [child|].
  - inv_M Hc. injection Hc0 as <- <-. destruct (known_key pending child s) as [key|].
    + destruct (stale_supplied (en_key e) key); [done|]. inv_M Hc. injection Hc as _ <-. cbn. f_equal. by eapply IH.
    + inv_M Hc. inv_M Hc. injection Hc as _ <-. cbn. f_equal. by eapply IH.
  - inv_M Hc. injection Hc as _ <-. cbn. f_equal. by eapply IH.
Qed.

Lemma steady_canonical_entries parent pending entries : steady (canonical_entries resolve new_key parent pending entries).
Proof.
  revert pending. induction entries as [|e entries IH]; intros pending; cbn; [auto with steady|]. destruct (resolve parent (en_path e)) as [child|]; [|eauto with steady].
  apply steady_bind; [auto with steady|]. intros [key|].
  - destruct (stale_supplied _ _); eauto 10 with steady.
  - eauto 10 with steady.
Qed.

Lemma steady_describe layer : steady (describe_sublayers resolve portable new_key layer).
Proof.
  unfold describe_sublayers. apply steady_bind; [auto with steady|]. intros s. destruct (key_for layer s) as [key|]; [|auto with steady].
  destruct (_ || _); [auto with steady|]. apply steady_bind; [|auto with steady]. unfold entries_for_layer.
  do 2 (apply steady_bind; [auto with steady|intros ?]). apply steady_bind; [|auto with steady]. apply steady_mapM. intros e. unfold entry_for_layer.
  destruct (resolve layer (en_path e)); [|auto with steady]. apply steady_bind; [auto with steady|]. intros [key'|]; auto with steady.
Qed.

(** One record, seen from the declared graph it is logged against. *)
Record record_fits (g : string) (st : topology) (pr : gmap string Z) (root : string) (r : string * sub_event) : Prop := {
  rf_generation : se_generation r.2 = g;
  rf_reachable : r.1 ∈ reachable_from st root;
  rf_revision : se_revision r.2 = (default 0 (pr !! r.1) + 1)%Z;
  rf_entries : normalize_sublayer_entries portable (se_sublayers r.2) = Ok (se_sublayers r.2);
}.
Definition put_states (st : topology) (r : string * sub_event) : topology := <[r.1 := se_sublayers r.2]> st.
Definition put_revisions (pr : gmap string Z) (r : string * sub_event) : gmap string Z := <[r.1 := se_revision r.2]> pr.

(** The declared graph after a record, before anything is pruned. *)
Record put_record (s s' : lg) (r : string * sub_event) : Prop := {
  pt_generation : generation s' = generation s;
  pt_revision : revision s' = (revision s + 1)%Z;
  pt_ready : ready s' = ready s;
  pt_root : root_layer_key s' = root_layer_key s;
  pt_authoritative : authoritative s' = authoritative s;
  pt_states : states s' = put_states (states s) r;
  pt_revisions : parent_revisions s' = put_revisions (parent_revisions s) r;
}.

Lemma canonicalize_fits key ev s s' p : ready s = true -> canonicalize_sublayers resolve portable new_key key ev s = (s', Ok p) ->
  same_graph s s' /\ pr_parent p = key /\ record_fits (generation s) (states s) (parent_revisions s) (root_layer_key s) (key, pr_event p).
Proof.
  intros Hr Hc. unfold canonicalize_sublayers in Hc. unfold gets in Hc. unfold mbind at 1, M_bind at 1 in Hc. cbn [id] in Hc.
  destruct (negb (authoritative s)); [done|]. destruct (negb (bool_decide (se_generation ev = generation s))); [done|].
  destruct (layer_for key s) as [parent|]; [|done]. destruct (bool_decide (key ∈ reachable_layer_keys s)) eqn:Ek; [|done]. cbn [negb] in Hc.
  destruct (negb (bool_decide (se_revision ev = parent_revision key s))); [done|].
  inv_M Hc. unfold lift in Hc0. injection Hc0 as <- Hn. inv_M Hc. injection Hc as -> <-.
  pose proof (steady_canonical_entries parent ∅ x s) as Hst. rewrite Hc0 in Hst. split; [exact Hst|]. split; [done|].
  apply bool_decide_eq_true in Ek. unfold reachable_layer_keys in Ek. rewrite Hr in Ek. split; cbn; [done|exact Ek|done|].
  pose proof (normalize_ok _ _ Hn) as ->. eapply normalize_keys; [|exact Hn]. by eapply canonical_entries_authored.
Qed.

Lemma normalize_idem entries : normalize_sublayer_entries portable entries = Ok entries \/ normalize_sublayer_entries portable entries = Err ValueError.
Proof.
  destruct (normalize_sublayer_entries portable entries) as [r|e] eqn:E1; [by apply normalize_ok in E1 as ->; left|].
  by apply normalize_error in E1 as ->; right.
Qed.

Lemma accept_puts p s s' : accept_sublayers portable p s = (s', Ok ()) -> put_record s s' (pr_parent p, pr_event p).
Proof.
  unfold accept_sublayers, gets. unfold mbind at 1, M_bind at 1. cbn [id]. destruct (negb _); [done|]. destruct (negb _); [done|]. intros Ha.
  inv_M Ha. inv_M Ha. unfold lift in Ha1. injection Ha1 as <- Hn. apply normalize_ok in Hn as ->. injection Ha as <-.
  assert (same_graph s s0) as [K1 K2 K3 K4 K5 K6 K7].
  { pose proof (steady_iterM (fun m : string * string => bind_key m.2 m.1) (pr_mappings p) (fun m => steady_bind_key _ _) s) as Hst. by rewrite Ha0 in Hst. }
  split; cbn; try done; unfold put_states, put_revisions; cbn; congruence.
Qed.

(** What a successful edit logs: each record fits the declared graph it was logged
    against and is put into it; nothing is pruned in between. *)
Inductive logged : lg -> list (string * sub_event) -> lg -> Prop :=
  | logged_nil s s' : same_graph s s' -> logged s [] s'
  | logged_cons s s1 r rs s' :
      record_fits (generation s) (states s) (parent_revisions s) (root_layer_key s) r ->
      put_record s s1 r -> logged s1 rs s' -> logged s (r :: rs) s'.

Lemma same_logged s0 s rs s' : same_graph s0 s -> logged s rs s' -> logged s0 rs s'.
Proof.
  intros Hs Hl. destruct Hl as [s s' Hl|s s1 r rs s' Hf Hp Hl]; [apply logged_nil; by etrans|].
  destruct Hs as [K1 K2 K3 K4 K5 K6 K7], Hp as [P1 P2 P3 P4 P5 P6 P7]. apply (logged_cons s0 s1); [by rewrite <-K1, <-K5, <-K6, <-K7| |done].
  split; congruence.
Qed.

Lemma accept_logged s s1 s2 p rs s' : same_graph s s1 -> accept_sublayers portable p s1 = (s2, Ok ()) ->
  record_fits (generation s1) (states s1) (parent_revisions s1) (root_layer_key s1) (pr_parent p, pr_event p) ->
  logged s2 rs s' -> logged s ((pr_parent p, pr_event p) :: rs) s'.
Proof. intros Hs Ha%accept_puts Hf Hl. apply (same_logged _ _ _ _ Hs). by apply (logged_cons _ s2). Qed.

Lemma fits_same s s1 r : same_graph s s1 -> record_fits (generation s) (states s) (parent_revisions s) (root_layer_key s) r ->
  record_fits (generation s1) (states s1) (parent_revisions s1) (root_layer_key s1) r.
Proof. by intros [-> _ _ _ -> -> ->]. Qed.

Lemma discover_logged fuel queue visited s s' rs : ready s = true ->
  discover_loop resolve portable new_key fuel queue visited s = Some (s', Ok rs) -> logged s rs s'.
Proof.
  revert queue visited s s' rs. induction fuel as [|fuel IH]; intros [|[layer key] queue] visited s s' rs Hr Hd; cbn in Hd;
    [injection Hd as <- <-; by apply logged_nil|done|injection Hd as <- <-; by apply logged_nil|].
  destruct (_ || _); [by eapply IH|]. match type of Hd with context [match ?m s with _ => _ end] => destruct (m s) as [s1 [p|e]] eqn:E1 end; [|done].
  inv_M E1. inv_M E1. inv_M E1. destruct x1 as []. injection E1 as -> ->.
  pose proof (steady_describe layer s) as Hst. rewrite E0 in Hst. cbn in Hst. rename x into ev, E0 into Ed.
  destruct (canonicalize_fits key ev s0 s2 p) as (Hst' & Hp & Hf); [by rewrite (sg_ready _ _ Hst)|done|].
  destruct (discover_loop _ _ _ fuel _ _ s1) as [[s4 [rs'|e]]|] eqn:E5; [|done|done]. injection Hd as <- <-.
  rewrite <-Hp. apply (accept_logged s s2 s1); [by etrans|done|rewrite Hp; by apply (fits_same s0)|]. eapply IH; [|exact E5].
  apply accept_puts in E3 as [_ _ -> _ _ _ _]. by rewrite (sg_ready _ _ Hst'), (sg_ready _ _ Hst).
Qed.

Lemma commit_logged key ev s s' rs : ready s = true -> commit_sublayers resolve portable new_key key ev s = (s', Ok rs) ->
  exists s1, logged s rs s1 /\ s' = prune_unreachable_states s1 /\ rs <> [].
Proof.
  intros Hr Hc. unfold commit_sublayers in Hc. inv_M Hc. injection Hc0 as <- <-. cbn [id] in Hc.
  destruct (layer_for key s) as [target|]; [|done]. destruct (negb _); [done|]. inv_M Hc.
  destruct (canonicalize_fits key ev s s0 x) as (Hst & Hp & Hf); [done..|]. unfold transaction, atomic_layer in Hc.
  match type of Hc with context [match ?m s0 with _ => _ end] => destruct (m s0) as [s1 [l|e]] eqn:E1 end; [|by destruct (is_exception e)].
  injection Hc as -> ->. inv_M E1. inv_M E1. inv_M E1. injection E1 as -> <-. destruct x1 as [].
  assert (same_graph s0 s1) as Hst2.
  { unfold apply_sublayer_entries in E0. inv_M E0. injection E1 as <- _. by injection E0 as <-. }
  unfold discover_sublayer_states in E3. destruct (negb (authoritative s2)); [done|].
  destruct (discover_loop _ _ _ _ _ _ s2) as [[s5 [found|e]]|] eqn:E5; [|done|done]. injection E3 as <- <-.
  exists s5. split; [|done]. rewrite <-Hp. apply (accept_logged s s1 s2); [by etrans|done|rewrite Hp; eapply fits_same; [|exact Hf]; by etrans|].
  apply discover_logged in E5; [done|]. apply accept_puts in E2 as [_ _ -> _ _ _ _]. by rewrite (sg_ready _ _ Hst2), (sg_ready _ _ Hst).
Qed.
End facts.

(** ** A replica follows the server *)

Lemma reach_agree st rt root : (forall k, k ∈ reachable_from st root -> rt !! k = st !! k) ->
  forall k, k ∈ reachable_from rt root <-> k ∈ reachable_from st root.
Proof.
  intros Ha. pose proof (reachable_exact st root) as [_ Hs]. pose proof (reachable_exact rt root) as [_ Ht]. intros k. rewrite Ht, Hs.
  assert (forall a b, a ∈ reachable_from st root -> edge rt a b <-> edge st a b) as He.
  { intros a b Hin. unfold edge, child_keys. by rewrite Ha. }
  split; revert k.
  - apply (rtc_ind_r (fun k => rtc (edge st) root k) root); [done|]. intros b c _ Hbc IH. eapply rtc_r; [exact IH|]. apply He; [by apply Hs|done].
  - apply (rtc_ind_r (fun k => rtc (edge rt) root k) root); [done|]. intros b c Hb Hbc IH. eapply rtc_r; [exact IH|]. apply He; [by apply Hs|done].
Qed.

(** No declared state of a layer that had become unreachable is reached again by
    the next record: pruning between two records changes nothing. *)
Definition revives (st st' : topology) (root : string) : bool :=
  existsb (fun k => bool_decide (is_Some (st !! k)) && negb (bool_decide (k ∈ reachable_from st root))) (reachable_from st' root).
Fixpoint no_revival (st : topology) (root : string) (rs : list (string * sub_event)) : bool :=
  match rs with
  | [] => true
  | r :: rs => negb (revives st (put_states st r) root) && no_revival (put_states st r) root rs
  end.

Lemma revives_false st st' root : revives st st' root = false -> forall k, k ∈ reachable_from st' root -> k ∉ reachable_from st root -> st !! k = None.
Proof.
  intros Hr k Hk Hn. destruct (st !! k) eqn:E1; [|done]. assert (revives st st' root = true) as Hr2; [|congruence].
  apply existsb_exists. exists k. split; [by apply list_elem_of_In|]. rewrite E1. cbn. by rewrite bool_decide_eq_false_2.
Qed.

(** The replica between two records: the server's declared graph, pruned. *)
Record follows (s r : lg) : Prop := {
  fw_ready : ready s = true /\ ready r = true;
  fw_generation : generation r = generation s;
  fw_revision : revision r = revision s;
  fw_root : root_layer_key r = root_layer_key s;
  fw_states k : k ∈ reachable_layer_keys s -> states r !! k = states s !! k;
  fw_revisions k : k ∈ reachable_layer_keys s -> parent_revisions r !! k = parent_revisions s !! k;
  fw_pruned k : k ∉ reachable_layer_keys s -> states r !! k = None /\ parent_revisions r !! k = None;
  fw_declared k : states s !! k = None -> parent_revisions s !! k = None;
}.

(** The declared graph of the replica is that of the server. *)
Record mirrors (s r : lg) : Prop := {
  mi_generation : generation r = generation s;
  mi_revision : revision r = revision s;
  mi_ready : ready r = ready s;
  mi_root : root_layer_key r = root_layer_key s;
  mi_states : states r = states s;
  mi_revisions : parent_revisions r = parent_revisions s;
}.

(** The server between two edits. *)
Record settled (s : lg) : Prop := {
  se_ready : ready s = true;
  se_pruned k : is_Some (states s !! k) -> k ∈ reachable_layer_keys s;
  se_declared k : states s !! k = None -> parent_revisions s !! k = None;
}.

Lemma lookup_prune {A} (keys : gset string) (m : gmap string A) k : prune_map keys m !! k = if bool_decide (k ∈ keys) then m !! k else None.
Proof.
  unfold prune_map. case_bool_decide as Hk; destruct (m !! k) as [x|] eqn:E1.
  - by apply map_lookup_filter_Some.
  - apply map_lookup_filter_None. by left.
  - apply map_lookup_filter_None. right. by intros ? _.
  - apply map_lookup_filter_None. by left.
Qed.

Lemma mirrors_follows s r : settled s -> mirrors s r -> follows s r.
Proof.
  intros [S1 S2 S3] [K1 K2 K3 K4 K5 K6]. split; try congruence; [split; congruence| |exact S3].
  intros k Hk. rewrite K5, K6. assert (states s !! k = None) as Hn; [|by split; [|apply S3]].
  destruct (states s !! k) eqn:E1; [|done]. destruct Hk. apply S2. by rewrite E1.
Qed.
Section replica.
(** The replica's own resolution of paths; portability is a matter of the text. *)
Context (resolve : string -> string -> option string) (portable : string -> bool).

Lemma reach_ready s : ready s = true -> reachable_layer_keys s = reachable_from (states s) (root_layer_key s).
Proof. unfold reachable_layer_keys. by intros ->. Qed.

Lemma follows_reach s r k : follows s r -> k ∈ reachable_layer_keys r <-> k ∈ reachable_layer_keys s.
Proof.
  intros [[K1 K2] _ _ K5 K6 _ _ _]. rewrite (reach_ready s K1) in *. rewrite (reach_ready r K2), K5. by apply reach_agree.
Qed.

(** Putting the server's record on the replica and pruning. *)
Lemma put_follows s r s1 r1 rec : follows s r -> record_fits portable (generation s) (states s) (parent_revisions s) (root_layer_key s) rec ->
  put_record s s1 rec -> put_record r r1 rec -> revives (states s) (states s1) (root_layer_key s) = false ->
  follows s1 (prune_unreachable_states r1).
Proof.
  intros Hf Hrec [P1 P2 P3 P4 P5 P6 P7] [Q1 Q2 Q3 Q4 Q5 Q6 Q7] Hnr. pose proof Hf as [[K1 K1'] K2 K3 K4 K5 K6 K7 K8].
  unfold put_states, put_revisions in *. assert (ready s1 = true) as Hs1 by congruence. assert (ready r1 = true) as Hr1 by congruence.
  rewrite (reach_ready s K1) in *.
  assert (forall k, k ∈ reachable_layer_keys s1 -> states r1 !! k = states s1 !! k /\ parent_revisions r1 !! k = parent_revisions s1 !! k) as Ha.
  { intros k Hk. rewrite P6, P7, Q6, Q7. destruct (decide (k = rec.1)) as [->|Hne]; [by rewrite !lookup_insert_eq|]. rewrite !lookup_insert_ne by done.
    destruct (decide (k ∈ reachable_from (states s) (root_layer_key s))) as [Hks|Hks]; [by split; [apply K5|apply K6]|].
    rewrite (reach_ready s1 Hs1), P4 in Hk. assert (states s !! k = None) as Hn by (by apply (revives_false _ _ _ Hnr)).
    rewrite Hn, (K8 k Hn). by apply K7. }
  assert (forall k, k ∈ reachable_layer_keys r1 <-> k ∈ reachable_layer_keys s1) as Hr.
  { intros k. rewrite (reach_ready s1 Hs1) in *. rewrite (reach_ready r1 Hr1), Q4, K4, <-P4. apply reach_agree. intros k' Hk'. by apply Ha. }
  split; cbn; [split; congruence|congruence|congruence|congruence| | | |].
  - intros k Hk. rewrite lookup_prune, bool_decide_eq_true_2; [by apply Ha|]. by apply elem_of_list_to_set, Hr.
  - intros k Hk. rewrite lookup_prune, bool_decide_eq_true_2; [by apply Ha|]. by apply elem_of_list_to_set, Hr.
  - intros k Hk. rewrite !lookup_prune, bool_decide_eq_false_2; [done|]. by rewrite elem_of_list_to_set, Hr.
  - intros k. rewrite P6, P7. destruct (decide (k = rec.1)) as [->|Hne]; [by rewrite lookup_insert_eq|]. rewrite !lookup_insert_ne by done. apply K8.
Qed.

(** A record whose checks pass is put into the declared graph and pruned, or a local
    layer is already bound to another key. *)
Lemma apply_puts key ev r r1 res : apply_sublayers resolve portable key ev r = (r1, res) ->
  se_generation ev = generation r -> key ∈ reachable_layer_keys r -> se_revision ev = (parent_revision key r + 1)%Z ->
  normalize_sublayer_entries portable (se_sublayers ev) = Ok (se_sublayers ev) ->
  (exists r2, put_record r r2 (key, ev) /\ r1 = prune_unreachable_states r2 /\ res = Ok ()) \/ res = Err ValueError.
Proof.
  intros Ha Hg Hk Hr Hn. unfold apply_sublayers, gets in Ha. unfold mbind at 1, M_bind at 1 in Ha. cbn [id] in Ha.
  rewrite !bool_decide_eq_true_2 in Ha by done. cbn [negb] in Ha. unfold lift in Ha. unfold mbind at 1, M_bind at 1 in Ha. rewrite Hn in Ha.
  set (files_of := match layer_for key r with Some parent => <[parent := map authored (se_sublayers ev)]> (files r) | None => files r end).
  assert (exists mappings, (accept_sublayers portable (mk_prepared_sublayers key ev mappings) ≫= fun _ => modify prune_unreachable_states)
            (set_files files_of r) = (r1, res)) as [mappings Ha'].
  { subst files_of. destruct (layer_for key r) as [parent|]; [|exists []; assert (set_files (files r) r = r) as -> by (by destruct r); exact Ha].
    unfold apply_sublayer_entries, lift in Ha. rewrite Hn in Ha. eexists. exact Ha. }
  unfold mbind, M_bind in Ha'. destruct (accept_sublayers portable _ (set_files files_of r)) as [r2 [[]|e]] eqn:Eac.
  - left. exists r2. injection Ha' as <- <-. apply accept_puts in Eac. cbn in Eac. by destruct Eac.
  - right. injection Ha' as _ <-. f_equal. revert Eac. unfold accept_sublayers, gets. unfold mbind at 1, M_bind at 1. cbn.
    rewrite bool_decide_eq_true_2 by done. unfold parent_revision in *. cbn. rewrite bool_decide_eq_true_2 by done. cbn. intros Eac.
    apply M_bind_Err in Eac as [Eac|(r3 & [] & _ & Eac)].
    + eapply (raises_iterM (.= ValueError)); [intros m; apply raises_bind_key|exact Eac].
    + apply M_bind_Err in Eac as [Eac|(r4 & es & _ & Eac)]; [|done]. unfold lift in Eac. by rewrite Hn in Eac.
Qed.

(** One record, applied. *)
Lemma apply_follows s r s1 rec : follows s r -> record_fits portable (generation s) (states s) (parent_revisions s) (root_layer_key s) rec ->
  put_record s s1 rec -> revives (states s) (states s1) (root_layer_key s) = false ->
  match apply_sublayers resolve portable rec.1 rec.2 r with
  | (r1, Ok _) => follows s1 r1
  | (_, Err e) => e = ValueError
  end.
Proof.
  intros Hf Hrec Hp Hnr. destruct rec as [key ev]. pose proof Hf as [[K1 K1'] K2 K3 K4 K5 K6 K7 K8]. pose proof Hrec as [R1 R2 R3 R4]. cbn [fst snd] in *.
  assert (key ∈ reachable_layer_keys s) as Hin by (by rewrite reach_ready). cbn.
  destruct (apply_sublayers resolve portable key ev r) as [r1 res] eqn:Ea.
  apply apply_puts in Ea as [(r2 & Hput & -> & ->)| ->]; [|done|congruence|by apply (follows_reach s r)| |done].
  - by eapply put_follows.
  - unfold parent_revision. by rewrite R3, K6.
Qed.

(** All the records of an edit, applied in order. *)
Lemma replay_follows s rs s1 r : logged portable s rs s1 -> follows s r -> no_revival (states s) (root_layer_key s) rs = true ->
  match iterM (fun rec => apply_sublayers resolve portable rec.1 rec.2) rs r with
  | (r1, Ok _) => follows s1 r1
  | (_, Err e) => e = ValueError
  end.
Proof.
  intros Hl. revert r. induction Hl as [s s1 Hs|s s2 rec rs s1 Hfit Hp Hl IH]; intros r Hf Hnr; cbn.
  - destruct Hs as [H1 H2 H3 H4 H5 H6 H7], Hf as [[K1 K1'] K2 K3 K4 K5 K6 K7 K8].
    assert (reachable_layer_keys s1 = reachable_layer_keys s) as He by (unfold reachable_layer_keys; by rewrite H3, H5, H6).
    split; rewrite ?He, ?H1, ?H2, ?H3, ?H5, ?H6, ?H7; done.
  - cbn [no_revival] in Hnr. apply andb_prop in Hnr as [Hnr1 Hnr2]. pose proof (apply_follows s r s2 rec Hf Hfit Hp) as Ha.
    destruct Hp as [P1 P2 P3 P4 P5 P6 P7]. rewrite P6 in Ha. unfold mbind, M_bind. destruct (apply_sublayers _ _ rec.1 rec.2 r) as [r1 [[]|e]].
    + apply IH; [|by rewrite P4, P6]. apply Ha. by apply negb_true_iff.
    + apply Ha. by apply negb_true_iff.
Qed.

Lemma follows_mirrors s r : follows s r -> mirrors (prune_unreachable_states s) r.
Proof.
  intros [[K1 K1'] K2 K3 K4 K5 K6 K7 K8]. split; cbn; try congruence.
  - apply map_eq. intros k. rewrite lookup_prune. case_bool_decide as Hk; rewrite elem_of_list_to_set in Hk; [by apply K5|by apply K7].
  - apply map_eq. intros k. rewrite lookup_prune. case_bool_decide as Hk; rewrite elem_of_list_to_set in Hk; [by apply K6|by apply K7].
Qed.

Lemma raises_apply_entries l entries : raises_only (.= ValueError) (apply_sublayer_entries portable l entries).
Proof.
  apply raises_bind; [|intros ?; apply raises_modify]. intros s s' e. unfold lift. intros [= _ He]. by apply normalize_error in He.
Qed.

(** ** The baseline of a new replica *)

Lemma raises_materialize_child l e : raises_only (.= ValueError) (materialize_child resolve l e).
Proof.
  unfold materialize_child. destruct (child_mapping resolve l e) as [[child key]|]; [|apply raises_ret].
  apply raises_bind; [apply raises_gets|]. intros known. apply raises_bind; [apply raises_bind_key|]. intros ?. apply raises_ret.
Qed.
Lemma steady_apply_entries l entries : steady (apply_sublayer_entries portable l entries).
Proof. apply steady_bind; [auto with steady|]. by intros ? ?. Qed.
Lemma steady_materialize_child l e : steady (materialize_child resolve l e).
Proof.
  unfold materialize_child. destruct (child_mapping resolve l e) as [[child key]|]; [|auto with steady].
  apply steady_bind; [auto with steady|]. intros known. apply steady_bind; auto with steady.
Qed.

Lemma materialize_loop_ok fuel queue visited backups s s' b res :
  materialize_loop resolve portable fuel queue visited backups s = Some (s', b, res) ->
  same_graph s s' /\ forall e, res = Err e -> e = ValueError.
Proof.
  revert queue visited backups s s' b res. induction fuel as [|fuel IH]; intros [|key queue] visited backups s s' b res Hm; cbn in Hm;
    [by injection Hm as <- _ <-|done|by injection Hm as <- _ <-|].
  destruct (bool_decide (key ∈ visited)); [by eapply IH|]. destruct (layer_for key s) as [parent|]; [|by eapply IH].
  destruct (states s !! key) as [entries|]; [|by injection Hm as <- _ <-; split; [done|intros e [= <-]]].
  assert (steady (_ ← apply_sublayer_entries portable parent entries; mapM' (materialize_child resolve parent) entries)) as Hst.
  { apply steady_bind; [apply steady_apply_entries|]. intros ?. apply steady_mapM. intros ?. apply steady_materialize_child. }
  assert (raises_only (.= ValueError) (_ ← apply_sublayer_entries portable parent entries; mapM' (materialize_child resolve parent) entries)) as Hro.
  { apply raises_bind; [apply raises_apply_entries|]. intros ?. apply raises_mapM. intros ?. apply raises_materialize_child. }
  specialize (Hst s). specialize (Hro s).
  match type of Hm with context [match ?m s with _ => _ end] => destruct (m s) as [s1 [found|e]] end; cbn in Hst; [|by injection Hm as <- _ <-; split; [done|intros e' [= <-]; by eapply Hro]].
  destruct (materialize_loop _ _ fuel _ _ _ s1) as [[[s2 b2] [newly|e]]|] eqn:E1; [| |done]; injection Hm as <- <- <-; apply IH in E1 as [E1 E2]; (split; [by etrans|]); [done|exact E2].
Qed.

Lemma materialize_ok s s' b res : materialize_states resolve portable s = (s', b, res) ->
  same_graph s s' /\ forall e, res = Err e -> e <> StaleLayerGraphError /\ is_exception e = true.
Proof.
  unfold materialize_states. destruct (materialize_loop _ _ _ _ _ _ s) as [[[s1 b1] r1]|] eqn:E1; cbn; intros [= <- <- <-]; [|split; [done|by intros e [= <-]]].
  apply materialize_loop_ok in E1 as [? E1]. split; [done|]. intros e ->. by rewrite (E1 e eq_refl).
Qed.

Lemma validate_error m e : validate_topology portable m = Err e -> e = ValueError.
Proof.
  assert (forall b e', raise_if b ValueError = Err e' -> e' = ValueError) as Hri by (intros [] e'; cbn; congruence).
  intros Hv. unfold validate_topology in Hv. repeat (apply bind_Err in Hv as [Hv|(? & _ & Hv)]; [by eapply Hri in Hv|]).
  apply bind_Err in Hv as [Hv|(maps & _ & Hv)].
  - revert Hv. generalize ((∅, ∅) : topology * gmap string Z). induction (gs_layers m) as [|row rows IH]; intros acc Hv; [done|]. cbn [foldR] in Hv.
    apply bind_Err in Hv as [Hv|(acc' & _ & Hv)]; [|by eapply IH]. apply bind_Err in Hv as [Hv|(? & _ & Hv)]; [by eapply Hri in Hv|].
    apply bind_Err in Hv as [Hv|(? & _ & Hv)]; [by eapply normalize_error|]. apply bind_Err in Hv as [Hv|(? & _ & Hv)]; [by eapply Hri in Hv|done].
  - repeat (apply bind_Err in Hv as [Hv|(? & _ & Hv)]; [by eapply Hri in Hv|]). done.
Qed.

Lemma restore_backups_error backups s s' e : restore_backups portable backups s = (s', Err e) -> e = ValueError.
Proof. apply (raises_iterM (.= ValueError)). intros kv. apply raises_apply_entries. Qed.

Lemma apply_state_inner_ok root_identifier m r r' res : apply_state_inner resolve portable root_identifier m r = (r', res) ->
  match res with
  | Ok _ => exists st pr, validate_topology portable m = Ok (st, pr) /\ root_layer_key r' = gs_root m /\ states r' = st /\ parent_revisions r' = pr
  | Err e => e <> StaleLayerGraphError
  end.
Proof.
  unfold apply_state_inner. destruct (validate_topology portable m) as [[st pr]|e] eqn:Ev; [|apply validate_error in Ev as ->; by intros [= _ <-]].
  match goal with |- context [bind_key (gs_root m) root_identifier ?s0] => set (s0' := s0); destruct (bind_key (gs_root m) root_identifier s0') as [s1 [[]|e]] eqn:Eb end.
  2: { apply raises_bind_key in Eb as ->. by intros [= _ <-]. }
  pose proof (steady_bind_key (gs_root m) root_identifier s0') as Hb. rewrite Eb in Hb. cbn in Hb.
  destruct (materialize_states resolve portable s1) as [[s2 b] [newly|e]] eqn:Em; apply materialize_ok in Em as [Hm He].
  - intros [= <- <-]. exists st, pr. split; [done|]. assert (same_graph s0' s2) as [_ _ _ _ -> -> ->] by (by etrans). done.
  - destruct (He e eq_refl) as [He1 He2]. rewrite He2. destruct (restore_backups portable b s2) as [s3 [[]|e']] eqn:Er; intros [= _ <-]; [done|].
    by apply restore_backups_error in Er as ->.
Qed.

Lemma apply_state_ok root_identifier m r r' res : apply_state resolve portable root_identifier m r = (r', res) ->
  match res with
  | Ok true => exists st pr, validate_topology portable m = Ok (st, pr) /\ generation r' = gs_generation m /\ revision r' = gs_revision m /\
      ready r' = true /\ root_layer_key r' = gs_root m /\ states r' = st /\ parent_revisions r' = pr
  | Ok false => gs_generation m = generation r /\ (gs_revision m <= revision r)%Z
  | Err e => e <> StaleLayerGraphError
  end.
Proof.
  unfold apply_state. destruct (gs_revision m <? 0)%Z; [by intros [= _ <-]|].
  destruct (bool_decide _ && _) eqn:Eg.
  - apply andb_prop in Eg as [Eg1 Eg2]. apply bool_decide_eq_true in Eg1. intros [= _ <-]. split; [done|lia].
  - destruct (apply_state_inner _ _ _ m r) as [r1 [[]|e]] eqn:Ei; apply apply_state_inner_ok in Ei; [|by intros [= _ <-]].
    destruct Ei as (st & pr & Ev & H1 & H2 & H3). intros [= <- <-]. by exists st, pr.
Qed.

(** The rows of a baseline are read back into the maps they were made from. *)
Lemma validate_rows (F : topology) (G : gmap string Z) rows acc maps :
  foldR (fun maps row =>
    _ ← raise_if (bool_decide (gl_key row = "") || bool_decide (is_Some (maps.1 !! gl_key row))) ValueError;
    entries ← normalize_sublayer_entries portable (gl_sublayers row);
    _ ← raise_if (gl_revision row <? 1)%Z ValueError;
    Ok (<[gl_key row := entries]> maps.1, <[gl_key row := gl_revision row]> maps.2)) acc rows = Ok maps ->
  (acc.1 : topology) ⊆ F -> (acc.2 : gmap string Z) ⊆ G ->
  Forall (fun row => F !! gl_key row = Some (gl_sublayers row) /\ G !! gl_key row = Some (gl_revision row)) rows ->
  maps.1 ⊆ F /\ maps.2 ⊆ G /\
  forall k, is_Some (acc.1 !! k) /\ is_Some (acc.2 !! k) \/ k ∈ map gl_key rows -> is_Some (maps.1 !! k) /\ is_Some (maps.2 !! k).
Proof.
  intros Hf H1 H2 Hr. revert acc Hf H1 H2. induction Hr as [|row rows [Hr1 Hr2] Hr IH]; intros acc Hf H1 H2; cbn [foldR] in Hf.
  - injection Hf as <-. split_and!; [done..|]. by intros k [?|?%elem_of_nil].
  - inv_bind Hf. inv_bind Hf0. inv_bind Hf0. inv_bind Hf0. injection Hf0 as <-. apply normalize_ok in Hf2 as ->.
    destruct (IH _ Hf) as (K1 & K2 & K3); cbn; [by apply insert_subseteq_l|by apply insert_subseteq_l|]. split_and!; [done..|]. intros k Hk. apply K3. cbn.
    cbn in Hk. rewrite elem_of_cons in Hk. destruct Hk as [[? ?]|[->|?]]; [left|left|by right].
    + rewrite !lookup_insert_is_Some. destruct (decide (gl_key row = k)); auto.
    + by rewrite !lookup_insert_eq.
Qed.

Lemma read_rows (st : topology) (pr : gmap string Z) keys (s s' : lg) rows :
  mapM' (fun k => match pr !! k with
      | Some r => mret (mk_graph_layer k r (default [] (st !! k)))
      | None => raise (KeyError k)
      end) keys s = (s', Ok rows) ->
  (forall k, k ∈ keys -> is_Some (st !! k)) ->
  map gl_key rows = keys /\ Forall (fun row => st !! gl_key row = Some (gl_sublayers row) /\ pr !! gl_key row = Some (gl_revision row)) rows.
Proof.
  revert rows s. induction keys as [|k keys IH]; intros rows s Hm Hst; cbn in Hm; [by injection Hm as _ <-|].
  inv_M Hm. inv_M Hm. injection Hm as -> <-. destruct (pr !! k) as [r|] eqn:Ek; [|done]. injection Hm0 as <- <-.
  apply IH in Hm1 as [<- K2]; [|set_solver]. destruct (Hst k) as [es Hes]; [set_solver|]. cbn. split; [done|]. constructor; [|done]. cbn. by rewrite Hes.
Qed.

Lemma state_message_ok s s' m : state_message s = (s', Ok m) -> ready s = true /\ gs_generation m = generation s /\ gs_revision m = revision s /\
  gs_root m = root_layer_key s /\ map gl_key (gs_layers m) = reachable_layer_keys s /\
  Forall (fun row => states s !! gl_key row = Some (gl_sublayers row) /\ parent_revisions s !! gl_key row = Some (gl_revision row)) (gs_layers m).
Proof.
  unfold state_message, gets. unfold mbind at 1, M_bind at 1. cbn [id]. destruct (ready s) eqn:Er; [|done]. cbn [negb].
  destruct (existsb _ (reachable_layer_keys s)) eqn:Ee; [done|]. intros Hm. inv_M Hm. injection Hm as _ <-. cbn.
  split; [done|]. do 3 (split; [done|]).
  assert (forall k, k ∈ reachable_layer_keys s -> is_Some (states s !! k)) as Hst.
  { intros k Hk. destruct (states s !! k) eqn:E1; [done|]. assert (existsb (fun k => bool_decide (states s !! k = None)) (reachable_layer_keys s) = true); [|congruence].
    apply existsb_exists. exists k. split; [by apply list_elem_of_In|by apply bool_decide_eq_true]. }
  clear Ee. eapply read_rows; [exact Hm0|done].
Qed.

(** A replica that took the baseline of a settled server has its declared graph. *)
Lemma baseline_mirrors root_identifier s s' m r r' : settled s -> state_message s = (s', Ok m) ->
  apply_state resolve portable root_identifier m r = (r', Ok true) -> mirrors s r'.
Proof.
  intros [S1 S2 S3] (M1 & M2 & M3 & M4 & M5 & M6)%state_message_ok (st & pr & Hv & A1 & A2 & A3 & A4 & A5 & A6)%apply_state_ok. cbn in *.
  unfold validate_topology in Hv. do 4 inv_bind Hv. do 2 inv_bind Hv. injection Hv as Hst. rewrite Hst in *. clear Hst.
  match goal with H : foldR _ _ _ = Ok _ |- _ => apply (validate_rows (states s) (parent_revisions s)) in H as (K1 & K2 & K3); [|apply map_empty_subseteq..|done] end.
  cbn in K1, K2, K3. split; try congruence; rewrite ?A5, ?A6; apply map_eq; intros k.
  - destruct (states s !! k) as [es|] eqn:E1.
    + destruct (K3 k) as [[es' Hes] _]; [right; rewrite M5; apply S2; by rewrite E1|]. rewrite Hes. symmetry. rewrite <-E1. by eapply lookup_weaken.
    + destruct (st !! k) eqn:E2; [|done]. eapply lookup_weaken in E2; [|exact K1]. congruence.
  - destruct (parent_revisions s !! k) as [es|] eqn:E1.
    + destruct (K3 k) as [_ [es' Hes]]; [right; rewrite M5; apply S2; destruct (states s !! k) eqn:E2; [done|]; apply S3 in E2; congruence|].
      rewrite Hes. symmetry. rewrite <-E1. by eapply lookup_weaken.
    + destruct (pr !! k) eqn:E2; [|done]. eapply lookup_weaken in E2; [|exact K2]. congruence.
Qed.
(** ** A layer that leaves the graph within an edit *)

Lemma reach_within st st' root : (st : topology) ⊆ st' -> forall k, k ∈ reachable_from st root -> k ∈ reachable_from st' root.
Proof.
  intros Hsub k. rewrite (proj2 (reachable_exact st root)), (proj2 (reachable_exact st' root)).
  apply rtc_subrel. intros a b. unfold edge, child_keys. destruct (st !! a) as [es|] eqn:E1; [|by intros ?%elem_of_nil].
  by rewrite (lookup_weaken _ _ _ _ E1 Hsub).
Qed.

(** The replica has forgotten a layer. *)
Definition forgotten (k : string) (r : lg) : Prop := states r !! k = None /\ parent_revisions r !! k = None.

(** An applied record is put and pruned, whatever the record. *)
Lemma apply_Ok key ev r r1 : apply_sublayers resolve portable key ev r = (r1, Ok ()) ->
  exists r2, put_record r r2 (key, ev) /\ r1 = prune_unreachable_states r2.
Proof.
  intros Ha. pose proof Ha as Hc. unfold apply_sublayers, gets in Hc. unfold mbind at 1, M_bind at 1 in Hc. cbn [id] in Hc.
  destruct (bool_decide (se_generation ev = generation r)) eqn:E1; [apply bool_decide_eq_true in E1|done]. cbn [negb] in Hc.
  destruct (bool_decide (key ∈ reachable_layer_keys r)) eqn:E2; [apply bool_decide_eq_true in E2|done]. cbn [negb] in Hc.
  destruct (bool_decide (se_revision ev = parent_revision key r + 1)%Z) eqn:E3; [apply bool_decide_eq_true in E3|done]. cbn [negb] in Hc.
  destruct (normalize_idem portable (se_sublayers ev)) as [Hn|Hn].
  - apply apply_puts in Ha as [(r2 & Hp & -> & _)|[=]]; [|done..]. by exists r2.
  - unfold lift, mbind, M_bind in Hc. by rewrite Hn in Hc.
Qed.

Lemma apply_refused key ev r : (se_revision ev <> parent_revision key r + 1)%Z ->
  apply_sublayers resolve portable key ev r = (r, Err StaleLayerGraphError).
Proof.
  intros Hne. unfold apply_sublayers, gets. unfold mbind at 1, M_bind at 1. cbn [id].
  destruct (negb _); [done|]. destruct (negb _); [done|]. by rewrite bool_decide_eq_false_2.
Qed.

(** The errors of applying a record: stale, or what local layers make of it. *)
Lemma apply_errors key ev : raises_only (fun e => e = StaleLayerGraphError \/ e = ValueError) (apply_sublayers resolve portable key ev).
Proof.
  intros r r1 e Ha. pose proof Ha as Hc. unfold apply_sublayers, gets in Hc. unfold mbind at 1, M_bind at 1 in Hc. cbn [id] in Hc.
  destruct (bool_decide (se_generation ev = generation r)) eqn:E1; [apply bool_decide_eq_true in E1|injection Hc as _ <-; by left]. cbn [negb] in Hc.
  destruct (bool_decide (key ∈ reachable_layer_keys r)) eqn:E2; [apply bool_decide_eq_true in E2|injection Hc as _ <-; by left]. cbn [negb] in Hc.
  destruct (bool_decide (se_revision ev = parent_revision key r + 1)%Z) eqn:E3; [apply bool_decide_eq_true in E3|injection Hc as _ <-; by left]. cbn [negb] in Hc.
  destruct (normalize_idem portable (se_sublayers ev)) as [Hn|Hn].
  - apply apply_puts in Ha as [(r2 & _ & _ & [=])|[= ->]]; [by right|done..].
  - unfold lift, mbind, M_bind in Hc. rewrite Hn in Hc. injection Hc as _ <-. by right.
Qed.

Lemma put_prune_forgotten k r r1 rec : k <> rec.1 -> forgotten k r -> put_record r r1 rec -> forgotten k (prune_unreachable_states r1).
Proof.
  intros Hk [F1 F2] [_ _ _ _ _ P6 P7]. split; cbn; rewrite lookup_prune; case_bool_decide; [|done| |done];
    rewrite ?P6, ?P7; unfold put_states, put_revisions; by rewrite lookup_insert_ne.
Qed.

(** Records of other layers leave it forgotten. *)
Lemma replay_forgotten k rs r r1 : k ∉ rs.*1 -> forgotten k r ->
  iterM (fun rec => apply_sublayers resolve portable rec.1 rec.2) rs r = (r1, Ok ()) -> forgotten k r1.
Proof.
  revert r. induction rs as [|rec rs IH]; intros r Hk Hf Hr; cbn in Hr; [by injection Hr as <-|].
  cbn [fmap list_fmap] in Hk. apply not_elem_of_cons in Hk as [Hk1 Hk2]. inv_M Hr. destruct x.
  destruct rec as [key ev]. cbn [fst snd] in *. apply apply_Ok in Hr0 as (r2 & Hp & ->).
  apply (IH (prune_unreachable_states r2)); [done| |done]. by apply (put_prune_forgotten k r r2 (key, ev)).
Qed.

(** The replica declares nothing the unpruned records do not. *)
Lemma replay_within rs r r1 st : ready r = true -> states r ⊆ st ->
  iterM (fun rec => apply_sublayers resolve portable rec.1 rec.2) rs r = (r1, Ok ()) ->
  ready r1 = true /\ root_layer_key r1 = root_layer_key r /\ states r1 ⊆ foldl put_states st rs
  /\ (rs <> [] -> forall k, k ∉ reachable_from (foldl put_states st rs) (root_layer_key r) -> forgotten k r1).
Proof.
  revert r r1 st. induction rs as [|[key ev] rs IH] using rev_ind; intros r r1 st Hrd Hsub Hr; [by injection Hr as <-|].
  rewrite iterM_app in Hr. inv_M Hr. destruct x. cbn in Hr. inv_M Hr. destruct x. injection Hr as <-.
  apply (IH _ _ st) in Hr0 as (R1 & R2 & R3 & _); [|done..]. apply apply_Ok in Hr1 as (r2 & [_ _ P3 P4 _ P6 _] & ->).
  rewrite foldl_app. cbn. set (st1 := foldl put_states st rs) in *.
  assert (states r2 ⊆ put_states st1 (key, ev)) as Hsub2 by (rewrite P6; by apply insert_mono).
  split; [cbn; congruence|]. split; [cbn; congruence|]. split.
  - etrans; [|exact Hsub2]. apply map_subseteq_spec. intros k es. cbn. rewrite lookup_prune. by case_bool_decide.
  - intros _ k Hk. assert (k ∉ reachable_layer_keys r2) as Hn.
    { rewrite reach_ready by congruence. intros Hin. apply Hk. rewrite P4, R2 in Hin. by eapply reach_within. }
    split; cbn; rewrite lookup_prune; by rewrite bool_decide_eq_false_2 by (by rewrite elem_of_list_to_set).
Qed.
End replica.

(** ** A history of edits *)

Section history.
Context (resolve resolve' : string -> string -> option string) (portable : string -> bool) (new_key : nat -> string) (root_identifier : string).

(** The server commits edits one by one; those that fail log nothing. *)
Fixpoint run_edits (edits : list (string * sub_event)) (s : lg) : lg * list (string * sub_event) :=
  match edits with
  | [] => (s, [])
  | e :: edits =>
      match commit_sublayers resolve portable new_key e.1 e.2 s with
      | (s, Ok records) => let '(s, log) := run_edits edits s in (s, records ++ log)
      | (s, Err _) => run_edits edits s
      end
  end.
Fixpoint no_revivals (edits : list (string * sub_event)) (s : lg) : bool :=
  match edits with
  | [] => true
  | e :: edits =>
      match commit_sublayers resolve portable new_key e.1 e.2 s with
      | (s1, Ok records) => no_revival (states s) (root_layer_key s) records && no_revivals edits s1
      | (s1, Err _) => no_revivals edits s1
      end
  end.

Lemma logged_declared s rs s1 : logged portable s rs s1 -> ready s1 = ready s /\ ((forall k, states s !! k = None -> parent_revisions s !! k = None) ->
  forall k, states s1 !! k = None -> parent_revisions s1 !! k = None).
Proof.
  induction 1 as [s s1 Hs|s s2 rec rs s1 _ Hp _ [IH1 IH2]].
  - destruct Hs as [_ _ -> _ _ -> ->]. done.
  - destruct Hp as [_ _ P3 _ _ P6 P7]. split; [congruence|]. intros Hd. apply IH2. intros k. rewrite P6, P7. unfold put_states, put_revisions.
    destruct (decide (k = rec.1)) as [->|Hne]; [by rewrite lookup_insert_eq|]. rewrite !lookup_insert_ne by done. apply Hd.
Qed.

Lemma prune_settled s : ready s = true -> (forall k, states s !! k = None -> parent_revisions s !! k = None) -> settled (prune_unreachable_states s).
Proof.
  intros Hr Hd. assert (forall k, k ∈ reachable_layer_keys (prune_unreachable_states s) <-> k ∈ reachable_layer_keys s) as He.
  { intros k. rewrite !reach_ready by done. apply reach_agree. intros k' Hk'. cbn. rewrite lookup_prune, bool_decide_eq_true_2; [done|].
    apply elem_of_list_to_set. by rewrite reach_ready. }
  split; [done| |].
  - intros k. rewrite He. cbn. rewrite lookup_prune. case_bool_decide as Hk; [|by intros [? [=]]]. by rewrite elem_of_list_to_set in Hk.
  - intros k. cbn. rewrite !lookup_prune. case_bool_decide; [apply Hd|done].
Qed.

Lemma commit_settled key ev s s' rs : settled s -> commit_sublayers resolve portable new_key key ev s = (s', Ok rs) -> settled s'.
Proof.
  intros [S1 S2 S3] (s1 & Hl & -> & _)%commit_logged; [|done]. apply logged_declared in Hl as [Hr Hd]. apply prune_settled; [congruence|by apply Hd].
Qed.

(** Flags no operation of an edit touches, whether or not it fails. *)
Definition same_flags (s s' : lg) : Prop := ready s' = ready s /\ authoritative s' = authoritative s.
Definition tame {A} (m : M lg A) : Prop := forall s, same_flags s (m s).1 /\ forall e, (m s).2 = Err e -> is_exception e = true.

Lemma tame_bind {A B} (m : M lg A) (f : A -> M lg B) : tame m -> (forall a, tame (f a)) -> tame (x ← m; f x).
Proof.
  intros Hm Hf s. unfold mbind, M_bind. specialize (Hm s). destruct (m s) as [s1 [a|e]]; cbn in *; [|destruct Hm as [H1 H2]; split; [done|intros e' [= <-]; by apply H2]].
  destruct (Hf a s1) as [[H1 H2] H3], Hm as [[H4 H5] _]. split; [split; congruence|done].
Qed.
Lemma tame_steady {A} (m : M lg A) : steady m -> raises_only (fun e => is_exception e = true) m -> tame m.
Proof.
  intros Hs Hr s. specialize (Hs s). specialize (Hr s). destruct (m s) as [s1 r]; cbn in *. destruct Hs as [_ _ H1 H2 _ _ _]. split; [done|]. intros e ->. by eapply Hr.
Qed.
Lemma raises_weaken {A} (P Q : exn -> Prop) (m : M lg A) : (forall e, P e -> Q e) -> raises_only P m -> raises_only Q m.
Proof. intros Hpq Hm s s' e He. apply Hpq. by eapply Hm. Qed.
Lemma raises_raise {A} (P : exn -> Prop) e : P e -> raises_only P (raise (A := A) e : M lg A).
Proof. intros HP s s' e' [= _ <-]. done. Qed.
Lemma raises_normalize entries : raises_only (fun e => is_exception e = true) (lift (normalize_sublayer_entries portable entries) : M lg _).
Proof. intros s s' e [= _ He]. by apply normalize_error in He as ->. Qed.

Lemma raises_entries layer keys : raises_only (fun e => is_exception e = true) (entries_for_layer resolve portable new_key layer keys).
Proof.
  unfold entries_for_layer. apply raises_bind; [apply raises_gets|]. intros read. apply raises_bind; [apply raises_normalize|]. intros entries.
  apply raises_bind; [|intros found; apply raises_ret]. apply raises_mapM. intros e. unfold entry_for_layer. destruct (resolve layer (en_path e)); [|apply raises_ret].
  apply raises_bind; [apply raises_gets|]. intros [k|]; [apply raises_ret|]. destruct keys; [|apply raises_ret]. apply raises_bind; [by intros ? ? ?|]. intros k.
  apply raises_bind; [|intros ?; apply raises_ret]. eapply raises_weaken; [|apply raises_bind_key]. by intros ? ->.
Qed.

Lemma raises_describe layer : raises_only (fun e => is_exception e = true) (describe_sublayers resolve portable new_key layer).
Proof.
  unfold describe_sublayers. apply raises_bind; [apply raises_gets|]. intros s. destruct (key_for layer s) as [key|]; [|by apply raises_raise].
  destruct (_ || _); [by apply raises_raise|]. apply raises_bind; [apply raises_entries|]. intros found. apply raises_ret.
Qed.

Lemma raises_canonical_entries parent pending entries : raises_only (fun e => is_exception e = true) (canonical_entries resolve new_key parent pending entries).
Proof.
  revert pending. induction entries as [|e entries IH]; intros pending; cbn; [apply raises_ret|].
  destruct (resolve parent (en_path e)); [|apply raises_bind; [done|]; intros found; apply raises_ret].
  apply raises_bind; [apply raises_gets|]. intros [key|].
  - destruct (stale_supplied _ _); [by apply raises_raise|]. apply raises_bind; [done|]. intros found. apply raises_ret.
  - apply raises_bind; [by intros ? ? ?|]. intros key. apply raises_bind; [done|]. intros found. apply raises_ret.
Qed.

Lemma steady_canonicalize key ev : steady (canonicalize_sublayers resolve portable new_key key ev).
Proof.
  unfold canonicalize_sublayers. apply steady_bind; [auto with steady|]. intros s. destruct (negb _); [auto with steady|]. destruct (negb _); [auto with steady|].
  destruct (layer_for key s); [|auto with steady]. destruct (negb _); [auto with steady|]. destruct (negb _); [auto with steady|].
  apply steady_bind; [auto with steady|]. intros entries. apply steady_bind; [apply steady_canonical_entries|auto with steady].
Qed.
Lemma raises_canonicalize key ev : raises_only (fun e => is_exception e = true) (canonicalize_sublayers resolve portable new_key key ev).
Proof.
  unfold canonicalize_sublayers. apply raises_bind; [apply raises_gets|]. intros s. destruct (negb _); [by apply raises_raise|]. destruct (negb _); [by apply raises_raise|].
  destruct (layer_for key s); [|by apply raises_raise]. destruct (negb _); [by apply raises_raise|]. destruct (negb _); [by apply raises_raise|].
  apply raises_bind; [apply raises_normalize|]. intros entries. apply raises_bind; [apply raises_canonical_entries|]. intros found. apply raises_ret.
Qed.

Lemma tame_accept p : tame (accept_sublayers portable p).
Proof.
  unfold accept_sublayers. apply tame_bind; [by intros s|]. intros s. destruct (negb _); [by intros ?; split; [|intros e [= <-]]|].
  destruct (negb _); [by intros ?; split; [|intros e [= <-]]|]. apply tame_bind; [|intros ?; apply tame_bind; [|by intros ? ?]].
  - apply tame_steady; [apply steady_iterM; intros m; apply steady_bind_key|]. eapply raises_weaken; [|apply raises_iterM; intros m; apply raises_bind_key]. by intros ? ->.
  - apply tame_steady; [auto with steady|apply raises_normalize].
Qed.

Lemma tame_discover mappings : tame (discover_sublayer_states resolve portable new_key mappings).
Proof.
  intros s. unfold discover_sublayer_states. destruct (negb _); [by split; [|intros e [= <-]]|].
  assert (forall fuel queue visited s0 s1 r, discover_loop resolve portable new_key fuel queue visited s0 = Some (s1, r) ->
    same_flags s0 s1 /\ forall e, r = Err e -> is_exception e = true) as Hd.
  { intros fuel. induction fuel as [|fuel IH]; intros [|[layer key] queue] visited s0 s1 r Hd; cbn in Hd; [by injection Hd as <- <-|done|by injection Hd as <- <-|].
    destruct (_ || _); [by eapply IH|].
    match type of Hd with context [match ?m s0 with _ => _ end] => assert (tame m) as Ht end.
    { apply tame_bind; [apply tame_steady; [apply steady_describe|apply raises_describe]|]. intros ev.
      apply tame_bind; [apply tame_steady; [apply steady_canonicalize|apply raises_canonicalize]|]. intros p. apply tame_bind; [apply tame_accept|by intros ? ?]. }
    specialize (Ht s0). match type of Hd with context [match ?m s0 with _ => _ end] => destruct (m s0) as [s2 [p|e]] end; cbn in Ht; [|injection Hd as <- <-; split; [apply Ht|intros e' [= <-]; by apply Ht]].
    destruct Ht as [[T1 T2] _]. destruct (discover_loop _ _ _ fuel _ _ s2) as [[s3 [rs|e]]|] eqn:E1; [| |done]; apply IH in E1 as [[E1 E2] E3]; injection Hd as <- <-;
      (split; [split; congruence|]); [done|exact E3]. }
  destruct (discover_loop _ _ _ _ _ _ s) as [[s1 [rs|e]]|] eqn:E1; cbn; [| |by split; [|intros e [= <-]]]; apply Hd in E1 as [E1 E2]; [done|]. split; [done|exact E2].
Qed.

Lemma tame_atomic {A} ident (m : M lg A) : tame m -> tame (atomic_layer ident m).
Proof. intros Hm s. specialize (Hm s). unfold atomic_layer. by destruct (m s) as [s1 [a|e]]. Qed.

(** A refused edit leaves the declared graph as it was. *)
Lemma commit_refused key ev s s' e : commit_sublayers resolve portable new_key key ev s = (s', Err e) -> same_graph s s' /\ is_exception e = true.
Proof.
  unfold commit_sublayers, gets. unfold mbind at 1, M_bind at 1. cbn [id]. destruct (layer_for key s) as [target|]; [|by intros [= <- <-]].
  destruct (negb _); [by intros [= <- <-]|]. intros Hc. apply M_bind_Err in Hc as [Hc|(s1 & p & Hc & Ht)].
  - pose proof (steady_canonicalize key ev s) as Hs. rewrite Hc in Hs. split; [done|]. by eapply raises_canonicalize.
  - pose proof (steady_canonicalize key ev s) as Hs. rewrite Hc in Hs. cbn in Hs. unfold transaction in Ht.
    match type of Ht with context [match ?m s1 with _ => _ end] => assert (tame m) as Htame end.
    { apply tame_atomic, tame_bind; [apply tame_steady; [apply steady_apply_entries|]|].
      { eapply raises_weaken; [|apply raises_apply_entries]. by intros ? ->. }
      intros _. apply tame_bind; [apply tame_accept|]. intros _. apply tame_bind; [apply tame_discover|by intros ? ?]. }
    specialize (Htame s1). match type of Ht with context [match ?m s1 with _ => _ end] => destruct (m s1) as [s2 [l|e']] end; cbn in Htame; [done|].
    destruct Htame as [[T1 T2] T3]. rewrite (T3 e' eq_refl) in Ht. injection Ht as <- <-. split; [|by apply T3].
    etrans; [exact Hs|]. split; cbn; done.
Qed.

Lemma mirrors_same s s' r : same_graph s s' -> mirrors s r -> mirrors s' r.
Proof. intros [] []. split; congruence. Qed.
Lemma settled_same s s' : same_graph s s' -> settled s -> settled s'.
Proof.
  intros [_ _ H1 _ H2 H3 H4] [S1 S2 S3]. split; [congruence| |]; intros k; rewrite H3, ?H4; [|apply S3]. unfold reachable_layer_keys. rewrite H1, H2, H3. apply S2.
Qed.

Lemma replay_edits edits s s' log r : settled s -> mirrors s r -> run_edits edits s = (s', log) -> no_revivals edits s = true ->
  match iterM (fun rec => apply_sublayers resolve' portable rec.1 rec.2) log r with
  | (r', Ok _) => mirrors s' r'
  | (_, Err e) => e = ValueError
  end.
Proof.
  revert s log r. induction edits as [|[key ev] edits IH]; intros s log r Hs Hm Hr Hn; cbn [run_edits no_revivals fst snd] in Hr, Hn; [by injection Hr as <- <-|].
  destruct (commit_sublayers _ _ _ key ev s) as [s1 [rs|e]] eqn:Ec.
  - apply andb_prop in Hn as [Hn1 Hn2]. destruct (run_edits edits s1) as [s2 log2] eqn:Er. injection Hr as <- <-.
    pose proof (commit_settled _ _ _ _ _ Hs Ec) as Hs1. apply commit_logged in Ec as (s3 & Hl & -> & _); [|by destruct Hs].
    pose proof (replay_follows resolve' portable s rs s3 r Hl (mirrors_follows _ _ Hs Hm) Hn1) as Hf. rewrite iterM_app. unfold mbind, M_bind.
    destruct (iterM _ rs r) as [r1 [[]|e]]; [|done]. apply (IH (prune_unreachable_states s3)); [done|by apply follows_mirrors|done|done].
  - apply commit_refused in Ec as [Ec _]. apply (IH s1); [by eapply settled_same|by eapply mirrors_same|done|done].
Qed.

(** C8: A new replica that takes the baseline of the server's layer graph and applies
    the records logged for any further sequence of sublayer edits, refused ones
    included, has the server's declared graph, revisions and generation, however
    differently its own resolver finds layers, provided no edit brings back a layer
    that fell out of the graph earlier in the same edit; it never finds a record
    stale, whatever else may fail. *)
Theorem replica_follows_layer_graph s m edits s' log r : settled s -> (0 <= revision s)%Z -> revision r = (-1)%Z ->
  state_message s = (s, Ok m) -> run_edits edits s = (s', log) -> no_revivals edits s = true ->
  match replay_graph resolve' portable root_identifier (GraphBaseline m :: map (fun rec => GraphEvent rec.1 rec.2) log) r with
  | (r', Ok _) => mirrors s' r'
  | (_, Err e) => e <> StaleLayerGraphError
  end.
Proof.
  intros Hs Hrev Hr Hm Hrun Hn. unfold replay_graph. cbn [iterM apply_graph_record]. unfold mbind at 1 2, M_bind at 1 2.
  destruct (apply_state _ _ _ m r) as [r1 [[]|e]] eqn:Ea; [| |by apply apply_state_ok in Ea].
  - cbn. assert (forall l x, iterM (apply_graph_record resolve' portable root_identifier) (map (fun rec => GraphEvent rec.1 rec.2) l) x
      = iterM (fun rec => apply_sublayers resolve' portable rec.1 rec.2) l x) as ->.
    { intros l. induction l as [|a l IH]; intros x; [done|]. cbn. unfold mbind, M_bind. destruct (apply_sublayers _ _ _ _ x) as [x1 [[]|e]]; [apply IH|done]. }
    pose proof (replay_edits edits s s' log r1 Hs (baseline_mirrors _ _ _ _ _ _ _ _ Hs Hm Ea) Hrun Hn) as Hrep.
    destruct (iterM _ log r1) as [r2 [[]|e]]; [done|by subst].
  - apply apply_state_ok in Ea as [_ Ea]. apply state_message_ok in Hm as (_ & _ & Hm & _). lia.
Qed.
Lemma logged_revision k s rs s1 : logged portable s rs s1 -> k ∉ rs.*1 -> parent_revisions s1 !! k = parent_revisions s !! k.
Proof.
  induction 1 as [s s1 [_ _ _ _ _ _ ->]|s s2 rec rs s1 _ Hp _ IH]; [done|]. cbn [fmap list_fmap]. intros [Hk1 Hk2]%not_elem_of_cons.
  rewrite (IH Hk2). destruct Hp as [_ _ _ _ _ _ ->]. unfold put_revisions. by rewrite lookup_insert_ne.
Qed.

(** A committed edit of a layer logs it first, numbered after its revision; the
    layer was in the graph. *)
Lemma commit_first k ev s s' rs : ready s = true -> commit_sublayers resolve portable new_key k ev s = (s', Ok rs) ->
  k ∈ reachable_layer_keys s /\ exists ev' rs', rs = (k, ev') :: rs' /\ se_revision ev' = (parent_revision k s + 1)%Z.
Proof.
  intros Hr Hc. unfold commit_sublayers in Hc. inv_M Hc. injection Hc0 as <- <-. cbn [id] in Hc.
  destruct (layer_for k s) as [target|]; [|done]. destruct (bool_decide (k ∈ reachable_layer_keys s)) eqn:Ek; [|done]. cbn [negb] in Hc.
  apply bool_decide_eq_true in Ek. split; [done|]. inv_M Hc. destruct (canonicalize_fits resolve portable new_key k ev s s0 x) as (Hst & Hp & Hf); [done..|].
  unfold transaction, atomic_layer in Hc. match type of Hc with context [match ?m s0 with _ => _ end] => destruct (m s0) as [s1 [l|e]] eqn:E1 end; [|by destruct (is_exception e)].
  injection Hc as -> ->. inv_M E1. inv_M E1. inv_M E1. injection E1 as _ <-. eexists _, _. split; [done|]. by destruct Hf.
Qed.

(** C37: A layer that falls out of the graph with one record of an edit and is back
    at its end is lost to every replica.  Say an edit logs [rs], that after a prefix
    of [rs] the layer [k], declared before and not itself edited by [rs], is
    unreachable, and that the server then commits an edit of [k] (so [k] is back).
    The server has kept the revision of [k].  A replica that mirrored it (a receiver,
    or the server itself restarting from its log) either fails on [rs] already, or
    has forgotten the revision and finds the edit of [k] stale. *)
Theorem moved_layer_state_is_lost s r key ev s1 rs rs1 k ev2 s2 rs2 : settled s -> mirrors s r ->
  commit_sublayers resolve portable new_key key ev s = (s1, Ok rs) -> commit_sublayers resolve portable new_key k ev2 s1 = (s2, Ok rs2) ->
  (1 <= parent_revision k s)%Z -> k ∉ rs.*1 ->
  rs1 `prefix_of` rs -> k ∉ reachable_from (foldl put_states (states s) rs1) (root_layer_key s) ->
  parent_revision k s1 = parent_revision k s /\
  match iterM (fun rec => apply_sublayers resolve' portable rec.1 rec.2) rs r with
  | (r1, Ok _) => parent_revision k r1 = 0%Z /\
      iterM (fun rec => apply_sublayers resolve' portable rec.1 rec.2) (rs ++ rs2) r = (r1, Err StaleLayerGraphError)
  | (_, Err e) => e = StaleLayerGraphError \/ e = ValueError
  end.
Proof.
  intros Hs Hm Hc Hc2 Hrev Hni [rest ->] Hout. pose proof (commit_settled _ _ _ _ _ Hs Hc) as [Hrd1 _ _]. pose proof Hs as [Hrd Hpr Hdec].
  apply commit_first in Hc2 as (Hin & ev' & rs2' & -> & Hev'); [|done]. apply commit_logged in Hc as (s3 & Hl & -> & _); [|done].
  assert (parent_revision k (prune_unreachable_states s3) = parent_revision k s) as Hkept.
  { unfold parent_revision. rewrite <-(logged_revision k _ _ _ Hl Hni). cbn. rewrite lookup_prune. case_bool_decide as Hk; [done|].
    destruct Hk. apply elem_of_list_to_set. destruct (logged_declared _ _ _ Hl) as [Hr3 _]. rewrite (reach_ready (prune_unreachable_states s3)) in Hin by (cbn; congruence).
    rewrite reach_ready by congruence. revert Hin. apply reach_within. apply map_subseteq_spec. intros k' es. cbn. rewrite lookup_prune. by case_bool_decide. }
  assert (rs1 <> []) as Hne.
  { intros ->. change (foldl put_states (states s) []) with (states s) in Hout. apply Hout. rewrite <-(reach_ready s Hrd). apply Hpr. destruct (states s !! k) eqn:E1; [done|]. apply Hdec in E1.
    unfold parent_revision in Hrev. rewrite E1 in Hrev. cbn in Hrev. lia. }
  assert (forall r1, iterM (fun rec => apply_sublayers resolve' portable rec.1 rec.2) (rs1 ++ rest) r = (r1, Ok ()) -> parent_revision k r1 = 0%Z) as Hlost.
  { intros r1 Hr. rewrite iterM_app in Hr. inv_M Hr. destruct x. destruct Hm as [_ _ M3 M4 M5 _].
    apply (replay_within resolve' portable rs1 r _ (states s)) in Hr0 as (_ & _ & _ & Hf); [|congruence|by rewrite M5]. rewrite M4 in Hf.
    apply (replay_forgotten resolve' portable k rest) in Hr as [_ Hn]; [|rewrite fmap_app in Hni; set_solver|by apply Hf].
    unfold parent_revision. by rewrite Hn. }
  split; [done|]. destruct (iterM _ (rs1 ++ rest) r) as [r1 [[]|e]] eqn:E1;
    [|exact (raises_iterM _ _ _ (fun a => apply_errors resolve' portable a.1 a.2) _ _ _ E1)].
  specialize (Hlost r1 eq_refl). split; [done|]. rewrite iterM_app. unfold mbind at 1, M_bind at 1. rewrite E1.
  cbn [iterM]. unfold mbind, M_bind. cbn [fst snd]. by rewrite apply_refused by lia.
Qed.
End history.

(** ** A layer that moves below a newly discovered one *)

Definition demo_key (n : nat) : string := "layer:" +:+ pretty n.
Definition demo_entry (p : string) : entry := mk_entry p (Fin (Q2Qc (QArith_base.inject_Z 0))) (Fin (Q2Qc (QArith_base.inject_Z 1))) "".
(** On disk: the root has A; B, not in the graph, has A too. *)
Definition demo_disk : gmap string (list entry) :=
  {[ "root.usda" := [demo_entry "A.usda"]; "A.usda" := []; "B.usda" := [demo_entry "A.usda"]; "C.usda" := [] ]}.
Definition demo_resolve (_ path : string) : option string := Some path.
Definition demo_portable (_ : string) : bool := true.

Abbreviation demo_commit := (commit_sublayers demo_resolve demo_portable demo_key).
Definition demo_graph : lg := (graph_init_authoritative demo_resolve demo_portable demo_key "root.usda" "g" demo_disk (graph_init ∅)).1.

Definition demo_baseline : graph_state :=
  match state_message demo_graph with (_, Ok m) => m | _ => mk_graph_state "" 0 "" [] end.
(** The root takes B instead of A, then a client edits A. *)
Definition demo_move : lg * result (list (string * sub_event)) :=
  demo_commit "layer:0" (mk_sub_event "g" 1 [demo_entry "B.usda"]) demo_graph.
Definition demo_edit : lg * result (list (string * sub_event)) :=
  demo_commit "layer:1" (mk_sub_event "g" 1 [demo_entry "C.usda"]) demo_move.1.
Definition edits_of (r : result (list (string * sub_event))) : list (string * sub_event) := match r with Ok l => l | Err _ => [] end.
Definition records_of (r : result (list (string * sub_event))) : list graph_record := map (fun ke => GraphEvent ke.1 ke.2) (edits_of r).
Definition demo_log : list graph_record := GraphBaseline demo_baseline :: records_of demo_move.2 ++ records_of demo_edit.2.
Definition demo_replay : lg * result unit := replay_graph demo_resolve demo_portable "root.usda" demo_log (graph_init demo_disk).

(** A replica that mirrors the server and applies records. *)
Definition demo_replica (rs : list (string * sub_event)) : lg * result unit :=
  iterM (fun rec => apply_sublayers demo_resolve demo_portable rec.1 rec.2) rs demo_graph.

(** Ordinary edits, the second of them refused. *)
Definition demo_edits : list (string * sub_event) :=
  [("layer:0", mk_sub_event "g" 1 [demo_entry "A.usda"; demo_entry "C.usda"]);
   ("layer:1", mk_sub_event "g" 7 [demo_entry "C.usda"]);
   ("layer:1", mk_sub_event "g" 1 [demo_entry "B.usda"]);
   ("layer:0", mk_sub_event "g" 2 [demo_entry "C.usda"])].
(** A replica that only finds A. *)
Definition demo_partial (_ path : string) : option string := if bool_decide (path = "A.usda") then Some "/local/A" else None.

(** [settled], decided. *)
Definition settled_b (s : lg) : bool :=
  ready s && bool_decide (map_Forall (fun k _ => k ∈ reachable_layer_keys s) (states s)) &&
  bool_decide (map_Forall (fun k _ => is_Some (states s !! k)) (parent_revisions s)).

Lemma settled_decide s : settled_b s = true -> settled s.
Proof.
  unfold settled_b. rewrite !andb_true_iff, !bool_decide_eq_true. intros [[H1 H2] H3]. split; [done| |].
  - intros k [es Hes]. by eapply H2.
  - intros k Hk. destruct (parent_revisions s !! k) eqn:E1; [|done]. apply H3 in E1. rewrite Hk in E1. by destruct E1.
Qed.

Lemma moved_layer_state_is_lost_witness :
  parent_revision "layer:1" demo_move.1 = 1%Z /\ is_ok demo_edit.2 = true /\ demo_replay.2 = Err StaleLayerGraphError /\
  is_ok (demo_replica (edits_of demo_move.2)).2 = true /\
  match demo_replica (edits_of demo_move.2) with
  | (r1, Ok _) => parent_revision "layer:1" r1 = 0%Z /\
      demo_replica (edits_of demo_move.2 ++ edits_of demo_edit.2) = (r1, Err StaleLayerGraphError)
  | (_, Err e) => e = StaleLayerGraphError \/ e = ValueError
  end.
Proof.
  do 4 (split; [vm_compute; reflexivity|]).
  apply (moved_layer_state_is_lost demo_resolve demo_resolve demo_portable demo_key demo_graph demo_graph "layer:0"
    (mk_sub_event "g" 1 [demo_entry "B.usda"]) demo_move.1 (edits_of demo_move.2) (take 1 (edits_of demo_move.2)) "layer:1"
    (mk_sub_event "g" 1 [demo_entry "C.usda"]) demo_edit.1 (edits_of demo_edit.2)).
  - apply settled_decide. vm_compute. reflexivity.
  - by split.
  - vm_compute. reflexivity.
  - vm_compute. reflexivity.
  - vm_compute. discriminate.
  - apply (bool_decide_unpack _). vm_compute. exact I.
  - apply prefix_take.
  - apply (bool_decide_unpack _). vm_compute. exact I.
Defined.

Lemma replica_follows_layer_graph_witness :
  let ran := run_edits demo_resolve demo_portable demo_key demo_edits demo_graph in
  let r := replay_graph demo_partial demo_portable "root.usda"
    (GraphBaseline demo_baseline :: map (fun rec => GraphEvent rec.1 rec.2) ran.2) (graph_init demo_disk) in
  r.2 = Ok () /\ length ran.2 = 5 /\ mirrors ran.1 r.1.
Proof.
  intros ran r. split; [vm_compute; reflexivity|]. split; [vm_compute; reflexivity|].
  pose proof (replica_follows_layer_graph demo_resolve demo_partial demo_portable demo_key "root.usda" demo_graph demo_baseline demo_edits
    ran.1 ran.2 (graph_init demo_disk) ltac:(apply settled_decide; vm_compute; reflexivity) ltac:(vm_compute; discriminate) eq_refl
    ltac:(vm_compute; reflexivity) ltac:(vm_compute; reflexivity) ltac:(vm_compute; reflexivity)) as K.
  destruct (replay_graph _ _ _ _ _) as [r' [u|e]] eqn:E1 in K; [|exfalso; revert E1; vm_compute; discriminate].
  subst r. rewrite E1. exact K.
Defined.
