(* ===== verification/LogicalLayers.v ===== *)
(** * LogicalLayers: a receiver's reconstruction of the collaboration stack
    ([openusdconnect/logical_layers.py], [layer_key_router.py])

    [LogicalLayerRouter] over the receiver's own anonymous layers, with the parts
    of the stage it edits (the sublayers of the session layer and the muted
    layers), and [apply_routed_records], which applies routed events in runs.  A
    layer is its identifier; [anonymous n label] is the [n]-th layer the process
    creates.  The state messages are those of [LayerStack.state].

    Theorems: the invariant of router and stage under every operation; a receiver
    that gets the states of the server's stack late, repeated or out of order shows
    the newest of them; routed events are applied one by one in order, all of them
    at their own layer or none, and the muting of the stage is as before. *)

From stdpp Require Import pretty.
From S2P Require Import Prelude Constants LayerStack.
#[local] Set Default Proof Using "Type".
#[local] Set Proof Using Clear Unused.

Section router.
(** [Sdf.LayerOffset]; the contents of a layer and what [Clear] leaves. *)
Context {Offset : Type} `{EqDecision Offset} (identity : Offset) {C : Type} (empty_content : C).
Context (anonymous : nat -> string -> string).

Record stage_part := mk_stage_part { st_session : list (string * Offset); st_muted : gset string }.

Record router := mk_router {
  (** [_layers] and [_keys_by_identifier] *)
  r_layers : gmap string string;
  r_keys : gmap string string;
  r_generation : string;
  r_revision : Z;
  r_ready : bool;
  r_stage : option stage_part;
  (** [_layer_keys] and [_muted] *)
  r_layer_keys : list string;
  r_muted : gmap string bool;
  (** the layers themselves, and how many were created *)
  r_contents : gmap string C;
  r_created : nat }.

Definition set_maps (ls ks : gmap string string) (s : router) : router :=
  mk_router ls ks (r_generation s) (r_revision s) (r_ready s) (r_stage s) (r_layer_keys s) (r_muted s) (r_contents s) (r_created s).
Definition set_version (g : string) (r : Z) (b : bool) (s : router) : router :=
  mk_router (r_layers s) (r_keys s) g r b (r_stage s) (r_layer_keys s) (r_muted s) (r_contents s) (r_created s).
Definition set_stage (st : option stage_part) (s : router) : router :=
  mk_router (r_layers s) (r_keys s) (r_generation s) (r_revision s) (r_ready s) st (r_layer_keys s) (r_muted s) (r_contents s) (r_created s).
Definition set_stack (keys : list string) (mu : gmap string bool) (s : router) : router :=
  mk_router (r_layers s) (r_keys s) (r_generation s) (r_revision s) (r_ready s) (r_stage s) keys mu (r_contents s) (r_created s).
Definition set_contents (c : gmap string C) (s : router) : router :=
  mk_router (r_layers s) (r_keys s) (r_generation s) (r_revision s) (r_ready s) (r_stage s) (r_layer_keys s) (r_muted s) c (r_created s).

(** [stage.MuteAndUnmuteLayers(mute, unmute)] *)
Definition mute_and_unmute (mute unmute : gset string) (st : stage_part) : stage_part :=
  mk_stage_part (st_session st) ((st_muted st ∪ mute) ∖ unmute).

(** [_create_layer], registered under its key *)
Definition create_layer (layer_key label : string) (s : router) : router :=
  let layer := anonymous (r_created s) label in
  mk_router (<[layer_key := layer]> (r_layers s)) (<[layer := layer_key]> (r_keys s)) (r_generation s) (r_revision s) (r_ready s)
    (r_stage s) (r_layer_keys s) (r_muted s) (<[layer := empty_content]> (r_contents s)) (S (r_created s)).
Definition ensure_layer (layer_key label : string) (s : router) : router :=
  if bool_decide (is_Some (r_layers s !! layer_key)) then s else create_layer layer_key label s.

Definition managed_identifiers (s : router) : gset string := list_to_set (map snd (map_to_list (r_layers s))).
Definition active_ids (s : router) : list string := omap (fun k => r_layers s !! k) (r_layer_keys s).
Definition desired_muted (s : router) : gset string :=
  list_to_set (omap (fun k => if default false (r_muted s !! k) then r_layers s !! k else None) (r_layer_keys s)).

(** [_install_layers]; muting nothing and unmuting nothing changes nothing. *)
Definition install_layers (s : router) (st : stage_part) : stage_part :=
  match r_layer_keys s with
  | [] => st
  | _ =>
      let currently_muted := managed_identifiers s ∩ st_muted st in
      let st := mute_and_unmute ∅ (currently_muted ∖ desired_muted s) st in
      let st := mk_stage_part (replace_managed_sublayers identity (st_session st) (active_ids s) (managed_identifiers s)) (st_muted st) in
      let currently_muted := list_to_set (active_ids s) ∩ st_muted st in
      mute_and_unmute (desired_muted s ∖ currently_muted) (currently_muted ∖ desired_muted s) st
  end.

(** [_detach_layers] *)
Definition detach_layers (s : router) (st : stage_part) : stage_part :=
  let managed := managed_identifiers s in
  let st := mute_and_unmute ∅ (managed ∩ st_muted st) st in
  mk_stage_part (replace_managed_sublayers identity (st_session st) [] managed) (st_muted st).

(** [bind] to another stage (for the same stage the code returns at once); the stage
    it was bound to is left behind, detached. *)
Definition bind (st : stage_part) : M router (option stage_part) := fun s =>
  (set_stage (Some (install_layers s st)) s, Ok (detach_layers s <$> r_stage s)).
Definition close : M router (option stage_part) := fun s => (set_stage None s, Ok (detach_layers s <$> r_stage s)).

Definition install (s : router) : router :=
  match r_stage s with Some st => set_stage (Some (install_layers s st)) s | None => s end.

(** [for layer_key in removed_keys: ...] *)
Definition forget (layer_key : string) (s : router) : router :=
  match r_layers s !! layer_key with
  | Some layer => set_maps (delete layer_key (r_layers s)) (delete layer (r_keys s)) s
  | None => s
  end.
Definition removed_keys (s : router) : list string := filter (fun k => k ∉ r_layer_keys s) (map fst (map_to_list (r_layers s))).
Definition forget_removed (s : router) : router := foldl (fun s k => forget k s) s (removed_keys s).

(** The checks of [_apply_state_inner] and the flags they collect. *)
Definition read_states (items : list layer_state) : result (gmap string bool) :=
  foldR (fun muted item =>
    _ ← raise_if (bool_decide (ls_key item = "")) ValueError;
    _ ← raise_if (bool_decide (is_Some (muted !! ls_key item))) ValueError;
    Ok (<[ls_key item := ls_muted item]> muted)) ∅ items.

Definition label_of (item : layer_state) : string := if bool_decide (ls_label item = "") then ls_key item else ls_label item.

Definition apply_state_inner (state : stack_state) : M router unit := fun s =>
  match read_states (ss_layers state) with
  | Err e => (s, Err e)
  | Ok muted =>
      let s := foldl (fun s item => ensure_layer (ls_key item) (label_of item) s) s (ss_layers state) in
      let s := set_stack (map ls_key (ss_layers state)) muted s in
      (forget_removed (install s), Ok ())
  end.

(** [apply_state] of the base class *)
Definition apply_state (state : stack_state) : M router bool := fun s =>
  if (ss_revision state <? 0)%Z then (s, Err ValueError)
  else if bool_decide (ss_generation state = r_generation s) && (ss_revision state <=? r_revision s)%Z then (s, Ok false)
  else match apply_state_inner state s with
  | (s, Ok _) => (set_version (ss_generation state) (ss_revision state) true s, Ok true)
  | (s, Err e) => (s, Err e)
  end.

Definition router_init : router := mk_router ∅ ∅ "" (-1) false None [] ∅ ∅ 0.

(** The receiver-local layer of a key. *)
Definition layer_for (layer_key : string) : M router string := fun s =>
  if negb (r_ready s) then (s, Err RuntimeError)
  else if negb (bool_decide (layer_key ∈ r_layer_keys s)) then (s, Err ValueError)
  else (s, match r_layers s !! layer_key with Some layer => Ok layer | None => Err (KeyError layer_key) end).

(** [clear]: authored state goes, the stack stays. *)
Definition clear (s : router) : router :=
  set_contents (foldr (fun i c => <[i := empty_content]> c) (r_contents s) (map snd (map_to_list (r_layers s)))) s.

(** [synchronize_from] another router, which has a layer for each of its keys (the
    lookup of a missing one would raise [KeyError]) *)
Definition copy_layer (source : router) (s : router) (layer_key : string) : router :=
  let s := ensure_layer layer_key layer_key s in
  match r_layers s !! layer_key, r_layers source !! layer_key ≫= (fun i => r_contents source !! i) with
  | Some layer, Some content => set_contents (<[layer := content]> (r_contents s)) s
  | _, _ => s
  end.
Definition synchronize_from (source s : router) : router :=
  let s := foldl (copy_layer source) s (r_layer_keys source) in
  let s := forget_removed (install (set_stack (r_layer_keys source) (r_muted source) s)) in
  set_version (r_generation source) (r_revision source) (r_ready source) s.

(** [with writable(layers): body] *)
Definition writable {A} (targets : gset string) (body : M router A) : M router A := fun s =>
  match r_stage s with
  | None => (s, Err RuntimeError)
  | Some st =>
      let identifiers := targets ∩ st_muted st in
      let '(s, r) := body (set_stage (Some (mute_and_unmute ∅ identifiers st)) s) in
      (set_stage (mute_and_unmute identifiers ∅ <$> r_stage s) s, r)
  end.

(** ** Routed records *)

(** A decoded event with its layer key, [""] where it has none. *)
Record routed_event := mk_routed_event { re_layer_key : string; re_event : event }.

(** The route of a record: [None] is the session layer. *)
Definition route (record : routed_event) : M router (option string * event) :=
  if non_collaboration (re_event record) then mret (None, re_event record)
  else if bool_decide (re_layer_key record = "") then raise ValueError
  else layer ← layer_for (re_layer_key record); mret (Some layer, re_event record).

(** [apply_run(run, edit_target)] *)
Context (apply_run : list event -> option string -> M router unit).

Fixpoint run_length (layer : option string) (routed : list (option string * event)) : nat :=
  match routed with
  | (layer', _) :: routed => if bool_decide (layer' = layer) then S (run_length layer routed) else 0
  | [] => 0
  end.

(** The loop over runs; each turn takes at least one record. *)
Fixpoint apply_runs (fuel : nat) (routed : list (option string * event)) : M router unit :=
  match routed with
  | [] => mret ()
  | (layer, ev) :: rest =>
      match fuel with
      | O => raise RuntimeError
      | S fuel =>
          let n := run_length layer rest in
          _ ← apply_run (ev :: map snd (take n rest)) layer;
          apply_runs fuel (drop n rest)
      end
  end.

Definition apply_routed_records (records : list routed_event) : M router unit :=
  routed ← mapM' route records;
  writable (list_to_set (omap fst routed)) (apply_runs (length routed) routed).

(** ** Invariant *)

(** Layers the process creates are told apart by their identifiers. *)
Context (anonymous_inj : forall n m l l', anonymous n l = anonymous m l' -> n = m).

Record maps_inv (s : router) : Prop := {
  mi_inverse k i : r_layers s !! k = Some i <-> r_keys s !! i = Some k;
  mi_created k i : r_layers s !! k = Some i -> exists n l, i = anonymous n l /\ n < r_created s;
  mi_contents k i : r_layers s !! k = Some i -> is_Some (r_contents s !! i);
}.

(** The stage shows the stack: its block of the session sublayers first, in order
    and with identity offsets, and exactly the flagged layers muted. *)
Record stage_shows (s : router) (st : stage_part) : Prop := {
  sh_session : st_session st = map (fun p => (p, identity)) (active_ids s) ++ unrelated (managed_identifiers s) (st_session st);
  sh_muted : managed_identifiers s ∩ st_muted st = desired_muted s;
}.

Record router_ok (s : router) : Prop := {
  ro_maps : maps_inv s;
  ro_nodup : NoDup (r_layer_keys s);
  ro_known k : k ∈ r_layer_keys s <-> is_Some (r_layers s !! k);
  ro_flags k : is_Some (r_muted s !! k) <-> k ∈ r_layer_keys s;
  ro_stage st : r_stage s = Some st -> stage_shows s st;
}.

(** What an operation leaves alone while layers are created. *)
Record grows (s s' : router) : Prop := {
  gr_layers k i : r_layers s !! k = Some i -> r_layers s' !! k = Some i;
  gr_contents k i : r_layers s !! k = Some i -> r_contents s' !! i = r_contents s !! i;
  gr_stage : r_stage s' = r_stage s;
  gr_keys : r_layer_keys s' = r_layer_keys s;
  gr_muted : r_muted s' = r_muted s;
}.
#[local] Instance grows_preorder : PreOrder grows.
Proof.
  split; [by split|]. intros a b c [A1 A2 A3 A4 A5] [B1 B2 B3 B4 B5]. split; try congruence; [by auto|].
  intros k i Hk. rewrite (B2 k i) by auto. by apply (A2 k).
Qed.

Lemma elem_managed s i : i ∈ managed_identifiers s <-> exists k, r_layers s !! k = Some i.
Proof.
  unfold managed_identifiers. rewrite elem_of_list_to_set, list_elem_of_fmap. split.
  - intros ([k j] & -> & Hk%elem_of_map_to_list). by exists k.
  - intros [k Hk]. exists (k, i). split; [done|]. by apply elem_of_map_to_list.
Qed.

Lemma elem_active s i : i ∈ active_ids s <-> exists k, k ∈ r_layer_keys s /\ r_layers s !! k = Some i.
Proof. unfold active_ids. rewrite list_elem_of_omap. naive_solver. Qed.

Lemma elem_desired s i : i ∈ desired_muted s <-> exists k, k ∈ r_layer_keys s /\ r_layers s !! k = Some i /\ r_muted s !! k = Some true.
Proof.
  unfold desired_muted. rewrite elem_of_list_to_set, list_elem_of_omap. split.
  - intros (k & Hk & Hi). exists k. destruct (r_muted s !! k) as [[]|]; by cbn in Hi.
  - intros (k & Hk & Hi & Hm). exists k. by rewrite Hm.
Qed.

Lemma ensure_grows k label s : maps_inv s -> maps_inv (ensure_layer k label s) /\ grows s (ensure_layer k label s) /\
  forall k', is_Some (r_layers (ensure_layer k label s) !! k') <-> is_Some (r_layers s !! k') \/ k' = k.
Proof using anonymous_inj.
  intros [H1 H2 H3]. unfold ensure_layer. case_bool_decide as Hk; [split; [done|]; split; [done|]; intros k'; split; [auto|by intros [?| ->]]|].
  assert (r_layers s !! k = None) as Hn by (by apply eq_None_not_Some). unfold create_layer. set (new := anonymous (r_created s) label).
  assert (forall k', r_layers s !! k' <> Some new) as Hnew.
  { intros k' Hk'. destruct (H2 _ _ Hk') as (n & l & Heq & Hlt). apply anonymous_inj in Heq. lia. }
  split; [|split].
  - split; cbn.
    + intros k' i. rewrite !lookup_insert_Some, H1. pose proof (H1 k' new). pose proof (H1 k i). naive_solver.
    + intros k' i. rewrite lookup_insert_Some. intros [[_ <-]|[_ Hk']]; [exists (r_created s), label; split; [done|lia]|].
      destruct (H2 _ _ Hk') as (n & l & -> & Hlt). exists n, l. split; [done|lia].
    + intros k' i. rewrite lookup_insert_Some, lookup_insert_is_Some'. intros [[_ <-]|[_ Hk']]; [by left|right; by eapply H3].
  - split; cbn; try done.
    + intros k' i Hk'. rewrite lookup_insert_ne; [done|]. intros ->. congruence.
    + intros k' i Hk'. rewrite lookup_insert_ne; [done|]. intros <-. by apply (Hnew k').
  - intros k'. cbn. rewrite lookup_insert_is_Some'. naive_solver.
Qed.

Lemma ensure_all_grows (key label : layer_state -> string) items s : maps_inv s ->
  let s' := foldl (fun s item => ensure_layer (key item) (label item) s) s items in
  maps_inv s' /\ grows s s' /\ forall k, is_Some (r_layers s' !! k) <-> is_Some (r_layers s !! k) \/ k ∈ map key items.
Proof using anonymous_inj.
  revert s. induction items as [|x items IH]; intros s Hs; cbn.
  - split; [done|]. split; [done|]. intros k. rewrite elem_of_nil. tauto.
  - destruct (ensure_grows (key x) (label x) s Hs) as (Hm & Hg & Hk). destruct (IH _ Hm) as (Hm' & Hg' & Hk').
    split; [done|]. split; [by etrans|]. intros k. rewrite Hk', Hk, elem_of_cons. tauto.
Qed.

(** Forgetting keeps exactly the layers of the current stack. *)
Lemma forget_all ks s : maps_inv s -> let s' := foldl (fun s k => forget k s) s ks in
  maps_inv s' /\ (forall k, r_layers s' !! k = if bool_decide (k ∈ ks) then None else r_layers s !! k) /\
  r_contents s' = r_contents s /\ r_stage s' = r_stage s /\ r_layer_keys s' = r_layer_keys s /\ r_muted s' = r_muted s /\ r_created s' = r_created s /\
  r_generation s' = r_generation s /\ r_revision s' = r_revision s /\ r_ready s' = r_ready s.
Proof.
  revert s. induction ks as [|k ks IH]; intros s Hs; cbn.
  { split; [done|]. split; [|done]. intros k. by rewrite bool_decide_eq_false_2 by apply not_elem_of_nil. }
  assert (maps_inv (forget k s) /\ forall k', r_layers (forget k s) !! k' = if bool_decide (k' = k) then None else r_layers s !! k') as [Hf Hl].
  { unfold forget. destruct Hs as [H1 H2 H3]. destruct (r_layers s !! k) as [i|] eqn:Ek.
    - split; [split; cbn|cbn].
      + intros k' j. rewrite !lookup_delete_Some, H1. pose proof (H1 k' i). pose proof (H1 k j). pose proof (H1 k i). naive_solver.
      + intros k' j [_ Hk']%lookup_delete_Some. by eapply H2.
      + intros k' j [_ Hk']%lookup_delete_Some. by eapply H3.
      + intros k'. case_bool_decide as Hd; [subst; by rewrite lookup_delete_eq|by rewrite lookup_delete_ne].
    - split; [by split|]. intros k'. case_bool_decide as Hd; [by subst|done]. }
  destruct (IH (forget k s) Hf) as (I1 & I2 & I3 & I4 & I5 & I6 & I7 & I8 & I9 & I10). split; [done|]. split.
  - intros k'. rewrite I2, Hl. destruct (decide (k' = k)) as [->|Hne].
    + rewrite (bool_decide_eq_true_2 (k ∈ k :: ks)) by set_solver. rewrite (bool_decide_eq_true_2 (k = k)) by done. by destruct (bool_decide _).
    + rewrite (bool_decide_eq_false_2 (k' = k)) by done. do 2 case_bool_decide; set_solver.
  - rewrite I3, I4, I5, I6, I7, I8, I9, I10. unfold forget. by destruct (r_layers s !! k).
Qed.

Lemma removed_elem s k : k ∈ removed_keys s <-> k ∉ r_layer_keys s /\ is_Some (r_layers s !! k).
Proof.
  unfold removed_keys. rewrite list_elem_of_filter, list_elem_of_fmap. split; intros [Hn Hk]; (split; [done|]).
  - destruct Hk as ([k' i] & -> & Hk%elem_of_map_to_list). by exists i.
  - destruct Hk as [i Hk]. exists (k, i). split; [done|]. by apply elem_of_map_to_list.
Qed.

Lemma active_managed s i : i ∈ active_ids s -> i ∈ managed_identifiers s.
Proof. rewrite elem_active, elem_managed. naive_solver. Qed.

(** The stage after [_install_layers] of a non-empty stack. *)
Lemma install_shows s st : r_layer_keys s <> [] ->
  st_session (install_layers s st) = map (fun p => (p, identity)) (active_ids s) ++ unrelated (managed_identifiers s) (st_session st) /\
  forall i, i ∈ st_muted (install_layers s st) <-> if bool_decide (i ∈ managed_identifiers s) then i ∈ desired_muted s else i ∈ st_muted st.
Proof.
  intros Hne. unfold install_layers. destruct (r_layer_keys s) as [|k0 ks] eqn:Ek; [done|]. split.
  - cbn. rewrite replace_spec; [done|]. intros p. apply active_managed.
  - intros i. assert (i ∈ desired_muted s -> i ∈ active_ids s) as Hda by (rewrite elem_desired, elem_active; naive_solver).
    pose proof (active_managed s i) as Ham. cbn. case_bool_decide; rewrite ?elem_of_difference, ?elem_of_union, ?elem_of_difference, ?elem_of_intersection, ?elem_of_list_to_set; [|set_solver].
    destruct (decide (i ∈ desired_muted s)); destruct (decide (i ∈ st_muted st)); set_solver.
Qed.

Lemma unrelated_sub (small big : gset string) (l : list (string * Offset)) : small ⊆ big -> unrelated small (unrelated big l) = unrelated big l.
Proof. intros Hs. apply filter_all. intros x [Hx _]%list_elem_of_filter. set_solver. Qed.

(** Installing a stack all of whose layers exist, and forgetting the others. *)
Lemma settle_ok s keys mu : maps_inv s -> NoDup keys -> keys <> [] -> (forall k, k ∈ keys -> is_Some (r_layers s !! k)) ->
  (forall k, is_Some (mu !! k) <-> k ∈ keys) ->
  let s' := forget_removed (install (set_stack keys mu s)) in
  router_ok s' /\ (forall k, r_layers s' !! k = if bool_decide (k ∈ keys) then r_layers s !! k else None) /\
  r_contents s' = r_contents s /\ r_layer_keys s' = keys /\ r_muted s' = mu /\
  r_stage s' = (fun st => install_layers (set_stack keys mu s) st) <$> r_stage s /\
  r_generation s' = r_generation s /\ r_revision s' = r_revision s /\ r_ready s' = r_ready s.
Proof.
  intros Hm Hnd Hne Hk Hmu s'. set (s1 := set_stack keys mu s) in *.
  assert (r_layers (install s1) = r_layers s /\ r_keys (install s1) = r_keys s /\ r_contents (install s1) = r_contents s /\ r_created (install s1) = r_created s /\
    r_layer_keys (install s1) = keys /\ r_muted (install s1) = mu /\ r_stage (install s1) = (fun st => install_layers s1 st) <$> r_stage s /\
    r_generation (install s1) = r_generation s /\ r_revision (install s1) = r_revision s /\ r_ready (install s1) = r_ready s) as (I1 & I2 & I3 & I4 & I5 & I6 & I7 & I8 & I9 & I10).
  { unfold install. cbn. destruct (r_stage s) eqn:E; cbn; rewrite ?E; done. }
  assert (maps_inv (install s1)) as Hmi by (destruct Hm as [H1 H2 H3]; split; rewrite ?I1, ?I2, ?I3, ?I4; done).
  destruct (forget_all (removed_keys (install s1)) (install s1) Hmi) as (F1 & F2 & F3 & F4 & F5 & F6 & F7 & F8 & F9 & F10).
  fold (forget_removed (install s1)) in *. fold s' in F1, F2, F3, F4, F5, F6, F7, F8, F9, F10.
  assert (forall k, r_layers s' !! k = if bool_decide (k ∈ keys) then r_layers s !! k else None) as Hl.
  { intros k. rewrite F2, I1. pose proof (removed_elem (install s1) k) as Hr. rewrite I5, I1 in Hr. destruct (r_layers s !! k) as [i|] eqn:E1; [|by do 2 destruct (bool_decide _)].
    destruct (decide (k ∈ keys)); [rewrite (bool_decide_eq_true_2 (k ∈ keys)) by done; rewrite bool_decide_eq_false_2; [done|tauto]|].
    rewrite (bool_decide_eq_false_2 (k ∈ keys)) by done. rewrite bool_decide_eq_true_2; [done|]. apply Hr. by split. }
  split; [|rewrite F3, F4, F5, F6, F8, F9, F10; split_and!; done].
  assert (forall i, i ∈ managed_identifiers s' -> i ∈ managed_identifiers s1) as Hsub.
  { intros i. rewrite !elem_managed. intros [k Hi]. rewrite Hl in Hi. exists k. by destruct (bool_decide _). }
  assert (active_ids s' = active_ids s1) as Hact.
  { unfold active_ids. rewrite F5, I5. cbn. apply list_omap_ext, Forall_Forall2_diag, Forall_forall. intros k Hin. by rewrite Hl, bool_decide_eq_true_2. }
  assert (forall i, i ∈ desired_muted s' <-> i ∈ desired_muted s1) as Hdes.
  { intros i. rewrite !elem_desired, F5, F6, I5, I6. cbn. apply exist_proper. intros k. rewrite Hl. split; intros (A1 & A2 & A3); (split; [done|]); [rewrite bool_decide_eq_true_2 in A2 by done|rewrite bool_decide_eq_true_2 by done]; done. }
  split; [done|by rewrite F5, I5| | |].
  - intros k. rewrite F5, I5, Hl. case_bool_decide; [|split; [done|by intros []]]. split; [by auto|done].
  - intros k. rewrite F5, F6, I5, I6. apply Hmu.
  - intros st' Hst. rewrite F4, I7 in Hst. apply fmap_Some in Hst as (st & _ & ->). destruct (install_shows s1 st) as [S1 S2]; [done|]. split.
    + rewrite S1 at 1. rewrite Hact. f_equal. rewrite S1, unrelated_app, unrelated_managed.
      * cbn. symmetry. apply unrelated_sub. intros i Hi. by apply Hsub.
      * intros p Hp. rewrite <-Hact in Hp. by apply active_managed.
    + apply set_eq. intros i. rewrite elem_of_intersection, Hdes. split.
      * intros [Hi Hmt]. apply S2 in Hmt. by rewrite bool_decide_eq_true_2 in Hmt by auto.
      * intros Hi. assert (i ∈ managed_identifiers s') as Hin.
        { apply Hdes, elem_desired in Hi as (k & _ & Hi & _). apply elem_managed. by exists k. }
        split; [done|]. apply S2. by rewrite bool_decide_eq_true_2 by auto.
Qed.

(** What the check of a state collects. *)
Lemma read_states_spec items :
  match read_states items with
  | Ok mu => NoDup (map ls_key items) /\ (forall k, is_Some (mu !! k) <-> k ∈ map ls_key items) /\
             Forall (fun item => ls_key item <> "" /\ mu !! ls_key item = Some (ls_muted item)) items
  | Err e => e = ValueError /\ ~ (NoDup (map ls_key items) /\ Forall (fun item => ls_key item <> "") items)
  end.
Proof.
  assert (forall (items : list layer_state) (acc : gmap string bool),
    match foldR (fun muted item =>
      _ ← raise_if (bool_decide (ls_key item = "")) ValueError;
      _ ← raise_if (bool_decide (is_Some (muted !! ls_key item))) ValueError;
      Ok (<[ls_key item := ls_muted item]> muted)) acc items with
    | Ok mu => (forall k, k ∈ map ls_key items -> acc !! k = None) /\ NoDup (map ls_key items) /\ (forall k, is_Some (mu !! k) <-> is_Some (acc !! k) \/ k ∈ map ls_key items) /\
        (forall k b, acc !! k = Some b -> mu !! k = Some b) /\ Forall (fun item => ls_key item <> "" /\ mu !! ls_key item = Some (ls_muted item)) items
    | Err e => e = ValueError /\ ~ ((forall k, k ∈ map ls_key items -> acc !! k = None) /\ NoDup (map ls_key items) /\ Forall (fun item => ls_key item <> "") items)
    end) as Hgen.
  { clear. intros items. induction items as [|x items IH]; intros acc; cbn [foldR map].
    - split_and!; [by intros k ?%elem_of_nil|constructor| |done|constructor]. intros k. rewrite elem_of_nil. tauto.
    - destruct (decide (ls_key x = "")) as [E1|E1].
      { rewrite (bool_decide_eq_true_2 _ E1). cbn. split; [done|]. intros (_ & _ & Hf). by inversion Hf. }
      rewrite (bool_decide_eq_false_2 _ E1).
      destruct (acc !! ls_key x) as [b|] eqn:E2.
      { cbn. split; [done|]. intros (Hf & _). rewrite Hf in E2; [done|]. by left. }
      cbn. specialize (IH (<[ls_key x := ls_muted x]> acc)). destruct (foldR _ _ items) as [mu|e].
      + destruct IH as (I1 & I2 & I3 & I4 & I5). assert (ls_key x ∉ map ls_key items) as Hni.
        { intros Hin. specialize (I1 _ Hin). by rewrite lookup_insert_eq in I1. }
        split_and!.
        * intros k [->|Hk]%elem_of_cons; [done|]. specialize (I1 k Hk). by apply lookup_insert_None in I1 as [? _].
        * by constructor.
        * intros k. rewrite I3, lookup_insert_is_Some', elem_of_cons. naive_solver.
        * intros k b Hk. apply I4. rewrite lookup_insert_ne; [done|]. intros <-. congruence.
        * constructor; [|done]. split; [done|]. apply I4. by rewrite lookup_insert_eq.
      + destruct IH as [-> IH]. split; [done|]. intros (H1 & H2 & H3). apply NoDup_cons in H2 as [H2 H2']. inversion H3; subst. apply IH. split_and!; [|done..].
        intros k Hk. rewrite lookup_insert_ne; [apply H1; by right|]. by intros <-. }
  specialize (Hgen items ∅). unfold read_states. destruct (foldR _ ∅ items) as [mu|e].
  - destruct Hgen as (_ & H2 & H3 & _ & H5). split_and!; [done| |done]. intros k. rewrite H3, lookup_empty. split; [by intros [[]|]|by right].
  - destruct Hgen as [-> Hn]. split; [done|]. intros [H1 H2]. apply Hn. split_and!; [|done..]. intros k _. apply lookup_empty.
Qed.

Definition shows_state (s : router) (m : stack_state) : Prop :=
  r_ready s = true /\ r_generation s = ss_generation m /\ r_revision s = ss_revision m /\ r_layer_keys s = map ls_key (ss_layers m) /\
  forall item, item ∈ ss_layers m -> r_muted s !! ls_key item = Some (ls_muted item).

(** A message a receiver can take: distinct, named layers, at least one of them. *)
Definition state_fits (m : stack_state) : Prop :=
  NoDup (map ls_key (ss_layers m)) /\ Forall (fun item => ls_key item <> "") (ss_layers m) /\ ss_layers m <> [] /\ (0 <= ss_revision m)%Z.

Lemma apply_state_spec m s : maps_inv s -> ss_layers m <> [] ->
  match apply_state m s with
  | (s', Ok true) => router_ok s' /\ shows_state s' m /\ (r_generation s <> ss_generation m \/ (r_revision s < ss_revision m)%Z) /\
      (forall k i, k ∈ map ls_key (ss_layers m) -> r_layers s !! k = Some i -> r_layers s' !! k = Some i /\ r_contents s' !! i = r_contents s !! i)
  | (s', Ok false) => s' = s /\ r_generation s = ss_generation m /\ (ss_revision m <= r_revision s)%Z
  | (s', Err e) => e = ValueError /\ s' = s /\ ~ state_fits m
  end.
Proof using anonymous_inj.
  intros Hm Hne. unfold apply_state. destruct (Z.ltb_spec (ss_revision m) 0); [split; [done|]; split; [done|]; intros (_ & _ & _ & ?); lia|].
  destruct (bool_decide _ && _) eqn:Eg.
  { apply andb_prop in Eg as [Eg1 Eg2]. apply bool_decide_eq_true in Eg1. split_and!; [done..|lia]. }
  unfold apply_state_inner. pose proof (read_states_spec (ss_layers m)) as Hr. destruct (read_states (ss_layers m)) as [mu|e].
  2: { destruct Hr as [-> Hr]. split_and!; [done..|]. intros (H1 & H2 & _). by apply Hr. }
  destruct Hr as (R1 & R2 & R3). destruct (ensure_all_grows ls_key label_of (ss_layers m) s Hm) as (G1 & G2 & G3).
  set (s1 := foldl _ s (ss_layers m)) in *.
  destruct (settle_ok s1 (map ls_key (ss_layers m)) mu) as (K1 & K2 & K3 & K4 & K5 & K6 & K7 & K8 & K9); [done|done|by destruct (ss_layers m)|intros k Hk; apply G3; by right|done|].
  set (s2 := forget_removed _) in *. split_and!.
  - destruct K1 as [O1 O2 O3 O4 O5]. split; cbn; try done. + destruct O1; by split. + intros st Hst. destruct (O5 st Hst). by split.
  - split_and!; cbn; [done..|]. intros item Hin. rewrite K5. rewrite Forall_forall in R3. by apply R3.
  - apply andb_false_iff in Eg as [Eg|Eg]; [left; apply bool_decide_eq_false in Eg; congruence|right; lia].
  - intros k i Hk Hi. cbn. rewrite K2, K3, bool_decide_eq_true_2 by done. split; [by apply (gr_layers _ _ G2)|by apply (gr_contents _ _ G2 k)].
Qed.

(** ** Operations *)

Lemma install_ok s st : router_ok s -> stage_shows s (install_layers s st).
Proof.
  intros [O1 O2 O3 O4 O5]. destruct (r_layer_keys s) as [|k0 ks] eqn:Ek.
  - assert (r_layers s = ∅) as Hl by (apply map_empty; intros k; apply eq_None_not_Some; intros Hk; apply O3 in Hk; by apply elem_of_nil in Hk).
    assert (managed_identifiers s = ∅) as Hm by (unfold managed_identifiers; by rewrite Hl, map_to_list_empty).
    unfold install_layers. rewrite Ek. split.
    + unfold active_ids. rewrite Ek, Hm. cbn. symmetry. by apply filter_all.
    + rewrite Hm. unfold desired_muted. rewrite Ek. cbn. set_solver.
  - destruct (install_shows s st) as [S1 S2]; [by rewrite Ek|]. split.
    + rewrite S1 at 1. f_equal. rewrite S1, unrelated_app, unrelated_managed by (intros p; apply active_managed). cbn. by rewrite unrelated_twice.
    + apply set_eq. intros i. rewrite elem_of_intersection. split.
      * intros [Hi Hmt]. apply S2 in Hmt. by rewrite bool_decide_eq_true_2 in Hmt.
      * intros Hi. assert (i ∈ managed_identifiers s) as Hin by (apply elem_desired in Hi as (k & _ & Hi & _); apply elem_managed; by exists k).
        split; [done|]. apply S2. by rewrite bool_decide_eq_true_2.
Qed.

(** Calls on the router; a source is another well-formed router with layers. *)
Inductive router_call : Type :=
  | ApplyState (m : stack_state)
  | Bind (st : stage_part)
  | Close
  | Clear
  | SynchronizeFrom (source : router).
Definition run_call (c : router_call) : M router unit :=
  match c with
  | ApplyState m => _ ← apply_state m; mret ()
  | Bind st => _ ← bind st; mret ()
  | Close => _ ← close; mret ()
  | Clear => modify clear
  | SynchronizeFrom source => modify (synchronize_from source)
  end.
Definition call_fits (c : router_call) : Prop :=
  match c with
  | ApplyState m => ss_layers m <> []
  | SynchronizeFrom source => router_ok source /\ r_layer_keys source <> []
  | _ => True
  end.

Lemma copy_all source keys s : maps_inv s -> (forall k, k ∈ keys -> exists i, r_layers source !! k = Some i /\ is_Some (r_contents source !! i)) ->
  let s' := foldl (copy_layer source) s keys in
  maps_inv s' /\ (forall k, k ∈ keys -> is_Some (r_layers s' !! k)) /\ (forall k, is_Some (r_layers s !! k) -> is_Some (r_layers s' !! k)).
Proof using anonymous_inj.
  revert s. induction keys as [|k keys IH]; intros s Hs Hsrc; cbn; [split; [done|]; split; [by intros k ?%elem_of_nil|done]|].
  assert (maps_inv (copy_layer source s k) /\ forall k', is_Some (r_layers (copy_layer source s k) !! k') <-> is_Some (r_layers s !! k') \/ k' = k) as [Hc Hk].
  { destruct (ensure_grows k k s Hs) as (E1 & E2 & E3). unfold copy_layer. destruct (Hsrc k) as (i & -> & [c Hcont]); [by left|]. cbn [mbind option_bind]. rewrite Hcont.
    destruct (r_layers (ensure_layer k k s) !! k) as [j|] eqn:Ej; [|done]. split; [|exact E3]. destruct E1 as [M1 M2 M3]. split; cbn; [done|done|].
    intros k' i' Hk'. rewrite lookup_insert_is_Some'. right. by eapply M3. }
  destruct (IH (copy_layer source s k) Hc) as (I1 & I2 & I3); [intros k' Hk'; apply Hsrc; by right|]. split; [done|]. split.
  - intros k' [->|Hk']%elem_of_cons; [apply I3, Hk; by right|by apply I2].
  - intros k' Hk'. apply I3, Hk. by left.
Qed.

Lemma ok_version g r b s : router_ok s -> router_ok (set_version g r b s).
Proof. intros [[M1 M2 M3] O2 O3 O4 O5]. split; cbn; [by split|done..|]. intros st Hst. destruct (O5 st Hst). by split. Qed.

Lemma call_keeps c s : call_fits c -> router_ok s -> router_ok (run_call c s).1.
Proof using anonymous_inj.
  intros Hc Hok. pose proof Hok as [O1 O2 O3 O4 O5]. destruct c as [m|st| | |source]; unfold run_call, mbind, M_bind; cbn.
  - pose proof (apply_state_spec m s O1 Hc) as Hs. destruct (apply_state m s) as [s1 [[]|e]]; cbn; [apply Hs|by destruct Hs as [-> _]|by destruct Hs as (_ & -> & _)].
  - split; cbn; try done; [by destruct O1; split|]. intros st' [= <-]. destruct (install_ok s st Hok). by split.
  - split; cbn; try done. by destruct O1; split.
  - destruct O1 as [M1 M2 M3]. split; cbn; try done; [|intros st Hst; destruct (O5 st Hst); by split]. split; cbn; [done|done|].
    intros k i Hk. apply M3 in Hk. induction (map snd _) as [|j l IH]; cbn; [done|]. rewrite lookup_insert_is_Some'. by right.
  - destruct Hc as [[S1 S2 S3 S4 S5] Hne]. apply ok_version. destruct (copy_all source (r_layer_keys source) s O1) as (C1 & C2 & C3).
    { intros k Hk. apply S3 in Hk as [i Hi]. exists i. split; [done|]. by eapply S1. }
    destruct (settle_ok (foldl (copy_layer source) s (r_layer_keys source)) (r_layer_keys source) (r_muted source)) as [K1 _]; done.
Qed.

Lemma router_init_ok : router_ok router_init.
Proof.
  split; cbn; [|constructor| | |done].
  - split; cbn; intros k i; rewrite !lookup_empty; naive_solver.
  - intros k. rewrite lookup_empty, elem_of_nil. split; [done|by intros []].
  - intros k. rewrite lookup_empty, elem_of_nil. split; [by intros []|done].
Qed.

(** Whatever states arrive and however the router is bound, rebound, cleared,
    closed or synchronised from another one, keys and layers stay in bijection, every
    key of the stack has a layer, forgotten layers leave no key behind, and a bound
    stage shows exactly the stack: its layers come first in the session, in order and
    with identity offsets, only sublayers that are not its own follow, and of its
    layers exactly the flagged ones are muted. *)
Theorem router_stays_ok calls : Forall call_fits calls ->
  router_ok (foldl (fun s c => (run_call c s).1) router_init calls).
Proof using anonymous_inj.
  intros Hf. generalize router_init_ok. generalize router_init. induction Hf as [|c calls Hc Hf IH]; intros s Hs; [done|]. cbn. by apply IH, call_keeps.
Qed.

(** ** Following the server's stack *)

Lemma step_named {O} `{EqDecision O} (o0 : O) (a b : stack) : stack_step o0 a b -> layers a !! "" = None -> layers b !! "" = None.
Proof.
  intros (o & _ & ->) Hn. unfold run_op, mbind, M_bind. destruct o as [k l n|ks|k b'|k]; cbn.
  - unfold LayerStack.ensure_layer. case_bool_decide as Hk; [done|]. destruct (layers a !! k); [done|]. cbn. by rewrite lookup_insert_ne.
  - unfold set_order. repeat (case_bool_decide; [done|]). done.
  - unfold set_muted. destruct (layers a !! k); [|done]. by case_bool_decide.
  - unfold remove_layer. case_bool_decide; [done|]. destruct (layers a !! k); [|done]. cbn. by rewrite lookup_delete_None; right.
Qed.

Lemma state_message_fits {O} `{EqDecision O} (o0 : O) (a : stack) : stack_ok o0 a -> layers a !! "" = None -> (0 <= revision a)%Z ->
  state_fits (LayerStack.state a) /\ map ls_key (ss_layers (LayerStack.state a)) = order a.
Proof.
  intros [Hm _] Hn Hr. assert (map ls_key (ss_layers (LayerStack.state a)) = order a) as He by (cbn; rewrite map_map; apply map_id).
  split; [|done]. split; [rewrite He; apply Hm|]. split; [|split; [|done]].
  - apply Forall_forall. intros item Hin Hk. assert ("" ∈ order a) as Hin'; [|apply (order_complete _ Hm) in Hin'; rewrite Hn in Hin'; by destruct Hin'].
    rewrite <-He, <-Hk. by apply list_elem_of_fmap_2.
  - intros Hnil. assert (order a = []) as Ho by (by rewrite <-He, Hnil). pose proof (order_last _ Hm) as Hl. by rewrite Ho in Hl.
Qed.

(** The router shows the newest of the states it was given. *)
Definition shows_newest (seen : list stack_state) (s : router) : Prop :=
  router_ok s /\ exists m, m ∈ seen /\ shows_state s m /\ forall m', m' ∈ seen -> (ss_revision m' <= ss_revision m)%Z.

Lemma apply_newest g m seen s : state_fits m -> ss_generation m = g -> (forall m', m' ∈ seen -> ss_generation m' = g) ->
  (seen = [] /\ maps_inv s /\ r_generation s <> g) \/ shows_newest seen s ->
  exists s' b, apply_state m s = (s', Ok b) /\ shows_newest (m :: seen) s'.
Proof using anonymous_inj.
  intros Hfit Hg Hseen Hs. pose proof Hfit as (_ & _ & Hne & _).
  assert (maps_inv s) as Hm by (destruct Hs as [(_ & ? & _)|[[? _ _ _ _] _]]; done).
  pose proof (apply_state_spec m s Hm Hne) as Ha. destruct (apply_state m s) as [s1 [b|e]]; [|by destruct Ha as (_ & _ & Ha); destruct (Ha Hfit)].
  exists s1, b. split; [done|]. destruct b.
  - destruct Ha as (Hok & Hsh & Hnew & _). split; [done|]. exists m. split; [by left|]. split; [done|]. intros m' [->|Hin]%elem_of_cons; [done|].
    destruct Hs as [(-> & _)|(_ & m0 & Hin0 & (_ & G0 & R0 & _) & Hmax)]; [by apply elem_of_nil in Hin|].
    specialize (Hmax m' Hin). destruct Hnew as [Hnew|Hnew]; [|lia]. destruct Hnew. rewrite G0, Hg. by apply Hseen.
  - destruct Ha as (-> & G1 & R1). destruct Hs as [(_ & _ & Hs)|(Hok & m0 & Hin0 & Hsh & Hmax)]; [by destruct Hs; rewrite G1|].
    split; [done|]. exists m0. split; [by right|]. split; [done|]. intros m' [->|Hin]%elem_of_cons; [|by apply Hmax]. destruct Hsh as (_ & _ & R0 & _). lia.
Qed.

Lemma apply_all_newest g msgs s : Forall (fun m => state_fits m /\ ss_generation m = g) msgs -> msgs <> [] -> maps_inv s -> r_generation s <> g ->
  exists s', iterM (fun m => _ ← apply_state m; mret ()) msgs s = (s', Ok ()) /\ router_ok s' /\
    exists m, m ∈ msgs /\ shows_state s' m /\ forall m', m' ∈ msgs -> (ss_revision m' <= ss_revision m)%Z.
Proof using anonymous_inj.
  intros Hf Hne Hm Hgen.
  assert (forall seen s, (forall m', m' ∈ seen -> ss_generation m' = g) -> (seen = [] /\ maps_inv s /\ r_generation s <> g) \/ shows_newest seen s ->
    exists s', iterM (fun m => _ ← apply_state m; mret ()) msgs s = (s', Ok ()) /\ ((seen = [] /\ msgs = [] ) \/ shows_newest (rev msgs ++ seen) s')) as Hgo.
  { clear Hne Hm Hgen s. induction Hf as [|m msgs [Hf Hg] _ IH]; intros seen s Hseen Hs.
    - exists s. split; [done|]. destruct Hs as [(-> & _)|Hs]; [by left|by right].
    - destruct (apply_newest g m seen s Hf Hg Hseen Hs) as (s1 & b & E1 & Hs1). destruct (IH (m :: seen) s1) as (s2 & E2 & Hs2); [|by right|].
      + intros m' [->|Hin]%elem_of_cons; [done|by apply Hseen].
      + exists s2. split; [cbn [iterM]; unfold mbind, M_bind in *; by rewrite E1|]. right. destruct Hs2 as [[? _]|Hs2]; [done|]. cbn. by rewrite <-app_assoc. }
  destruct (Hgo [] s) as (s' & E1 & Hs'); [by intros m' ?%elem_of_nil|by left|]. exists s'. split; [done|]. destruct Hs' as [[_ ->]|(Hok & m & Hin & Hsh & Hmax)]; [done|].
  rewrite app_nil_r in Hin, Hmax. assert (forall x, x ∈ rev msgs <-> x ∈ msgs) as Hrev by (intros x; rewrite !list_elem_of_In; symmetry; apply in_rev).
  split; [done|]. exists m. split_and!; [by apply Hrev|done|]. intros m' Hin'. by apply Hmax, Hrev.
Qed.

(** C28: A receiver that is sent the states of the server's layer stack, each any
    number of times and in any order, the current one among them, never fails and
    shows the current stack: its layers in the server's order and muted as there. *)
Theorem receiver_shows_current_stack {O} `{EqDecision O} (o0 : O) (s0 now : stack) hist msgs (r : router) :
  stack_ok o0 s0 -> layers s0 !! "" = None -> (0 <= revision s0)%Z ->
  StronglySorted (rtc (stack_step o0)) (s0 :: hist) -> last (s0 :: hist) = Some now ->
  (forall m, m ∈ msgs -> m ∈ map LayerStack.state (s0 :: hist)) -> LayerStack.state now ∈ msgs ->
  maps_inv r -> r_generation r <> generation s0 ->
  exists r', iterM (fun m => _ ← apply_state m; mret ()) msgs r = (r', Ok ()) /\ router_ok r' /\ r_layer_keys r' = order now /\
    forall k layer, layers now !! k = Some layer -> r_muted r' !! k = Some (bool_decide (layer ∈ muted now)).
Proof using anonymous_inj.
  intros Hok Hn Hr Hsort Hlast Hmsgs Hnow Hm Hg.
  assert (forall x, x ∈ s0 :: hist -> rtc (stack_step o0) s0 x) as Hfrom.
  { apply StronglySorted_inv in Hsort as [_ Hall]. rewrite Forall_forall in Hall. by intros x [->|Hx]%elem_of_cons; [|apply Hall]. }
  assert (forall x, x ∈ s0 :: hist -> stack_ok o0 x /\ layers x !! "" = None /\ generation x = generation s0 /\ (0 <= revision x)%Z) as Hx.
  { intros x Hin. specialize (Hfrom x Hin). destruct (stack_run_ok o0 s0 x Hok Hfrom) as (H1 & _ & H2 & H3 & _). split; [done|]. split; [|split; [done|lia]].
    clear -Hfrom Hn. induction Hfrom as [|a b c Hab _ IH]; [done|]. apply IH. by eapply step_named. }
  assert (forall x, x ∈ s0 :: hist -> rtc (stack_step o0) x now) as Hto.
  { clear -Hsort Hlast. induction Hsort as [|a l Hsort IH Hall]; [by intros x ?%elem_of_nil|]. intros x [->|Hin]%elem_of_cons.
    - destruct l as [|b l]; [by injection Hlast as ->|]. rewrite last_cons_cons in Hlast. rewrite Forall_forall in Hall. apply Hall. by apply last_Some_elem_of.
    - destruct l as [|b l]; [by apply elem_of_nil in Hin|]. rewrite last_cons_cons in Hlast. by apply IH. }
  destruct (apply_all_newest (generation s0) msgs r) as (r' & E1 & Hok' & m & Hin & Hsh & Hmax); [|by intros ->; apply elem_of_nil in Hnow|done|done|].
  { apply Forall_forall. intros m Hin. apply Hmsgs, list_elem_of_fmap in Hin as (x & -> & Hin). destruct (Hx x Hin) as (H1 & H2 & H3 & H4).
    destruct (state_message_fits o0 x H1 H2 H4). split; [done|]. exact H3. }
  exists r'. split; [done|]. split; [done|]. pose proof (Hmsgs m Hin) as Hm'. apply list_elem_of_fmap in Hm' as (x & -> & Hinx).
  destruct (Hx x Hinx) as (H1 & H2 & H3 & H4). destruct (stack_run_ok o0 x now H1 (Hto x Hinx)) as (N1 & _ & _ & N3 & N4).
  assert (revision now = revision x) as Heq by (specialize (Hmax _ Hnow); cbn in Hmax; lia). specialize (N4 Heq). rewrite <-N4 in Hsh.
  destruct Hsh as (_ & _ & _ & K4 & K5). split; [rewrite K4; cbn; rewrite map_map; apply map_id|]. intros k layer Hk. destruct N1 as [Nm _].
  assert (k ∈ order now) as Hko by (apply (order_complete _ Nm); by rewrite Hk).
  assert (mk_layer_state k (default "" (labels now !! k)) (bool_decide (layer ∈ muted now)) ∈ ss_layers (LayerStack.state now)) as Hit.
  { cbn. apply list_elem_of_fmap. exists k. by rewrite Hk. }
  by apply K5 in Hit.
Qed.

(** ** Routed records *)

(** The runs: consecutive records with one target. *)
Fixpoint runs (routed : list (option string * event)) : list (option string * list event) :=
  match routed with
  | [] => []
  | (layer, ev) :: rest =>
      match runs rest with
      | (layer', evs) :: groups => if bool_decide (layer' = layer) then (layer, ev :: evs) :: groups else (layer, [ev]) :: (layer', evs) :: groups
      | [] => [(layer, [ev])]
      end
  end.

Lemma runs_cons layer ev rest :
  runs ((layer, ev) :: rest) = (layer, ev :: map snd (take (run_length layer rest) rest)) :: runs (drop (run_length layer rest) rest).
Proof.
  revert layer ev. induction rest as [|[layer' ev'] rest IH]; intros layer ev; [done|]. cbn [runs run_length]. specialize (IH layer' ev'). cbn [runs] in IH.
  case_bool_decide as Hl.
  - subst layer'. cbn [take drop map]. rewrite IH. cbn. by rewrite bool_decide_eq_true_2.
  - cbn [take drop map]. rewrite IH. cbn [run_length]. rewrite bool_decide_eq_false_2 by done. f_equal. cbn [runs]. by rewrite IH.
Qed.

Lemma apply_runs_spec fuel routed s : length routed <= fuel -> apply_runs fuel routed s = iterM (fun run => apply_run run.2 run.1) (runs routed) s.
Proof.
  revert routed s. induction fuel as [|fuel IH]; intros [|[layer ev] rest] s Hl; cbn in Hl; [done|lia|done|].
  rewrite runs_cons. cbn [apply_runs iterM fst snd]. unfold mbind, M_bind. destruct (apply_run _ layer s) as [s1 [[]|e]]; [|done].
  apply IH. rewrite length_drop. lia.
Qed.

(** The target of a record, if it has one. *)
Definition target (s : router) (record : routed_event) : option (option string) :=
  if non_collaboration (re_event record) then Some None
  else if bool_decide (re_layer_key record = "") || negb (r_ready s) || negb (bool_decide (re_layer_key record ∈ r_layer_keys s)) then None
  else Some <$> r_layers s !! re_layer_key record.

Lemma route_spec record s : match target s record with
  | Some layer => route record s = (s, Ok (layer, re_event record))
  | None => exists e, route record s = (s, Err e)
  end.
Proof.
  unfold target, route, layer_for. destruct (non_collaboration _); [done|]. case_bool_decide; cbn; [by eexists|]. unfold mbind, M_bind.
  destruct (negb (r_ready s)); cbn; [by eexists|]. destruct (negb (bool_decide _)); cbn; [by eexists|]. destruct (r_layers s !! _); cbn; [done|by eexists].
Qed.

Lemma routes_spec records s : match mapM (target s) records with
  | Some layers => mapM' route records s = (s, Ok (zip layers (map re_event records)))
  | None => exists e, mapM' route records s = (s, Err e)
  end.
Proof.
  induction records as [|r records IH]; [done|]. cbn. unfold mbind, M_bind, option_bind. pose proof (route_spec r s) as Hr. destruct (target s r) as [layer|].
  - rewrite Hr. destruct (mapM (target s) records) as [layers|]; cbn; [by rewrite IH|]. destruct IH as [e ->]. by eexists.
  - destruct Hr as [e ->]. by eexists.
Qed.

(** A batch of routed records is applied all at its own layers or not at all: if
    one of them names no known layer nothing is applied; otherwise the runs of
    consecutive records with one target are applied in order, the records in order
    within each, while every target is unmuted, and whether or not an application
    fails the stage mutes in the end exactly the layers it did before. *)
Theorem routed_records_applied_in_order records s st :
  r_stage s = Some st -> (forall run layer s1, st_muted <$> r_stage (apply_run run layer s1).1 = st_muted <$> r_stage s1) ->
  match mapM (target s) records with
  | None => exists e, apply_routed_records records s = (s, Err e)
  | Some layers =>
      let targets : gset string := list_to_set (omap id layers) in
      let '(s1, r1) := iterM (fun run => apply_run run.2 run.1) (runs (zip layers (map re_event records)))
                         (set_stage (Some (mk_stage_part (st_session st) (st_muted st ∖ targets))) s) in
      exists s2, apply_routed_records records s = (s2, r1) /\ s2 = set_stage (r_stage s2) s1 /\
        st_session <$> r_stage s2 = st_session <$> r_stage s1 /\ st_muted <$> r_stage s2 = Some (st_muted st)
  end.
Proof.
  intros Hst Hkeep. assert (apply_routed_records records s = match mapM' route records s with
    | (s1, Ok routed) => writable (list_to_set (omap fst routed)) (apply_runs (length routed) routed) s1
    | (s1, Err e) => (s1, Err e) end) as -> by done.
  pose proof (routes_spec records s) as Hr.
  destruct (mapM (target s) records) as [layers|] eqn:Em; [|destruct Hr as [e ->]; by eexists]. rewrite Hr. cbn zeta.
  assert (length layers = length (map re_event records)) as Hlen by (apply length_mapM in Em; by rewrite length_map).
  assert (omap fst (zip layers (map re_event records)) = omap id layers) as ->.
  { clear -Hlen. revert layers Hlen. induction (map re_event records) as [|e es IH]; intros [|l ls] Hlen; cbn in *; try done. injection Hlen as Hlen. specialize (IH ls Hlen).
    destruct l; cbn; by rewrite IH. }
  set (targets := list_to_set (omap id layers)). unfold writable. rewrite Hst.
  assert (mute_and_unmute ∅ (targets ∩ st_muted st) st = mk_stage_part (st_session st) (st_muted st ∖ targets)) as ->.
  { unfold mute_and_unmute. f_equal. set_solver. }
  set (s0 := set_stage _ s). rewrite apply_runs_spec by lia.
  assert (forall l x, st_muted <$> r_stage (iterM (fun run => apply_run run.2 run.1) l x).1 = st_muted <$> r_stage x) as Hk.
  { intros l. induction l as [|run l IH]; intros x; [done|]. cbn. unfold mbind, M_bind. specialize (Hkeep run.2 run.1 x).
    destruct (apply_run run.2 run.1 x) as [x1 [[]|e]]; cbn in *; [by rewrite IH|done]. }
  specialize (Hk (runs (zip layers (map re_event records))) s0). destruct (iterM _ _ s0) as [s1 r1]. cbn in Hk. eexists. split; [done|].
  destruct (r_stage s1) as [st1|] eqn:E1; [|done]. cbn in Hk. injection Hk as Hk. cbn. split; [done|]. split; [done|]. f_equal. rewrite Hk.
  apply set_eq. intros i. destruct (decide (i ∈ targets)); destruct (decide (i ∈ st_muted st)); set_solver.
Qed.
End router.

(** ** A receiver at work *)

Definition demo_anonymous (n : nat) (label : string) : string := "receiver:" +:+ pretty n.
Lemma demo_anonymous_inj n m (l l' : string) : demo_anonymous n l = demo_anonymous m l' -> n = m.
Proof. unfold demo_anonymous. intros H. by apply (inj (String.append "receiver:")), (inj pretty) in H. Qed.

Definition demo_second : stack := (run_op 0%Z demo_ensure demo_stack).1.
Definition demo_third : stack := (run_op 0%Z (SetMuted "department:anim" true) demo_second).1.
Abbreviation demo_router_t := (router (Offset := Z) (C := list event)).
Definition demo_stage : stage_part (Offset := Z) := mk_stage_part [("mine.usda", 3%Z)] ∅.
Abbreviation demo_calls := ([ApplyState (C := list event) (state demo_second); Bind demo_stage; ApplyState (state demo_third); Clear]).
Definition demo_router : demo_router_t := foldl (fun s c => (run_call 0%Z (@nil event) demo_anonymous c s).1) router_init demo_calls.

Lemma router_stays_ok_witness : router_ok 0%Z demo_anonymous demo_router /\
  r_stage demo_router = Some (mk_stage_part [("receiver:0", 0%Z); ("receiver:1", 0%Z); ("mine.usda", 3%Z)] {["receiver:0"]}).
Proof.
  split; [|by vm_compute]. apply (router_stays_ok 0%Z (@nil event) demo_anonymous demo_anonymous_inj demo_calls).
  repeat constructor; vm_compute; congruence.
Defined.

Lemma demo_second_step : stack_step 0%Z demo_stack demo_second.
Proof. exists demo_ensure. split; [apply demo_fresh|done]. Qed.
Lemma demo_third_step : stack_step 0%Z demo_second demo_third.
Proof. by exists (SetMuted "department:anim" true). Qed.

Lemma receiver_shows_current_stack_witness :
  exists r', iterM (fun m => _ ← apply_state 0%Z (@nil event) demo_anonymous m; mret ()) [state demo_third; state demo_stack; state demo_second; state demo_third] (router_init : demo_router_t) = (r', Ok ()) /\
    r_layer_keys r' = ["department:anim"; "default"] /\ r_muted r' !! "department:anim" = Some true.
Proof.
  destruct (receiver_shows_current_stack 0%Z (@nil event) demo_anonymous demo_anonymous_inj 0%Z demo_stack demo_third [demo_second; demo_third]
    [state demo_third; state demo_stack; state demo_second; state demo_third] router_init) as (r' & E1 & _ & K1 & K2).
  - apply demo_stack_ok.
  - by vm_compute.
  - by vm_compute.
  - apply SSorted_cons; [apply SSorted_cons; [apply SSorted_cons; [apply SSorted_nil|apply Forall_nil_2]|]|].
    + apply Forall_cons_2; [apply rtc_once, demo_third_step|apply Forall_nil_2].
    + apply Forall_cons_2; [apply rtc_once, demo_second_step|]. apply Forall_cons_2; [|apply Forall_nil_2].
      eapply rtc_l; [apply demo_second_step|apply rtc_once, demo_third_step].
  - done.
  - set_solver.
  - set_solver.
  - apply (router_init_ok 0%Z).
  - by vm_compute.
  - exists r'. split; [exact E1|]. split; [rewrite K1; by vm_compute|]. rewrite (K2 "department:anim" "anon:2") by (by vm_compute). by vm_compute.
Defined.

(** Applying a run adds its events to the target. *)
Definition demo_apply (run : list event) (layer : option string) : M demo_router_t unit := fun s =>
  match layer with
  | Some layer => (set_contents (<[layer := default [] (r_contents s !! layer) ++ run]> (r_contents s)) s, Ok ())
  | None => (s, Ok ())
  end.
Definition demo_routed (layer_key prim : string) : routed_event :=
  mk_routed_event layer_key ({["k" := PStr "set_visibility"]} ∪ {["prim" := PStr prim]}).
Definition demo_records : list routed_event :=
  [demo_routed "default" "/A"; demo_routed "department:anim" "/B"; demo_routed "department:anim" "/C"; demo_routed "default" "/D"].

Lemma routed_records_applied_in_order_witness :
  let s2 := (apply_routed_records demo_apply demo_records demo_router).1 in
  (apply_routed_records demo_apply demo_records demo_router).2 = Ok () /\
  r_contents s2 !! "receiver:0" = Some [re_event (demo_routed "" "/B"); re_event (demo_routed "" "/C")] /\
  r_contents s2 !! "receiver:1" = Some [re_event (demo_routed "" "/A"); re_event (demo_routed "" "/D")] /\
  st_muted <$> r_stage s2 = Some {["receiver:0"]} /\
  (apply_routed_records demo_apply (demo_records ++ [demo_routed "gone" "/E"]) demo_router).1 = demo_router.
Proof.
  pose proof (routed_records_applied_in_order demo_apply demo_records demo_router
    (mk_stage_part [("receiver:0", 0%Z); ("receiver:1", 0%Z); ("mine.usda", 3%Z)] {["receiver:0"]}) ltac:(by vm_compute) ltac:(by intros run [l|] s1)) as K.
  pose proof (routed_records_applied_in_order demo_apply (demo_records ++ [demo_routed "gone" "/E"]) demo_router
    (mk_stage_part [("receiver:0", 0%Z); ("receiver:1", 0%Z); ("mine.usda", 3%Z)] {["receiver:0"]}) ltac:(by vm_compute) ltac:(by intros run [l|] s1)) as K'.
  assert (mapM (target demo_router) (demo_records ++ [demo_routed "gone" "/E"]) = None) as E' by (by vm_compute). rewrite E' in K'. destruct K' as [e K'].
  assert (mapM (target demo_router) demo_records = Some [Some "receiver:1"; Some "receiver:0"; Some "receiver:0"; Some "receiver:1"]) as E by (by vm_compute).
  rewrite E in K. cbn zeta in K. destruct (iterM _ _ _) as [s1 r1] eqn:E1 in K. destruct K as (s2 & E2 & K1 & _ & K3).
  match type of E1 with ?x = _ => assert (x.2 = Ok ()) as H0 by (by vm_compute);
    assert (r_contents x.1 !! "receiver:0" = Some [re_event (demo_routed "" "/B"); re_event (demo_routed "" "/C")]) as H1 by (by vm_compute);
    assert (r_contents x.1 !! "receiver:1" = Some [re_event (demo_routed "" "/A"); re_event (demo_routed "" "/D")]) as H2 by (by vm_compute) end.
  rewrite E1 in H0, H1, H2. cbn [fst snd] in H0, H1, H2. subst r1. rewrite E2. cbn [fst snd].
  assert (r_contents s2 = r_contents s1) as -> by (by rewrite K1). split; [done|]. split; [exact H1|]. split; [exact H2|]. split; [exact K3|]. by rewrite K'.
Defined.
