(* ===== verification/Tokens.v ===== *)
(** * Tokens: trust-on-first-use authentication
    ([openusdconnect/token_store.py], [UsdSyncServer.authenticate] of
    [server/state.py], [token_client.py], [ClientCredential] of [_client_utils.py])

    The server keeps one token per client id and issues it to whoever connects
    first under that id.  Each call on the store is atomic (its lock), the sequence
    of calls of one [authenticate] is not: connections are threads.  [token n] is
    the [n]-th random token, assumed never to repeat; times are the clock's readings.

    Theorems: once a client id has a token and no first connection is in flight,
    exactly the holders of that token are accepted, whatever happens concurrently;
    and three ways in which the rightful client loses its access. *)

From stdpp Require Import pretty.
From S2P Require Import Prelude.
#[local] Set Default Proof Using "Type".
#[local] Set Proof Using Clear Unused.

(** A row of the table [tokens], without its primary key. *)
Record token_row := mk_token_row { tk_token : string; tk_department : option string; tk_created : Z; tk_last_seen : Z }.

(** ** The store *)

Section tokens.
Context (token : nat -> string).

Record token_store := mk_token_store { rows : gmap string token_row; issued_count : nat }.

Definition issue (client_id : string) (department : option string) (now : Z) (s : token_store) : token_store * string :=
  let t := token (issued_count s) in
  (mk_token_store (<[client_id := mk_token_row t department now now]> (rows s)) (S (issued_count s)), t).

(** [compare_digest] of ASCII texts; of others it raises [TypeError], which accepts
    nobody either. *)
Definition verify (client_id t : string) (now : Z) (s : token_store) : token_store * bool :=
  match rows s !! client_id with
  | Some row =>
      if bool_decide (tk_token row = t)
      then (mk_token_store (<[client_id := mk_token_row (tk_token row) (tk_department row) (tk_created row) now]> (rows s)) (issued_count s), true)
      else (s, false)
  | None => (s, false)
  end.

Definition has_token (client_id : string) (s : token_store) : bool := bool_decide (is_Some (rows s !! client_id)).

Definition revoke (client_id : string) (s : token_store) : token_store * bool :=
  (mk_token_store (delete client_id (rows s)) (issued_count s), has_token client_id s).

(** [get_all]: the rows without their tokens; SQLite promises no order. *)
Definition get_all (s : token_store) : list (string * (option string * Z * Z)) :=
  map (fun r => (r.1, (tk_department r.2, tk_created r.2, tk_last_seen r.2))) (map_to_list (rows s)).

(** ** [authenticate], call by call *)

Record credentials := mk_credentials { cr_client_id : option string; cr_token : option string; cr_department : option string }.

(** [AuthDone accepted issued] is the value returned. *)
Inductive auth_phase : Type :=
  | AuthCheck (client_id : string)
  | AuthIssue (client_id : string)
  | AuthVerify (client_id t : string)
  | AuthDone (accepted : bool) (issued : option string).

Definition present (t : option string) : option string := match t with Some "" => None | t => t end.

Definition auth_begin (require_token : bool) (c : credentials) : auth_phase :=
  if negb require_token then AuthDone true None else
  match present (cr_client_id c) with
  | None => AuthDone false None
  | Some client_id => AuthCheck client_id
  end.

Definition auth_step (now : Z) (c : credentials) (p : auth_phase) (s : token_store) : token_store * auth_phase :=
  match p with
  | AuthCheck client_id =>
      if negb (has_token client_id s) then (s, AuthIssue client_id)
      else match present (cr_token c) with
      | Some t => (s, AuthVerify client_id t)
      | None => (s, AuthDone false None)
      end
  | AuthIssue client_id => let '(s, t) := issue client_id (cr_department c) now s in (s, AuthDone true (Some t))
  | AuthVerify client_id t => let '(s, ok) := verify client_id t now s in (s, AuthDone ok None)
  | AuthDone _ _ => (s, p)
  end.

#[local] Arguments auth_begin : simpl never.
#[local] Arguments auth_step : simpl never.
#[local] Arguments verify : simpl never.

(** Run without interruption. *)
Definition authenticate (require_token : bool) (now : Z) (c : credentials) (s : token_store) : token_store * (bool * option string) :=
  let '(s, p) := auth_step now c (auth_begin require_token c) s in
  let '(s, p) := auth_step now c p s in
  (s, match p with AuthDone accepted issued => (accepted, issued) | _ => (false, None) end).

(** ** Connections *)

(** Connections authenticating, and the outcomes so far, newest first. *)
Record auth_system := mk_auth_system {
  as_store : token_store;
  as_conns : gmap nat (credentials * auth_phase);
  as_outcomes : list (credentials * bool * option string) }.

Inductive auth_event : Type :=
  | Connect (conn : nat) (c : credentials)
  | Advance (conn : nat) (now : Z)
  | Revoke (client_id : string).

(** A connection that is done leaves its outcome. *)
Definition auth_run (e : auth_event) (s : auth_system) : auth_system :=
  match e with
  | Connect conn c => mk_auth_system (as_store s) (<[conn := (c, auth_begin true c)]> (as_conns s)) (as_outcomes s)
  | Advance conn now =>
      match as_conns s !! conn with
      | None => s
      | Some (c, AuthDone accepted issued) =>
          mk_auth_system (as_store s) (delete conn (as_conns s)) ((c, accepted, issued) :: as_outcomes s)
      | Some (c, p) =>
          let '(store, p) := auth_step now c p (as_store s) in
          mk_auth_system store (<[conn := (c, p)]> (as_conns s)) (as_outcomes s)
      end
  | Revoke client_id => mk_auth_system (revoke client_id (as_store s)).1 (as_conns s) (as_outcomes s)
  end.

Definition auth_runs (es : list auth_event) (s : auth_system) : auth_system := foldl (fun s e => auth_run e s) s es.

(** ** The holder of the token *)

(** [c]'s token is [t], and nobody is about to be issued another. *)
Record settled (client_id t : string) (s : auth_system) : Prop := {
  st_token : tk_token <$> rows (as_store s) !! client_id = Some t;
  st_conns conn c p : as_conns s !! conn = Some (c, p) -> present (cr_client_id c) = Some client_id ->
    match p with
    | AuthCheck x => x = client_id
    | AuthVerify x t' => x = client_id /\ present (cr_token c) = Some t'
    | AuthIssue _ => False
    | AuthDone accepted issued => accepted = bool_decide (present (cr_token c) = Some t) /\ issued = None
    end;
  st_others conn c p : as_conns s !! conn = Some (c, p) -> present (cr_client_id c) <> Some client_id ->
    match p with AuthCheck x | AuthIssue x | AuthVerify x _ => x <> client_id | AuthDone _ _ => True end;
}.

(** The outcome the token decides. *)
Definition decided (client_id t : string) (o : credentials * bool * option string) : Prop :=
  present (cr_client_id o.1.1) = Some client_id -> o.1.2 = bool_decide (present (cr_token o.1.1) = Some t) /\ o.2 = None.

Lemma auth_begin_phase c : auth_begin true c = match present (cr_client_id c) with Some x => AuthCheck x | None => AuthDone false None end.
Proof. unfold auth_begin. cbn [negb]. by destruct (present _). Qed.

Lemma step_token client_id now c p s s' p' : (match p with AuthIssue x => x <> client_id | _ => True end) ->
  auth_step now c p s = (s', p') -> tk_token <$> rows s' !! client_id = tk_token <$> rows s !! client_id.
Proof.
  intros Hp. unfold auth_step. destruct p as [x|x|x t|a i].
  - destruct (negb _); [by intros [= <- _]|]. destruct (present _); by intros [= <- _].
  - intros [= <- _]. cbn. by rewrite lookup_insert_ne.
  - unfold verify. destruct (rows s !! x) as [row|] eqn:E1; [|by intros [= <- _]]. case_bool_decide; intros [= <- _]; [|done]. cbn.
    destruct (decide (x = client_id)) as [->|Hne]; [by rewrite lookup_insert_eq, E1|by rewrite lookup_insert_ne].
  - by intros [= <- _].
Qed.

Lemma settled_step client_id t e s : settled client_id t s -> e <> Revoke client_id ->
  settled client_id t (auth_run e s) /\ exists new, as_outcomes (auth_run e s) = new ++ as_outcomes s /\ Forall (decided client_id t) new.
Proof.
  intros [K1 K2 K3] He. destruct e as [conn c|conn now|x]; cbn.
  - split; [|by exists []]. split; cbn; [done| |].
    + intros conn' c' p. rewrite lookup_insert_Some. intros [[<- [= <- <-]]|[_ Hl]] Hc; [|by eapply K2]. by rewrite auth_begin_phase, Hc.
    + intros conn' c' p. rewrite lookup_insert_Some. intros [[<- [= <- <-]]|[_ Hl]] Hc; [|by eapply K3]. rewrite auth_begin_phase. destruct (present (cr_client_id c)); [by intros ->|done].
  - destruct (as_conns s !! conn) as [[c p]|] eqn:El; [|split; [done|by exists []]].
    assert (forall accepted issued, p = AuthDone accepted issued -> settled client_id t (mk_auth_system (as_store s) (delete conn (as_conns s)) ((c, accepted, issued) :: as_outcomes s)) /\
      exists new, (c, accepted, issued) :: as_outcomes s = new ++ as_outcomes s /\ Forall (decided client_id t) new) as Hdone.
    { intros a i ->. split.
      - split; cbn; [done| |]; intros conn' c' p' [_ Hl]%lookup_delete_Some; [by apply (K2 conn')|by apply (K3 conn')].
      - exists [(c, a, i)]. split; [done|]. constructor; [|done]. intros Hc. cbn in *. by apply (K2 _ _ _ El). }
    assert (forall store p', auth_step now c p (as_store s) = (store, p') -> (forall a i, p <> AuthDone a i) ->
      settled client_id t (mk_auth_system store (<[conn := (c, p')]> (as_conns s)) (as_outcomes s))) as Hstep.
    { intros store p' Hs Hnd. assert (tk_token <$> rows store !! client_id = Some t) as Htok.
      { rewrite <-K1. eapply step_token; [|exact Hs]. destruct p as [x|x|x t'|a i]; try done. intros ->.
        destruct (decide (present (cr_client_id c) = Some client_id)) as [Hc|Hc]; [exact (K2 _ _ _ El Hc)|by apply (K3 _ _ _ El Hc)]. }
      split; cbn; [exact Htok| |].
      - intros conn' c' p1. rewrite lookup_insert_Some. intros [[<- [= <- <-]]|[_ Hl]] Hc; [|by eapply K2]. specialize (K2 _ _ _ El Hc).
        unfold auth_step in Hs; destruct p as [x|x|x t'|a i]; [|done| |by destruct (Hnd a i)].
        + subst x. assert (has_token client_id (as_store s) = true) as Hh by (apply bool_decide_eq_true; destruct (rows (as_store s) !! client_id); [done|discriminate K1]).
          rewrite Hh in Hs. cbn in Hs. destruct (present (cr_token c)) as [t'|] eqn:Et; injection Hs as _ <-; [done|]. split; [|done]. by rewrite bool_decide_eq_false_2.
        + destruct K2 as [-> Ht']. unfold verify in Hs. destruct (rows (as_store s) !! client_id) as [row|] eqn:Er; [|discriminate K1]. cbn in K1. injection K1 as K1.
          rewrite K1, Ht' in *. destruct (decide (t = t')) as [->|Hne].
          * rewrite bool_decide_eq_true_2 in Hs by done. injection Hs as _ <-. split; [|done]. by rewrite bool_decide_eq_true_2.
          * rewrite bool_decide_eq_false_2 in Hs by done. injection Hs as _ <-. split; [|done]. rewrite bool_decide_eq_false_2; [done|congruence].
      - intros conn' c' p1. rewrite lookup_insert_Some. intros [[<- [= <- <-]]|[_ Hl]] Hc; [|by eapply K3]. specialize (K3 _ _ _ El Hc).
        unfold auth_step in Hs; destruct p as [x|x|x t'|a i]; [| | |by destruct (Hnd a i)].
        + destruct (negb _); [by injection Hs as _ <-|]. destruct (present (cr_token c)); by injection Hs as _ <-.
        + by injection Hs as _ <-.
        + destruct (verify x t' now (as_store s)) as [s1 ok]. by injection Hs as _ <-. }
    destruct p as [x|x|x t'|a i]; [| | |by apply Hdone]; (destruct (auth_step now c _ (as_store s)) as [store p'] eqn:Es; split; [by eapply Hstep|by exists []]).
  - assert (x <> client_id) by congruence. split; [|by exists []]. split; cbn; [by rewrite lookup_delete_ne|by apply K2|by apply K3].
Qed.

(** C29: Once a client id has a token and no other first connection under that id is
    in flight, then over any interleaving of connections, with any credentials and
    revocations of other ids, a connection under that id is accepted exactly when it
    presents that token, nobody is issued another, and the token stays. *)
Theorem token_holder_only client_id t es s : settled client_id t s -> Forall (fun e => e <> Revoke client_id) es ->
  tk_token <$> rows (as_store (auth_runs es s)) !! client_id = Some t /\
  exists new, as_outcomes (auth_runs es s) = new ++ as_outcomes s /\ Forall (decided client_id t) new.
Proof.
  intros Hs Hes. assert (settled client_id t (auth_runs es s) /\ exists new, as_outcomes (auth_runs es s) = new ++ as_outcomes s /\ Forall (decided client_id t) new) as [K1 K2].
  2: { split; [apply K1|exact K2]. }
  revert s Hs. induction Hes as [|e es He _ IH]; intros s Hs; cbn; [split; [done|by exists []]|].
  destruct (settled_step client_id t e s Hs He) as (H1 & new & H2 & H3). destruct (IH _ H1) as (H4 & new' & H5 & H6).
  split; [done|]. exists (new' ++ new). unfold auth_runs in H5. rewrite H5, H2, app_assoc. split; [done|]. by apply Forall_app.
Qed.

(** ** The client's side *)

(** [tokens.json]: [None] while it is missing or no JSON. *)
Abbreviation token_file := (option (gmap string string)).

Definition file_key (host : string) (port : Z) : string := host +:+ ":" +:+ pretty port.
Definition load_token (host : string) (port : Z) (f : token_file) : option string := f ≫= (fun m => m !! file_key host port).
Definition save_token (host : string) (port : Z) (t : string) (f : token_file) : token_file :=
  Some (<[file_key host port := t]> (default ∅ f)).
Definition delete_token (host : string) (port : Z) (f : token_file) : token_file := delete (file_key host port) <$> f.

(** [ClientCredential] *)
Record client_credential := mk_client_credential { cc_host : string; cc_port : Z; cc_persist : bool; cc_token : option string }.

Definition resolve_client_token (host : string) (port : Z) (t : option string) (persist : bool) (f : token_file) : option string :=
  match t with Some _ => t | None => if persist then load_token host port f else None end.
Definition credential_init (host : string) (port : Z) (t : option string) (persist : bool) (f : token_file) : client_credential :=
  mk_client_credential host port persist (resolve_client_token host port t persist f).
Definition set_token (t : option string) (c : client_credential) : client_credential := mk_client_credential (cc_host c) (cc_port c) (cc_persist c) t.
Definition current (c : client_credential) (f : token_file) : client_credential :=
  match cc_token c with
  | None => if cc_persist c then set_token (load_token (cc_host c) (cc_port c) f) c else c
  | Some _ => c
  end.
Definition issued (t : string) (c : client_credential) (f : token_file) : client_credential * token_file :=
  (set_token (Some t) c, if cc_persist c then save_token (cc_host c) (cc_port c) t f else f).

(** One connection of a client: what it presents, what the server decides, and,
    unless the connection is lost first, what it learns. *)
Record client_world := mk_client_world { cw_store : token_store; cw_file : token_file }.
Definition client_connect (client_id : string) (now : Z) (delivered : bool) (cred : client_credential) (w : client_world) :
    client_credential * client_world * bool :=
  let cred := current cred (cw_file w) in
  let '(store, (accepted, t)) := authenticate true now (mk_credentials (Some client_id) (cc_token cred) None) (cw_store w) in
  match t with
  | Some t =>
      if delivered then let '(cred, f) := issued t cred (cw_file w) in (cred, mk_client_world store f, accepted)
      else (cred, mk_client_world store (cw_file w), accepted)
  | None => (cred, mk_client_world store (cw_file w), accepted)
  end.

(** Reconnecting again and again: who was accepted. *)
Fixpoint reconnects (client_id : string) (n : nat) (cred : client_credential) (w : client_world) : list bool :=
  match n with
  | O => []
  | S n => let '(cred, w, accepted) := client_connect client_id 0 true cred w in accepted :: reconnects client_id n cred w
  end.

Lemma load_save host port t f : load_token host port (save_token host port t f) = Some t.
Proof. unfold load_token, save_token. cbn. by rewrite lookup_insert_eq. Qed.

Lemma authenticate_spec now c x s : present (cr_client_id c) = Some x ->
  authenticate true now c s =
  match rows s !! x with
  | None => ((issue x (cr_department c) now s).1, (true, Some (token (issued_count s))))
  | Some row =>
      match present (cr_token c) with
      | Some t => let '(s, ok) := verify x t now s in (s, (ok, None))
      | None => (s, (false, None))
      end
  end.
Proof.
  intros Hx. unfold authenticate. rewrite auth_begin_phase, Hx. assert (has_token x s = match rows s !! x with Some _ => true | None => false end) as Hh.
  { unfold has_token. by destruct (rows s !! x). }
  unfold auth_step. rewrite Hh. destruct (rows s !! x) as [row|]; cbn [negb]; [|done]. destruct (present (cr_token c)) as [t|]; [|done]. by destruct (verify x t now s).
Qed.

(** A client whose first connection breaks between the issue of its token and the
    delivery of the reply is accepted by the server but never again: however often
    it reconnects, it has no token to present and is refused. *)
Theorem lost_reply_locks_out client_id cred w n : client_id <> "" -> rows (cw_store w) !! client_id = None ->
  cc_token cred = None -> load_token (cc_host cred) (cc_port cred) (cw_file w) = None ->
  let '(cred', w', accepted) := client_connect client_id 0 false cred w in
  accepted = true /\ Forall (fun accepted => accepted = false) (reconnects client_id n cred' w') /\ length (reconnects client_id n cred' w') = n.
Proof.
  intros Hne Hrow Ht Hf.
  assert (forall cred w, cc_token cred = None -> load_token (cc_host cred) (cc_port cred) (cw_file w) = None -> current cred (cw_file w) = cred) as Hcur.
  { intros [h p per t] w1 Ht1 Hf1. cbn in *. subst t. unfold current. cbn. destruct per; [|done]. unfold set_token. cbn. by rewrite Hf1. }
  assert (present (Some client_id) = Some client_id) as Hp by (by destruct client_id).
  unfold client_connect. rewrite Hcur by done. rewrite (authenticate_spec _ _ client_id), Hrow by done. cbn. split; [done|].
  assert (forall cred w, cc_token cred = None -> load_token (cc_host cred) (cc_port cred) (cw_file w) = None -> is_Some (rows (cw_store w) !! client_id) ->
    Forall (fun accepted => accepted = false) (reconnects client_id n cred w) /\ length (reconnects client_id n cred w) = n) as Hgo.
  { clear -Hcur Hp. induction n as [|n IH]; intros cred w Ht Hf [row Hr]; [done|]. cbn [reconnects]. unfold client_connect. rewrite Hcur by done.
    rewrite (authenticate_spec _ _ client_id), Hr by done. cbn [cr_token]. rewrite Ht. cbn [present].
    destruct (IH cred (mk_client_world (cw_store w) (cw_file w))) as [I1 I2]; [done|done|by exists row|]. split; [by constructor|]. cbn. by rewrite I2. }
  apply Hgo; [done|done|]. cbn. by rewrite lookup_insert_eq.
Qed.
End tokens.

(** ** Examples *)

Definition demo_token (n : nat) : string := "token-" +:+ pretty n.
Definition demo_store : token_store := mk_token_store ∅ 0.
Definition demo_creds (client_id : string) (t : option string) : credentials := mk_credentials (Some client_id) t None.

(** The holder, a stranger and somebody without a token, interleaved. *)
Definition demo_system : auth_system :=
  auth_runs demo_token [Connect 1 (demo_creds "alice" None); Advance 1 0; Advance 1 0; Advance 1 0] (mk_auth_system demo_store ∅ []).
Definition demo_events : list auth_event :=
  [Connect 2 (demo_creds "alice" (Some "token-0")); Connect 3 (demo_creds "alice" (Some "guess")); Connect 4 (demo_creds "alice" None);
   Connect 5 (demo_creds "bob" None); Advance 2 1; Advance 3 1; Advance 5 1; Advance 2 1; Advance 3 1; Revoke "bob"; Advance 5 1; Advance 4 1;
   Advance 2 2; Advance 3 2; Advance 4 2; Advance 5 2].

Lemma token_holder_only_witness :
  map (fun o => (cr_client_id o.1.1, o.1.2)) (as_outcomes (auth_runs demo_token demo_events demo_system))
  = [(Some "bob", true); (Some "alice", false); (Some "alice", false); (Some "alice", true); (Some "alice", true)] /\
  tk_token <$> rows (as_store (auth_runs demo_token demo_events demo_system)) !! "alice" = Some "token-0".
Proof.
  split; [vm_compute; reflexivity|]. apply (token_holder_only demo_token "alice" "token-0" demo_events demo_system).
  - assert (as_conns demo_system = ∅) as He by (vm_compute; reflexivity). split; [vm_compute; reflexivity| |]; intros conn c p; rewrite He, lookup_empty; done.
  - repeat constructor; discriminate.
Defined.

Definition demo_world : client_world := mk_client_world demo_store None.
Lemma lost_reply_locks_out_witness :
  let '(cred, w, accepted) := client_connect demo_token "alice" 0 false (credential_init "host" 7000 None true None) demo_world in
  accepted = true /\ reconnects demo_token "alice" 2 cred w = [false; false].
Proof.
  pose proof (lost_reply_locks_out demo_token "alice" (credential_init "host" 7000 None true None) demo_world 2 ltac:(discriminate) eq_refl eq_refl eq_refl) as K.
  destruct (client_connect _ _ _ _ _ _) as [[cred w] accepted]. destruct K as (-> & K1 & K2). split; [done|].
  destruct (reconnects _ _ _ _ _) as [|a [|b [|? ?]]]; try done. inversion_clear K1 as [|? ? K3 K4]. inversion_clear K4 as [|? ? K5 _]. by rewrite K3, K5.
Defined.

(** The file is keyed by the server, the store by the client id: a second client of
    the same host takes the first one's place. *)
Lemma shared_token_file_locks_out :
  let '(_, w, first) := client_connect demo_token "alice" 0 true (credential_init "host" 7000 None true None) demo_world in
  let '(_, w, second) := client_connect demo_token "bob" 0 true (credential_init "host" 7000 None true None) w in
  let '(_, _, again) := client_connect demo_token "alice" 0 true (credential_init "host" 7000 None true (cw_file w)) w in
  (first, second, again) = (true, true, false).
Proof. vm_compute. reflexivity. Qed.

(** Two first connections under one id: both are accepted, with different tokens, and
    the first token is worthless. *)
Lemma first_connections_race :
  let s := auth_runs demo_token [Connect 1 (demo_creds "alice" None); Connect 2 (demo_creds "alice" None); Advance 1 0; Advance 2 0; Advance 1 0; Advance 2 0;
    Advance 1 0; Advance 2 0; Connect 3 (demo_creds "alice" (Some "token-0")); Advance 3 0; Advance 3 0; Advance 3 0] (mk_auth_system demo_store ∅ []) in
  map (fun o => (o.1.2, o.2)) (as_outcomes s) = [(false, None); (true, Some "token-1"); (true, Some "token-0")].
Proof. vm_compute. reflexivity. Qed.
