(* ===== verification/RateLimit.v ===== *)
(** * RateLimit: the token bucket of a connection
    ([openusdconnect/server/rate_limit.py])

    Numbers are the finite rationals behind Python's floats: the arithmetic is
    exact, without the rounding of the last bit.  [now] is the reading of
    [time.monotonic()], which never goes back.

    Theorems: what configurations are accepted; in any window of time the bucket
    grants at most the burst and what the rate adds; the wait it reports is the exact
    time after which a call succeeds. *)

From Stdlib Require Import QArith Qcanon Lqa.
From S2P Require Import Prelude.
#[local] Set Default Proof Using "Type".
#[local] Set Proof Using Clear Unused.
#[local] Open Scope Qc_scope.

Definition of_Z (z : Z) : Qc := Q2Qc (inject_Z z).

(** [validate_rate_limit_config] *)
Definition validate_rate_limit_config (rate : pyfloat) (burst : Z) : result unit :=
  match rate with
  | Fin rate =>
      _ ← raise_if (bool_decide (rate < 0)) ValueError;
      _ ← raise_if (burst <? 0)%Z ValueError;
      raise_if (negb (bool_decide (bool_decide (rate = 0) = (burst =? 0)%Z))) ValueError
  | _ => Err ValueError
  end.

(** [TokenBucket] *)
Record bucket := mk_bucket { rate : Qc; burst : Z; tokens : Qc; last : Qc }.

(** [__init__] at time [now] *)
Definition bucket_init (rate : pyfloat) (burst : Z) (now : Qc) : result bucket :=
  _ ← validate_rate_limit_config rate burst;
  match rate with
  | Fin rate => if bool_decide (rate = 0) then Err ValueError else Ok (mk_bucket rate burst (of_Z burst) now)
  | _ => Err ValueError
  end.

Definition qmin (x y : Qc) : Qc := if bool_decide (y < x) then y else x.

(** 0, or the time to wait. *)
Definition try_consume (now : Qc) (b : bucket) : bucket * Qc :=
  let t := qmin (of_Z (burst b)) (tokens b + (now - last b) * rate b) in
  if bool_decide (1 <= t) then (mk_bucket (rate b) (burst b) (t - 1) now, 0)
  else (mk_bucket (rate b) (burst b) t now, (1 - t) / rate b).

(** The calls at the given times: what each one returned. *)
Fixpoint calls (times : list Qc) (b : bucket) : bucket * list Qc :=
  match times with
  | [] => (b, [])
  | now :: times => let '(b, w) := try_consume now b in let '(b, ws) := calls times b in (b, w :: ws)
  end.

Definition granted (waits : list Qc) : nat := length (filter (fun w => w = 0) waits).

(** ** Exact arithmetic *)

Lemma this_add x y : (this (x + y) == this x + this y)%Q. Proof. apply Qred_correct. Qed.
Lemma this_opp x : (this (- x) == - this x)%Q. Proof. apply Qred_correct. Qed.
Lemma this_mul x y : (this (x * y) == this x * this y)%Q. Proof. apply Qred_correct. Qed.
Lemma this_inv x : (this (/ x) == / this x)%Q. Proof. apply Qred_correct. Qed.
Lemma this_of_Z z : (this (of_Z z) == inject_Z z)%Q. Proof. apply Qred_correct. Qed.
Lemma this_0 : (this 0 == 0)%Q. Proof. done. Qed.
Lemma this_1 : (this 1 == 1)%Q. Proof. done. Qed.

Ltac to_Q := unfold Qcle, Qclt, Qcminus, Qcdiv in *; rewrite ?this_add, ?this_opp, ?this_mul, ?this_of_Z, ?this_0, ?this_1 in *;
  repeat (rewrite ?this_add, ?this_opp, ?this_mul, ?this_of_Z, ?this_0, ?this_1 in * ).
Ltac qc := to_Q; lra.

Record bucket_ok (b : bucket) : Prop := {
  bk_rate : 0 < rate b;
  bk_burst : (1 <= burst b)%Z;
  bk_low : 0 <= tokens b;
  bk_high : tokens b <= of_Z (burst b);
}.

Lemma qmin_le x y : qmin x y <= x /\ qmin x y <= y /\ (qmin x y = x \/ qmin x y = y).
Proof. unfold qmin. case_bool_decide as H; split_and!; try (by auto); qc. Qed.

Lemma of_Z_le x y : (x <= y)%Z -> of_Z x <= of_Z y.
Proof. intros H. unfold Qcle. rewrite !this_of_Z. by rewrite <-Zle_Qle. Qed.

Lemma validate_spec r z : match validate_rate_limit_config r z with
  | Ok _ => exists q, r = Fin q /\ ((q = 0 /\ z = 0%Z) \/ (0 < q /\ (1 <= z)%Z))
  | Err e => e = ValueError /\ ~ exists q, r = Fin q /\ ((q = 0 /\ z = 0%Z) \/ (0 < q /\ (1 <= z)%Z))
  end.
Proof.
  unfold validate_rate_limit_config. destruct r as [q|b|]; [|split; [done|by intros (? & [=] & _)]|split; [done|by intros (? & [=] & _)]].
  destruct (bool_decide (q < 0)) eqn:H1; cbn.
  { apply bool_decide_eq_true in H1. split; [done|]. intros (q' & [= <-] & [[-> _]|[H2 _]]); qc. }
  destruct (Z.ltb_spec z 0); cbn; [split; [done|]; intros (q' & [= <-] & [[_ ->]|[_ ?]]); lia|].
  apply bool_decide_eq_false, Qcnot_lt_le in H1. destruct (decide (q = 0)) as [->|Hq].
  - rewrite (bool_decide_eq_true_2 (0 = 0)) by done. destruct (Z.eqb_spec z 0) as [->|Hz]; cbn; [exists 0; split; [done|]; by left|].
    split; [done|]. intros (q' & [= <-] & [[_ ->]|[? _]]); [done|qc].
  - rewrite (bool_decide_eq_false_2 (q = 0)) by done. destruct (Z.eqb_spec z 0) as [->|Hz]; cbn.
    + split; [done|]. intros (q' & [= <-] & [[? _]|[_ ?]]); [done|lia].
    + exists q. split; [done|]. right. split; [|lia]. apply Qcle_lt_or_eq in H1 as [?|?]; [done|by subst].
Qed.

Lemma init_ok r z now b : bucket_init r z now = Ok b -> bucket_ok b /\ rate b = (match r with Fin q => q | _ => 0 end) /\ burst b = z /\ last b = now.
Proof.
  unfold bucket_init. intros Hi. inv_bind Hi. pose proof (validate_spec r z) as Hv. rewrite Hi0 in Hv. destruct Hv as (q & -> & Hv).
  case_bool_decide as Hq; [done|]. injection Hi as <-. destruct Hv as [[? _]|[H1 H2]]; [done|]. split; [|done]. split; cbn; [done|done| |apply Qcle_refl].
  apply (of_Z_le 0). lia.
Qed.

(** ** One call *)

Lemma try_consume_ok now b : bucket_ok b -> last b <= now ->
  let t := qmin (of_Z (burst b)) (tokens b + (now - last b) * rate b) in
  let '(b', w) := try_consume now b in
  bucket_ok b' /\ rate b' = rate b /\ burst b' = burst b /\ last b' = now /\ 0 <= t /\
  ((1 <= t /\ w = 0 /\ tokens b' = t - 1) \/ (t < 1 /\ 0 < w /\ w * rate b = 1 - t /\ tokens b' = t)).
Proof.
  intros [H1 H2 H3 H4] Hn. unfold try_consume. destruct (qmin_le (of_Z (burst b)) (tokens b + (now - last b) * rate b)) as (M1 & _ & M3).
  set (t := qmin _ _) in *. assert (0 <= t) as Ht.
  { destruct M3 as [->| ->]; [apply (of_Z_le 0); lia|]. assert (0 <= (now - last b) * rate b) as Hp; [|qc].
    rewrite <-(Qcmult_0_l (rate b)). apply Qcmult_le_compat_r; [qc|by apply Qclt_le_weak]. }
  assert (of_Z 1 <= of_Z (burst b)) as Hb by (apply of_Z_le; lia). assert (of_Z 1 = 1) as Hone by done. rewrite Hone in Hb.
  case_bool_decide as Ht1; cbn.
  - split; [split; cbn; [done|done|qc|qc]|]. split_and!; [done..|]. left. by split.
  - apply Qcnot_le_lt in Ht1. assert (rate b <> 0) as Hr by (intros Hr; rewrite Hr in H1; qc).
    assert ((1 - t) / rate b * rate b = 1 - t) as Hw by (by field).
    split; [split; cbn; [done|done|done|qc]|]. split_and!; [done..|]. right. split_and!; [done| |done|done].
    apply Qcnot_le_lt. intros Hle. assert ((1 - t) / rate b * rate b <= 0) as Hc; [|rewrite Hw in Hc; qc].
    rewrite <-(Qcmult_0_l (rate b)). apply Qcmult_le_compat_r; [done|by apply Qclt_le_weak].
Qed.

(** ** Any number of calls *)

Definition of_count (n : nat) : Qc := of_Z (Z.of_nat n).
Lemma of_count_S n : of_count (S n) = of_count n + 1.
Proof. apply Qc_is_canon. unfold of_count. rewrite this_add, !this_of_Z, this_1, Nat2Z.inj_succ, <-Z.add_1_r, inject_Z_plus. done. Qed.

(** Times that never go back, from [t] on; the last of them. *)
Fixpoint ordered (t : Qc) (times : list Qc) : Prop :=
  match times with [] => True | t' :: times => t <= t' /\ ordered t' times end.
Definition last_time (t : Qc) (times : list Qc) : Qc := List.last times t.

Lemma last_time_cons t t' times : last_time t (t' :: times) = last_time t' times.
Proof. revert t t'. induction times as [|x times IH]; intros t t'; [done|]. unfold last_time in *. cbn in *. by rewrite IH. Qed.

Lemma ordered_last t times : ordered t times -> t <= last_time t times.
Proof.
  revert t. induction times as [|x times IH]; intros t; [intros _; apply Qcle_refl|]. intros [H1 H2]. rewrite last_time_cons. eapply Qcle_trans; [exact H1|by apply IH].
Qed.

(** Tokens are neither made nor lost: what is granted was there or was added since. *)
Lemma calls_account times b : bucket_ok b -> ordered (last b) times ->
  let '(b', ws) := calls times b in
  bucket_ok b' /\ rate b' = rate b /\ burst b' = burst b /\ last b' = last_time (last b) times /\ length ws = length times /\
  of_count (granted ws) + tokens b' <= tokens b + rate b * (last b' - last b).
Proof.
  revert b. induction times as [|now times IH]; intros b Hb Ho; cbn [calls].
  - split_and!; try done. unfold granted. cbn. assert (of_count 0 = 0) as -> by done. unfold last_time. cbn. qc.
  - destruct Ho as [Ho1 Ho2]. pose proof (try_consume_ok now b Hb Ho1) as Ht. destruct (qmin_le (of_Z (burst b)) (tokens b + (now - last b) * rate b)) as (_ & M2 & _).
    set (t := qmin _ _) in *. cbn zeta in Ht. destruct (try_consume now b) as [b1 w]. destruct Ht as (K1 & K2 & K3 & K4 & K5 & K6).
    rewrite <-K4 in Ho2. specialize (IH b1 K1 Ho2). destruct (calls times b1) as [b2 ws]. destruct IH as (I1 & I2 & I3 & I4 & I5 & I6).
    split; [done|]. split; [congruence|]. split; [congruence|]. split; [rewrite last_time_cons, <-K4; exact I4|]. split; [cbn; by rewrite I5|].
    rewrite K2, K4 in I6. unfold granted. rewrite filter_cons. destruct K6 as [(L1 & -> & L2)|(L1 & L2 & _ & L3)].
    + rewrite decide_True by done. cbn [length]. rewrite of_count_S. fold (granted ws). rewrite L2 in I6. qc.
    + rewrite decide_False by (intros ->; qc). fold (granted ws). rewrite L3 in I6. qc.
Qed.

(** C32: Whatever calls came before, the calls made from any moment on grant at most
    the burst plus what the rate adds until the last of them. *)
Theorem bucket_admits_at_most before t times b0 b r z now :
  bucket_init r z now = Ok b0 -> ordered now (before ++ t :: times) -> (calls before b0).1 = b ->
  of_count (granted (calls (t :: times) b).2) <= of_Z z + rate b0 * (last_time t times - t).
Proof.
  intros Hi Ho <-. apply init_ok in Hi as (Hb0 & _ & Hz & Hl). assert (forall l1 l2 x, ordered x (l1 ++ l2) -> ordered x l1 /\ ordered (last_time x l1) l2) as Happ.
  { intros l1. induction l1 as [|y l1 IH]; intros l2 x Hx; [done|]. destruct Hx as [Hx1 Hx2]. rewrite last_time_cons. destruct (IH _ _ Hx2). by repeat split. }
  apply Happ in Ho as [Ho1 [Ho2 Ho3]]. rewrite <-Hl in Ho1, Ho2. pose proof (calls_account before b0 Hb0 Ho1) as Hc. destruct (calls before b0) as [b1 ws].
  destruct Hc as (C1 & C2 & C3 & C4 & _). rewrite <-C4 in Ho2. cbn [fst calls]. pose proof (try_consume_ok t b1 C1 Ho2) as Ht. cbn zeta in Ht.
  destruct (try_consume t b1) as [b2 w]. destruct Ht as (K1 & K2 & K3 & K4 & K5 & K6). rewrite <-K4 in Ho3.
  pose proof (calls_account times b2 K1 Ho3) as Hc. destruct (calls times b2) as [b3 ws']. destruct Hc as (I1 & I2 & I3 & I4 & _ & I6). cbn [snd].
  rewrite I4, K4, K2, C2 in I6. pose proof (bk_low _ I1) as Hlow. destruct (qmin_le (of_Z (burst b1)) (tokens b1 + (t - last b1) * rate b1)) as (M1 & _ & _).
  set (tk := qmin _ _) in *. rewrite C3, Hz in M1. unfold granted. rewrite filter_cons. destruct K6 as [(L1 & -> & L2)|(L1 & L2 & _ & L3)].
  - rewrite decide_True by done. cbn [length]. rewrite of_count_S. fold (granted ws'). rewrite L2 in I6. qc.
  - rewrite decide_False by (intros ->; qc). fold (granted ws'). rewrite L3 in I6. qc.
Qed.

(** A call that is refused reports the exact time to wait: the next call succeeds
    if and only if it comes no earlier than that; and no wait exceeds the time of one
    token. *)
Theorem reported_wait_is_exact b now t b' w b'' w' : bucket_ok b -> last b <= now -> try_consume now b = (b', w) -> w <> 0 ->
  now <= t -> try_consume t b' = (b'', w') -> (w' = 0 <-> now + w <= t) /\ 0 < w /\ w * rate b <= 1.
Proof.
  intros Hb Hn E1 Hw Ht E2. pose proof (try_consume_ok now b Hb Hn) as H1. cbn zeta in H1. rewrite E1 in H1. destruct H1 as (K1 & K2 & K3 & K4 & K5 & [(_ & ? & _)|(L1 & L2 & L3 & L4)]); [done|].
  set (tk := qmin _ _) in *. rewrite <-K4 in Ht. pose proof (try_consume_ok t b' K1 Ht) as H2. cbn zeta in H2. rewrite E2, K2, K3, K4, L4 in H2.
  destruct H2 as (_ & _ & _ & _ & _ & H2). unfold qmin in H2. pose proof (bk_rate _ Hb) as Hr. pose proof (bk_burst _ Hb) as Hbu. apply of_Z_le in Hbu.
  assert (of_Z 1 = 1) as Hone by done. rewrite Hone in Hbu. split; [|split; [done|rewrite L3; qc]].
  assert (now + w <= t <-> 1 <= tk + (t - now) * rate b) as ->.
  { assert (1 = tk + w * rate b) as H1 by (rewrite L3; ring). split; intros Hle.
    - rewrite H1. assert (w * rate b <= (t - now) * rate b) as Hm; [|qc]. apply Qcmult_le_compat_r; [qc|by apply Qclt_le_weak].
    - apply Qcnot_lt_le. intros Hlt. assert ((t - now) * rate b < w * rate b) as Hm; [|rewrite H1 in Hle; qc]. apply Qcmult_lt_compat_r; [done|qc]. }
  destruct H2 as [(M1 & -> & _)|(M1 & M2 & _)]; case_bool_decide as Hc.
  - by split; [intros _|].
  - split; [intros _|done]. apply Qcnot_lt_le in Hc. qc.
  - split; [intros ->; qc|]. intros. qc.
  - split; [intros ->; qc|]. apply Qcnot_lt_le in Hc. intros. qc.
Qed.

(** ** Examples *)

Definition demo_init : result bucket := bucket_init (Fin (of_Z 2)) 3 0.
Definition demo_bucket : bucket := match demo_init with Ok b => b | Err _ => mk_bucket 0 0 0 0 end.
Definition demo_times : list Qc := [of_Z 1; of_Z 1; of_Z 1; of_Z 1; of_Z 2].

Lemma bucket_admits_at_most_witness :
  granted (calls (of_Z 1 :: demo_times) demo_bucket).2 = 4 /\ of_count (granted (calls (of_Z 1 :: demo_times) demo_bucket).2) <= of_Z 3 + of_Z 2 * (of_Z 2 - of_Z 1).
Proof.
  split; [vm_compute; reflexivity|].
  apply (bucket_admits_at_most [] (of_Z 1) demo_times demo_bucket demo_bucket (Fin (of_Z 2)) 3 0); [vm_compute; reflexivity| |reflexivity].
  repeat split; vm_compute; discriminate.
Defined.

Lemma reported_wait_is_exact_witness :
  let b := (calls [0; 0; 0] demo_bucket).1 in
  let w := (try_consume 0 b).2 in
  w = Q2Qc (1 # 2) /\ (try_consume w (try_consume 0 b).1).2 = 0.
Proof.
  intros b w. assert (bucket_ok b) as Hb.
  { split; vm_compute; congruence. }
  split; [vm_compute; reflexivity|].
  destruct (reported_wait_is_exact b 0 w (try_consume 0 b).1 w (try_consume w (try_consume 0 b).1).1 (try_consume w (try_consume 0 b).1).2) as [K _];
    [exact Hb|vm_compute; discriminate|reflexivity|vm_compute; discriminate|vm_compute; discriminate|by destruct (try_consume w _)|].
  apply K. vm_compute. discriminate.
Defined.
