(* ===== verification/Admission.v ===== *)
(** * Admission: the life of one connection
    ([ConnectionHandler.handle], [setup] and [finish] of [server/connection.py];
    [authenticate], [register_client] and [unregister_client] of [server/state.py])

    From the first message to the cleanup.  The collaboration policy is used through
    the interface [ReplayPolicy], which [Collaboration] implements; authentication is
    [Tokens.authenticate]; what an admitted connection does (replay, reading) is the
    argument [body].  A handler is known by a number, a client by its address text.
    Refusals are sent successfully; [server_instance] and [stage_metadata], which the
    answer carries, are left out; the length of a session id is that of its text.

    Theorems: which connections are admitted; one that is not leaves the server as it
    was; one that was, however it ends, leaves no registration behind. *)

From S2P Require Import Prelude Constants Rollback LayerStack PrimIndex Applying Scene SceneLayers Collaboration Playback Tokens.
#[local] Set Default Proof Using "Type".
#[local] Set Proof Using Clear Unused.

(** What admission needs of the collaboration policy. *)
Class ReplayPolicy (P : Type) := {
  policy_inv : P -> Prop;
  reserve_mode : bool -> M P (bool * string);
  release_mode : bool -> M P unit;
  (** [get_or_create_client_layer]; [department_priority] is not empty *)
  assign_layer : string -> option string -> M P string;
  has_priority : P -> bool;

  reserve_refused layered p : policy_inv p ->
    match reserve_mode layered p with
    | (p', Ok (accepted, _)) => if (accepted : bool) then release_mode layered p' = (p, Ok ()) else p' = p
    | (_, Err _) => False
    end;
}.

(** [ClientInfo], without its clock readings and counter *)
Record client_info := mk_client_info { ci_role : string; ci_client_id : option string; ci_origin : option string; ci_department : option string }.

(** The decoded hello; [h_layer_mode] is its text. *)
Record hello := mk_hello {
  h_role : string;
  h_protocol_version : Z;
  h_client_id : option string;
  h_origin : option string;
  h_department : option string;
  h_layered_replay : bool;
  h_layer_mode : string;
  h_token : option string;
  h_producer_session_id : string }.

(** The first message: none that could be read, one that is no hello (or fails to
    decode), or a hello. *)
Inductive first_message : Type := Unreadable | NotAHello | Hello (h : hello).

Record hello_ok := mk_hello_ok {
  ok_replay_identity : bool;
  ok_committed_through : option Z;
  ok_layer_mode : option LayerMode;
  ok_token : option string;
  ok_layered_replay : bool }.

(** How admission ends: the socket is closed without a reply, after a refusal with
    its code, after an authentication refusal, or the session begins. *)
Inductive outcome : Type :=
  | Closed
  | HelloRejected (code : Z)
  | AuthRejected
  | Welcomed (ok : hello_ok).

Definition PROTOCOL_VERSION : Z := 13.
Definition Unspecified : Z := 0.
Definition LayeredReplayRequired : Z := 1.
Definition LayerModeMismatch : Z := 2.

(** [LayerMode(value)] *)
Definition layer_mode_of (s : string) : result LayerMode :=
  if bool_decide (s = "managed") then Ok MANAGED else if bool_decide (s = "shared_stage") then Ok SHARED_STAGE else Err ValueError.

Section admission.
Context {P : Type} `{ReplayPolicy P}.
(** random tokens; the durable progress of a producer session; the server's
    configuration *)
Context (token : nat -> string) (committed_through : string -> string -> Z) (mode : LayerMode) (require_token : bool).

Record server := mk_server {
  sv_policy : P;
  sv_tokens : token_store;
  sv_clients : gmap string client_info;
  sv_receivers : gset nat;
  sv_playback : playback;
  (** handlers holding a replay reservation, with the mode they hold *)
  sv_reserved : gmap nat bool;
  (** playback broadcasts *)
  sv_broadcasts : list playback_snapshot }.

Definition set_policy (p : P) (s : server) : server :=
  mk_server p (sv_tokens s) (sv_clients s) (sv_receivers s) (sv_playback s) (sv_reserved s) (sv_broadcasts s).
Definition set_tokens (t : token_store) (s : server) : server :=
  mk_server (sv_policy s) t (sv_clients s) (sv_receivers s) (sv_playback s) (sv_reserved s) (sv_broadcasts s).
Definition set_clients (c : gmap string client_info) (s : server) : server :=
  mk_server (sv_policy s) (sv_tokens s) c (sv_receivers s) (sv_playback s) (sv_reserved s) (sv_broadcasts s).
Definition set_receivers (r : gset nat) (s : server) : server :=
  mk_server (sv_policy s) (sv_tokens s) (sv_clients s) r (sv_playback s) (sv_reserved s) (sv_broadcasts s).
Definition set_reserved (r : gmap nat bool) (s : server) : server :=
  mk_server (sv_policy s) (sv_tokens s) (sv_clients s) (sv_receivers s) (sv_playback s) r (sv_broadcasts s).
Definition set_playback (p : playback) (b : list playback_snapshot) (s : server) : server :=
  mk_server (sv_policy s) (sv_tokens s) (sv_clients s) (sv_receivers s) p (sv_reserved s) b.

Definition on_policy {A} (m : M P A) : M server A := zoom sv_policy set_policy m.
Definition on_tokens {A} (f : token_store -> token_store * A) : M server A := fun s =>
  let '(t, a) := f (sv_tokens s) in (set_tokens t s, Ok a).

(** A text field that is missing or empty is falsy. *)
Definition falsy (t : option string) : bool := bool_decide (present t = None).

Definition missing_producer (h : hello) : bool :=
  falsy (h_client_id h) || bool_decide (h_producer_session_id h = "") || (128 <? String.length (h_producer_session_id h)).

(** [handle], up to the hello_ok. *)
Definition admit_connection (conn : nat) (now : Z) (first : first_message) : M server outcome :=
  match first with
  | Unreadable | NotAHello => mret Closed
  | Hello h =>
      if negb (h_protocol_version h =? PROTOCOL_VERSION)%Z then mret Closed
      else if negb (bool_decide (h_role h = "emitter") || bool_decide (h_role h = "receiver")) then mret (HelloRejected Unspecified)
      else
        layer_mode ← lift (layer_mode_of (h_layer_mode h));
        if negb (bool_decide (layer_mode = mode)) then mret (HelloRejected LayerModeMismatch)
        else if bool_decide (h_role h = "emitter") && missing_producer h then mret (HelloRejected Unspecified)
        else if bool_decide (layer_mode = SHARED_STAGE) && (h_layered_replay h || negb (falsy (h_department h))) then mret (HelloRejected LayerModeMismatch)
        else
          reserved ← (if bool_decide (h_role h = "receiver") && bool_decide (layer_mode = MANAGED) then
                        '(accepted, _) ← on_policy (reserve_mode (h_layered_replay h));
                        _ ← (if (accepted : bool) then modify (fun s => set_reserved (<[conn := h_layered_replay h]> (sv_reserved s)) s) else mret ());
                        mret accepted
                      else mret true);
          if negb reserved then mret (HelloRejected LayeredReplayRequired) else
          '(accepted, issued) ← on_tokens (authenticate token require_token now (mk_credentials (h_client_id h) (h_token h) (h_department h)));
          if negb (accepted : bool) then mret AuthRejected else
          mret (Welcomed (mk_hello_ok
            (bool_decide (h_role h = "receiver"))
            (if bool_decide (h_role h = "emitter") then Some (committed_through (default "" (h_client_id h)) (h_producer_session_id h)) else None)
            (if bool_decide (mode = SHARED_STAGE) then Some SHARED_STAGE else None)
            (present issued)
            (bool_decide (h_role h = "receiver") && bool_decide (mode = MANAGED) && h_layered_replay h)))
  end.

Definition register_client (address : string) (h : hello) (s : server) : server :=
  set_clients (<[address := mk_client_info (h_role h) (h_client_id h) (h_origin h) (h_department h)]> (sv_clients s)) s.
Definition unregister_client (address : string) (s : server) : server := set_clients (delete address (sv_clients s)) s.

(** The [finally] of [handle]. *)
Definition leave (conn : nat) (address : string) (h : hello) (s : server) : server :=
  let s := unregister_client address (set_receivers (sv_receivers s ∖ {[conn]}) s) in
  let '(p, released) := release (default "" (h_client_id h)) (sv_playback s) in
  set_playback p (if released then sv_broadcasts s ++ [snapshot p] else sv_broadcasts s) s.

(** [try: m finally: f] *)
Definition finally {A} (m : M server A) (f : server -> server) : M server A := fun s => let '(s, r) := m s in (f s, r).

(** The department layer of an emitter. *)
Definition select_layer (h : hello) : M server (option string) :=
  s ← gets id;
  match present (h_client_id h) with
  | Some client_id =>
      if bool_decide (h_role h = "emitter") && bool_decide (mode = MANAGED) && has_priority (sv_policy s)
      then layer ← on_policy (assign_layer client_id (h_department h)); mret (Some layer)
      else mret None
  | None => mret None
  end.

(** The rest of [handle]; [delivered]: the hello_ok of an emitter could be sent. *)
Definition serve (conn : nat) (address : string) (h : hello) (delivered : bool) (body : option string -> M server unit) : M server unit :=
  if bool_decide (h_role h = "emitter") && negb delivered then raise OSError
  else
    _ ← modify (register_client address h);
    finally (layer ← select_layer h; body layer) (leave conn address h).

Definition handle (conn : nat) (now : Z) (address : string) (first : first_message) (delivered : bool) (body : option string -> M server unit) : M server outcome :=
  o ← admit_connection conn now first;
  match o, first with
  | Welcomed _, Hello h => _ ← serve conn address h delivered body; mret o
  | _, _ => mret o
  end.

(** [release_receiver_replay_reservation], from [finish] *)
Definition finish (conn : nat) : M server unit := fun s =>
  match sv_reserved s !! conn with
  | None => (s, Ok ())
  | Some layered => on_policy (release_mode layered) (set_reserved (delete conn (sv_reserved s)) s)
  end.

(** A connection: [handle], then [finish] whatever happened. *)
Definition connection (conn : nat) (now : Z) (address : string) (first : first_message) (delivered : bool) (body : option string -> M server unit) : M server outcome := fun s =>
  let '(s, r) := handle conn now address first delivered body s in
  match finish conn s with
  | (s, Ok _) => (s, r)
  | (s, Err e) => (s, Err e)
  end.

(** ** Who is admitted *)

(** What a connection needs, in one place. *)
Record admissible (now : Z) (h : hello) (s : server) : Prop := {
  ad_version : h_protocol_version h = PROTOCOL_VERSION;
  ad_role : h_role h = "emitter" \/ h_role h = "receiver";
  ad_mode : layer_mode_of (h_layer_mode h) = Ok mode;
  ad_producer : h_role h = "emitter" -> missing_producer h = false;
  ad_routing : mode = SHARED_STAGE -> h_layered_replay h = false /\ falsy (h_department h) = true;
  ad_replay : h_role h = "receiver" -> mode = MANAGED -> exists reason, (reserve_mode (h_layered_replay h) (sv_policy s)).2 = Ok (true, reason);
  ad_token : (authenticate token require_token now (mk_credentials (h_client_id h) (h_token h) (h_department h)) (sv_tokens s)).2.1 = true;
}.

Lemma refused_tokens now c st : (authenticate token require_token now c st).2.1 = false -> (authenticate token require_token now c st).1 = st.
Proof.
  unfold authenticate, auth_begin. destruct require_token; [|done]. cbn. destruct (present (cr_client_id c)) as [x|]; [|done]. unfold auth_step, has_token.
  destruct (negb _); [done|]. destruct (present (cr_token c)) as [t|]; [|done]. unfold verify. destruct (rows st !! x) as [row|]; [|done]. by case_bool_decide.
Qed.

(** What [admit_connection] does, in every case. *)
Lemma admit_spec conn now h s : policy_inv (sv_policy s) -> sv_reserved s !! conn = None ->
  match admit_connection conn now (Hello h) s with
  | (s', Ok (Welcomed ok)) => admissible now h s /\
      sv_clients s' = sv_clients s /\ sv_receivers s' = sv_receivers s /\ sv_playback s' = sv_playback s /\ sv_broadcasts s' = sv_broadcasts s
  | (s', r) => ~ admissible now h s /\ (r = Err ValueError \/ r <> Err ValueError /\ is_ok r = true) /\
      (s' = s \/ exists layered p, s' = set_reserved (<[conn := layered]> (sv_reserved s)) (set_policy p s) /\ release_mode layered p = (sv_policy s, Ok ()))
  end.
Proof.
  intros Hinv Hres. unfold admit_connection.
  destruct (Z.eqb_spec (h_protocol_version h) PROTOCOL_VERSION) as [Hv|Hv]; cbn [negb]; [|split; [by intros []|]; split; [right; by split|by left]].
  destruct (bool_decide (h_role h = "emitter") || bool_decide (h_role h = "receiver")) eqn:Hrole; cbn [negb].
  2: { split; [|split; [right; by split|by left]]. intros []. apply orb_false_iff in Hrole as [H1 H2]. apply bool_decide_eq_false in H1, H2. tauto. }
  unfold lift. unfold mbind at 1, M_bind at 1. destruct (layer_mode_of (h_layer_mode h)) as [lm|e] eqn:Hlm.
  2: { split; [intros []; congruence|]. split; [|by left]. left. unfold layer_mode_of in Hlm. repeat case_bool_decide; congruence. }
  destruct (decide (lm = mode)) as [->|Hne].
  2: { rewrite bool_decide_eq_false_2 by done. cbn [negb]. split; [intros []; congruence|]. split; [right; by split|by left]. }
  rewrite (bool_decide_eq_true_2 (mode = mode)) by done. cbn [negb].
  destruct (bool_decide (h_role h = "emitter") && missing_producer h) eqn:Hp.
  { apply andb_prop in Hp as [Hp1 Hp2]. apply bool_decide_eq_true in Hp1. split; [|split; [right; by split|by left]]. intros [_ _ _ Hx _ _ _]. rewrite Hx in Hp2; done. }
  destruct (bool_decide (mode = SHARED_STAGE) && (h_layered_replay h || negb (falsy (h_department h)))) eqn:Hs.
  { apply andb_prop in Hs as [Hs1 Hs2]. apply bool_decide_eq_true in Hs1. split; [|split; [right; by split|by left]]. intros [_ _ _ _ Hx _ _]. destruct (Hx Hs1) as [Hx1 Hx2]. rewrite Hx1, Hx2 in Hs2. done. }
  assert (forall P1 : Prop, (P1 -> (h_role h = "emitter" -> missing_producer h = false) /\ (mode = SHARED_STAGE -> h_layered_replay h = false /\ falsy (h_department h) = true))) as Hok.
  { intros P1 _. split.
    - intros He. rewrite bool_decide_eq_true_2 in Hp by done. exact Hp.
    - intros Hm. rewrite bool_decide_eq_true_2 in Hs by done. cbn in Hs. apply orb_false_iff in Hs as [? Hs]. split; [done|]. by apply negb_false_iff. }
  specialize (Hok True I) as [Hok1 Hok2].
  assert (h_role h = "emitter" \/ h_role h = "receiver") as Hrole'.
  { apply orb_true_iff in Hrole as [Hr%bool_decide_eq_true|Hr%bool_decide_eq_true]; [by left|by right]. }
  match goal with |- context [mbind ?k (if ?b then ?x else ?y)] => set (auth := k); set (flat := b); set (res := x) end.
  assert (forall s1, sv_tokens s1 = sv_tokens s -> sv_clients s1 = sv_clients s -> sv_receivers s1 = sv_receivers s -> sv_playback s1 = sv_playback s -> sv_broadcasts s1 = sv_broadcasts s ->
    (h_role h = "receiver" -> mode = MANAGED -> exists reason, (reserve_mode (h_layered_replay h) (sv_policy s)).2 = Ok (true, reason)) ->
    match auth true s1 with
    | (s', Ok (Welcomed ok)) => admissible now h s /\
        sv_clients s' = sv_clients s /\ sv_receivers s' = sv_receivers s /\ sv_playback s' = sv_playback s /\ sv_broadcasts s' = sv_broadcasts s
    | (s', r) => ~ admissible now h s /\ r = Ok AuthRejected /\ s' = s1
    end) as Hauth.
  { intros s1 Ht Hc Hr Hpb Hb Hrp. unfold auth. cbn [negb]. unfold on_tokens. unfold mbind, M_bind. rewrite Ht.
    pose proof (refused_tokens now (mk_credentials (h_client_id h) (h_token h) (h_department h)) (sv_tokens s)) as Hrt.
    destruct (authenticate _ _ _ _ (sv_tokens s)) as [st [acc iss]] eqn:Ea; cbn in Hrt |- *. destruct acc; cbn.
    - split; [|done]. split; try done. by rewrite Ea.
    - rewrite (Hrt eq_refl). split; [intros []; by rewrite Ea in *|]. split; [done|]. unfold set_tokens. rewrite <-Ht. by destruct s1. }
  destruct flat eqn:Hf; unfold flat in Hf.
  - apply andb_prop in Hf as [Hf1 Hf2]. apply bool_decide_eq_true in Hf1, Hf2. pose proof (reserve_refused (h_layered_replay h) (sv_policy s) Hinv) as Hres'.
    unfold mbind at 1, M_bind at 1. unfold res. unfold on_policy, zoom. unfold mbind at 1, M_bind at 1. destruct (reserve_mode (h_layered_replay h) (sv_policy s)) as [p' [[accepted reason]|e]] eqn:Er; [|done].
    destruct accepted.
    + unfold mbind, M_bind, modify, mret, M_ret. cbn zeta. set (s1 := set_reserved _ _).
      specialize (Hauth s1 eq_refl eq_refl eq_refl eq_refl eq_refl). cbn zeta in Hauth.
      assert (match auth true s1 with
        | (s', Ok (Welcomed ok)) => admissible now h s /\
            sv_clients s' = sv_clients s /\ sv_receivers s' = sv_receivers s /\ sv_playback s' = sv_playback s /\ sv_broadcasts s' = sv_broadcasts s
        | (s', r) => ~ admissible now h s /\ r = Ok AuthRejected /\ s' = s1
        end) as Ha by (apply Hauth; intros _ _; by exists reason).
      destruct (auth true s1) as [s' [[| | |ok]|e]]; [| | |exact Ha|]; destruct Ha as (Ha1 & Ha2 & ->); try discriminate Ha2; (split; [done|]; split; [right; by split|right; exists (h_layered_replay h), p'; by split]).
    + subst p'. unfold mbind, M_bind, mret, M_ret. cbn zeta. unfold auth. cbn [negb]. assert (set_policy (sv_policy s) s = s) as -> by (by destruct s). unfold mret, M_ret. split; [|split; [right; by split|by left]].
      intros [_ _ _ _ _ Hx _]. destruct (Hx Hf1 Hf2) as [rs Hx']. by rewrite Er in Hx'.
  - unfold mbind at 1, M_bind at 1, mret at 1, M_ret at 1. specialize (Hauth s eq_refl eq_refl eq_refl eq_refl eq_refl).
    assert (h_role h = "receiver" -> mode = MANAGED -> exists reason, (reserve_mode (h_layered_replay h) (sv_policy s)).2 = Ok (true, reason)) as Hrp.
    { intros Hr Hm. rewrite !bool_decide_eq_true_2 in Hf by done. done. }
    specialize (Hauth Hrp). destruct (auth true s) as [s' [[| | |ok]|e]]; [| | |exact Hauth|]; destruct Hauth as (Ha1 & Ha2 & ->); try discriminate Ha2; (split; [done|]; split; [right; by split|by left]).
Qed.

(** Admission decides exactly what it should: a connection is admitted if and
    only if its hello is of this protocol version, names a known role and the
    server's layer mode, carries the ids a producer needs, asks for no department
    routing in shared-stage mode, can be served in its replay mode, and
    authenticates. *)
Theorem admission_decides conn now h s : policy_inv (sv_policy s) -> sv_reserved s !! conn = None ->
  (exists ok, (admit_connection conn now (Hello h) s).2 = Ok (Welcomed ok)) <-> admissible now h s.
Proof.
  intros Hinv Hres. pose proof (admit_spec conn now h s Hinv Hres) as Ha. destruct (admit_connection conn now (Hello h) s) as [s' [[| | |ok]|e]]; cbn;
    (split; [intros [ok' Hk]; try discriminate Hk; by apply Ha|intros Had; try (by destruct Ha as [Ha _])]). by exists ok.
Qed.

(** C30: A connection that is not admitted, whatever its first message was, leaves the
    server exactly as it found it: no registration, no token, no playback change, and
    the replay mode it may have reserved is given back. *)
Theorem refused_connection_leaves_no_trace conn now address first delivered body s :
  policy_inv (sv_policy s) -> sv_reserved s !! conn = None -> (forall h, first = Hello h -> ~ admissible now h s) ->
  (connection conn now address first delivered body s).1 = s.
Proof.
  intros Hinv Hres Hfirst. unfold connection, handle. destruct first as [| |h].
  1, 2: unfold finish, mbind, M_bind, mret, M_ret; cbn; by rewrite Hres.
  specialize (Hfirst h eq_refl). pose proof (admit_spec conn now h s Hinv Hres) as Ha. unfold mbind at 1, M_bind at 1.
  assert (forall s', (s' = s \/ exists layered p, s' = set_reserved (<[conn := layered]> (sv_reserved s)) (set_policy p s) /\ release_mode layered p = (sv_policy s, Ok ())) ->
    (finish conn s') = (s, Ok ())) as Hfin.
  { intros s' [->|(layered & p & -> & Hrel)]; unfold finish; [by rewrite Hres|]. cbn. rewrite lookup_insert_eq. unfold on_policy, zoom. cbn. rewrite Hrel.
    rewrite delete_insert_id by done. unfold set_policy, set_reserved. cbn. by destruct s. }
  destruct (admit_connection conn now (Hello h) s) as [s' [[| | |ok]|e]]; [| | |by destruct Ha|]; destruct Ha as (_ & _ & Ha); unfold mret, M_ret; by rewrite (Hfin s' Ha).
Qed.

Lemma leave_clean conn address h s :
  sv_clients (leave conn address h s) !! address = None /\ conn ∉ sv_receivers (leave conn address h s) /\
  sv_reserved (leave conn address h s) = sv_reserved s /\ sv_policy (leave conn address h s) = sv_policy s /\
  (forall client_id, present (h_client_id h) = Some client_id -> leader (sv_playback (leave conn address h s)) <> Some client_id).
Proof.
  unfold leave. destruct (release _ _) as [p released] eqn:Er. cbn. split; [by rewrite lookup_delete_eq|]. split; [set_solver|]. split; [done|]. split; [done|].
  intros c Hc. assert (default "" (h_client_id h) = c /\ c <> "") as [Hd Hne] by (destruct (h_client_id h) as [[]|]; by simplify_eq/=).
  unfold release in Er. cbn in Er. rewrite Hd, bool_decide_eq_false_2 in Er by done. case_bool_decide as Hl; injection Er as <- <-; [done|]. done.
Qed.

(** C31: However an admitted connection ends, be it that its replay, its reads or the
    choice of its layer raise, it leaves nothing behind: it is no client and no
    receiver any more, it does not lead the playback and holds no reservation. *)
Theorem connection_leaves_nothing_behind conn now address h delivered body s :
  policy_inv (sv_policy s) -> sv_reserved s !! conn = None -> admissible now h s ->
  (h_role h = "emitter" -> delivered = true) ->
  let s' := (connection conn now address (Hello h) delivered body s).1 in
  sv_clients s' !! address = None /\ conn ∉ sv_receivers s' /\ sv_reserved s' !! conn = None /\
  (forall client_id, present (h_client_id h) = Some client_id -> leader (sv_playback s') <> Some client_id).
Proof.
  intros Hinv Hres Had Hdel.
  assert (exists s2, (connection conn now address (Hello h) delivered body s).1 = (finish conn (leave conn address h s2)).1) as [s2 ->].
  { unfold connection, handle. unfold mbind at 1, M_bind at 1. pose proof (admit_spec conn now h s Hinv Hres) as Ha.
    destruct (admit_connection conn now (Hello h) s) as [s1 [[| | |ok]|e]]; [by destruct Ha as [Ha _]..| |by destruct Ha as [Ha _]].
    unfold mbind at 1, M_bind at 1. unfold serve. assert (bool_decide (h_role h = "emitter") && negb delivered = false) as ->.
    { case_bool_decide; [by rewrite Hdel|done]. }
    unfold modify. unfold mbind at 1, M_bind at 1. unfold finally.
    match goal with |- context [let '(_, _) := ?m ?x in (leave conn address h _, _)] => destruct (m x) as [s2 r2] end. exists s2.
    destruct r2 as [[]|e]; unfold mret, M_ret; by destruct (finish conn (leave conn address h s2)) as [s4 [[]|e']]. }
  pose proof (leave_clean conn address h s2) as (L1 & L2 & L3 & L4 & L5). set (s3 := leave conn address h s2) in *. cbn zeta.
  unfold finish. destruct (sv_reserved s3 !! conn) as [layered|] eqn:E3; [|done]. unfold on_policy, zoom. destruct (release_mode layered _) as [p r]. cbn.
  split; [done|]. split; [done|]. split; [by rewrite lookup_delete_eq|done].
Qed.
End admission.

(** ** The collaboration policy *)

Section policy.
Context {V L R Offset C : Type} `{SdfTraversal V L} `{EqDecision Offset} (identity : Offset).
Context `{UsdApply (stage (L := L) (R := R) (Offset := Offset)) C}.
(** the identifier of the next anonymous layer *)
Context (next_layer : policy (L := L) (R := R) (Offset := Offset) (C := C) -> string).

Lemma collaboration_reserve layered (p : policy (L := L) (R := R) (Offset := Offset) (C := C)) : policy_ok identity p ->
  match reserve_receiver_replay_mode layered p with
  | (p', Ok (accepted, _)) => if (accepted : bool) then release_receiver_replay_mode layered p' = (p, Ok ()) else p' = p
  | (_, Err _) => False
  end.
Proof.
  intros Hp. unfold reserve_receiver_replay_mode. destruct layered; [done|].
  destruct (rejection_reason_run identity p (pol_base _ _ Hp)) as (reason & E1 & _). unfold mbind, M_bind. rewrite E1. cbn. destruct (bool_decide (reason <> "")); [done|].
  unfold release_receiver_replay_mode, gets, modify, mbind, M_bind, mret, M_ret. cbn. pose proof (pol_count _ _ Hp) as Hc.
  destruct (Z.leb_spec (flat_receiver_count p + 1) 0); [lia|]. unfold set_count. cbn. rewrite Z.add_simpl_r. by destruct p.
Qed.

#[export] Instance collaboration_policy : ReplayPolicy (policy (L := L) (R := R) (Offset := Offset) (C := C)) := {
  policy_inv := policy_ok identity;
  reserve_mode := reserve_receiver_replay_mode;
  release_mode := release_receiver_replay_mode;
  assign_layer c d := fun p => get_or_create_client_layer identity c d (next_layer p) p;
  has_priority p := match department_priority p with [] => false | _ => true end;
  reserve_refused layered p := collaboration_reserve layered p;
}.
End policy.

(** ** Witnesses *)

#[local] Instance demo_replay_policy : ReplayPolicy demo_policy_t := collaboration_policy 0%Z (fun _ => "anon:next").
Abbreviation demo_server_t := (server (P := demo_policy_t)).
Definition demo_tokens : token_store := mk_token_store {["alice" := mk_token_row "token-0" None 0 0]} 1.
Definition demo_server : demo_server_t := mk_server demo_policy demo_tokens ∅ ∅ playback_init ∅ [].
Definition demo_hello (role : string) (t : option string) : hello :=
  mk_hello role 13 (Some "alice") None None false "managed" t "session".
Abbreviation demo_admit := (admit_connection demo_token (fun _ _ => 0%Z) MANAGED true).
Abbreviation demo_connection := (connection demo_token (fun _ _ => 0%Z) MANAGED true).

Lemma demo_server_inv : policy_inv (sv_policy demo_server).
Proof. apply demo_policy_ok. Qed.

Lemma demo_admissible : admissible demo_token MANAGED true 0 (demo_hello "receiver" (Some "token-0")) demo_server.
Proof. split; try done; [by right|by exists ""]. Qed.

Lemma demo_not_admissible : ~ admissible demo_token MANAGED true 0 (demo_hello "receiver" (Some "guess")) demo_server.
Proof. intros [_ _ _ _ _ _ Ht]. vm_compute in Ht. discriminate. Qed.

Lemma admission_decides_witness : exists ok, (demo_admit 1 0 (Hello (demo_hello "receiver" (Some "token-0"))) demo_server).2 = Ok (Welcomed ok).
Proof. apply (admission_decides demo_token (fun _ _ => 0%Z) MANAGED true 1 0 (demo_hello "receiver" (Some "token-0")) demo_server demo_server_inv eq_refl). apply demo_admissible. Defined.

(** A receiver with a wrong token reserves its replay mode first. *)
Lemma refused_connection_leaves_no_trace_witness :
  let c := demo_connection 1 0 "1.2.3.4:5" (Hello (demo_hello "receiver" (Some "guess"))) true (fun _ => mret ()) demo_server in
  c.2 = Ok AuthRejected /\ c.1 = demo_server.
Proof.
  split; [vm_compute; reflexivity|].
  apply (refused_connection_leaves_no_trace demo_token (fun _ _ => 0%Z) MANAGED true 1 0 "1.2.3.4:5" _ true _ demo_server demo_server_inv eq_refl).
  intros h [= <-]. apply demo_not_admissible.
Defined.

(** It claims the playback and its reads raise. *)
Lemma connection_leaves_nothing_behind_witness :
  let body : option string -> M demo_server_t unit := fun _ s =>
    (set_receivers {[1]} (set_playback (claim "alice" None (sv_playback s)).1 [] s), Err OSError) in
  let s := (demo_connection 1 0 "1.2.3.4:5" (Hello (demo_hello "receiver" (Some "token-0"))) true body demo_server).1 in
  sv_clients s !! "1.2.3.4:5" = None /\ (1 ∉ sv_receivers s) /\ sv_reserved s !! 1 = None /\ leader (sv_playback s) <> Some "alice".
Proof.
  intros body.
  destruct (connection_leaves_nothing_behind demo_token (fun _ _ => 0%Z) MANAGED true 1 0 "1.2.3.4:5" (demo_hello "receiver" (Some "token-0")) true body demo_server
    demo_server_inv eq_refl demo_admissible ltac:(by intros ?)) as (K1 & K2 & K3 & K4).
  split; [exact K1|]. split; [exact K2|]. split; [exact K3|]. by apply K4.
Defined.
